(* ===== verification/_CoqProject ===== *)
-Q . S2P
Prelude.v
GoSort.v
GoStrings.v
Bytes.v
Base64.v
Pools.v
Uuid.v
Hashes.v
ConsistentIndex.v
Readers.v
HostFs.v
Settings.v
Queue.v
Messages.v
RandFile.v
IdxFile.v
Partition.v
PartitionFaults.v
Manager.v
Node.v
Wal.v
WalCodec.v
WalInv.v
WalTrunc.v
WalOpen.v
WalCrash.v
WalRecover.v
WalSpec.v
Journal.v
Cluster.v
ClusterSpec.v
Network.v
Loops.v
MemDB.v
Backend.v
Storage.v
StorageSpec.v
NodesMap.v
NodesSpec.v
Registry.v
Handlers.v
Upload.v
UploadOrder.v
RegistrySpec.v
Followers.v
TreeSpec.v
PutGet.v
FileStore.v
Auth.v
Api.v
Discovery.v
Cli.v
Daemon.v
Servers.v
