(* ===== verification/Prelude.v ===== *)
(** * Rhosus: a distributed file storage, verified in Rocq

    Rhosus keeps files as blocks on data nodes and their metadata in a cluster of
    registries.  A data node ([src/rhosus/node]) stores blocks of two megabytes in
    partitions of 512 slots, each with an index file, behind a sink that collects
    writes.  A registry ([src/rhosus/registry]) takes http requests ([src/rhosus/api])
    that carry a token ([src/rhosus/auth]).  It sends the blocks of an upload to data
    nodes that it finds in etcd, keeps where they went in its [storage], journals
    every change of metadata in a write ahead log, and replicates the entries to the
    other registries of its [cluster], which apply them to theirs.

    This library translates that code into Rocq definitions, function by function,
    and proves what they promise.  A Go function becomes a function to [result]
    (value, error or panic), a method that changes its receiver a computation of the
    state monad [M] (below): what was assigned before an early return stays
    assigned.  Slices and byte buffers are lists with the run-time's bounds checks,
    machine integers are integers with their wrap-around written out, maps are
    [gmap], and the order in which Go ranges over a map, the random source, the file
    system calls that fail and the answers of the network are arguments.

    ** Files

    - [Prelude]: outcomes, the state monad with its judgement [runs], machine
      integers, slices, strings.
    - [Bytes] ([util/bytes.go], and the varints of [encoding/binary]): byte order
      conversions and their round trips.
    - [Base64] ([util/bytes.go]): base 64 with its round trip; [GoStrings]
      ([util/fullpath.go], Go's [strings] and UTF-8): paths; [GoSort]: [sort.Slice] by
      a comparison that may panic, and the sorted permutation it gives; [Hashes] (the
      rest of [util/bytes.go]): MD5 and what is made of its digests.
    - [ConsistentIndex] ([util/consistent_index.go]): the hash of a key and its jumps
      through the nodes, with float64 numbers rounded as IEEE 754 does.
    - [Readers] ([util/ioutil], [util/crc]): exact and limited readers, checksums.
    - [Pools] ([util/tickers], [util/timers]): what their pools hand out.
    - [Uuid] ([util/uuid]): text and binary forms, versions and variants, parsing.
    - [HostFs] ([util/file.go], the identity files of both programs): the file system
      of a host with its failures.  [Settings] ([cmd/rhosusr/root.go],
      [cmd/rhosusd/root.go]): flags, environment and defaults over the class [Viper].
    - [Queue] ([util/queue/queue.go]): the ring buffer against a FIFO specification.
    - [Messages] ([pb]): the protobuf structs, and [Codec], the class of their
      generated marshalling with its round trip as the only law.
    - [RandFile] ([util/fileutil]): files of bytes, preallocation and its fallbacks.
    - [IdxFile] ([node/data/idx_file.go]): the index file of a partition.
    - [Partition] ([node/data/partition.go]): a partition and its sink, against the
      abstract map from identifiers to blocks of the module [PartSpec].
      [PartitionFaults]: the same files when operations fail.
    - [Manager] ([node/data/partitions.go], [node/data/data.go],
      [node/grpc_server.go]): the partitions of a node and the block handlers.
      [Node] ([node/node.go], [profiler]): the metrics of a node, its requests, and what
      its shutdown does to the blocks that wait.
    - [Wal] ([registry/wal/wal.go]): the write ahead log, every method; segments are
      behind locations of a heap because the segment list and the cache share them.
      [WalCodec] (names and entries), [WalInv] (the invariant [winv] and the reading
      and writing methods), [WalTrunc] (truncation), [WalOpen] (opening), [WalCrash]
      (every death of a truncation) and [WalRecover] (recovery from interrupted
      truncations, and its own deaths) hold the lemmas; [WalSpec] the abstract log and
      the theorems.
    - [Journal]: what the cluster asks of a journal, as a class of operations and a
      class of laws; the write ahead log is an instance.
    - [Cluster] ([registry/cluster]): elections, votes, append entries, replication,
      recovery of peers, the write pipeline; [ClusterSpec] its theorems.  [Network]: one
      leader and its followers over a network that loses requests and responses, as a
      step relation with its invariant.  [Loops]: the two loops of a registry with their
      timers, as events on a clock.
    - [MemDB] and [Backend]: the tables in memory and BoltDB as classes with laws and
      instances, and [registry/storage/backend_file.go].  [Storage]
      ([registry/storage]): files, blocks, roles, tokens, policies; [StorageSpec] the
      abstract metadata [meta] and the refinement.
    - [NodesMap] ([registry/nodes_map.go], [registry/transport.go]): the data nodes a
      registry knows, their answers being the class [DataNodes].  [NodesSpec]: the
      laws the registry relies on, the processes of [Node] as an instance, and the
      choice of nodes by their heartbeats.
    - [Registry] ([registry/files.go], [util.go], [policy.go], the entry handler of
      [registry.go]), [Handlers] ([sys_handlers.go], [file_handlers.go]) and [Upload]
      (the upload of [file_handlers.go], its goroutines as events of a schedule);
      [UploadOrder] has the schedules that keep the blocks apart.
      [RegistrySpec] (leader and followers), [Followers] (the same over the network of
      [Network]), [TreeSpec] (the tree of the files) and [PutGet] (blocks to the data
      nodes and back) hold their theorems; [FileStore] joins them: the registry and its
      data nodes as a map from paths to bytes.
    - [Auth] ([src/rhosus/auth]): roles, login, tokens.  [Api] ([src/rhosus/api]): the
      handlers, the middleware, the routes.
    - [Discovery] ([etcd/client.go], [registry/registry.go]): the start of a registry
      and the events of etcd.
    - [Cli] ([cmd/rhosus]): the commands of the client.  [Daemon] ([cmd/rhosusd],
      [cmd/rhosusr], [node/node.go]): the start of both processes from their settings
      to their records in etcd, and their ends by signals.  [Servers]
      ([node/grpc_server.go], [registry/cluster/server.go], [api/api.go]): the ports they
      listen on, beside the goroutines that register and shut down.

    ** What the theorems show

    - Contracts: the log refines an abstract list of entries over every sequence of
      operations and restarts ([WalSpec.wal_refines_log]); a partition refines a
      finite map over writes, reads, removals and reopening
      ([Partition.partition_refines_map]); the queue refines a FIFO
      ([Queue.queue_refines_fifo]); the storage is a write-through cache of five
      tables that survives restarts ([StorageSpec.storage_refines_tables]); the map of
      nodes follows the directory in etcd ([Discovery.nodes_map_follows_etcd]).
    - Metadata: after any accepted requests the followers hold exactly the leader's
      metadata ([RegistrySpec.followers_hold_the_same_metadata]), and while calls are
      lost and followers restart, each holds metadata that the leader had before
      ([Followers.followers_hold_earlier_metadata]); the files form a
      tree ([TreeSpec.file_tree_invariant]), and the recursion that removes a
      directory ends ([TreeSpec.killChildren_terminates]).
    - Files: the nodes with the least blocks on their disks are chosen
      ([NodesSpec.emptiest_nodes_are_chosen]), blocks go to the least used nodes, come
      back in the order of their indexes ([PutGet.blocks_go_to_the_least_used],
      [PutGet.download_in_index_order]).  Every schedule of an upload accounts for its
      bytes ([Upload.upload_accounts_for_every_byte]); one that keeps the blocks apart
      exists for every body and stages exactly that body
      ([UploadOrder.orderly_uploads_stage_the_body]), and the file is then read back
      exactly, after a restart of the registry as well
      ([PutGet.uploads_survive_restarts]; a body below one block needs no such
      schedule, [PutGet.put_then_get]).  Over any sequence of uploads, downloads,
      removals, other requests and restarts the store is a map from paths to bytes
      ([FileStore.store_of_files]).
    - Placement by hash: the consistent index ends below the number of nodes, and new
      nodes take keys only for themselves ([ConsistentIndex.only_new_nodes_take_keys]).
    - Access: a request reaches its handler exactly with a stored token that is not
      taken for expired ([Api.token_guards_every_request]), and a login checks the
      password ([Auth.login_checks_the_password]).
    - Durability: a crash at any point of a truncation, and any number of failures or
      crashes of the recovery after it, leave the old or the new log
      ([WalSpec.truncations_survive_crashes]); a write to a
      partition that fails or dies keeps every block, and each new one whole or not at all
      ([PartitionFaults.writes_survive_failures]); blocks flushed from the sink
      survive a restart ([Partition.sink_flush_durable], [Manager.node_restart]).
    - Replication, through the journal's interface only: one round of
      [dispatchEntries] brings a follower level ([ClusterSpec.dispatch_catches_up]); over
      a lossy network every follower's journal stays a prefix of the leader's
      ([Network.followers_hold_prefixes]), and a round that is delivered brings it level
      but for one gap ([Network.delivered_round_catches_up]).  A registry that hears its
      leader starts no election ([Loops.elections_only_in_silence]), and one that is
      shut down ends its loops ([Loops.loops_end_after_shutdown]), though it may start
      one more election before.
    - Processes: a data node that starts again keeps its identifier and its record
      ([Daemon.restarted_node_keeps_its_record], [HostFs.identity_survives_restarts]),
      a registry that starts again has its identifier, metadata, log, term, peers and
      data nodes back ([Daemon.restarted_registry_recovers]),
      signals end it and close its partitions ([Daemon.terminated_node_exits]); the
      addresses of the registry ([Settings.registry_addresses]).
    - Failures the code does not survive, each proved on the translated code: a torn
      write makes the log unopenable, a failed write is read back after its retry,
      two nodes lead the same term, a pipeline that stops for good, a lost entry, a
      removal that erases another record, one that stops within a record, a full sink that drops blocks; a directory
      that stays after its removal, full blocks of an upload that overwrite each
      other, an upload that waits for ever, a policy kept twice, a failed write that
      stays in memory; a token that outlives its time to live, and one for anyone; an
      entry that a follower stores twice, acknowledged blocks that a shutdown throws
      away, a node that cannot leave and looks empty, a registry that a second signal
      crashes, flags that have no effect; a registry that takes its own address, a
      shutdown that its server turns into a failure, a node that leaves a record
      without having served.

    ** Bounds and fuel

    Loops of the code that are not structural take fuel: the number of records of
    an index file plus one for its [Load], the length of the data for the entries of
    a segment, the number of segments for the binary search, the number of flag
    combinations for [preallocFixed], the number of nodes for [ConsistentIndex], and for
    [killChildren] one more than the longest chain of parents, which no tree exceeds.  The theorems prove results, not results up to
    fuel: running out is a panic or [None], which they exclude.  Theorems about the
    log assume indexes below 2^64 and entries shorter than 2^64 bytes, as the types
    of the code do.

    ** What is not modelled

    Goroutines are computations whose interleaving the theorem chooses; locks have no
    counterpart, and timers only in [Loops].  Third-party code is a class or a parameter: memdb,
    BoltDB, the LRU cache, protobuf's and JSON's marshalling, bcrypt, gorilla's mux,
    etcd, viper, gopsutil, the gRPC clients.  Logging, help texts, headers and CORS and
    the random names are left out, and so is the JSON encoding of log entries, which
    nothing calls and whose escapes depend on the version of Go. *)

From Stdlib Require Export ZArith Lia Ascii String.
From stdpp Require Export base tactics list gmap strings sorting fin_maps.

Declare Scope rhosus_scope.
Delimit Scope rhosus_scope with rhosus.
#[global] Open Scope Z_scope.
#[global] Open Scope rhosus_scope.

(** ** Outcomes of Go functions

    A Go function of the program ends in one of three ways: it returns its
    value, it returns a non-nil [error], or it panics (an index out of range, a
    nil dereference, an explicit [panic]). *)

Inductive result (E A : Type) : Type :=
| Ok (a : A)
| Err (e : E)
| Panic.
Arguments Ok {E A} a.
Arguments Err {E A} e.
Arguments Panic {E A}.

#[export] Instance result_eq_dec {E A} `{EqDecision E, EqDecision A} : EqDecision (result E A).
Proof. solve_decision. Defined.

#[export] Instance result_ret {E} : MRet (result E) := λ A a, Ok a.
#[export] Instance result_bind {E} : MBind (result E) := λ A B f m,
  match m with Ok a => f a | Err e => Err e | Panic => Panic end.

Definition of_option {E A} (o : option A) (r : result E A) : result E A :=
  match o with Some a => Ok a | None => r end.

(** ** Stateful functions

    [M S E A] is a function that reads and updates a state [S] and ends with an
    outcome.  The state survives an error: what a Go method has assigned before
    an early [return err] stays assigned. *)

Definition M (S E A : Type) : Type := S → result E A * S.

#[export] Instance M_ret {S E} : MRet (M S E) := λ A a s, (Ok a, s).
#[export] Instance M_bind {S E} : MBind (M S E) := λ A B f m s,
  match m s with
  | (Ok a, s') => f a s'
  | (Err e, s') => (Err e, s')
  | (Panic, s') => (Panic, s')
  end.

Section monad_ops.
Context {S E : Type}.

Definition fail {A} (e : E) : M S E A := λ s, (Err e, s).
Definition panic {A} : M S E A := λ s, (Panic, s).
Definition get : M S E S := λ s, (Ok s, s).
Definition gets {A} (f : S → A) : M S E A := λ s, (Ok (f s), s).
Definition modify (f : S → S) : M S E unit := λ s, (Ok tt, f s).
Definition lift {A} (r : result E A) : M S E A := λ s, (r, s).
Definition from_option {A} (o : option A) : M S E A := lift (of_option o Panic).
(** [if cond { return e }] *)
Definition guard_err (b : bool) (e : E) : M S E unit := if b then fail e else mret tt.
(** the error of a call is discarded, its effect stays *)
Definition ignore_err {A} (m : M S E A) : M S E unit := λ s,
  match m s with
  | (Ok _, s') | (Err _, s') => (Ok tt, s')
  | (Panic, s') => (Panic, s')
  end.

(** [for _, x := range l { body }] where the body may return early *)
Fixpoint for_each {A} (l : list A) (body : A → M S E unit) : M S E unit :=
  match l with
  | [] => mret tt
  | x :: l' => body x ≫= λ _, for_each l' body
  end.

Lemma bind_ok {A B} (m : M S E A) (k : A → M S E B) s a s' :
  m s = (Ok a, s') → (m ≫= k) s = k a s'.
Proof. unfold mbind, M_bind. by intros ->. Qed.

Lemma bind_err {A B} (m : M S E A) (k : A → M S E B) s e s' :
  m s = (Err e, s') → (m ≫= k) s = (Err e, s').
Proof. unfold mbind, M_bind. by intros ->. Qed.

Lemma bind_assoc {A B C} (m : M S E A) (f : A → M S E B) (g : B → M S E C) s :
  ((m ≫= f) ≫= g) s = (m ≫= λ a, f a ≫= g) s.
Proof. unfold mbind, M_bind. by destruct (m s) as [[a|e|] s']. Qed.

Lemma for_each_app {A} (l1 l2 : list A) body s :
  for_each (l1 ++ l2) body s = (for_each l1 body ≫= λ _, for_each l2 body) s.
Proof.
  revert s. induction l1 as [|x l1 IH]; intros s; [done|].
  simpl. rewrite bind_assoc. unfold mbind at 1 2, M_bind at 1 2.
  destruct (body x s) as [[[]|e|] s']; [apply IH|done..].
Qed.

(** a loop preserves what each iteration preserves *)
Lemma for_each_inv {A} (P : S → Prop) (l : list A) body s :
  (∀ x s, x ∈ l → P s → P (body x s).2) → P s → P (for_each l body s).2.
Proof.
  intros Hb. revert s. induction l as [|x l IH]; intros s Hs; [done|].
  simpl. unfold mbind, M_bind.
  pose proof (Hb x s ltac:(set_solver) Hs) as Hx.
  destruct (body x s) as [[[]|e|] s'] eqn:?; simpl in *; [|done..].
  apply IH; [|done]. intros y t Hy. apply Hb. set_solver.
Qed.
End monad_ops.

(** [runs m s Q]: started in [s], [m] returns a value and a state that satisfy [Q] *)
Definition runs {S E A} (m : M S E A) (s : S) (Q : A → S → Prop) : Prop :=
  match m s with (Ok a, s') => Q a s' | _ => False end.

Section runs_rules.
Context {S E : Type}.

Lemma runs_elim {A} (m : M S E A) s Q : runs m s Q → ∃ a s', m s = (Ok a, s') ∧ Q a s'.
Proof. unfold runs. destruct (m s) as [[a|e|] s'] eqn:E'; [|done..]. intros H. by exists a, s'. Qed.

Lemma runs_intro {A} (m : M S E A) s Q a s' : m s = (Ok a, s') → Q a s' → runs m s Q.
Proof. unfold runs. by intros ->. Qed.

Lemma runs_mono {A} (m : M S E A) s (Q Q' : A → S → Prop) :
  runs m s Q → (∀ a s', Q a s' → Q' a s') → runs m s Q'.
Proof. intros (a & s' & E' & H)%runs_elim HQ. eapply runs_intro; eauto. Qed.

Lemma runs_bind {A B} (m : M S E A) (k : A → M S E B) s Q :
  runs m s (λ a s', runs (k a) s' Q) → runs (m ≫= k) s Q.
Proof. unfold runs, mbind, M_bind. by destruct (m s) as [[a|e|] s']. Qed.

Lemma runs_ret {A} (a : A) s (Q : A → S → Prop) : Q a s → runs (mret a : M S E A) s Q.
Proof. done. Qed.
Lemma runs_get s (Q : S → S → Prop) : Q s s → runs (get : M S E S) s Q.
Proof. done. Qed.
Lemma runs_modify f s (Q : unit → S → Prop) : Q tt (f s) → runs (modify f : M S E unit) s Q.
Proof. done. Qed.
Lemma runs_from_option {A} (o : option A) a s (Q : A → S → Prop) :
  o = Some a → Q a s → runs (from_option o : M S E A) s Q.
Proof. by intros ->. Qed.

(** a computation followed by another, given what the first one does *)
Lemma runs_seq {A B} (m : M S E A) (k : A → M S E B) s P Q :
  runs m s P → (∀ a s', P a s' → runs (k a) s' Q) → runs (m ≫= k) s Q.
Proof. intros H Hk. apply runs_bind. by eapply runs_mono. Qed.
End runs_rules.

Create HintDb rhosus.
Create Rewrite HintDb rhosus_rw.

(** membership in a list that is written out *)
Ltac in_schema := repeat (apply list_elem_of_here || apply list_elem_of_further).

(** [run_monad] pushes a state through the primitive operations. *)
Ltac run_monad :=
  unfold mret, M_ret, mbind, M_bind, fail, panic, get, gets, modify, lift,
    guard_err, from_option, of_option in *; simpl in *.

(** [case_match_ok] splits on the outcome of the innermost call. *)
Ltac deex_all :=
  repeat match goal with
  | H : ∃ _, _ |- _ => destruct H
  | H : _ ∧ _ |- _ => destruct H
  | H : (_, _) = (_, _) |- _ => injection H as ?; subst
  | H : Ok _ = Ok _ |- _ => injection H as ?; subst
  | H : Err _ = Err _ |- _ => injection H as ?; subst
  | H : Some _ = Some _ |- _ => injection H as ?; subst
  | H : Ok _ = Err _ |- _ => discriminate
  | H : Err _ = Ok _ |- _ => discriminate
  end.

(** ** Machine integers

    A [uint64] is an integer in [0, 2^64); the operations of the source that can
    leave the range are written with the wrap-around. *)

Definition u64 (x : Z) : Z := x mod 2 ^ 64.
Definition u32 (x : Z) : Z := x mod 2 ^ 32.
Definition u16 (x : Z) : Z := x mod 2 ^ 16.
Definition u8 (x : Z) : Z := x mod 2 ^ 8.
(** conversion to [int] / [int64]: two's complement *)
Definition i64 (x : Z) : Z := (x + 2 ^ 63) mod 2 ^ 64 - 2 ^ 63.
Definition i32 (x : Z) : Z := (x + 2 ^ 31) mod 2 ^ 32 - 2 ^ 31.

Definition in_u64 (x : Z) : Prop := 0 ≤ x < 2 ^ 64.
Definition in_u32 (x : Z) : Prop := 0 ≤ x < 2 ^ 32.
Definition in_byte (x : Z) : Prop := 0 ≤ x < 256.

Lemma u64_small x : in_u64 x → u64 x = x.
Proof. apply Z.mod_small. Qed.
Lemma u32_small x : in_u32 x → u32 x = x.
Proof. apply Z.mod_small. Qed.
Lemma u64_range x : in_u64 (u64 x).
Proof. unfold in_u64, u64. apply Z.mod_pos_bound. lia. Qed.
Lemma u32_range x : in_u32 (u32 x).
Proof. unfold in_u32, u32. apply Z.mod_pos_bound. lia. Qed.
Lemma i64_small x : - 2 ^ 63 ≤ x < 2 ^ 63 → i64 x = x.
Proof. intros. unfold i64. rewrite Z.mod_small; lia. Qed.

#[export] Hint Resolve u64_range u32_range : rhosus.

(** [x | y << n] is [x + y * 2^n] when [x] has only [n] bits. *)
Lemma lor_shiftl_add x y n :
  0 ≤ n → 0 ≤ x < 2 ^ n → Z.lor x (Z.shiftl y n) = x + y * 2 ^ n.
Proof.
  intros Hn Hx. rewrite <- Z.shiftl_mul_pow2 by done.
  enough (Z.land x (Z.shiftl y n) = 0) as E
    by (pose proof (Z.add_lor_land x (Z.shiftl y n)); lia).
  apply Z.bits_inj'. intros i Hi.
  rewrite Z.land_spec, Z.bits_0, Z.shiftl_spec by done.
  destruct (decide (i < n)) as [Hlt|Hge].
  - rewrite (Z.testbit_neg_r y) by lia. apply andb_false_r.
  - rewrite <- (Z.mod_small x (2 ^ n)) by done.
    rewrite Z.mod_pow2_bits_high by lia. done.
Qed.

(** masks of [n] low bits *)
Lemma land_ones_mod x n : 0 ≤ n → Z.land x (2 ^ n - 1) = x mod 2 ^ n.
Proof. intros. rewrite Z.sub_1_r, <- Z.ones_equiv. by apply Z.land_ones. Qed.

(** [len(l)] as an integer *)
Abbreviation lenZ l := (Z.of_nat (length l)).

(** a decidable fact about every integer below a constant, by evaluation *)
Lemma Zrange_forallb (P : Z → bool) (n : Z) :
  forallb P (seqZ 0 n) = true → ∀ x, 0 ≤ x < n → P x = true.
Proof.
  rewrite forallb_forall. intros H x Hx. apply H.
  apply list_elem_of_In, elem_of_seqZ. lia.
Qed.

(** ** Slices

    [slice l a b] is [l[a:b]]: it panics unless [0 <= a <= b <= len(l)]. *)

Definition slice {A} (l : list A) (a b : nat) : option (list A) :=
  if bool_decide (a ≤ b ≤ length l)%nat then Some (take (b - a) (drop a l)) else None.

Lemma slice_app {A} (l1 l2 l3 : list A) :
  slice (l1 ++ l2 ++ l3) (length l1) (length l1 + length l2) = Some l2.
Proof.
  unfold slice. rewrite bool_decide_true by (rewrite !length_app; lia).
  rewrite drop_app_length. f_equal.
  replace (length l1 + length l2 - length l1)%nat with (length l2) by lia.
  apply take_app_length.
Qed.

Lemma slice_length {A} (l l' : list A) a b : slice l a b = Some l' → length l' = (b - a)%nat.
Proof.
  unfold slice. case_bool_decide; [|done]. intros [= <-].
  rewrite length_take, length_drop. lia.
Qed.

Lemma take_elem {A} (l : list A) n x : x ∈ take n l → x ∈ l.
Proof. intros Hx. rewrite <- (take_drop n l). apply elem_of_app. by left. Qed.
Lemma drop_elem {A} (l : list A) n x : x ∈ drop n l → x ∈ l.
Proof. intros Hx. rewrite <- (take_drop n l). apply elem_of_app. by right. Qed.

(** ** Bytes and strings

    A Go string is a sequence of bytes; identifiers and paths are [string]s,
    file contents are lists of bytes (integers in [0, 256)). *)

Definition bytes_of_string (s : string) : list Z :=
  (λ c, Z.of_N (N_of_ascii c)) <$> list_ascii_of_string s.
Definition string_of_bytes (l : list Z) : string :=
  string_of_list_ascii ((λ b, ascii_of_N (Z.to_N b)) <$> l).

Lemma bytes_of_string_range s : Forall in_byte (bytes_of_string s).
Proof.
  unfold bytes_of_string. apply Forall_fmap, Forall_forall. intros c _. simpl.
  pose proof (N_ascii_bounded c). unfold in_byte. lia.
Qed.

Lemma string_of_bytes_of_string s : string_of_bytes (bytes_of_string s) = s.
Proof.
  unfold string_of_bytes, bytes_of_string. rewrite <- list_fmap_compose.
  rewrite <- (string_of_list_ascii_of_string s) at 2. f_equal.
  apply list_eq_Forall2, Forall2_fmap_l, Forall_Forall2_diag, Forall_forall.
  intros c _. simpl. by rewrite N2Z.id, ascii_N_embedding.
Qed.

Lemma bytes_of_string_of_bytes l :
  Forall in_byte l → bytes_of_string (string_of_bytes l) = l.
Proof.
  intros Hl. unfold string_of_bytes, bytes_of_string.
  rewrite list_ascii_of_string_of_list_ascii, <- list_fmap_compose.
  rewrite <- (list_fmap_id l) at 2. apply list_fmap_ext. intros i b Hb.
  pose proof (Forall_lookup_1 _ _ _ _ Hl Hb) as Hr. unfold in_byte in Hr. simpl.
  rewrite N_ascii_embedding by lia. lia.
Qed.

Lemma length_bytes_of_string s : length (bytes_of_string s) = String.length s.
Proof.
  unfold bytes_of_string. rewrite length_fmap.
  induction s as [|c s IH]; simpl; [done|]. by rewrite IH.
Qed.

#[export] Hint Resolve bytes_of_string_range : rhosus.
#[export] Hint Rewrite string_of_bytes_of_string length_bytes_of_string : rhosus_rw.
