(* ===== verification/GoSort.v ===== *)
(** * [sort.Slice]

    The insertion sort that the Go library runs on short slices, with a comparison
    that may panic.  On longer slices the library runs another algorithm; the
    lemmas are the documented contract, that the result is a sorted permutation, and
    that it is unique when the keys are distinct. *)

From S2P Require Import Prelude.

Section sort_slice.
Context {E A : Type} (less : A → A → result E bool).

(** [x] moves left while it is less than its neighbour; the elements before it
    are listed from right to left *)
Fixpoint insert_left (x : A) (before : list A) : result E (list A) :=
  match before with
  | [] => Ok [x]
  | y :: before' =>
      b ← less x y;
      if b : bool then r ← insert_left x before'; Ok (y :: r) else Ok (x :: before)
  end.

Fixpoint sort_from (before l : list A) : result E (list A) :=
  match l with
  | [] => Ok (reverse before)
  | x :: l' => before' ← insert_left x before; sort_from before' l'
  end.

Definition sort_slice (l : list A) : result E (list A) := sort_from [] l.
End sort_slice.

Lemma insert_left_perm {E A} (less : A → A → result E bool) x before r :
  insert_left less x before = Ok r → r ≡ₚ x :: before.
Proof.
  revert r. induction before as [|y before IH]; intros r; cbn; [by intros [= <-]|].
  destruct (less x y) as [[]|e|]; cbn; [|by intros [= <-]|done..].
  destruct (insert_left less x before) as [r'|e|]; [|done..]. cbn. intros [= <-]. rewrite (IH r' eq_refl). constructor.
Qed.

(** comparisons that agree on the elements sort alike *)
Lemma sort_slice_ext {E A} (P : A → Prop) (less less' : A → A → result E bool) l :
  (∀ x y, P x → P y → less x y = less' x y) → Forall P l → sort_slice less l = sort_slice less' l.
Proof.
  intros Hless. assert (∀ x before, P x → Forall P before →
    insert_left less x before = insert_left less' x before) as Hins.
  { intros x before Hx. induction 1 as [|y b Hy Hb IH]; [done|]. cbn. by rewrite Hless, IH. }
  unfold sort_slice. generalize (@Forall_nil_2 A P). generalize (@nil A) as before. intros before Hb Hl. revert before Hb.
  induction Hl as [|x l Hx Hl IH]; intros before Hb; [done|]. cbn.
  rewrite Hins by done. destruct (insert_left less' x before) as [b|e|] eqn:Eb; [|done..]. cbn.
  apply IH. rewrite (insert_left_perm _ _ _ _ Eb). by constructor.
Qed.

(** a comparison of integer keys *)
Definition less_by {E A} (key : A → Z) (x y : A) : result E bool := Ok (key x <? key y).
Definition sort_by {E A} (key : A → Z) (l : list A) : result E (list A) := sort_slice (less_by key) l.

Section sort_by.
Context {E A : Type} (key : A → Z).
Implicit Types (l before : list A).

Definition key_le (x y : A) : Prop := key x ≤ key y.
Definition key_ge (x y : A) : Prop := key y ≤ key x.

Lemma insert_left_ok x before : StronglySorted key_ge before →
  ∃ r, insert_left (E:=E) (less_by key) x before = Ok r ∧ r ≡ₚ x :: before ∧ StronglySorted key_ge r.
Proof.
  induction before as [|y before IH]; intros Hs.
  { exists [x]. split_and!; [done..|]. by repeat constructor. }
  apply StronglySorted_inv in Hs as [Hs Hy]. cbn. unfold mbind, result_bind.
  destruct (Z.ltb_spec (key x) (key y)) as [Hlt|Hge].
  - destruct (IH Hs) as (r & -> & Hr & Hsr). exists (y :: r). split; [done|]. split.
    + rewrite Hr. constructor.
    + constructor; [done|]. rewrite Hr. constructor; [|done]. unfold key_ge. lia.
  - exists (x :: y :: before). split_and!; [done..|]. constructor; [by constructor|].
    constructor; [done|]. eapply Forall_impl; [exact Hy|]. unfold key_ge. intros. lia.
Qed.

Lemma StronglySorted_reverse_ge l : StronglySorted key_ge l → StronglySorted key_le (reverse l).
Proof.
  induction 1 as [|x l Hs IH Hx]; [constructor|]. rewrite reverse_cons.
  apply StronglySorted_app. split_and!; [|done|repeat constructor].
  intros a b Ha ->%list_elem_of_singleton. rewrite elem_of_reverse in Ha.
  rewrite Forall_forall in Hx. exact (Hx a Ha).
Qed.

Lemma sort_from_ok before l : StronglySorted key_ge before →
  ∃ r, sort_from (E:=E) (less_by key) before l = Ok r ∧ r ≡ₚ before ++ l ∧ StronglySorted key_le r.
Proof.
  revert before. induction l as [|x l IH]; intros before Hs; cbn.
  - eexists. split; [done|]. rewrite app_nil_r. split; [apply reverse_Permutation|].
    by apply StronglySorted_reverse_ge.
  - destruct (insert_left_ok x before Hs) as (b' & -> & Hp & Hs').
    destruct (IH b' Hs') as (r & E' & Hr & Hsr). exists r. split; [exact E'|].
    split; [|done]. rewrite Hr, Hp. by rewrite <- Permutation_middle.
Qed.

(** the documented contract of [sort.Slice] *)
Lemma sort_by_ok l : ∃ r, sort_by (E:=E) key l = Ok r ∧ r ≡ₚ l ∧ StronglySorted key_le r.
Proof. apply (sort_from_ok [] l). constructor. Qed.

(** with distinct keys there is only one sorted permutation *)
Lemma sorted_unique l1 l2 : NoDup (key <$> l1) → l1 ≡ₚ l2 →
  StronglySorted key_le l1 → StronglySorted key_le l2 → l1 = l2.
Proof.
  intros Hnd Hp H1 H2. revert l2 Hp H2. induction l1 as [|x l1 IH]; intros l2 Hp H2.
  { symmetry in Hp. by apply Permutation_nil_r in Hp as ->. }
  apply StronglySorted_inv in H1 as [H1 Hx]. apply NoDup_cons in Hnd as [Hni Hnd].
  destruct l2 as [|y l2]; [by apply Permutation_nil_r in Hp|].
  apply StronglySorted_inv in H2 as [H2 Hy].
  assert (x = y) as ->.
  { assert (x ∈ y :: l2) as [->|Hxin]%elem_of_cons by (rewrite <- Hp; set_solver); [done|].
    assert (y ∈ x :: l1) as [->|Hyin]%elem_of_cons by (rewrite Hp; set_solver); [done|].
    rewrite Forall_forall in Hx, Hy. pose proof (Hx _ Hyin). pose proof (Hy _ Hxin).
    unfold key_le in *. exfalso. apply Hni. apply list_elem_of_fmap. exists y. split; [lia|done]. }
  f_equal. apply IH; [done..| |done]. by apply Permutation_cons_inv in Hp.
Qed.
End sort_by.
