(* ===== verification/GoStrings.v ===== *)
(** * The functions of Go's [strings] that paths go through

    [strings.Trim], [strings.Split] and [strings.Join] with the separator ["/"],
    and [util/fullpath.go], which is built on them. *)

From S2P Require Import Prelude.

Local Open Scope string_scope.

Definition slash : ascii := "/".

Fixpoint TrimLeft (s : string) : string :=
  match s with String c s' => if decide (c = slash) then TrimLeft s' else s | "" => "" end.
Fixpoint TrimRight (s : string) : string :=
  match s with
  | "" => ""
  | String c s' =>
      let r := TrimRight s' in
      if decide (c = slash) then match r with "" => "" | _ => String c r end else String c r
  end.
Definition Trim (s : string) : string := TrimRight (TrimLeft s).

Fixpoint Split (s : string) : list string :=
  match s with
  | "" => [""]
  | String c s' =>
      match Split s' with
      | [] => []
      | w :: ws => if decide (c = slash) then "" :: w :: ws else String c w :: ws
      end
  end.

Fixpoint Join (l : list string) : string :=
  match l with
  | [] => ""
  | [w] => w
  | w :: ws => w +:+ String slash (Join ws)
  end.

(** [sPath[:len(sPath)-1]] joined, and [sPath[len(sPath)-1]] *)
Definition parent_path (s : string) : string := Join (take (length (Split s) - 1) (Split s)).
Definition base_name (s : string) : string := default "" (last (Split s)).

Definition has_prefix_slash (s : string) : bool :=
  match s with String c _ => bool_decide (c = slash) | "" => false end.
Definition has_suffix_slash (s : string) : bool :=
  match s with "" => false | _ => bool_decide (Some "" = last (Split s)) end.

(** ** Lemmas *)

Lemma Split_nonempty s : Split s ≠ [].
Proof. induction s as [|c s IH]; [done|]. simpl. destruct (Split s); [done|]. by case_decide. Qed.

Lemma Join_cons w ws : ws ≠ [] → Join (w :: ws) = w +:+ String slash (Join ws).
Proof. by destruct ws. Qed.

Lemma Join_Split s : Join (Split s) = s.
Proof.
  induction s as [|c s IH]; [done|]. simpl. pose proof (Split_nonempty s).
  destruct (Split s) as [|w ws]; [done|]. case_decide as Hc.
  - subst c. rewrite Join_cons by done. by rewrite IH.
  - destruct ws as [|w2 ws]; [by simpl in *; subst|]. rewrite Join_cons by done.
    rewrite Join_cons in IH by done.
    change (String c (w +:+ String slash (Join (w2 :: ws))) = String c s). by rewrite IH.
Qed.

Lemma append_length s t : String.length (s +:+ t) = (String.length s + String.length t)%nat.
Proof. induction s as [|c s IH]; simpl; [done|]. by rewrite IH. Qed.

Lemma append_assoc (s t u : string) : (s +:+ t) +:+ u = s +:+ (t +:+ u).
Proof. induction s as [|c s IH]; [done|]. exact (f_equal (String c) IH). Qed.

Lemma Join_snoc ws w : ws ≠ [] → Join (ws ++ [w]) = Join ws +:+ String slash w.
Proof.
  induction ws as [|w1 ws IH]; [done|]. intros _. destruct ws as [|w2 ws]; [done|].
  rewrite (Join_cons w1 (w2 :: ws)) by done. cbn [app]. rewrite Join_cons by done.
  change (w2 :: ws ++ [w])%list with ((w2 :: ws) ++ [w])%list. rewrite IH by done. symmetry. apply append_assoc.
Qed.

(** a path with a slash is its parent, a slash and its name *)
Lemma path_parent s : (1 < length (Split s))%nat → s = parent_path s +:+ String slash (base_name s).
Proof.
  intros Hl. unfold parent_path, base_name. rewrite <- (Join_Split s) at 1.
  destruct (exists_last (Split_nonempty s)) as (l & w & E). rewrite E in Hl |- *.
  rewrite last_snoc, length_app. cbn [default length].
  replace (length l + 1 - 1)%nat with (length l) by lia. rewrite take_app_length.
  apply Join_snoc. intros ->. cbn in Hl. lia.
Qed.

(** the parent is shorter *)
Lemma parent_shorter s : (1 < length (Split s))%nat → (String.length (parent_path s) < String.length s)%nat.
Proof. intros Hl. rewrite (path_parent s Hl) at 2. rewrite append_length. simpl. lia. Qed.

(** no path begins or ends with a slash after [Trim] *)
Lemma TrimLeft_spec s : match TrimLeft s with String c _ => c ≠ slash | "" => True end.
Proof. induction s as [|c s IH]; simpl; [done|]. by case_decide. Qed.

Lemma TrimRight_head c s : c ≠ slash → ∃ s', TrimRight (String c s) = String c s'.
Proof. intros Hc. simpl. rewrite decide_False by done. eauto. Qed.

Lemma Trim_head s : match Trim s with String c _ => c ≠ slash | "" => True end.
Proof.
  unfold Trim. pose proof (TrimLeft_spec s). destruct (TrimLeft s) as [|c t]; [done|].
  by destruct (TrimRight_head c t) as [s' ->].
Qed.

Lemma TrimRight_idem s : TrimRight (TrimRight s) = TrimRight s.
Proof.
  induction s as [|c s IH]; [done|]. simpl. case_decide as Hc.
  - destruct (TrimRight s) as [|d r] eqn:E; [done|]. simpl in *. rewrite decide_True by done.
    by rewrite IH.
  - simpl. rewrite decide_False by done. by rewrite IH.
Qed.

Lemma TrimLeft_id s : (match s with String c _ => c ≠ slash | "" => True end) → TrimLeft s = s.
Proof. destruct s as [|c s]; [done|]. intros Hc. simpl. by rewrite decide_False. Qed.

Lemma Trim_idem s : Trim (Trim s) = Trim s.
Proof. unfold Trim at 1. rewrite TrimLeft_id by apply Trim_head. apply TrimRight_idem. Qed.

(** ** UTF-8: [unicode/utf8] and [strings.ToValidUTF8] *)

Local Open Scope Z_scope.
Definition in_range (lo hi : Z) (b : option Z) : bool :=
  match b with Some b => (lo <=? b) && (b <=? hi) | None => false end.

(** the length of the rune at the head of the bytes; [None] when none begins there *)
Definition rune_size (s : list Z) : option nat :=
  match s with
  | [] => None
  | b :: t =>
      if b <? 128 then Some 1%nat
      else if in_range 194 223 (Some b) then if in_range 128 191 (t !! 0%nat) then Some 2%nat else None
      else if in_range 224 239 (Some b) then
        if in_range (if b =? 224 then 160 else 128) (if b =? 237 then 159 else 191) (t !! 0%nat) && in_range 128 191 (t !! 1%nat)
        then Some 3%nat else None
      else if in_range 240 244 (Some b) then
        if in_range (if b =? 240 then 144 else 128) (if b =? 244 then 143 else 191) (t !! 0%nat) && in_range 128 191 (t !! 1%nat)
           && in_range 128 191 (t !! 2%nat)
        then Some 4%nat else None
      else None
  end.

(** a bad byte counts as one rune; [keep] bytes of the last rune are left *)
Fixpoint count_runes (keep : nat) (s : list Z) : nat :=
  match s with
  | [] => O
  | _ :: t => match keep with S k => count_runes k t | O => S (count_runes (default 1%nat (rune_size s) - 1) t) end
  end.
Definition RuneCount (s : string) : nat := count_runes 0 (bytes_of_string s).

(** a run of bad bytes is replaced by one [rep] *)
Fixpoint valid_loop (rep : list Z) (bad : bool) (keep : nat) (s : list Z) : list Z :=
  match s with
  | [] => []
  | b :: t =>
      match keep with
      | S k => b :: valid_loop rep false k t
      | O => match rune_size s with
             | Some n => b :: valid_loop rep false (n - 1) t
             | None => ((if bad then [] else rep) ++ valid_loop rep true 0 t)%list
             end
      end
  end.
Definition ToValidUTF8 (s rep : string) : string := string_of_bytes (valid_loop (bytes_of_string rep) false 0 (bytes_of_string s)).

Local Open Scope string_scope.

(** ** [util/fullpath.go] *)

(** [filepath.Split]: after the last slash *)
Definition path_Split (s : string) : string * string :=
  match Split s with
  | [_] | [] => ("", s)
  | ws => (Join (take (length ws - 1) ws) +:+ "/", default "" (last ws))
  end.

Definition DirAndName (fp : string) : string * string :=
  let '(dir, name) := path_Split fp in
  let name := ToValidUTF8 name "?" in
  if decide (dir = "/") then (dir, name)
  else if decide (dir = "") then ("/", "")
  else (String.substring 0 (String.length dir - 1) dir, name).
Definition Name (fp : string) : string := ToValidUTF8 (path_Split fp).2 "?".

Example valid_replaced : valid_loop [63%Z] false 0 [97; 255; 254; 195; 169; 195]%Z = [97; 63; 195; 169; 63]%Z. Proof. reflexivity. Qed.
Example runes_counted : count_runes 0 [226; 130; 172; 255; 97]%Z = 3%nat. Proof. reflexivity. Qed.
Example dir_and_name : DirAndName "/a/b/c" = ("/a/b", "c"). Proof. reflexivity. Qed.
Example dir_and_name_root : DirAndName "/a" = ("/", "a"). Proof. reflexivity. Qed.
(** without a slash the name is lost *)
Example dir_and_name_bare : DirAndName "a" = ("/", ""). Proof. reflexivity. Qed.

Definition Child (fp name : string) : string :=
  let noPrefix := if has_prefix_slash name then match name with String _ n => n | "" => "" end else name in
  if has_suffix_slash fp then fp +:+ noPrefix else fp +:+ String slash noPrefix.
Definition NewFullPath (dir name : string) : string := Child dir name.
(** the bytes after the first one, split: the root is skipped *)
Definition FullPath_Split (fp : string) : list string :=
  if decide (fp = "") then [] else if decide (fp = "/") then []
  else match fp with String _ s => Split s | "" => [] end.

(** splitting a path puts the names back that [Child] joined *)
Lemma Split_append_slash s n : Split (s +:+ String slash n) = (Split s ++ Split n)%list.
Proof.
  induction s as [|c s IH]; simpl.
  - pose proof (Split_nonempty n). by destruct (Split n) as [|w ws].
  - rewrite IH. pose proof (Split_nonempty s). destruct (Split s) as [|w ws]; [done|]. simpl. by case_decide.
Qed.
