(* ===== verification/Bytes.v ===== *)
(** * Byte encodings

    [util/bytes.go] (big-endian integers in byte slices) and the parts of Go's
    [encoding/binary] the program uses: [BigEndian] words in the block index
    files and the unsigned varints of the write-ahead log. *)

From S2P Require Import Prelude.

(** ** util/bytes.go *)

Module Util.

(** the loop [for i := 0; i < length-1; i++ { v += b[i]; v <<= 8 }] followed by
    [v += b[length-1]]; the [w]-bit accumulator wraps around *)
Fixpoint be_loop (w : Z) (b : list Z) (v : Z) : Z :=
  match b with
  | [] => v
  | [x] => (v + x) mod 2 ^ w
  | x :: b' => be_loop w b' (((v + x) mod 2 ^ w * 2 ^ 8) mod 2 ^ w)
  end.

(** [length-1] is computed on [uint]: an empty slice underflows and [b[0]]
    panics. *)
Definition BytesToUint64 (b : list Z) : result unit Z :=
  match b with [] => Panic | _ => Ok (be_loop 64 b 0) end.

Definition BytesToUint32 (b : list Z) : result unit Z :=
  match b with [] => Panic | _ => Ok (be_loop 32 b 0) end.

Definition BytesToUint16 (b : list Z) : result unit Z :=
  match b with
  | b0 :: b1 :: _ => Ok (u16 (u16 (b0 * 2 ^ 8) + b1))
  | _ => Panic
  end.

(** [b[i] = x] on a slice: out of range panics *)
Definition set_byte (i : nat) (x : Z) (b : list Z) : result unit (list Z) :=
  if bool_decide (i < length b)%nat then Ok (<[i := x]> b) else Panic.

(** [for i := 0; i < n; i++ { b[n-1-i] = byte(v >> (i*8)) }], [k] iterations left *)
Fixpoint put_loop (n k : nat) (v : Z) (b : list Z) : result unit (list Z) :=
  match k with
  | O => Ok b
  | S k' =>
      let i := (n - k)%nat in
      b' ← set_byte (n - 1 - i) (u8 (Z.shiftr v (8 * Z.of_nat i))) b;
      put_loop n k' v b'
  end.

Definition Uint64toBytes (b : list Z) (v : Z) : result unit (list Z) := put_loop 8 8 v b.
Definition Uint32toBytes (b : list Z) (v : Z) : result unit (list Z) := put_loop 4 4 v b.
Definition Uint16toBytes (b : list Z) (v : Z) : result unit (list Z) :=
  b' ← set_byte 0 (u8 (Z.shiftr v 8)) b; set_byte 1 (u8 v) b'.
Definition Uint8toBytes (b : list Z) (v : Z) : result unit (list Z) := set_byte 0 (u8 v) b.

(** big-endian value of a byte list *)
Fixpoint be_value (b : list Z) (acc : Z) : Z :=
  match b with [] => acc | x :: b' => be_value b' (acc * 2 ^ 8 + x) end.

End Util.

(** ** encoding/binary *)

Module Binary.

(** the [n] low bytes of an integer, most significant first *)
Fixpoint be_bytes (n : nat) (v : Z) : list Z :=
  match n with
  | O => []
  | S n' => u8 (Z.shiftr v (8 * Z.of_nat n')) :: be_bytes n' v
  end.

(** [binary.Write(buf, binary.BigEndian, uint64)] *)
Definition put_be64 (v : Z) : list Z := be_bytes 8 v.

(** [binary.BigEndian.Uint64(b)]: reads the first eight bytes, panics if there
    are fewer *)
Definition be_uint64 (b : list Z) : option Z :=
  match b with
  | b0 :: b1 :: b2 :: b3 :: b4 :: b5 :: b6 :: b7 :: _ =>
      Some (Util.be_value [b0; b1; b2; b3; b4; b5; b6; b7] 0)
  | _ => None
  end.

(** [binary.PutUvarint]: seven bits at a time, low bits first, the top bit of a
    byte says that another follows.  Ten bytes are enough for 64 bits. *)
Fixpoint put_uvarint_aux (fuel : nat) (x : Z) : list Z :=
  match fuel with
  | O => []
  | S f =>
      if x >=? 128 then Z.lor (u8 x) 128 :: put_uvarint_aux f (Z.shiftr x 7)
      else [u8 x]
  end.
Definition put_uvarint (x : Z) : list Z := put_uvarint_aux 10 x.

(** [binary.Uvarint]: the value and the number of bytes read; [n = 0] says the
    buffer is too small, [n < 0] that the value overflows 64 bits. *)
Fixpoint uvarint_aux (buf : list Z) (i : Z) (x s : Z) : Z * Z :=
  match buf with
  | [] => (0, 0)
  | b :: buf' =>
      if i =? 10 then (0, - (i + 1))
      else if b <? 128 then
        if (i =? 9) && (b >? 1) then (0, - (i + 1))
        else (Z.lor x (u64 (Z.shiftl b s)), i + 1)
      else uvarint_aux buf' (i + 1) (Z.lor x (u64 (Z.shiftl (Z.land b 127) s))) (s + 7)
  end.
Definition uvarint (buf : list Z) : Z * Z := uvarint_aux buf 0 0 0.

End Binary.

(** ** Properties *)

Section be_facts.
Import Util Binary.

Lemma be_value_app b1 b2 acc : be_value (b1 ++ b2) acc = be_value b2 (be_value b1 acc).
Proof. revert acc. induction b1 as [|x b1 IH]; intros acc; simpl; [done|apply IH]. Qed.

Lemma be_value_mod w b acc :
  be_value b (acc mod 2 ^ w) mod 2 ^ w = be_value b acc mod 2 ^ w.
Proof.
  revert acc. induction b as [|x b IH]; intros acc; cbn [be_value].
  - apply Zmod_mod.
  - rewrite <- IH. symmetry. rewrite <- IH. do 2 f_equal.
    by rewrite (Zplus_mod (acc mod _ * _)), Zmult_mod_idemp_l, <- Zplus_mod.
Qed.

Lemma be_loop_value w x b v : be_loop w (x :: b) v = be_value b (v + x) mod 2 ^ w.
Proof.
  revert x v. induction b as [|y b IH]; intros x v; [done|].
  change (be_loop w (x :: y :: b) v)
    with (be_loop w (y :: b) (((v + x) mod 2 ^ w * 2 ^ 8) mod 2 ^ w)).
  rewrite IH. cbn [be_value]. rewrite <- be_value_mod. symmetry. rewrite <- be_value_mod.
  do 2 f_equal. rewrite (Zplus_mod (_ mod _)), Zmod_mod, Zmult_mod_idemp_l.
  by rewrite <- Zplus_mod.
Qed.

Lemma be_value_bytes n v acc :
  be_value (be_bytes n v) acc = acc * 2 ^ (8 * Z.of_nat n) + v mod 2 ^ (8 * Z.of_nat n).
Proof.
  revert acc. induction n as [|n IH]; intros acc; cbn [be_bytes be_value].
  - rewrite Z.mod_1_r. lia.
  - rewrite IH. unfold u8. rewrite Z.shiftr_div_pow2 by lia.
    replace (8 * Z.of_nat (S n)) with (8 * Z.of_nat n + 8) by lia.
    rewrite Z.pow_add_r, Z.rem_mul_r by lia. lia.
Qed.

Lemma length_be_bytes n v : length (be_bytes n v) = n.
Proof. induction n; simpl; [done|by f_equal]. Qed.

Lemma be_bytes_range n v : Forall in_byte (be_bytes n v).
Proof.
  induction n as [|n IH]; simpl; constructor; [|done].
  unfold in_byte, u8. pose proof (Z.mod_pos_bound (Z.shiftr v (8 * Z.of_nat n)) (2 ^ 8)). lia.
Qed.

(** reading back a big-endian word of an index record *)
Lemma be_uint64_put v rest : in_u64 v → be_uint64 (put_be64 v ++ rest) = Some v.
Proof.
  intros Hv. unfold put_be64.
  transitivity (Some (be_value (be_bytes 8 v) 0)); [done|].
  rewrite be_value_bytes. f_equal. rewrite Z.mod_small by apply Hv. lia.
Qed.

Lemma put_loop_bytes (n : nat) v b :
  length b = n → (n = 2 ∨ n = 4 ∨ n = 8)%nat → put_loop n n v b = Ok (be_bytes n v).
Proof.
  intros Hl [->|[->| ->]]; do 9 (destruct b as [|? b]; try done).
Qed.

Lemma BytesToUint64_value b :
  b ≠ [] → BytesToUint64 b = Ok (be_value b 0 mod 2 ^ 64).
Proof. destruct b as [|x b]; [done|]. intros _. change (BytesToUint64 (x :: b)) with (Ok (E:=unit) (be_loop 64 (x :: b) 0)). by rewrite be_loop_value. Qed.

Lemma BytesToUint32_value b :
  b ≠ [] → BytesToUint32 b = Ok (be_value b 0 mod 2 ^ 32).
Proof. destruct b as [|x b]; [done|]. intros _. change (BytesToUint32 (x :: b)) with (Ok (E:=unit) (be_loop 32 (x :: b) 0)). by rewrite be_loop_value. Qed.

End be_facts.

(** writing a [uint64] into an eight byte slice and reading it back
    gives the same number; the same holds for the four byte functions. *)
Theorem uint_bytes_roundtrip (b8 b4 : list Z) (v w : Z) :
  length b8 = 8%nat → length b4 = 4%nat → in_u64 v → in_u32 w →
  (Util.Uint64toBytes b8 v ≫= Util.BytesToUint64) = Ok v ∧
  (Util.Uint32toBytes b4 w ≫= Util.BytesToUint32) = Ok w.
Proof.
  intros H8 H4 Hv Hw. unfold Util.Uint64toBytes, Util.Uint32toBytes.
  rewrite !put_loop_bytes by auto. cbn [mbind result_bind].
  rewrite BytesToUint64_value, BytesToUint32_value by done.
  rewrite !be_value_bytes, !Z.mul_0_l, !Z.add_0_l.
  change (8 * Z.of_nat 8) with 64. change (8 * Z.of_nat 4) with 32.
  rewrite !Zmod_mod. fold (u64 v) (u32 w). by rewrite u64_small, u32_small.
Qed.

Lemma uint_bytes_roundtrip_witness :
  (Util.Uint64toBytes (replicate 8 0) 18446744073709551615 ≫= Util.BytesToUint64)
    = Ok 18446744073709551615 ∧
  (Util.Uint32toBytes (replicate 4 7) 305419896 ≫= Util.BytesToUint32) = Ok 305419896.
Proof. apply uint_bytes_roundtrip; vm_compute; repeat split; congruence. Defined.

(** ** Unsigned varints *)

Section uvarint_facts.
Import Binary.

Lemma put_uvarint_aux_bytes fuel x : 0 ≤ x → Forall in_byte (put_uvarint_aux fuel x).
Proof.
  revert x. induction fuel as [|f IH]; intros x Hx; cbn [put_uvarint_aux]; [done|].
  assert (0 ≤ u8 x < 256) by (unfold u8; pose proof (Z.mod_pos_bound x (2 ^ 8)); lia).
  destruct (x >=? 128).
  - constructor; [|apply IH; apply Z.shiftr_nonneg; lia]. unfold in_byte. split.
    + apply Z.lor_nonneg; lia.
    + apply (Z.log2_lt_cancel _ (2 ^ 8)). change (Z.log2 (2 ^ 8)) with 8.
      rewrite Z.log2_lor by lia. change (Z.log2 128) with 7.
      destruct (decide (u8 x = 0)) as [->|]; [done|].
      assert (Z.log2 (u8 x) < 8) by (apply Z.log2_lt_pow2; lia). lia.
  - by constructor.
Qed.

(** the low seven bits of a continuation byte *)
Lemma cont_byte x : 0 ≤ x → Z.land (Z.lor (u8 x) 128) 127 = x mod 128 ∧ 128 ≤ Z.lor (u8 x) 128.
Proof.
  intros Hx. split.
  - rewrite Z.land_lor_distr_l. change (Z.land 128 127) with 0. rewrite Z.lor_0_r.
    unfold u8. change 127 with (2 ^ 7 - 1). rewrite land_ones_mod by lia.
    apply Z.mod_mod_divide. by exists 2.
  - assert (0 ≤ u8 x) by (unfold u8; pose proof (Z.mod_pos_bound x (2 ^ 8)); lia).
    rewrite Z.lor_comm. apply (Z.le_trans _ (Z.lor 128 0)); [done|].
    pose proof (Z.add_lor_land 128 (u8 x)) as E.
    pose proof (Z.land_nonneg 128 (u8 x)) as L.
    assert (Z.land 128 (u8 x) ≤ u8 x).
    { apply Z.ldiff_le; [done|]. apply Z.bits_inj'. intros i Hi.
      rewrite Z.ldiff_spec, Z.land_spec, Z.bits_0. by destruct (Z.testbit 128 i), (Z.testbit _ i). }
    rewrite Z.lor_0_r. lia.
Qed.

(** Reading the encoding of [x] from position [i], when [i] groups of seven bits
    have already been read into [acc]. *)
Lemma uvarint_aux_put fuel x i acc rest :
  0 ≤ i → Z.of_nat fuel + i = 10 → 0 ≤ x → 0 ≤ acc < 2 ^ (7 * i) →
  x * 2 ^ (7 * i) < 2 ^ 64 → (0 < fuel)%nat →
  uvarint_aux (put_uvarint_aux fuel x ++ rest) i acc (7 * i) =
    (acc + x * 2 ^ (7 * i), i + lenZ (put_uvarint_aux fuel x)).
Proof.
  revert x i acc. induction fuel as [|f IH]; intros x i acc Hi Hf Hx Ha Hb Hpos; [lia|].
  cbn [put_uvarint_aux]. destruct (x >=? 128) eqn:E.
  - apply Z.geb_le in E. destruct (cont_byte x Hx) as [Hm H128].
    assert (x / 128 * 2 ^ (7 * (i + 1)) ≤ x * 2 ^ (7 * i)) as Hle.
    { replace (7 * (i + 1)) with (7 + 7 * i) by lia. rewrite Z.pow_add_r by lia.
      change (2 ^ 7) with 128. pose proof (Z.mul_div_le x 128). nia. }
    assert (i < 9).
    { assert (2 ^ (7 * i) * 128 < 2 ^ 64) by nia.
      destruct (decide (i < 9)); [done|]. 
      assert (2 ^ 63 ≤ 2 ^ (7 * i)) by (apply Z.pow_le_mono_r; lia). lia. }
    cbn [app uvarint_aux].
    rewrite (proj2 (Z.eqb_neq i 10)), (proj2 (Z.ltb_ge _ 128)) by lia.
    rewrite Hm, (Z.shiftr_div_pow2 x 7) by lia. change (2 ^ 7) with 128.
    assert (0 ≤ x mod 128 < 128) by (apply Z.mod_pos_bound; lia).
    assert (0 < 2 ^ (7 * i)) by (apply Z.pow_pos_nonneg; lia).
    assert (2 ^ (7 * (i + 1)) = 128 * 2 ^ (7 * i)) as E2.
    { replace (7 * (i + 1)) with (7 + 7 * i) by lia. by rewrite Z.pow_add_r by lia. }
    rewrite u64_small.
    2:{ unfold in_u64. rewrite Z.shiftl_mul_pow2 by lia. nia. }
    rewrite lor_shiftl_add by lia.
    replace (7 * i + 7) with (7 * (i + 1)) by lia.
    rewrite IH by (try (apply Z.div_pos); lia || nia).
    rewrite E2. f_equal.
    + rewrite (Z.div_mod x 128) at 3 by lia. ring.
    + cbn [length]. lia.
  - assert (x < 128) by (destruct (Z.geb_spec x 128); [done|lia]).
    cbn [app uvarint_aux length].
    assert (u8 x = x) as -> by (apply Z.mod_small; lia).
    rewrite (proj2 (Z.eqb_neq i 10)), (proj2 (Z.ltb_lt _ 128)) by lia.
    assert ((i =? 9) && (x >? 1) = false) as ->.
    { apply andb_false_iff. destruct (Z.eqb_spec i 9) as [->|]; [right|by left].
      destruct (Z.gtb_spec x 1); [|done]. change (2 ^ (7 * 9)) with (2 ^ 63) in Hb. lia. }
    rewrite u64_small.
    2:{ unfold in_u64. rewrite Z.shiftl_mul_pow2 by lia. nia. }
    by rewrite lor_shiftl_add by lia.
Qed.

Lemma uvarint_put x rest :
  in_u64 x → uvarint (put_uvarint x ++ rest) = (x, lenZ (put_uvarint x)).
Proof.
  intros [H0 H1]. unfold uvarint, put_uvarint.
  pose proof (uvarint_aux_put 10 x 0 0 rest) as H.
  change (7 * 0) with 0 in H. change (2 ^ 0) with 1 in H.
  rewrite Z.mul_1_r, !Z.add_0_l in H. apply H; lia.
Qed.

Lemma put_uvarint_length x : in_u64 x → (1 ≤ length (put_uvarint x) ≤ 10)%nat.
Proof.
  intros _. unfold put_uvarint. split.
  - assert (∀ f y, (1 ≤ length (put_uvarint_aux (S f) y))%nat) as H; [|apply (H 9%nat)].
    intros f y. cbn [put_uvarint_aux]. destruct (y >=? 128); simpl; lia.
  - assert (∀ f y, (length (put_uvarint_aux f y) ≤ f)%nat) as H; [|apply H].
    induction f as [|f IH]; intros y; cbn [put_uvarint_aux]; [done|].
    destruct (y >=? 128); simpl; [|lia]. specialize (IH (Z.shiftr y 7)). lia.
Qed.

(** a number cut short is not read *)
Lemma uvarint_aux_cut fuel x i acc s k :
  0 ≤ x → Z.of_nat fuel + i = 10 → (k < length (put_uvarint_aux fuel x))%nat →
  uvarint_aux (take k (put_uvarint_aux fuel x)) i acc s = (0, 0).
Proof.
  revert x i acc s k. induction fuel as [|f IH]; intros x i acc s k Hx Hf Hk; [simpl in Hk; lia|].
  destruct k as [|k]; [done|]. cbn [put_uvarint_aux] in *. destruct (x >=? 128); [|simpl in Hk; lia].
  destruct (cont_byte x Hx) as [_ H128]. cbn [take uvarint_aux].
  rewrite (proj2 (Z.eqb_neq i 10)), (proj2 (Z.ltb_ge _ 128)) by lia.
  apply IH; [apply Z.shiftr_nonneg; lia|lia|simpl in Hk; lia].
Qed.

Lemma uvarint_cut x k : 0 ≤ x → (k < length (put_uvarint x))%nat → uvarint (take k (put_uvarint x)) = (0, 0).
Proof. intros Hx Hk. by apply uvarint_aux_cut. Qed.

End uvarint_facts.

#[export] Hint Resolve be_bytes_range : rhosus.

(** [binary.Uvarint] decodes what [binary.PutUvarint] wrote, whatever
    follows it in the buffer, and reports exactly the bytes written; the encoding
    fits the ten byte scratch buffer of [appendUvarint]. *)
Theorem uvarint_roundtrip (x : Z) (rest : list Z) :
  in_u64 x →
  Binary.uvarint (Binary.put_uvarint x ++ rest) =
    (x, lenZ (Binary.put_uvarint x)) ∧
  (1 ≤ length (Binary.put_uvarint x) ≤ 10)%nat.
Proof. split; [by apply uvarint_put|by apply put_uvarint_length]. Qed.
