(* ===== verification/Base64.v ===== *)
(** * Base 64: [encoding/base64] as [util/bytes.go] uses it

    The values that etcd keeps are records in the standard alphabet with padding.
    [DecodeString] skips line breaks, and returns what it decoded before a bad
    character together with the error. *)

From S2P Require Import Prelude.

(** the character of six bits, and back *)
Definition b64_char (n : Z) : Z :=
  if n <? 26 then 65 + n else if n <? 52 then 71 + n else if n <? 62 then n - 4 else if n =? 62 then 43 else 47.

Definition b64_digit (c : Z) : option Z :=
  if (65 <=? c) && (c <=? 90) then Some (c - 65)
  else if (97 <=? c) && (c <=? 122) then Some (c - 71)
  else if (48 <=? c) && (c <=? 57) then Some (c + 4)
  else if c =? 43 then Some 62 else if c =? 47 then Some 63 else None.

Definition b64_pad : Z := 61.

(** [StdEncoding.EncodeToString]: three bytes in four characters *)
Fixpoint b64_encode (data : list Z) : list Z :=
  let d n v := b64_char (Z.land (Z.shiftr v n) 63) in
  match data with
  | [] => []
  | [a] => let v := a * 2 ^ 16 in [d 18 v; d 12 v; b64_pad; b64_pad]
  | [a; b] => let v := a * 2 ^ 16 + b * 2 ^ 8 in [d 18 v; d 12 v; d 6 v; b64_pad]
  | a :: b :: c :: data' =>
      let v := a * 2 ^ 16 + b * 2 ^ 8 + c in d 18 v :: d 12 v :: d 6 v :: d 0 v :: b64_encode data'
  end.

(** one quantum after another; the bits that a padded one does not use are not
    looked at, and nothing may follow it *)
Fixpoint b64_decode (src : list Z) : list Z * bool :=
  match src with
  | [] => ([], true)
  | p :: q :: r :: s :: src' =>
      match b64_digit p, b64_digit q with
      | Some x, Some y =>
          if (r =? b64_pad) && (s =? b64_pad) then
            ([u8 (Z.shiftr (x * 2 ^ 18 + y * 2 ^ 12) 16)], bool_decide (src' = []))
          else
            match b64_digit r with
            | None => ([], false)
            | Some z =>
                let v := x * 2 ^ 18 + y * 2 ^ 12 + z * 2 ^ 6 in
                if s =? b64_pad then ([u8 (Z.shiftr v 16); u8 (Z.shiftr v 8)], bool_decide (src' = []))
                else
                  match b64_digit s with
                  | None => ([], false)
                  | Some w =>
                      let v := v + w in
                      let '(data, ok) := b64_decode src' in
                      (u8 (Z.shiftr v 16) :: u8 (Z.shiftr v 8) :: u8 v :: data, ok)
                  end
            end
      | _, _ => ([], false)
      end
  | _ => ([], false)
  end.

Definition line_break (c : Z) : bool := (c =? 10) || (c =? 13).

(** [util/bytes.go] *)
Definition Base64Encode (data : list Z) : string := string_of_bytes (b64_encode data).
Definition Base64Decode (data : string) : list Z * bool :=
  b64_decode (filter (λ c, line_break c = false) (bytes_of_string data)).

(** ** Decoding what was encoded *)

Lemma b64_digit_char n : 0 ≤ n < 64 → b64_digit (b64_char n) = Some n.
Proof.
  intros Hn. assert (Forall (λ i, b64_digit (b64_char (Z.of_nat i)) = Some (Z.of_nat i)) (seq 0 64)) as Hall.
  { apply (bool_decide_eq_true_1 (Forall _ _)). by vm_compute. }
  rewrite Forall_forall in Hall. specialize (Hall (Z.to_nat n)). rewrite Z2Nat.id in Hall by lia.
  apply Hall, elem_of_seq. lia.
Qed.

Lemma b64_char_range n : 0 ≤ n < 64 → 43 ≤ b64_char n < 128 ∧ b64_char n ≠ b64_pad.
Proof.
  intros Hn. unfold b64_char, b64_pad.
  destruct (Z.ltb_spec n 26); [lia|]. destruct (Z.ltb_spec n 52); [lia|]. destruct (Z.ltb_spec n 62); [lia|].
  destruct (Z.eqb_spec n 62); lia.
Qed.

(** six bits of a number *)
Lemma bits6 v n : 0 ≤ n → Z.land (Z.shiftr v n) 63 = (v / 2 ^ n) mod 64.
Proof. intros Hn. rewrite Z.shiftr_div_pow2 by done. change 63 with (Z.ones 6). by rewrite Z.land_ones by lia. Qed.

Lemma bits6_range v n : 0 ≤ n → 0 ≤ Z.land (Z.shiftr v n) 63 < 64.
Proof. intros Hn. rewrite bits6 by done. apply Z.mod_pos_bound. lia. Qed.

Lemma line_break_char n : 0 ≤ n < 64 → line_break (b64_char n) = false.
Proof.
  intros Hn. destruct (b64_char_range n Hn) as [Hr _]. unfold line_break.
  by rewrite (proj2 (Z.eqb_neq _ 10)), (proj2 (Z.eqb_neq _ 13)) by lia.
Qed.

(** three bytes at a time *)
Lemma bytes3_ind (P : list Z → Prop) : P [] → (∀ a, P [a]) → (∀ a b, P [a; b]) →
  (∀ a b c l, P l → P (a :: b :: c :: l)) → ∀ l, P l.
Proof.
  intros H0 H1 H2 H3 l. enough (P l ∧ (∀ a, P (a :: l)) ∧ (∀ a b, P (a :: b :: l))) as [? _]; [done|].
  induction l as [|c l (IH & IH1 & IH2)]; split_and!; auto.
Qed.

Lemma encoded_plain data : Forall (λ c, in_byte c ∧ line_break c = false) (b64_encode data).
Proof.
  assert (∀ v n, 0 ≤ n → in_byte (b64_char (Z.land (Z.shiftr v n) 63)) ∧ line_break (b64_char (Z.land (Z.shiftr v n) 63)) = false) as Hd.
  { intros v n Hn. pose proof (bits6_range v n Hn) as Hr. split; [|by apply line_break_char].
    destruct (b64_char_range _ Hr) as [? _]. unfold in_byte. lia. }
  assert (in_byte b64_pad ∧ line_break b64_pad = false) as Hp by done.
  induction data as [|a|a b|a b c data IH] using bytes3_ind; cbn [b64_encode]; repeat constructor; first [apply Hd; lia|apply Hp|done].
Qed.

(** the digits of a 24-bit number make it up *)
Lemma digits_sum v : 0 ≤ v < 2 ^ 24 →
  (v / 2 ^ 18) mod 64 * 2 ^ 18 + (v / 2 ^ 12) mod 64 * 2 ^ 12 + (v / 2 ^ 6) mod 64 * 2 ^ 6 + (v / 2 ^ 0) mod 64 = v.
Proof.
  intros Hv. change (2 ^ 18) with (64 * 2 ^ 12). change (2 ^ 12) with (64 * 2 ^ 6). change (2 ^ 6) with 64. change (2 ^ 0) with 1.
  rewrite Z.div_1_r, <- !Z.div_div by lia.
  pose proof (Z.div_mod v 64). pose proof (Z.div_mod (v / 64) 64). pose proof (Z.div_mod (v / 64 / 64) 64).
  rewrite (Z.mod_small (v / 64 / 64 / 64) 64); [lia|]. split; [repeat (apply Z.div_pos; [|lia]); lia|].
  repeat (apply Z.div_lt_upper_bound; [lia|]). lia.
Qed.

Lemma byte3 a b c : in_byte a → in_byte b → in_byte c → let v := a * 2 ^ 16 + b * 2 ^ 8 + c in
  0 ≤ v < 2 ^ 24 ∧ u8 (Z.shiftr v 16) = a ∧ u8 (Z.shiftr v 8) = b ∧ u8 v = c.
Proof.
  intros Ha Hb Hc v. subst v. unfold in_byte, u8 in *. rewrite !Z.shiftr_div_pow2 by done. split; [lia|]. split_and!.
  - rewrite <- (Z.div_unique_pos _ (2 ^ 16) a (b * 2 ^ 8 + c)) by lia. apply Z.mod_small. lia.
  - rewrite <- (Z.div_unique_pos _ (2 ^ 8) (a * 2 ^ 8 + b) c) by lia.
    symmetry. apply (Z.mod_unique_pos _ _ a); lia.
  - symmetry. apply (Z.mod_unique_pos _ _ (a * 2 ^ 8 + b)); lia.
Qed.

(** the digits that padding stands for *)
Lemma no_digit w n k : 0 ≤ n → 0 ≤ k → n + 6 ≤ k → (w * 2 ^ k / 2 ^ n) mod 64 = 0.
Proof.
  intros Hn Hk Hle. replace k with (6 + (k - n - 6) + n) by lia.
  rewrite !Z.pow_add_r, !Z.mul_assoc, Z.div_mul by lia. change (2 ^ 6) with 64.
  replace (w * 64 * 2 ^ (k - n - 6)) with (w * 2 ^ (k - n - 6) * 64) by lia. by apply Z.mod_mul.
Qed.

Lemma b64_decode_encode data : Forall in_byte data → b64_decode (b64_encode data) = (data, true).
Proof.
  induction data as [|a|a b|a b c data IH] using bytes3_ind; intros Hd; [done|..]; apply Forall_cons in Hd as [Ha Hd];
    cbn [b64_encode b64_decode]; rewrite !b64_digit_char by (apply bits6_range; lia).
  - destruct (byte3 a 0 0 Ha) as (Hv & Ea & _); [done..|]. rewrite !Z.add_0_r in Hv, Ea.
    pose proof (digits_sum _ Hv) as Hsum. rewrite (no_digit a 6 16), (no_digit a 0 16) in Hsum by lia.
    rewrite !bits6 by lia. rewrite !Z.add_0_r in Hsum. cbn [andb Z.eqb Pos.eqb b64_pad]. rewrite Hsum, Ea. done.
  - apply Forall_cons in Hd as [Hb Hd]. destruct (byte3 a b 0 Ha Hb) as (Hv & Ea & Eb & _); [done..|]. rewrite !Z.add_0_r in Hv, Ea, Eb.
    pose proof (digits_sum _ Hv) as Hsum.
    assert (((a * 2 ^ 16 + b * 2 ^ 8) / 2 ^ 0) mod 64 = 0) as E0.
    { replace (a * 2 ^ 16 + b * 2 ^ 8) with ((a * 2 ^ 8 + b) * 2 ^ 8) by lia. by apply no_digit. }
    rewrite E0, Z.add_0_r in Hsum.
    rewrite (proj2 (Z.eqb_neq _ b64_pad)) by (apply b64_char_range, bits6_range; lia). cbn [andb].
    rewrite !bits6 by lia. change (b64_pad =? b64_pad) with true. cbv iota zeta. rewrite Hsum, Ea, Eb. done.
  - apply Forall_cons in Hd as [Hb Hd]. apply Forall_cons in Hd as [Hc Hd].
    destruct (byte3 a b c Ha Hb Hc) as (Hv & Ea & Eb & Ec). pose proof (digits_sum _ Hv) as Hsum.
    rewrite !(proj2 (Z.eqb_neq _ b64_pad)) by (apply b64_char_range, bits6_range; lia). cbn [andb].
    rewrite !bits6 by lia. cbv iota zeta. rewrite Hsum, (IH Hd), Ea, Eb, Ec. done.
Qed.

Lemma b64_text_ok (data : list Z) : Forall in_byte data → Base64Decode (Base64Encode data) = (data, true).
Proof.
  intros Hd. unfold Base64Decode, Base64Encode. pose proof (encoded_plain data) as Hp.
  rewrite bytes_of_string_of_bytes by (eapply Forall_impl; [exact Hp|]; by intros c []).
  assert (∀ l, Forall (λ c, in_byte c ∧ line_break c = false) l → filter (λ c, line_break c = false) l = l) as Hf.
  { induction 1 as [|c l [_ Hc] Hl IH]; [done|]. by rewrite filter_cons_True, IH. }
  rewrite Hf by done. by apply b64_decode_encode.
Qed.

(** decoding the text of any bytes gives the bytes back, with no error *)
Theorem base64_roundtrip (data : list Z) : Forall in_byte data → Base64Decode (Base64Encode data) = (data, true).
Proof. apply b64_text_ok. Qed.

Lemma base64_roundtrip_witness : Base64Encode [114; 104; 111; 115] = "cmhvcw=="%string ∧
  Base64Decode (Base64Encode [114; 104; 111; 115]) = ([114; 104; 111; 115], true).
Proof. split; [by vm_compute|]. apply base64_roundtrip. apply (bool_decide_eq_true_1 (Forall (λ b, 0 ≤ b < 256) _)). by vm_compute. Defined.
