(* ===== verification/Pools.v ===== *)
(** * Pools of tickers and timers: [util/tickers] and [util/timers]

    Both packages keep what was released in a [sync.Pool], which may hand out any of
    its items or none: [pick] is its choice. *)

From S2P Require Import Prelude.

Record Ticker := mkTicker { tk_period : Z; tk_running : bool }.

(** [Stop] of a timer reports whether it stopped it; [Reset] whether it was active *)
Record Timer := mkTimer { tm_duration : Z; tm_active : bool }.

Definition take_from {A} (pick : option nat) (pool : list A) : option (A * list A) :=
  i ← pick; x ← pool !! i; Some (x, delete i pool).

(** a ticker of the pool is handed out as it is *)
Definition SetTicker (pick : option nat) (d : Z) (pool : list Ticker) : Ticker * list Ticker :=
  match take_from pick pool with
  | None => (mkTicker d true, pool)
  | Some (tk, pool') => (tk, pool')
  end.
Definition ReleaseTicker (tk : Ticker) (pool : list Ticker) : list Ticker := mkTicker (tk_period tk) false :: pool.

Definition SetTimer (pick : option nat) (d : Z) (pool : list Timer) : result unit (Timer * list Timer) :=
  match take_from pick pool with
  | None => Ok (mkTimer d true, pool)
  | Some (tm, pool') => if tm_active tm then Panic else Ok (mkTimer d true, pool')
  end.
(** a timer that has fired, or was stopped, is not put back *)
Definition ReleaseTimer (tm : Timer) (pool : list Timer) : list Timer :=
  if tm_active tm then mkTimer (tm_duration tm) false :: pool else pool.

(** the pools that the packages can reach, over any releases and choices *)
Inductive ticker_pool : list Ticker → Prop :=
| ticker_start : ticker_pool []
| ticker_release tk pool : ticker_pool pool → ticker_pool (ReleaseTicker tk pool)
| ticker_set pick d pool : ticker_pool pool → ticker_pool (SetTicker pick d pool).2.

Inductive timer_pool : list Timer → Prop :=
| timer_start : timer_pool []
| timer_release tm pool : timer_pool pool → timer_pool (ReleaseTimer tm pool)
| timer_set pick d pool tm pool' : timer_pool pool → SetTimer pick d pool = Ok (tm, pool') → timer_pool pool'.

Lemma take_from_sub {A} pick (pool pool' : list A) x : take_from pick pool = Some (x, pool') →
  x ∈ pool ∧ ∀ y, y ∈ pool' → y ∈ pool.
Proof.
  unfold take_from. destruct pick as [i|]; [cbn|done]. destruct (pool !! i) eqn:E; [cbn|done]. intros [= -> <-].
  split; [by eapply list_elem_of_lookup_2|]. intros y Hy. rewrite delete_take_drop in Hy.
  apply elem_of_app in Hy as [Hy|Hy].
  - rewrite <- (take_drop i pool). apply elem_of_app. by left.
  - rewrite <- (take_drop (S i) pool). apply elem_of_app. by right.
Qed.

Lemma pooled_tickers_stopped pool : ticker_pool pool → ∀ tk, tk ∈ pool → tk_running tk = false.
Proof.
  induction 1 as [|tk pool _ IH|pick d pool _ IH]; intros tk' Hin.
  - by apply elem_of_nil in Hin.
  - apply elem_of_cons in Hin as [->|Hin]; [done|by apply IH].
  - unfold SetTicker in Hin. destruct (take_from pick pool) as [[x pool']|] eqn:E; [|by apply IH].
    by apply IH, (take_from_sub _ _ _ _ E).
Qed.

Lemma pooled_timers_idle pool : timer_pool pool → ∀ tm, tm ∈ pool → tm_active tm = false.
Proof.
  induction 1 as [|tm pool _ IH|pick d pool tm pool' _ IH E]; intros tm' Hin.
  - by apply elem_of_nil in Hin.
  - unfold ReleaseTimer in Hin. destruct (tm_active tm); [|by apply IH].
    apply elem_of_cons in Hin as [->|Hin]; [done|by apply IH].
  - unfold SetTimer in E. destruct (take_from pick pool) as [[x pool1]|] eqn:Et; [|injection E as <- <-; by apply IH].
    destruct (tm_active x); [done|]. injection E as _ <-. by apply IH, (take_from_sub _ _ _ _ Et).
Qed.

(** SetTicker hands out a ticker that ticks only when it makes a new one: a ticker
  of the pool was stopped when it was released, and nothing resets it *)
Theorem reused_ticker_never_ticks (pick : option nat) (d : Z) (pool : list Ticker) : ticker_pool pool →
  tk_running (SetTicker pick d pool).1 = bool_decide (take_from pick pool = None).
Proof.
  intros Hp. unfold SetTicker. destruct (take_from pick pool) as [[tk pool']|] eqn:E; [|done].
  rewrite bool_decide_false by done. destruct (take_from_sub _ _ _ _ E) as [Hin _]. exact (pooled_tickers_stopped pool Hp tk Hin).
Qed.

Lemma reused_ticker_never_ticks_witness :
  let pool := ReleaseTicker (mkTicker 1000 true) [] in
  tk_running (SetTicker (Some 0%nat) 500 pool).1 = bool_decide (take_from (Some 0%nat) pool = None).
Proof. apply reused_ticker_never_ticks. apply ticker_release, ticker_start. Defined.

(** SetTimer never meets an active timer in the pool, so it does not panic, and
  what it hands out runs for the duration that was asked *)
Theorem timer_pool_safe (pick : option nat) (d : Z) (pool : list Timer) : timer_pool pool →
  ∃ pool', SetTimer pick d pool = Ok (mkTimer d true, pool') ∧ timer_pool pool'.
Proof.
  intros Hp. assert (∃ pool', SetTimer pick d pool = Ok (mkTimer d true, pool')) as [pool' E].
  { unfold SetTimer. destruct (take_from pick pool) as [[tm pool']|] eqn:E; [|by eexists].
    destruct (take_from_sub _ _ _ _ E) as [Hin _]. rewrite (pooled_timers_idle pool Hp tm Hin). by eexists. }
  exists pool'. split; [done|]. by eapply timer_set.
Qed.

Lemma timer_pool_safe_witness :
  let pool := ReleaseTimer (mkTimer 1000 true) [] in
  ∃ pool', SetTimer (Some 0%nat) 50 pool = Ok (mkTimer 50 true, pool') ∧ timer_pool pool'.
Proof. apply timer_pool_safe. apply timer_release, timer_start. Defined.
