(* ===== verification/Uuid.v ===== *)
(** * UUIDs: [util/uuid]

    [uuid.go] (layout, version and variant bits, text form), [codec.go] (text and
    binary decoding) and [generator.go] (random UUIDs).  A [UUID] is a [16]byte
    array, here a list of sixteen bytes; decoding works on a destination that
    keeps what was written before an error, as the Go slices do. *)

From S2P Require Import Prelude.

Module Uuid.

Definition Size : nat := 16.
Abbreviation UUID := (list Z).
Definition wf_uuid (u : UUID) : Prop := length u = Size ∧ Forall in_byte u.

Definition Nil : UUID := replicate Size 0.

(** versions and variants *)
Definition V1 : Z := 1.
Definition V4 : Z := 4.
Inductive Variant_kind := VariantNCS | VariantRFC4122 | VariantMicrosoft | VariantFuture.

#[export] Instance Variant_kind_eq_dec : EqDecision Variant_kind.
Proof. solve_decision. Defined.

(** [const VariantNCS byte = iota ...] *)
Definition variant_code (v : Variant_kind) : Z :=
  match v with
  | VariantNCS => 0 | VariantRFC4122 => 1 | VariantMicrosoft => 2 | VariantFuture => 3
  end.

Inductive uuid_error :=
| IncorrectLength | IncorrectFormat | InvalidByte (b : Z) | NotSixteenBytes | ReadError.

#[export] Instance uuid_error_eq_dec : EqDecision uuid_error.
Proof. solve_decision. Defined.

Definition urnPrefix : list Z := bytes_of_string "urn:uuid:".
Definition byteGroups : list nat := [8; 4; 4; 4; 12]%nat.

Definition Equal (u1 u2 : UUID) : bool := bool_decide (u1 = u2).

(** ** Version and variant bits *)

Definition nth_byte (i : nat) (u : list Z) : Z := default 0 (u !! i).

Definition Version (u : UUID) : Z := Z.shiftr (nth_byte 6 u) 4.

Definition Variant (u : UUID) : Variant_kind :=
  let b := nth_byte 8 u in
  if Z.shiftr b 7 =? 0 then VariantNCS
  else if Z.shiftr b 6 =? 2 then VariantRFC4122
  else if Z.shiftr b 5 =? 6 then VariantMicrosoft
  else VariantFuture.

(** [(u[6] & 0x0f) | (v << 4)] *)
Definition version_bits (v b : Z) : Z := Z.lor (Z.land b 15) (u8 (Z.shiftl v 4)).

Definition SetVersion (v : Z) (u : UUID) : UUID :=
  <[6%nat := version_bits v (nth_byte 6 u)]> u.

(** the switch on the variant *)
Definition variant_bits (v b : Z) : Z :=
      if v =? variant_code VariantNCS then Z.lor (Z.land b (Z.shiftr 255 1)) (Z.shiftl 0 7)
      else if v =? variant_code VariantRFC4122 then Z.lor (Z.land b (Z.shiftr 255 2)) (Z.shiftl 2 6)
      else if v =? variant_code VariantMicrosoft then Z.lor (Z.land b (Z.shiftr 255 3)) (Z.shiftl 6 5)
      else Z.lor (Z.land b (Z.shiftr 255 3)) (Z.shiftl 7 5).

Definition SetVariant (v : Z) (u : UUID) : UUID :=
  <[8%nat := variant_bits v (nth_byte 8 u)]> u.

(** ** Hexadecimal text ([encoding/hex]) *)

Definition hex_digit (n : Z) : Z := if n <? 10 then 48 + n else 87 + n.

Definition hex_encode (src : list Z) : list Z :=
  src ≫= λ b, [hex_digit (Z.shiftr b 4); hex_digit (Z.land b 15)].

Definition from_hex_char (c : Z) : option Z :=
  if (48 <=? c) && (c <=? 57) then Some (c - 48)
  else if (97 <=? c) && (c <=? 102) then Some (c - 97 + 10)
  else if (65 <=? c) && (c <=? 70) then Some (c - 65 + 10)
  else None.

(** [hex.Decode(dst, src)]: the destination keeps the bytes decoded before a bad
    character *)
Fixpoint hex_decode (dst src : list Z) : list Z * option uuid_error :=
  match src, dst with
  | p :: q :: src', _ :: dst' =>
      match from_hex_char p with
      | None => (dst, Some (InvalidByte p))
      | Some a =>
          match from_hex_char q with
          | None => (dst, Some (InvalidByte q))
          | Some b =>
              let '(d, e) := hex_decode dst' src' in
              (Z.lor (u8 (Z.shiftl a 4)) b :: d, e)
          end
      end
  | [p], _ =>
      match from_hex_char p with
      | None => (dst, Some (InvalidByte p))
      | Some _ => (dst, Some IncorrectLength)
      end
  | _, _ => (dst, None)
  end.

Definition dash : Z := 45.

(** [String]: xxxxxxxx-xxxx-xxxx-xxxx-xxxxxxxxxxxx *)
Definition String_bytes (u : UUID) : list Z :=
  hex_encode (take 4 u) ++ [dash] ++
  hex_encode (take 2 (drop 4 u)) ++ [dash] ++
  hex_encode (take 2 (drop 6 u)) ++ [dash] ++
  hex_encode (take 2 (drop 8 u)) ++ [dash] ++
  hex_encode (drop 10 u).
Definition String (u : UUID) : string := string_of_bytes (String_bytes u).

Definition MarshalText (u : UUID) : list Z := bytes_of_string (String u).

(** ** Decoding *)

Fixpoint canonical_loop (first : bool) (groups : list nat) (src dst : list Z)
    : list Z * option uuid_error :=
  match groups with
  | [] => (dst, None)
  | g :: groups' =>
      let src := if first then src else drop 1 src in
      let half := (g / 2)%nat in
      match hex_decode (take half dst) (take g src) with
      | (d, Some e) => (d ++ drop half dst, Some e)
      | (d, None) =>
          let '(d', e) := canonical_loop false groups' (drop g src) (drop half dst) in
          (d ++ d', e)
      end
  end.

Definition decodeCanonical (u : UUID) (t : list Z) : UUID * option uuid_error :=
  if bool_decide (t !! 8%nat ≠ Some dash ∨ t !! 13%nat ≠ Some dash ∨
                  t !! 18%nat ≠ Some dash ∨ t !! 23%nat ≠ Some dash)
  then (u, Some IncorrectFormat)
  else canonical_loop true byteGroups t u.

Definition decodeHashLike (u : UUID) (t : list Z) : UUID * option uuid_error :=
  hex_decode u t.

Definition decodePlain (u : UUID) (t : list Z) : UUID * option uuid_error :=
  if bool_decide (length t = 32%nat) then decodeHashLike u t
  else if bool_decide (length t = 36%nat) then decodeCanonical u t
  else (u, Some IncorrectLength).

(** called on texts of length 38 *)
Definition decodeBraced (u : UUID) (t : list Z) : UUID * option uuid_error :=
  let l := length t in
  if bool_decide (t !! 0%nat ≠ Some 123 ∨ t !! (l - 1)%nat ≠ Some 125)
  then (u, Some IncorrectFormat)
  else decodePlain u (take (l - 1 - 1) (drop 1 t)).

(** called on texts of length 41 or 45 *)
Definition decodeURN (u : UUID) (t : list Z) : UUID * option uuid_error :=
  if bool_decide (take 9 t ≠ urnPrefix) then (u, Some IncorrectFormat)
  else decodePlain u (drop 9 t).

Definition UnmarshalText (u : UUID) (text : list Z) : UUID * option uuid_error :=
  let n := length text in
  if bool_decide (n = 32%nat) then decodeHashLike u text
  else if bool_decide (n = 36%nat) then decodeCanonical u text
  else if bool_decide (n = 38%nat) then decodeBraced u text
  else if bool_decide (n = 41%nat ∨ n = 45%nat) then decodeURN u text
  else (u, Some IncorrectLength).

Definition UnmarshalBinary (u : UUID) (data : list Z) : UUID * option uuid_error :=
  if bool_decide (length data ≠ Size) then (u, Some NotSixteenBytes) else (data, None).
Definition MarshalBinary (u : UUID) : list Z * option uuid_error := (u, None).

Definition FromBytes (input : list Z) : UUID * option uuid_error := UnmarshalBinary Nil input.
Definition FromBytesOrNil (input : list Z) : UUID :=
  match FromBytes input with (u, None) => u | (_, Some _) => Nil end.
Definition FromString (input : string) : UUID * option uuid_error :=
  UnmarshalText Nil (bytes_of_string input).
Definition FromStringOrNil (input : string) : UUID :=
  match FromString input with (u, None) => u | (_, Some _) => Nil end.

(** [Must] panics on an error *)
Definition Must (r : UUID * option uuid_error) : result uuid_error UUID :=
  match r with (u, None) => Ok u | (_, Some _) => Panic end.

(** ** Generation: the sixteen random bytes are an argument, [None] when the
    source of randomness fails *)

Definition gen (version : Z) (random : option (list Z)) : UUID * option uuid_error :=
  match random with
  | None => (Nil, Some ReadError)
  | Some r => (SetVariant (variant_code VariantRFC4122) (SetVersion version r), None)
  end.
Definition NewV4 (random : option (list Z)) : UUID * option uuid_error := gen V4 random.
Definition NewV1 (random : option (list Z)) : UUID * option uuid_error := gen V1 random.

Definition NamespaceDNS := Must (FromString "6ba7b810-9dad-11d1-80b4-00c04fd430c8").
Definition NamespaceURL := Must (FromString "6ba7b811-9dad-11d1-80b4-00c04fd430c8").
Definition NamespaceOID := Must (FromString "6ba7b812-9dad-11d1-80b4-00c04fd430c8").
Definition NamespaceX500 := Must (FromString "6ba7b814-9dad-11d1-80b4-00c04fd430c8").

End Uuid.

(** ** Properties *)

Section uuid_facts.
Import Uuid.

Lemma from_hex_digit n : 0 ≤ n < 16 → from_hex_char (hex_digit n) = Some n.
Proof.
  intros Hn. apply (bool_decide_eq_true_1 (from_hex_char (hex_digit n) = Some n)).
  revert n Hn. apply (Zrange_forallb (λ n, bool_decide (from_hex_char (hex_digit n) = Some n))).
  by vm_compute.
Qed.

Lemma nibbles b :
  in_byte b → 0 ≤ Z.shiftr b 4 < 16 ∧ 0 ≤ Z.land b 15 < 16 ∧
    Z.lor (u8 (Z.shiftl (Z.shiftr b 4) 4)) (Z.land b 15) = b.
Proof.
  intros Hb. rewrite Z.shiftr_div_pow2 by lia. change 15 with (2 ^ 4 - 1).
  rewrite land_ones_mod by lia. change (2 ^ 4) with 16. unfold in_byte in Hb.
  pose proof (Z.mod_pos_bound b 16). pose proof (Z.div_mod b 16).
  assert (0 ≤ b / 16 < 16) by (split; [apply Z.div_pos|apply Z.div_lt_upper_bound]; lia).
  split_and!; try lia. rewrite Z.shiftl_mul_pow2 by lia. unfold u8.
  rewrite Z.mod_small by lia. rewrite Z.lor_comm, <- Z.shiftl_mul_pow2 by lia.
  rewrite lor_shiftl_add by lia. lia.
Qed.

Lemma hex_decode_encode dst src rest :
  length dst = length src → Forall in_byte src →
  rest = [] →
  hex_decode dst (hex_encode src ++ rest) = (src, None).
Proof.
  intros Hl Hs ->. rewrite app_nil_r. revert dst Hl.
  induction Hs as [|b src Hb Hs IH]; intros [|d dst] Hl; try done.
  destruct (nibbles b Hb) as (H1 & H2 & H3).
  cbn. rewrite !from_hex_digit by done. fold hex_encode.
  injection Hl as Hl. specialize (IH dst Hl). unfold hex_encode in IH.
  cbn in IH. rewrite IH. by rewrite H3.
Qed.

Lemma length_hex_encode src : length (hex_encode src) = (2 * length src)%nat.
Proof.
  unfold hex_encode. induction src as [|b src IH]; [done|]. cbn in *. rewrite IH. lia.
Qed.

Lemma hex_encode_bytes src : Forall in_byte src → Forall in_byte (hex_encode src).
Proof.
  intros Hs. induction Hs as [|b src Hb Hs IH]; [constructor|].
  destruct (nibbles b Hb) as (H1 & H2 & _). cbn.
  assert (∀ n, 0 ≤ n < 16 → in_byte (hex_digit n)).
  { intros n Hn. unfold in_byte, hex_digit. destruct (n <? 10) eqn:?; lia. }
  constructor; [auto|]. constructor; [auto|done].
Qed.

Lemma wf_uuid_split u :
  wf_uuid u → ∃ a b c d e, u = a ++ b ++ c ++ d ++ e ∧
    length a = 4%nat ∧ length b = 2%nat ∧ length c = 2%nat ∧ length d = 2%nat ∧ length e = 6%nat ∧
    Forall in_byte a ∧ Forall in_byte b ∧ Forall in_byte c ∧ Forall in_byte d ∧ Forall in_byte e.
Proof.
  intros [Hl Hb]. unfold Size in Hl.
  do 17 (destruct u as [|? u]; try done).
  exists [z; z0; z1; z2], [z3; z4], [z5; z6], [z7; z8], [z9; z10; z11; z12; z13; z14].
  repeat (apply Forall_cons in Hb as [? Hb]). split_and!; auto 10.
Qed.

(** the text of a UUID given by its five groups *)
Lemma String_bytes_groups a b c d e :
  length a = 4%nat → length b = 2%nat → length c = 2%nat → length d = 2%nat →
  String_bytes (a ++ b ++ c ++ d ++ e) =
    hex_encode a ++ [dash] ++ hex_encode b ++ [dash] ++ hex_encode c ++ [dash] ++
    hex_encode d ++ [dash] ++ hex_encode e.
Proof.
  intros Ha Hb Hc Hd.
  do 5 (destruct a as [|? a]; try done). do 3 (destruct b as [|? b]; try done).
  do 3 (destruct c as [|? c]; try done). by do 3 (destruct d as [|? d]; try done).
Qed.

Lemma take_drop_hex a rest k :
  k = (2 * length a)%nat → take k (hex_encode a ++ rest) = hex_encode a ∧
    drop k (hex_encode a ++ rest) = rest.
Proof.
  intros ->. rewrite <- length_hex_encode. by rewrite take_app_length, drop_app_length.
Qed.

(** one group of the canonical form: [half] bytes, [2*half] digits *)
Lemma canonical_step (first : bool) g groups (src a rest dst dst' : list Z) :
  (if first then src else drop 1 src) = hex_encode a ++ rest →
  (g = 2 * length a)%nat → length dst = length a → Forall in_byte a →
  canonical_loop first (g :: groups) src (dst ++ dst') =
  (let '(d', e) := canonical_loop false groups rest dst' in (a ++ d', e)).
Proof.
  intros Hsrc -> Hl Ha. cbn [canonical_loop]. rewrite Hsrc.
  replace (2 * length a / 2)%nat with (length a)
    by (rewrite Nat.mul_comm, Nat.div_mul by lia; lia).
  destruct (take_drop_hex a rest _ eq_refl) as [-> ->].
  rewrite <- Hl, take_app_length, drop_app_length.
  pose proof (hex_decode_encode dst a [] Hl Ha eq_refl) as E. rewrite app_nil_r in E.
  by rewrite E.
Qed.

Lemma decodeCanonical_String u0 u :
  length u0 = Size → wf_uuid u → decodeCanonical u0 (String_bytes u) = (u, None).
Proof.
  intros H0 Hu. destruct (wf_uuid_split u Hu) as
    (a & b & c & d & e & -> & Ha & Hb & Hc & Hd & He & Fa & Fb & Fc & Fd & Fe).
  rewrite String_bytes_groups by done. unfold decodeCanonical.
  rewrite bool_decide_false.
  2:{ do 5 (destruct a as [|? a]; try done). do 3 (destruct b as [|? b]; try done).
      do 3 (destruct c as [|? c]; try done). do 3 (destruct d as [|? d]; try done).
      cbn. by intros [?|[?|[?|?]]]. }
  unfold byteGroups, Size in *. set (R := hex_encode).
  do 17 (destruct u0 as [|? u0]; try done). clear H0.
  match goal with |- canonical_loop _ _ _ ?l = _ =>
    change l with (take 4 l ++ take 2 (drop 4 l) ++ take 2 (drop 6 l) ++
                   take 2 (drop 8 l) ++ drop 10 l ++ []) end.
  erewrite (canonical_step _ _ _ _ a); [|reflexivity|lia|done|done].
  erewrite (canonical_step _ _ _ _ b); [|reflexivity|lia|done|done].
  erewrite (canonical_step _ _ _ _ c); [|reflexivity|lia|done|done].
  erewrite (canonical_step _ _ _ _ d); [|reflexivity|lia|done|done].
  rewrite <- (app_nil_r (R e)).
  erewrite (canonical_step _ _ _ _ e); [|reflexivity|lia|done|done].
  cbn. by rewrite !app_nil_r.
Qed.

Lemma decodeHashLike_hex u0 u :
  length u0 = Size → wf_uuid u → decodeHashLike u0 (hex_encode u) = (u, None).
Proof.
  intros H0 [Hl Hb]. unfold decodeHashLike.
  rewrite <- (app_nil_r (hex_encode u)). apply hex_decode_encode; congruence.
Qed.

Lemma length_String_bytes u : wf_uuid u → length (String_bytes u) = 36%nat.
Proof.
  intros Hu. destruct (wf_uuid_split u Hu) as
    (a & b & c & d & e & -> & Ha & Hb & Hc & Hd & He & _).
  rewrite String_bytes_groups by done.
  repeat (rewrite length_app || rewrite length_hex_encode). simpl. lia.
Qed.

Lemma String_bytes_range u : wf_uuid u → Forall in_byte (String_bytes u).
Proof.
  intros Hu. destruct (wf_uuid_split u Hu) as
    (a & b & c & d & e & -> & Ha & Hb & Hc & Hd & He & ?&?&?&?&?).
  rewrite String_bytes_groups by done.
  assert (Forall in_byte [dash]) by (repeat constructor; done).
  repeat (apply Forall_app; split; auto using hex_encode_bytes).
Qed.

Lemma decodePlain_canonical u0 u :
  length u0 = Size → wf_uuid u → decodePlain u0 (String_bytes u) = (u, None).
Proof.
  intros. unfold decodePlain. rewrite length_String_bytes by done.
  by apply decodeCanonical_String.
Qed.

Lemma decodePlain_hex u0 u :
  length u0 = Size → wf_uuid u → decodePlain u0 (hex_encode u) = (u, None).
Proof.
  intros H0 Hu. unfold decodePlain. rewrite length_hex_encode, (proj1 Hu).
  by apply decodeHashLike_hex.
Qed.

(** what [decodePlain] reads is read inside braces *)
Lemma decodeBraced_plain u0 t :
  decodeBraced u0 ([123] ++ t ++ [125]) = decodePlain u0 t.
Proof.
  unfold decodeBraced. rewrite !length_app. cbn [length].
  replace (1 + (length t + 1) - 1)%nat with (S (length t)) by lia.
  rewrite bool_decide_false.
  2:{ assert (([123] ++ t ++ [125]) !! S (length t) = Some 125) as ->
        by (by apply (list_lookup_middle (123 :: t) [])). by intros [?|?]. }
  change (drop 1 ([123] ++ t ++ [125])) with (t ++ [125]). replace (S (length t) - 1)%nat with (length t) by lia.
  by rewrite take_app_length.
Qed.

(** and after the URN prefix *)
Lemma decodeURN_plain u0 t : decodeURN u0 (urnPrefix ++ t) = decodePlain u0 t.
Proof.
  unfold decodeURN. rewrite bool_decide_false; [done|].
  change 9%nat with (length urnPrefix). rewrite take_app_length. naive_solver.
Qed.

End uuid_facts.

(** the texts [UnmarshalText] documents for a UUID *)
Definition uuid_texts (u : Uuid.UUID) : list (list Z) :=
  [ Uuid.String_bytes u;
    Uuid.hex_encode u;
    [123] ++ Uuid.String_bytes u ++ [125];
    Uuid.urnPrefix ++ Uuid.String_bytes u;
    Uuid.urnPrefix ++ Uuid.hex_encode u ].

(** every documented text form of a UUID (canonical, hash-like,
    braced, URN) decodes to that UUID, and so does what [String] prints. *)
Theorem uuid_text_roundtrip (u u0 : Uuid.UUID) :
  Uuid.wf_uuid u → length u0 = Uuid.Size →
  Forall (λ t, Uuid.UnmarshalText u0 t = (u, None)) (uuid_texts u) ∧
  Uuid.FromString (Uuid.String u) = (u, None).
Proof.
  intros Hu H0.
  assert (∀ v, length v = Uuid.Size →
    Uuid.UnmarshalText v (Uuid.String_bytes u) = (u, None)) as Hc.
  { intros v Hv. unfold Uuid.UnmarshalText. rewrite length_String_bytes by done.
    by apply decodeCanonical_String. }
  pose proof (length_String_bytes u Hu) as L1. pose proof (length_hex_encode u) as L2.
  rewrite (proj1 Hu) in L2. unfold Uuid.Size in L2. split.
  - unfold uuid_texts, Uuid.UnmarshalText. repeat constructor.
    + by apply Hc.
    + rewrite L2. by apply decodeHashLike_hex.
    + rewrite !length_app, L1. rewrite decodeBraced_plain. by apply decodePlain_canonical.
    + rewrite !length_app, L1, decodeURN_plain. by apply decodePlain_canonical.
    + rewrite !length_app, L2, decodeURN_plain. by apply decodePlain_hex.
  - unfold Uuid.FromString, Uuid.String.
    rewrite bytes_of_string_of_bytes by by apply String_bytes_range. by apply Hc.
Qed.

Lemma uuid_text_roundtrip_witness :
  let u := (λ n, Z.of_nat n * 17) <$> seq 0 16 in
  Forall (λ t, Uuid.UnmarshalText Uuid.Nil t = (u, None)) (uuid_texts u) ∧
  Uuid.FromString (Uuid.String u) = (u, None).
Proof.
  apply uuid_text_roundtrip; [|done]. split; [done|].
  repeat constructor; vm_compute; congruence.
Defined.

Section uuid_bits.
Import Uuid.

Lemma nth_byte_insert_eq i x u : (i < length u)%nat → nth_byte i (<[i := x]> u) = x.
Proof. intros Hi. unfold nth_byte. by rewrite list_lookup_insert_eq. Qed.
Lemma nth_byte_insert_ne i j x u : i ≠ j → nth_byte j (<[i := x]> u) = nth_byte j u.
Proof. intros Hi. unfold nth_byte. by rewrite list_lookup_insert_ne. Qed.
Lemma nth_byte_range i u : Forall in_byte u → in_byte (nth_byte i u).
Proof.
  intros Hu. unfold nth_byte. destruct (u !! i) as [x|] eqn:E; [|done].
  by apply (Forall_lookup_1 _ _ _ _ Hu E).
Qed.

Lemma version_byte v b :
  0 ≤ v < 16 → in_byte b →
  in_byte (version_bits v b) ∧ Z.shiftr (version_bits v b) 4 = v ∧
    Z.land (version_bits v b) 15 = Z.land b 15.
Proof.
  intros Hv Hb.
  pose proof (Zrange_forallb (λ n, bool_decide (
    0 ≤ version_bits (n / 256) (n mod 256) < 256 ∧
    Z.shiftr (version_bits (n / 256) (n mod 256)) 4 = n / 256 ∧
    Z.land (version_bits (n / 256) (n mod 256)) 15 = Z.land (n mod 256) 15)) 4096) as H.
  specialize (H ltac:(by vm_compute) (b + v * 256) ltac:(unfold in_byte in *; lia)).
  apply bool_decide_eq_true_1 in H.
  rewrite Z.mod_add, Z.div_add, (Z.div_small b), (Z.mod_small b), Z.add_0_l in H
    by (unfold in_byte in *; lia).
  apply H.
Qed.

Lemma variant_byte b :
  in_byte b →
  let c := variant_bits (variant_code VariantRFC4122) b in
  in_byte c ∧ (Z.shiftr c 7 =? 0) = false ∧ (Z.shiftr c 6 =? 2) = true ∧
  Z.land c 63 = Z.land b 63.
Proof.
  intros Hb.
  pose proof (Zrange_forallb (λ b,
    bool_decide (0 ≤ variant_bits 1 b < 256) && negb (Z.shiftr (variant_bits 1 b) 7 =? 0) &&
    (Z.shiftr (variant_bits 1 b) 6 =? 2) && (Z.land (variant_bits 1 b) 63 =? Z.land b 63))
    256 ltac:(by vm_compute) b Hb) as H.
  rewrite !andb_true_iff, bool_decide_eq_true, negb_true_iff, Z.eqb_eq in H.
  destruct H as [[[??]?]?]. cbn zeta. change (variant_code _) with 1. unfold in_byte. lia.
Qed.

Lemma SetVersion_wf v u : 0 ≤ v < 16 → wf_uuid u → wf_uuid (SetVersion v u).
Proof.
  intros Hv [Hl Hb]. split; [unfold SetVersion; by rewrite length_insert|].
  unfold SetVersion. apply Forall_insert; [exact Hb|].
  by apply version_byte, nth_byte_range.
Qed.

Lemma String_length u : wf_uuid u → String.length (String u) = 36%nat.
Proof.
  intros Hu. rewrite <- length_bytes_of_string. unfold String.
  rewrite bytes_of_string_of_bytes by by apply String_bytes_range.
  by apply length_String_bytes.
Qed.

Lemma FromString_String u : wf_uuid u → FromString (String u) = (u, None).
Proof.
  intros Hu. unfold FromString, String, UnmarshalText.
  rewrite bytes_of_string_of_bytes by by apply String_bytes_range.
  rewrite length_String_bytes by done. by apply decodeCanonical_String.
Qed.

(** the bytes that [gen] puts the two fields into *)
Lemma NewV4_ok r : wf_uuid r → ∃ u, NewV4 (Some r) = (u, None) ∧ wf_uuid u ∧ Version u = 4.
Proof.
  intros Hr. eexists. split; [done|]. pose proof (SetVersion_wf V4 r ltac:(done) Hr) as [L6 B6].
  destruct (variant_byte _ (nth_byte_range 8 _ B6)) as (Vr & _).
  destruct (version_byte V4 _ ltac:(done) (nth_byte_range 6 r (proj2 Hr))) as (_ & Wv & _).
  split.
  - split; [unfold SetVariant; by rewrite length_insert|]. unfold SetVariant. by apply Forall_insert.
  - unfold Version, SetVariant. rewrite nth_byte_insert_ne by done. unfold SetVersion.
    rewrite nth_byte_insert_eq; [exact Wv|]. rewrite (proj1 Hr). unfold Size. lia.
Qed.

End uuid_bits.

(** C40: [NewV4] on any sixteen random bytes gives a well-formed UUID of
    version 4 and RFC 4122 variant, whose other bits are the random ones, whose
    text has 36 characters (the width of the identifier in a block index
    record), and no other UUID has the same text. *)
Theorem newv4_wellformed (r : list Z) :
  Uuid.wf_uuid r →
  ∃ u, Uuid.NewV4 (Some r) = (u, None) ∧ Uuid.wf_uuid u ∧
    Uuid.Version u = 4 ∧ Uuid.Variant u = Uuid.VariantRFC4122 ∧
    (∀ i, i ≠ 6%nat → i ≠ 8%nat → u !! i = r !! i) ∧
    Z.land (Uuid.nth_byte 6 u) 15 = Z.land (Uuid.nth_byte 6 r) 15 ∧
    Z.land (Uuid.nth_byte 8 u) 63 = Z.land (Uuid.nth_byte 8 r) 63 ∧
    String.length (Uuid.String u) = 36%nat ∧
    (∀ u', Uuid.wf_uuid u' → Uuid.String u' = Uuid.String u → u' = u).
Proof.
  intros Hr. eexists. split; [done|].
  set (r6 := Uuid.SetVersion Uuid.V4 r).
  assert (Uuid.wf_uuid r6) as [L6 B6] by (apply SetVersion_wf; done).
  destruct (variant_byte _ (nth_byte_range 8 r6 B6)) as (Vr & V7 & V6 & Vl).
  destruct (version_byte Uuid.V4 _ ltac:(done) (nth_byte_range 6 r (proj2 Hr))) as (_ & Wv & Wl).
  set (u := Uuid.SetVariant (Uuid.variant_code Uuid.VariantRFC4122) r6).
  assert (Uuid.wf_uuid u) as Hu.
  { split; [unfold u, Uuid.SetVariant; by rewrite length_insert|]. unfold u, Uuid.SetVariant. by apply Forall_insert. }
  assert (Uuid.nth_byte 8 u = Uuid.variant_bits (Uuid.variant_code Uuid.VariantRFC4122) (Uuid.nth_byte 8 r6)) as E8
    by (apply nth_byte_insert_eq; rewrite L6; unfold Uuid.Size; lia).
  assert (Uuid.nth_byte 6 u = Uuid.version_bits Uuid.V4 (Uuid.nth_byte 6 r)) as E6.
  { unfold u, Uuid.SetVariant. rewrite nth_byte_insert_ne by done.
    apply nth_byte_insert_eq. rewrite (proj1 Hr). unfold Uuid.Size. lia. }
  split_and!.
  - done.
  - unfold Uuid.Version. by rewrite E6.
  - unfold Uuid.Variant. by rewrite E8, V7, V6.
  - intros i H6 H8. unfold u, Uuid.SetVariant, r6, Uuid.SetVersion.
    by rewrite !list_lookup_insert_ne.
  - by rewrite E6.
  - rewrite E8, Vl. unfold r6, Uuid.SetVersion. by rewrite nth_byte_insert_ne.
  - by apply String_length.
  - intros u' Hu' E. pose proof (FromString_String u' Hu') as F.
    rewrite E, FromString_String in F by done. congruence.
Qed.

Lemma newv4_wellformed_witness :
  ∃ u, Uuid.NewV4 (Some (replicate 16 255)) = (u, None) ∧ Uuid.wf_uuid u ∧
    Uuid.Version u = 4 ∧ Uuid.Variant u = Uuid.VariantRFC4122 ∧
    (∀ i, i ≠ 6%nat → i ≠ 8%nat → u !! i = replicate 16 255 !! i) ∧
    Z.land (Uuid.nth_byte 6 u) 15 = Z.land (Uuid.nth_byte 6 (replicate 16 255)) 15 ∧
    Z.land (Uuid.nth_byte 8 u) 63 = Z.land (Uuid.nth_byte 8 (replicate 16 255)) 63 ∧
    String.length (Uuid.String u) = 36%nat ∧
    (∀ u', Uuid.wf_uuid u' → Uuid.String u' = Uuid.String u → u' = u).
Proof.
  apply newv4_wellformed. split; [done|]. repeat constructor; vm_compute; congruence.
Defined.
