(* ===== verification/Hashes.v ===== *)
(** * Hashes and random integers: the rest of [util/bytes.go]

    [crypto/md5] of Go, as RFC 1321 defines it, and the functions that shorten its
    digests to integers or write them as text. *)

From S2P Require Import Prelude Bytes Base64 Uuid GoStrings.

(** ** [crypto/md5] *)

Module Md5.

(** [2^32] times the sines of 1 to 64 *)
Definition sines : list Z :=
  [0xd76aa478; 0xe8c7b756; 0x242070db; 0xc1bdceee; 0xf57c0faf; 0x4787c62a; 0xa8304613; 0xfd469501;
   0x698098d8; 0x8b44f7af; 0xffff5bb1; 0x895cd7be; 0x6b901122; 0xfd987193; 0xa679438e; 0x49b40821;
   0xf61e2562; 0xc040b340; 0x265e5a51; 0xe9b6c7aa; 0xd62f105d; 0x02441453; 0xd8a1e681; 0xe7d3fbc8;
   0x21e1cde6; 0xc33707d6; 0xf4d50d87; 0x455a14ed; 0xa9e3e905; 0xfcefa3f8; 0x676f02d9; 0x8d2a4c8a;
   0xfffa3942; 0x8771f681; 0x6d9d6122; 0xfde5380c; 0xa4beea44; 0x4bdecfa9; 0xf6bb4b60; 0xbebfbc70;
   0x289b7ec6; 0xeaa127fa; 0xd4ef3085; 0x04881d05; 0xd9d4d039; 0xe6db99e5; 0x1fa27cf8; 0xc4ac5665;
   0xf4292244; 0x432aff97; 0xab9423a7; 0xfc93a039; 0x655b59c3; 0x8f0ccc92; 0xffeff47d; 0x85845dd1;
   0x6fa87e4f; 0xfe2ce6e0; 0xa3014314; 0x4e0811a1; 0xf7537e82; 0xbd3af235; 0x2ad7d2bb; 0xeb86d391].
Definition shifts : list Z :=
  let round s := mjoin (repeat s 4) in
  round [7; 12; 17; 22] ++ round [5; 9; 14; 20] ++ round [4; 11; 16; 23] ++ round [6; 10; 15; 21].

Definition rotl (x n : Z) : Z := u32 (Z.lor (Z.shiftl x n) (Z.shiftr x (32 - n))).
Definition not32 (x : Z) : Z := Z.lxor x (Z.ones 32).

(** the function of the step and the word that it takes *)
Definition mix (i : nat) (b c d : Z) : Z * nat :=
  if bool_decide (i < 16)%nat then (Z.lor (Z.land b c) (Z.land (not32 b) d), i)
  else if bool_decide (i < 32)%nat then (Z.lor (Z.land d b) (Z.land (not32 d) c), ((5 * i + 1) `mod` 16)%nat)
  else if bool_decide (i < 48)%nat then (Z.lxor b (Z.lxor c d), ((3 * i + 5) `mod` 16)%nat)
  else (Z.lxor c (Z.lor b (not32 d)), ((7 * i) `mod` 16)%nat).

Definition state : Type := Z * Z * Z * Z.
Definition step (words : list Z) (st : state) (i : nat) : state :=
  let '(a, b, c, d) := st in
  let '(f, g) := mix i b c d in
  let s := u32 (a + f + default 0 (sines !! i) + default 0 (words !! g)) in
  (d, u32 (b + rotl s (default 0 (shifts !! i))), b, c).

(** integers of four bytes, the lowest first *)
Fixpoint le_words (bs : list Z) : list Z :=
  match bs with b0 :: b1 :: b2 :: b3 :: t => (b0 + b1 * 2 ^ 8 + b2 * 2 ^ 16 + b3 * 2 ^ 24) :: le_words t | _ => [] end.
Definition le_bytes (n : nat) (v : Z) : list Z := (λ i, u8 (Z.shiftr v (8 * Z.of_nat i))) <$> seq 0 n.

Definition block (st : state) (bs : list Z) : state :=
  let '(a, b, c, d) := st in
  let '(a', b', c', d') := foldl (step (le_words bs)) st (seq 0 64) in
  (u32 (a + a'), u32 (b + b'), u32 (c + c'), u32 (d + d')).

(** the message, a bit, zeros and its length fill blocks of 64 bytes *)
Definition padded (bs : list Z) : list Z :=
  bs ++ [128] ++ repeat 0 (Z.to_nat ((55 - lenZ bs) mod 64)) ++ le_bytes 8 (8 * lenZ bs).
Fixpoint blocks (n : nat) (bs : list Z) (st : state) : state :=
  match n with O => st | S n => blocks n (drop 64 bs) (block st (take 64 bs)) end.

Definition initial : state := (0x67452301, 0xefcdab89, 0x98badcfe, 0x10325476).
Definition Sum (bs : list Z) : list Z :=
  let p := padded bs in
  let '(a, b, c, d) := blocks (length p / 64) p initial in
  le_bytes 4 a ++ le_bytes 4 b ++ le_bytes 4 c ++ le_bytes 4 d.
End Md5.

Example md5_empty : Md5.Sum [] = [212; 29; 140; 217; 143; 0; 178; 4; 233; 128; 9; 152; 236; 248; 66; 126].
Proof. by vm_compute. Qed.
Example md5_rhosus : Md5.Sum (bytes_of_string "rhosus") = [15; 246; 220; 208; 37; 212; 117; 78; 200; 236; 121; 100; 202; 46; 7; 131].
Proof. by vm_compute. Qed.
Example md5_two_blocks : Md5.Sum (repeat 97 64) = [1; 72; 66; 212; 128; 181; 113; 73; 90; 74; 3; 99; 121; 63; 115; 103].
Proof. by vm_compute. Qed.

(** ** [util/bytes.go] *)

(** [v += int64(b[0]); v <<= 8; ...] over the first [n] bytes, in [w] bits *)
Definition fold_bytes (wrap : Z → Z) (bs : list Z) : Z := foldl (λ v b, wrap (wrap (v * 2 ^ 8) + b)) 0 bs.

Definition HashStringToLong (dir : string) : Z := fold_bytes i64 (take 8 (Md5.Sum (bytes_of_string dir))).
Definition HashToInt32 (data : list Z) : Z := fold_bytes i32 (take 4 (Md5.Sum data)).

Definition Md5_of (data : list Z) : list Z := Md5.Sum data.
Definition Base64Md5 (data : list Z) : string := Base64Encode (Md5_of data).
Definition Md5String (data : list Z) : string := string_of_bytes (Uuid.hex_encode (Md5_of data)).
(** nil on an error *)
Definition Base64Md5ToBytes (contentMd5 : string) : list Z :=
  let '(data, ok) := Base64Decode contentMd5 in if ok then data else [].

(** [rand.Read] into a buffer: an error, which is dropped, leaves zeros *)
Definition RandomBytes (random : option (list Z)) (byteCount : nat) : list Z := default (repeat 0 byteCount) random.
Definition RandomInt32 (random : option (list Z)) : result unit Z :=
  v ← Util.BytesToUint32 (RandomBytes random 4); Ok (i32 v).

(** [util/fullpath.go]: the converted hash *)
Definition AsInode (fp : string) : Z := u64 (HashStringToLong fp).

(** ** Facts *)

Lemma length_padded bs : (length (Md5.padded bs) `mod` 64 = 0)%nat.
Proof.
  unfold Md5.padded. rewrite !length_app, repeat_length. unfold Md5.le_bytes. rewrite length_fmap, length_seq. cbn [length].
  apply Nat2Z.inj. rewrite Nat2Z.inj_mod, !Nat2Z.inj_add, Z2Nat.id by (apply Z.mod_pos_bound; lia).
  pose proof (Z.div_mod (55 - lenZ bs) 64 ltac:(lia)).
  replace (lenZ bs + (Z.of_nat 1 + ((55 - lenZ bs) mod 64 + Z.of_nat 8))) with ((1 - (55 - lenZ bs) / 64) * 64) by lia.
  apply Z.mod_mul. lia.
Qed.

Lemma length_Sum bs : length (Md5.Sum bs) = 16%nat.
Proof. unfold Md5.Sum. by destruct (Md5.blocks _ _ _) as [[[]]]. Qed.

Lemma Sum_range bs : Forall in_byte (Md5.Sum bs).
Proof.
  assert (∀ n v, Forall in_byte (Md5.le_bytes n v)) as Hb.
  { intros n v. apply Forall_fmap, Forall_forall. intros i _. unfold compose, in_byte, u8. by apply Z.mod_pos_bound. }
  unfold Md5.Sum. destruct (Md5.blocks _ _ _) as [[[]]]. by repeat (apply Forall_app; split).
Qed.

Lemma u64_i64_step v b : u64 (i64 (i64 (v * 2 ^ 8) + b)) = u64 (v * 2 ^ 8 + b).
Proof.
  unfold u64, i64. rewrite Zminus_mod_idemp_l. 
  replace ((v * 2 ^ 8 + 2 ^ 63) mod 2 ^ 64 - 2 ^ 63 + b + 2 ^ 63 - 2 ^ 63) with ((v * 2 ^ 8 + 2 ^ 63) mod 2 ^ 64 + (b - 2 ^ 63)) by lia.
  rewrite Zplus_mod_idemp_l. f_equal. lia.
Qed.

Lemma fold_bytes_value bs v : u64 (foldl (λ v b, i64 (i64 (v * 2 ^ 8) + b)) v bs) = u64 (Util.be_value bs v).
Proof.
  revert v. induction bs as [|b bs IH]; intros v; [done|]. cbn [foldl Util.be_value]. rewrite IH.
  unfold u64. rewrite <- be_value_mod. fold (u64 (i64 (i64 (v * 2 ^ 8) + b))). rewrite u64_i64_step. unfold u64. apply be_value_mod.
Qed.

(** the inode of a path is what the conversion of [util/bytes.go] reads from the
    first half of its digest *)
Lemma AsInode_value (fp : string) : Util.BytesToUint64 (take 8 (Md5.Sum (bytes_of_string fp))) = Ok (AsInode fp).
Proof.
  rewrite BytesToUint64_value.
  - f_equal. unfold AsInode, HashStringToLong, fold_bytes. by rewrite fold_bytes_value.
  - intros E. apply (f_equal length) in E. by rewrite length_take, length_Sum in E.
Qed.
