(* ===== verification/ConsistentIndex.v ===== *)
(** * The consistent index of a key: [src/rhosus/util/consistent_index.go]

    [ConsistentIndex] hashes a key and jumps through the nodes: each jump multiplies
    the number of the node by a quotient of two float64 numbers.  A [float64] is a
    mantissa and an exponent; [nearest] rounds a quotient to 53 bits, ties to even, as
    IEEE 754 does within the range of normal numbers, where all numbers of the loop
    lie. *)

From S2P Require Import Prelude.

(** ** [hash/fnv], 64 bits, variant 1a *)

Definition fnv64a (bytes : list Z) : Z :=
  foldl (λ h b, u64 (Z.lxor h b * 1099511628211)) 14695981039346656037 bytes.

(** ** float64 *)

Record float64 := mkFloat { mantissa : Z; exponent : Z }.

(** [2 ^ e] is [up e / dn e] *)
Definition up (e : Z) : Z := 2 ^ Z.max 0 e.
Definition dn (e : Z) : Z := 2 ^ Z.max 0 (- e).

(** the integer nearest to [a / b], the even one of two *)
Definition round_even (a b : Z) : Z :=
  let q := a / b in
  let r := a mod b in
  if 2 * r <? b then q else if b <? 2 * r then q + 1 else if Z.even q then q else q + 1.

(** the exponent [e] with [2 ^ e <= p / q < 2 ^ (e + 1)] *)
Definition magnitude (p q : Z) : Z :=
  let e := Z.log2 p - Z.log2 q in
  if q * up e <=? p * dn e then e else e - 1.

Definition nearest (p q : Z) : float64 :=
  let e := magnitude (Z.abs p) q - 52 in
  mkFloat (Z.sgn p * round_even (Z.abs p * dn e) (q * up e)) e.

Definition of_int (z : Z) : float64 := nearest z 1.
Definition fmul (x y : float64) : float64 :=
  nearest (mantissa x * mantissa y * up (exponent x) * up (exponent y)) (dn (exponent x) * dn (exponent y)).
(** by a positive number *)
Definition fdiv (x y : float64) : float64 :=
  nearest (mantissa x * up (exponent x) * dn (exponent y)) (mantissa y * dn (exponent x) * up (exponent y)).

(** [int64(x)]; what a number out of range becomes depends on the machine *)
Definition to_int64 (overflow : Z) (x : float64) : Z :=
  let z := Z.quot (mantissa x * up (exponent x)) (dn (exponent x)) in
  if (- 2 ^ 63 <=? z) && (z <? 2 ^ 63) then z else overflow.

(** ** The jumps *)

Section jump.
Context (overflow : Z).

Definition next_key (key : Z) : Z := u64 (key * 2862933555777941757 + 1).
Definition next_jump (b key : Z) : Z :=
  to_int64 overflow (fmul (of_int (i64 (b + 1))) (fdiv (of_int (Z.shiftl 1 31)) (of_int (Z.shiftr key 33 + 1)))).

Fixpoint jump (fuel : nat) (nodesCount b j key : Z) : option Z :=
  if j <? nodesCount then
    match fuel with
    | O => None
    | S fuel' => let key := next_key key in jump fuel' nodesCount j (next_jump j key) key
    end
  else Some b.

(** [None] when [fuel] turns are not enough *)
Definition ConsistentIndex (fuel : nat) (s : string) (nodesCount : Z) : option Z :=
  jump fuel nodesCount (-1) 0 (fnv64a (bytes_of_string s)).
End jump.

(** ** Rounding *)

Lemma up_dn_pos e : 0 < up e ∧ 0 < dn e.
Proof. split; apply Z.pow_pos_nonneg; lia. Qed.
Lemma up_pos e : 0 ≤ e → up e = 2 ^ e ∧ dn e = 1.
Proof. intros He. unfold up, dn. by rewrite Z.max_r, Z.max_l by lia. Qed.
Lemma up_neg e : e ≤ 0 → up e = 1 ∧ dn e = 2 ^ (- e).
Proof. intros He. unfold up, dn. by rewrite Z.max_l, Z.max_r by lia. Qed.

(** an integer on one side of a quotient is on the same side of its rounding *)
Lemma round_even_ge a b c : 0 < b → c * b ≤ a → c ≤ round_even a b.
Proof.
  intros Hb Hc. unfold round_even. assert (c ≤ a / b) by (apply Z.div_le_lower_bound; lia).
  repeat case_match; lia.
Qed.
Lemma round_even_le a b c : 0 < b → a ≤ c * b → round_even a b ≤ c.
Proof.
  intros Hb Hc. unfold round_even. pose proof (Z.div_mod a b ltac:(lia)) as E. pose proof (Z.mod_pos_bound a b Hb) as Hr.
  assert (a / b ≤ c) as Hle by (apply Z.div_le_upper_bound; lia).
  destruct (Z.eq_dec (a / b) c) as [Hq|Hq]; [|repeat case_match; lia]. rewrite Hq in E |- *.
  assert (a mod b = 0) as -> by lia. rewrite (proj2 (Z.ltb_lt (2 * 0) b)) by lia. lia.
Qed.

Lemma magnitude_le p q : 0 < p → 0 < q → 0 ≤ magnitude p q → q * 2 ^ magnitude p q ≤ p.
Proof.
  intros Hp Hq. unfold magnitude. set (e := Z.log2 p - Z.log2 q).
  destruct (Z.leb_spec (q * up e) (p * dn e)) as [Hle|Hlt]; intros He.
  - rewrite (proj1 (up_pos e He)), (proj2 (up_pos e He)) in Hle. lia.
  - pose proof (Z.log2_spec p Hp) as [Hlo _]. pose proof (Z.log2_spec q Hq) as [_ Hhi].
    assert (q * 2 ^ (e - 1) < 2 ^ Z.log2 p); [|lia].
    pose proof (Z.log2_nonneg q). replace (2 ^ Z.log2 p) with (2 ^ Z.succ (Z.log2 q) * 2 ^ (e - 1)) by (rewrite <- Z.pow_add_r by lia; f_equal; unfold e; lia).
    apply Z.mul_lt_mono_pos_r; [apply Z.pow_pos_nonneg; lia|done].
Qed.

(** [x] is at least, at most an integer *)
Definition at_least (g : Z) (x : float64) : Prop := g * dn (exponent x) ≤ mantissa x * up (exponent x).
Definition at_most (g : Z) (x : float64) : Prop := mantissa x * up (exponent x) ≤ g * dn (exponent x).

(** integers of 53 bits, shifted or not, are numbers themselves *)
Lemma nearest_ge p q g : 0 < p → 0 < q → 0 ≤ g ≤ 2 ^ 53 → g * q ≤ p → at_least g (nearest p q).
Proof.
  intros Hp Hq Hg Hle. unfold at_least, nearest. cbn [mantissa exponent]. rewrite Z.abs_eq, Z.sgn_pos, Z.mul_1_l by lia.
  set (e := magnitude p q - 52). destruct (Z.le_gt_cases e 0) as [He|He].
  - destruct (up_neg e He) as [-> ->]. assert (0 < 2 ^ (- e)) by (apply Z.pow_pos_nonneg; lia).
    rewrite !Z.mul_1_r. apply round_even_ge; [done|]. nia.
  - destruct (up_pos e ltac:(lia)) as [-> ->]. assert (2 ≤ 2 ^ e) as H2 by (change 2 with (2 ^ 1) at 1; apply Z.pow_le_mono_r; lia).
    assert (2 ^ 52 ≤ round_even (p * 1) (q * 2 ^ e)); [|nia]. apply round_even_ge; [nia|]. rewrite Z.mul_1_r.
    pose proof (magnitude_le p q Hp Hq ltac:(lia)) as Hm. replace (magnitude p q) with (52 + e) in Hm by lia.
    rewrite Z.pow_add_r in Hm by lia. lia.
Qed.

Lemma nearest_le p q g t : 0 < p → 0 < q → 0 ≤ t → (2 ^ t | g) → g < 2 ^ (t + 53) → p ≤ g * q → at_most g (nearest p q).
Proof.
  intros Hp Hq Ht Hdiv Hg Hle. unfold at_most, nearest. cbn [mantissa exponent]. rewrite Z.abs_eq, Z.sgn_pos, Z.mul_1_l by lia.
  set (e := magnitude p q - 52). destruct (Z.le_gt_cases e 0) as [He|He].
  - destruct (up_neg e He) as [-> ->]. assert (0 < 2 ^ (- e)) by (apply Z.pow_pos_nonneg; lia).
    rewrite !Z.mul_1_r. apply round_even_le; [done|]. nia.
  - destruct (up_pos e ltac:(lia)) as [-> ->]. assert (0 < 2 ^ e) by (apply Z.pow_pos_nonneg; lia).
    assert (e ≤ t) as Het.
    { pose proof (magnitude_le p q Hp Hq ltac:(lia)) as Hm. assert (2 ^ magnitude p q < 2 ^ (t + 53)) as Hlt by nia.
      apply Z.pow_lt_mono_r_iff in Hlt; lia. }
    destruct Hdiv as [k ->]. replace t with ((t - e) + e) by lia. rewrite Z.pow_add_r by lia. set (h := 2 ^ (t - e)).
    replace (2 ^ t) with (h * 2 ^ e) in Hle by (unfold h; rewrite <- Z.pow_add_r by lia; f_equal; lia).
    rewrite Z.mul_1_r. replace (k * (h * 2 ^ e) * 1) with (k * h * 2 ^ e) by ring.
    apply Z.mul_le_mono_nonneg_r; [lia|]. apply round_even_le; nia.
Qed.

(** the integers of the loop are exact *)
Lemma of_int_exact n : 0 < n ≤ 2 ^ 32 → at_least n (of_int n) ∧ at_most n (of_int n).
Proof.
  intros Hn. split.
  - apply nearest_ge; lia.
  - apply (nearest_le n 1 n 0); [lia|lia|lia|apply Z.divide_1_l|change (2 ^ (0 + 53)) with (2 ^ 53); lia|lia].
Qed.

(** a positive number *)
Lemma at_least_pos x g : 0 < g → at_least g x → 0 < mantissa x.
Proof. unfold at_least. destruct (up_dn_pos (exponent x)). nia. Qed.

Lemma fdiv_bounds k : 1 ≤ k ≤ 2 ^ 31 → let x := fdiv (of_int (2 ^ 31)) (of_int k) in at_least 1 x ∧ at_most (2 ^ 31) x.
Proof.
  intros Hk. cbv zeta. destruct (of_int_exact (2 ^ 31) ltac:(lia)) as [A1 A2]. destruct (of_int_exact k ltac:(lia)) as [B1 B2].
  pose proof (at_least_pos _ (2 ^ 31) ltac:(lia) A1) as Pa. pose proof (at_least_pos _ k ltac:(lia) B1) as Pb.
  unfold at_least, at_most, fdiv in *. set (x := of_int (2 ^ 31)) in *. set (y := of_int k) in *.
  destruct (up_dn_pos (exponent x)) as [ux dx]. destruct (up_dn_pos (exponent y)) as [uy dy].
  set (a := mantissa x * up (exponent x)) in *. set (b := mantissa y * up (exponent y)) in *.
  replace (mantissa y * dn (exponent x) * up (exponent y)) with (b * dn (exponent x)) by (unfold b; ring).
  assert (0 < a) by (unfold a; nia). assert (0 < b) by (unfold b; nia).
  assert (a = 2 ^ 31 * dn (exponent x)) as Ea by lia. assert (b = k * dn (exponent y)) as Eb by lia.
  split.
  - apply nearest_ge; [nia..|lia|]. rewrite Ea, Eb. nia.
  - apply (nearest_le _ _ (2 ^ 31) 31); [nia..|lia|by exists 1|lia|]. rewrite Ea, Eb. nia.
Qed.

Lemma fmul_bounds n y : 0 < n < 2 ^ 32 → at_least 1 y → at_most (2 ^ 31) y →
  at_least n (fmul (of_int n) y) ∧ at_most (n * 2 ^ 31) (fmul (of_int n) y).
Proof.
  intros Hn Hlo Hhi. destruct (of_int_exact n ltac:(lia)) as [A1 A2].
  unfold at_least, at_most, fmul in *. set (x := of_int n) in *.
  destruct (up_dn_pos (exponent x)) as [_ dx]. destruct (up_dn_pos (exponent y)) as [_ dy].
  set (dX := dn (exponent x)) in *. set (dY := dn (exponent y)) in *.
  set (b := mantissa y * up (exponent y)) in *.
  replace (mantissa x * mantissa y * up (exponent x) * up (exponent y)) with (n * dX * b).
  2:{ unfold b. replace (n * dX) with (mantissa x * up (exponent x)) by lia. ring. }
  assert (0 < b) by lia. split.
  - apply nearest_ge; [nia|nia|lia|]. nia.
  - apply (nearest_le _ _ (n * 2 ^ 31) 31); [nia|nia|lia|by exists n|lia|]. nia.
Qed.

Lemma to_int64_bounds overflow g h x : 0 ≤ g → h < 2 ^ 63 → at_least g x → at_most h x → g ≤ to_int64 overflow x ≤ h.
Proof.
  unfold at_least, at_most, to_int64. intros Hg Hh Hlo Hhi. destruct (up_dn_pos (exponent x)) as [_ Hd].
  set (z := mantissa x * up (exponent x)) in *. rewrite Z.quot_div_nonneg by nia.
  assert (g ≤ z / dn (exponent x)) by (apply Z.div_le_lower_bound; lia).
  assert (z / dn (exponent x) ≤ h) by (apply Z.div_le_upper_bound; lia).
  rewrite (proj2 (Z.leb_le _ _)), (proj2 (Z.ltb_lt _ _)) by lia. cbn [andb]. lia.
Qed.

Lemma next_key_range key : in_u64 (next_key key).
Proof. apply u64_range. Qed.

(** a jump goes forward, at most by the factor 2^31 *)
Lemma next_jump_bounds overflow b key : 0 ≤ b < 2 ^ 32 - 1 → in_u64 key → b + 1 ≤ next_jump overflow b key ≤ (b + 1) * 2 ^ 31.
Proof.
  intros Hb Hk. unfold next_jump. rewrite i64_small by lia.
  assert (1 ≤ Z.shiftr key 33 + 1 ≤ 2 ^ 31) as Hs.
  { unfold in_u64 in Hk. rewrite Z.shiftr_div_pow2 by lia. pose proof (Z.div_pos key (2 ^ 33) ltac:(lia) ltac:(lia)).
    pose proof (Z.div_lt_upper_bound key (2 ^ 33) (2 ^ 31) ltac:(lia) ltac:(lia)). lia. }
  destruct (fdiv_bounds _ Hs) as [Hlo Hhi]. change (Z.shiftl 1 31) with (2 ^ 31).
  destruct (fmul_bounds (b + 1) _ ltac:(lia) Hlo Hhi) as [? ?]. apply to_int64_bounds; [lia..|done|done].
Qed.

(** ** The loop *)

Section loop.
Context (overflow : Z).
Local Abbreviation jump := (jump overflow).

(** it ends after at most as many turns as there are nodes, at the last jump below their number *)
Lemma jump_ok fuel n b j key : 0 ≤ n < 2 ^ 32 → -1 ≤ b < n → 0 ≤ j → n - j ≤ Z.of_nat fuel →
  ∃ r, jump fuel n b j key = Some r ∧ r < n ∧ (n ≤ j → r = b) ∧ (j < n → j ≤ r).
Proof using.
  intros Hn. revert b j key. induction fuel as [|fuel IH]; intros b j key Hb Hj Hf; cbn [ConsistentIndex.jump];
    destruct (Z.ltb_spec j n) as [Hlt|Hge]; [lia|exists b; by split_and!; try lia| |exists b; by split_and!; try lia].
  destruct (next_jump_bounds overflow j (next_key key) ltac:(lia) (next_key_range key)) as [Hnext _].
  destruct (IH j (next_jump overflow j (next_key key)) (next_key key)) as (r & E & Hr & Hend & Hmore); [lia..|].
  exists r. split_and!; [exact E|exact Hr|lia|]. intros _. destruct (Z.le_gt_cases n (next_jump overflow j (next_key key))) as [Hle|Hlt']; [rewrite Hend by done; lia|].
  specialize (Hmore Hlt'). lia.
Qed.

Lemma jump_grows fuel n m b j key r r' : 0 ≤ n ≤ m → m < 2 ^ 32 → -1 ≤ b < n → 0 ≤ j → m - j ≤ Z.of_nat fuel →
  jump fuel n b j key = Some r → jump fuel m b j key = Some r' → r' = r ∨ n ≤ r' < m.
Proof using.
  intros Hn Hm. revert b j key. induction fuel as [|fuel IH]; intros b j key Hb Hj Hf E E';
    (destruct (jump_ok _ m b j key ltac:(lia) ltac:(lia) Hj Hf) as (q & Eq & Hq & Hend & Hmore));
    rewrite E' in Eq; injection Eq as <-; cbn [ConsistentIndex.jump] in E, E'.
  - destruct (Z.ltb_spec j n); [lia|]. rewrite (proj2 (Z.ltb_ge _ _)) in E' by lia. left. congruence.
  - destruct (Z.ltb_spec j n) as [Hlt|Hge].
    + rewrite (proj2 (Z.ltb_lt _ _)) in E' by lia.
      destruct (next_jump_bounds overflow j (next_key key) ltac:(lia) (next_key_range key)) as [Hnext _].
      eapply (IH _ _ _); [| | |exact E|exact E']; lia.
    + injection E as <-. destruct (Z.le_gt_cases m j) as [Hmj|Hmj]; [left; by apply Hend|right]. specialize (Hmore Hmj). lia.
Qed.
End loop.

(** ** The theorem *)

(** C36: [ConsistentIndex] ends after at most as many turns as there are nodes, with a
    number below theirs; when nodes are added, a key stays where it is or goes to one
    of the new nodes. *)
Theorem only_new_nodes_take_keys (overflow : Z) (s : string) (n m : Z) (fuel : nat) :
  0 < n → n ≤ m → m < 2 ^ 32 → m ≤ Z.of_nat fuel →
  ∃ i i', ConsistentIndex overflow fuel s n = Some i ∧ ConsistentIndex overflow fuel s m = Some i' ∧
    0 ≤ i < n ∧ (i' = i ∨ n ≤ i' < m).
Proof.
  intros Hn Hnm Hm Hf. unfold ConsistentIndex. set (key := fnv64a (bytes_of_string s)).
  destruct (jump_ok overflow fuel n (-1) 0 key) as (i & E & Hi & _ & Hpos); [lia..|].
  destruct (jump_ok overflow fuel m (-1) 0 key) as (i' & E' & _); [lia..|].
  exists i, i'. split_and!; [exact E|exact E'|lia|lia|].
  apply (jump_grows overflow fuel n m (-1) 0 key); [lia..|exact E|exact E'].
Qed.

(** a few values of the code: without nodes, with one, and a key that moves to the new node *)
Example fnv_a : fnv64a [97] = 12638187200555641996.
Proof. reflexivity. Qed.
Example third : nearest 1 3 = mkFloat 6004799503160661 (-54).
Proof. reflexivity. Qed.
Example indexes : (λ n, ConsistentIndex 0 9 "rhosus" n) <$> [-1; 0; 1; 2; 3; 4; 5; 6; 7; 8] =
  [Some (-1); Some (-1); Some 0; Some 1; Some 1; Some 1; Some 1; Some 1; Some 1; Some 1].
Proof. vm_compute. reflexivity. Qed.

Lemma only_new_nodes_take_keys_witness : ∃ i i',
  ConsistentIndex 0 9 "rhosus" 4 = Some i ∧ ConsistentIndex 0 9 "rhosus" 9 = Some i' ∧ 0 ≤ i < 4 ∧ (i' = i ∨ 4 ≤ i' < 9).
Proof. apply (only_new_nodes_take_keys 0 "rhosus" 4 9 9); lia. Defined.
