(* ===== verification/Readers.v ===== *)
(** * Readers and checksums: [util/ioutil], [util/crc]

    A reader fills a buffer of the length that it is given: it gives the bytes read
    and an error, which is [EOF] at the end. *)

From S2P Require Import Prelude.

Inductive read_error := EOF | ErrShortRead | ErrExpectEOF | ReadFailed.
#[export] Instance read_error_eq_dec : EqDecision read_error.
Proof. solve_decision. Defined.

Definition reader (S : Type) : Type := nat → S → (list Z * option read_error) * S.

(** [io.ReadAll]: the buffer has [room n] free bytes when [n] are read; [None] when
    the reader goes on for more than [fuel] reads *)
Fixpoint ReadAll {S} (room : nat → nat) (rd : reader S) (fuel : nat) (b : list Z) (s : S) : option ((list Z * option read_error) * S) :=
  match fuel with
  | O => None
  | S fuel =>
      match rd (room (length b)) s with
      | ((bs, None), s) => ReadAll room rd fuel (b ++ bs) s
      | ((bs, Some e), s) => Some ((b ++ bs, if bool_decide (e = EOF) then None else Some e), s)
      end
  end.

(** ** [read_closer.go] *)

Section exact.
Context {S : Type} (rc : reader S) (close : S → option read_error * S).

(** [br] bytes were read so far *)
Record exactReadCloser := mkExact { inner : S; br : Z; totalBytes : Z }.

Definition NewExactReadCloser (s : S) (totalBytes : Z) : exactReadCloser := mkExact s 0 totalBytes.

Definition exact_Read : reader exactReadCloser := λ p e,
  let '((bs, err), s) := rc p (inner e) in
  let e := mkExact s (br e + lenZ bs) (totalBytes e) in
  if totalBytes e <? br e then (([], Some ErrExpectEOF), e)
  else if (br e <? totalBytes e) && (lenZ bs =? 0) then (([], Some ErrShortRead), e)
  else ((bs, err), e).

Definition exact_Close (e : exactReadCloser) : option read_error * exactReadCloser :=
  let '(err, s) := close (inner e) in
  let e := mkExact s (br e) (totalBytes e) in
  match err with
  | Some er => (Some er, e)
  | None => (if br e <? totalBytes e then Some ErrShortRead else None, e)
  end.
End exact.
Arguments exactReadCloser : clear implicits.

(** ** [reader.go] *)

Definition limited_Read {S} (r : reader S) (n : nat) : reader S := λ p, r (Nat.min p n).

(** ** [crc.go] *)

Record digest := mkDigest { crc : Z; tab : list Z }.
Definition crc_New (prev : Z) (tab : list Z) : digest := mkDigest prev tab.
Definition crc_Reset (d : digest) : digest := mkDigest 0 (tab d).

Definition inv32 (x : Z) : Z := Z.lxor x (Z.ones 32).
(** [crc32.Update]: one byte, and the slice *)
Definition crc_byte (tab : list Z) (c v : Z) : Z := Z.lxor (default 0 (tab !! Z.to_nat (Z.lxor (u8 c) v))) (Z.shiftr c 8).
Definition crc_Update (c : Z) (tab p : list Z) : Z := inv32 (foldl (crc_byte tab) (inv32 c) p).

Definition crc_Write (p : list Z) (d : digest) : digest := mkDigest (crc_Update (crc d) (tab d) p) (tab d).
Definition Sum32 (d : digest) : Z := crc d.
Definition crc_Sum (b : list Z) (d : digest) : list Z :=
  let s := Sum32 d in b ++ [u8 (Z.shiftr s 24); u8 (Z.shiftr s 16); u8 (Z.shiftr s 8); u8 s].

(** ** Facts *)

(** a digest does not depend on how the bytes are cut into writes *)
Lemma crc_Write_app p q d : crc_Write (p ++ q) d = crc_Write q (crc_Write p d).
Proof.
  unfold crc_Write, crc_Update. cbn. rewrite foldl_app. f_equal.
  set (x := foldl (crc_byte (tab d)) (inv32 (crc d)) p). unfold inv32 at 4. unfold inv32 at 3.
  rewrite Z.lxor_assoc, Z.lxor_nilpotent, Z.lxor_0_r. done.
Qed.

(** the pieces of a stream, none of them empty *)
Definition read_chunks : reader (list (list Z)) := λ p cs,
  match cs with
  | [] => (([], Some EOF), [])
  | c :: cs => if bool_decide (length c ≤ p)%nat then ((c, None), cs) else ((take p c, None), drop p c :: cs)
  end.

Lemma exact_step p (e : exactReadCloser (list (list Z))) : (0 < p)%nat → Forall (λ c, c ≠ []) (inner e) → br e ≤ totalBytes e →
  match inner e with
  | [] => (exact_Read read_chunks p e).1 = ([], Some (if br e <? totalBytes e then ErrShortRead else EOF))
  | _ => ∃ bs rest, bs ≠ [] ∧ read_chunks p (inner e) = ((bs, None), rest) ∧ Forall (λ c, c ≠ []) rest ∧
      mjoin (inner e) = bs ++ mjoin rest ∧
      exact_Read read_chunks p e =
        (if totalBytes e <? br e + lenZ bs then ([], Some ErrExpectEOF) else (bs, None), mkExact rest (br e + lenZ bs) (totalBytes e))
  end.
Proof.
  intros Hp Hne Hbr. destruct e as [[|c cs] n total]; cbn [inner br totalBytes] in *.
  - unfold exact_Read. cbn. rewrite Z.add_0_r. destruct (total <? n) eqn:E; [lia|]. by destruct (n <? total).
  - apply Forall_cons in Hne as [Hc Hcs].
    assert (∃ bs rest, bs ≠ [] ∧ read_chunks p (c :: cs) = ((bs, None), rest) ∧ Forall (λ c, c ≠ []) rest ∧ mjoin (c :: cs) = bs ++ mjoin rest)
      as (bs & rest & Hbs & E & Hrest & Hj).
    { cbn. case_bool_decide as Hl; [by exists c, cs|]. exists (take p c), (drop p c :: cs). split_and!.
      - destruct c; [done|]. destruct p; [lia|done].
      - done.
      - constructor; [|done]. intros E. apply (f_equal length) in E. rewrite length_drop in E. cbn in E. lia.
      - cbn. by rewrite app_assoc, take_drop. }
    exists bs, rest. split_and!; [done..|]. unfold exact_Read. cbn [inner]. rewrite E. cbn [br totalBytes].
    destruct (total <? n + lenZ bs); [done|]. destruct (lenZ bs =? 0) eqn:E0; [|by rewrite andb_false_r].
    destruct bs; [done|]. done.
Qed.

(** reading everything through an exact reader succeeds exactly when the stream has
    the length that was asked for, and then gives its bytes *)
Lemma exact_ReadAll room (e : exactReadCloser (list (list Z))) b fuel :
  (∀ n, 0 < room n)%nat → Forall (λ c, c ≠ []) (inner e) → br e = lenZ b → br e ≤ totalBytes e →
  (length (mjoin (inner e)) < fuel)%nat →
  ∃ data err e', ReadAll room (exact_Read read_chunks) fuel b e = Some ((data, err), e') ∧
    (err = None ↔ lenZ (b ++ mjoin (inner e)) = totalBytes e) ∧ (err = None → data = b ++ mjoin (inner e)).
Proof.
  intros Hroom. revert e b. induction fuel as [|fuel IH]; intros e b Hne Hb Hle Hf; [lia|]. cbn [ReadAll].
  pose proof (exact_step (room (length b)) e (Hroom _) Hne Hle) as Hs. destruct (inner e) as [|c cs] eqn:Ein.
  - destruct (exact_Read read_chunks (room (length b)) e) as [r e'] eqn:E. cbn in Hs. subst r. eexists _, _, _. split; [reflexivity|].
    cbn. rewrite app_nil_r. destruct (br e <? totalBytes e) eqn:Elt; cbn; split; try done; split; (done || lia).
  - destruct Hs as (bs & rest & Hbs & _ & Hrest & Hj & ->). rewrite Hj in *. rewrite length_app in Hf.
    assert (0 < length bs)%nat by (destruct bs; [done|cbn; lia]).
    destruct (totalBytes e <? br e + lenZ bs) eqn:Elt.
    + eexists _, _, _. split; [reflexivity|]. cbn. rewrite !length_app. split; [split; [done|lia]|done].
    + destruct (IH (mkExact rest (br e + lenZ bs) (totalBytes e)) (b ++ bs)) as (data & err & e' & E & Hiff & Hdata);
        [done|cbn; rewrite length_app; lia|cbn; lia|cbn; lia|].
      exists data, err, e'. cbn [inner totalBytes] in Hiff, Hdata. rewrite app_assoc. by split_and!.
Qed.
