(* ===== verification/HostFs.v ===== *)
(** * Files of a host: [util/file.go], [path.Join] and the identity of a process

    A data node and a registry keep their identifier in a file below their home
    directory ([getId] in [cmd/rhosusd/root.go] and [cmd/rhosusr/root.go]).  The file
    system is a map from cleaned paths to directories and files; [Os] says which
    system calls fail, and how much of a write reaches the disk. *)

From S2P Require Import Prelude Uuid GoStrings.

(** ** [path.Clean] and [path.Join] *)

(** [out] is reversed *)
Fixpoint clean_elems (rooted : bool) (elems out : list string) : list string :=
  match elems with
  | [] => rev out
  | e :: es =>
      if bool_decide (e = "" ∨ e = ".")%string then clean_elems rooted es out
      else if bool_decide (e = "..")%string then
        match out with
        | o :: out' => if bool_decide (o = "..")%string then clean_elems rooted es (e :: out) else clean_elems rooted es out'
        | [] => if rooted then clean_elems rooted es [] else clean_elems rooted es [e]
        end
      else clean_elems rooted es (e :: out)
  end.

Definition Clean (p : string) : string :=
  if has_prefix_slash p then String slash (Join (clean_elems true (Split p) []))
  else match clean_elems false (Split p) [] with [] => "." | es => Join es end.

Definition path_Join (elems : list string) : string :=
  match filter (λ e, e ≠ ""%string) elems with [] => "" | es => Clean (Join es) end.

(** ** The system calls *)

Inductive os_error := ErrNotExist | ErrExist | ErrPermission | ErrFailed.
#[export] Instance os_error_eq_dec : EqDecision os_error.
Proof. solve_decision. Defined.

Inductive host_file := HDir (mode mtime size : Z) | HFile (mode mtime : Z) (data : list Z).
Abbreviation fsys := (gmap string host_file).

Record FileInfo := mkInfo { IsDir : bool; Mode : Z; ModTime : Z; Size : Z }.
Definition info_of (i : host_file) : FileInfo :=
  match i with HDir m t s => mkInfo true m t s | HFile m t d => mkInfo false m t (lenZ d) end.

Record Os := mkOs {
  os_denied : string → bool;             (* [stat] fails though the name may exist *)
  os_mkdir : string → bool;
  os_open : string → bool;
  os_read : string → bool;
  os_write : string → list Z → nat;      (* the bytes that a write stores *)
  os_umask : Z;
  os_now : Z;
}.

Section host.
Context (os : Os).

Definition Stat (name : string) (fs : fsys) : result os_error FileInfo :=
  if os_denied os name then Err ErrPermission else of_option (info_of <$> fs !! name) (Err ErrNotExist).

Definition IsNotExist (e : os_error) : bool := bool_decide (e = ErrNotExist).

Definition masked (perm : Z) : Z := Z.ldiff perm (os_umask os).

Definition Mkdir (name : string) (perm : Z) : M fsys os_error unit :=
  fs ← get;
  match fs !! name with
  | Some _ => fail ErrExist
  | None => if os_mkdir os name then modify (<[name := HDir (masked perm) (os_now os) 0]>) else fail ErrPermission
  end.

(** [os.OpenFile] to read, and [io.ReadAll] *)
Definition OpenRead (name : string) : M fsys os_error host_file :=
  fs ← get; i ← lift (of_option (fs !! name) (Err ErrNotExist));
  if os_open os name then mret i else fail ErrPermission.
Definition ReadAll (name : string) (i : host_file) : result os_error (list Z) :=
  match i with HFile _ _ d => if os_read os name then Ok d else Err ErrFailed | HDir _ _ _ => Err ErrFailed end.

(** [os.OpenFile] with [O_CREATE|O_RDWR], and a write at the start of the file *)
Definition OpenCreate (name : string) (perm : Z) : M fsys os_error unit :=
  fs ← get;
  if os_open os name then
    match fs !! name with
    | None => modify (<[name := HFile (masked perm) (os_now os) []]>)
    | Some (HFile _ _ _) => mret tt
    | Some (HDir _ _ _) => fail ErrFailed
    end
  else fail ErrPermission.
Definition FileWrite (name : string) (bs : list Z) : M fsys os_error unit :=
  let n := os_write os name bs in
  _ ← modify (alter (λ i, match i with HFile m _ d => HFile m (os_now os) (take n bs ++ drop n d) | i => i end) name);
  guard_err (bool_decide (n < length bs)%nat) ErrFailed.

Definition Remove (name : string) : M fsys os_error unit :=
  fs ← get;
  match fs !! name with
  | None => fail ErrNotExist
  | Some _ => if os_mkdir os name then modify (delete name) else fail ErrPermission
  end.

(** ** [util/file.go] *)

(** of the file that is open at [name] *)
Definition GetFileSize (name : string) (fs : fsys) : result os_error Z := fi ← Stat name fs; Ok (Size fi).

Inductive file_error := FErr (e : os_error) | NotValidFolder | NotWritable.

(** [0200&perm != 0] *)
Definition owner_writes (mode : Z) : bool := negb (Z.land 128 (Z.land mode 511) =? 0).

Definition TestDirWritable (folder : string) (fs : fsys) : result file_error unit :=
  match Stat folder fs with
  | Ok fileInfo =>
      if negb (IsDir fileInfo) then Err NotValidFolder
      else if owner_writes (Mode fileInfo) then Ok tt else Err NotWritable
  | Err e => Err (FErr e)
  | Panic => Panic
  end.

Definition FileExists (filename : string) (fs : fsys) : bool :=
  match Stat filename fs with Err e => negb (IsNotExist e) | _ => true end.

Definition CheckFile (filename : string) (fs : fsys) : bool * bool * bool * Z * Z :=
  match Stat filename fs with
  | Ok fi => (true, negb (Z.land (Mode fi) 256 =? 0), negb (Z.land (Mode fi) 128 =? 0), ModTime fi, Size fi)
  | Err e => (negb (IsNotExist e), false, false, 0, 0)
  | Panic => (true, false, false, 0, 0)
  end.

(** [user] is the home directory of [user.Current], [None] when that fails and
    gives a nil user *)
Definition ResolvePath (user : option string) (path : string) : result file_error string :=
  if bool_decide ("~"%char ∈ list_ascii_of_string path) then
    dir ← of_option user Panic;
    Ok (if bool_decide (path = "~")%string then dir
        else if String.prefix "~/" path then path_Join [dir; String.substring 2 (String.length path - 2) path]
        else path)
  else Ok path.

(** [WriteAndSyncFile] of [util/ioutil/util.go]: the first error counts, and the file
    is closed in any case; [synced] and [closed] are the outcomes of both calls *)
Definition WriteAndSyncFile (synced closed : bool) (filename : string) (data : list Z) (perm : Z) : M fsys os_error unit :=
  _ ← OpenCreate filename perm;
  _ ← modify (alter (λ i, match i with HFile m _ _ => HFile m (os_now os) [] | i => i end) filename);
  _ ← FileWrite filename data;
  _ ← guard_err (negb synced) ErrFailed;
  guard_err (negb closed) ErrFailed.

(** ** The start of a process *)

(** [log.Fatal] *)
Inductive fatal := Fatal.
Definition or_fatal {E A} (m : M fsys E A) : M fsys fatal A := λ fs,
  match m fs with (Ok a, fs') => (Ok a, fs') | (Err _, fs') => (Err Fatal, fs') | (Panic, fs') => (Panic, fs') end.

(** the home directory: [Run] of [rootCmd] in both programs *)
Definition prepare_home (rhosusPath : string) : M fsys fatal unit :=
  fs ← get;
  _ ← (if FileExists rhosusPath fs then mret tt else or_fatal (Mkdir rhosusPath 493));
  fs ← get;
  match TestDirWritable rhosusPath fs with Ok _ => mret tt | _ => fail Fatal end.

(** the error of [uuid.NewV4] and the one of the write are dropped *)
Definition getId (uuidFileName : string) (random : option (list Z)) (rhosusPath : string) (persistent : bool) : M fsys fatal string :=
  if negb persistent then mret (Uuid.String (Uuid.NewV4 random).1)
  else
    let uuidFilePath := path_Join [rhosusPath; uuidFileName] in
    fs ← get;
    if FileExists uuidFilePath fs then
      file ← or_fatal (OpenRead uuidFilePath);
      data ← or_fatal (lift (ReadAll uuidFilePath file));
      mret (string_of_bytes data)
    else
      let id := Uuid.String (Uuid.NewV4 random).1 in
      _ ← or_fatal (OpenCreate uuidFilePath 493);
      _ ← or_fatal (ignore_err (FileWrite uuidFilePath (bytes_of_string id)));
      mret id.

Definition node_getId := getId "datanode.uuid".
Definition registry_getId := getId "registry.uuid".
End host.

Example join_home : path_Join ["/var/lib/rhosus"; "datanode.uuid"] = "/var/lib/rhosus/datanode.uuid"%string.
Proof. reflexivity. Qed.
Example join_dots : path_Join [""; "a//b/.."; "./../../c"] = "../c"%string. Proof. reflexivity. Qed.
Example join_root : path_Join ["/.."; "a"] = "/a"%string. Proof. reflexivity. Qed.
Example resolve_home : ResolvePath (Some "/root"%string) "~/x" = Ok "/root/x"%string. Proof. reflexivity. Qed.
Example resolve_inner : ResolvePath (Some "/root"%string) "/a/~/x" = Ok "/a/~/x"%string. Proof. reflexivity. Qed.

(** ** Facts *)

Section facts.
Context (os : Os) (name : string) (path : string).
Local Abbreviation file := (path_Join [path; name]).

(** a start that finds the file *)
Lemma getId_found random fs m t d : os_denied os file = false → fs !! file = Some (HFile m t d) → os_open os file = true → os_read os file = true →
  getId os name random path true fs = (Ok (string_of_bytes d), fs).
Proof.
  intros Hd Hf Ho Hr. unfold getId. cbn [negb]. rewrite (bind_ok _ _ fs fs fs) by done.
  assert (FileExists os file fs = true) as -> by (unfold FileExists, Stat; by rewrite Hd, Hf).
  rewrite (bind_ok _ _ fs (HFile m t d) fs); [rewrite (bind_ok _ _ fs d fs); [done|]|].
  - unfold or_fatal, lift, ReadAll. by rewrite Hr.
  - unfold or_fatal, OpenRead. rewrite (bind_ok _ _ fs fs fs) by done. rewrite (bind_ok _ _ fs (HFile m t d) fs) by (unfold lift, of_option; by rewrite Hf).
    by rewrite Ho.
Qed.

(** and one that does not *)
Lemma getId_new random fs : os_denied os file = false → fs !! file = None → os_open os file = true →
  let id := Uuid.String (Uuid.NewV4 random).1 in
  getId os name random path true fs =
    (Ok id, <[file := HFile (masked os 493) (os_now os) (take (os_write os file (bytes_of_string id)) (bytes_of_string id))]> fs).
Proof.
  intros Hd Hf Ho id. unfold getId. cbn [negb]. rewrite (bind_ok _ _ fs fs fs) by done.
  assert (FileExists os file fs = false) as -> by (unfold FileExists, Stat; by rewrite Hd, Hf).
  fold id. erewrite bind_ok.
  2:{ unfold or_fatal, OpenCreate. rewrite (bind_ok _ _ fs fs fs) by done. rewrite Ho, Hf. reflexivity. }
  erewrite bind_ok; [reflexivity|]. unfold or_fatal, ignore_err, FileWrite. erewrite bind_ok by reflexivity.
  rewrite alter_insert_eq, drop_nil, app_nil_r. unfold guard_err. by case_bool_decide.
Qed.
End facts.


(** a directory that [TestDirWritable] accepts *)
Definition home_ready (os : Os) (home : string) (fs : fsys) : Prop := os_denied os home = false ∧
  ∃ mode t s, fs !! home = Some (HDir mode t s) ∧ owner_writes mode = true.

Lemma prepare_home_ok os home fs : home_ready os home fs → prepare_home os home fs = (Ok tt, fs).
Proof.
  intros (Hd & mode & t & s & Hf & Hw). unfold prepare_home. rewrite (bind_ok _ _ fs fs fs) by done.
  assert (Stat os home fs = Ok (mkInfo true mode t s)) as Es by (unfold Stat; by rewrite Hd, Hf).
  unfold FileExists. rewrite Es. rewrite (bind_ok _ _ fs tt fs) by done. rewrite (bind_ok _ _ fs fs fs) by done.
  unfold TestDirWritable. rewrite Es. cbn [IsDir negb Mode]. by rewrite Hw.
Qed.

Lemma home_ready_other os home fs file i : file ≠ home → home_ready os home fs → home_ready os home (<[file := i]> fs).
Proof. intros Hne (Hd & mode & t & s & Hf & Hw). split; [exact Hd|]. exists mode, t, s. by rewrite lookup_insert_ne. Qed.

Lemma string_of_bytes_take n s : string_of_bytes (take n (bytes_of_string s)) = String.substring 0 n s.
Proof.
  revert n. induction s as [|c s IH]; intros [|n]; [done..|]. specialize (IH n).
  unfold string_of_bytes, bytes_of_string in *. cbn in *. by rewrite IH, N2Z.id, ascii_N_embedding.
Qed.

Lemma substring_whole n s : String.substring 0 n s = s ↔ (String.length s ≤ n)%nat.
Proof.
  revert n. induction s as [|c s IH]; intros n; [cbn; destruct n; split; [lia|done|lia|done]|].
  destruct n as [|n]; cbn; [split; [done|lia]|]. specialize (IH n). split; intros Hs.
  - injection Hs as Hs. apply IH in Hs. lia.
  - f_equal. apply IH. lia.
Qed.

(** The first start of a process makes an identifier, the text of a UUID of version
    4, and stores it; every later start that finds the file as the first one left it
    has the same identifier exactly when all 36 bytes reached the disk: the error of
    a short write is dropped, and the later starts take what is there. *)
Theorem identity_survives_restarts (os : Os) (name path : string) (r : list Z) (fs : fsys) :
  let file := path_Join [path; name] in
  os_denied os file = false → os_open os file = true → os_read os file = true → fs !! file = None → Uuid.wf_uuid r →
  ∃ id later fs',
    getId os name (Some r) path true fs = (Ok id, fs') ∧
    (∃ u, Uuid.FromString id = (u, None) ∧ Uuid.Version u = 4) ∧
    (∀ other, other ≠ file → fs' !! other = fs !! other) ∧
    (∀ random fs2, fs2 !! file = fs' !! file → getId os name random path true fs2 = (Ok later, fs2)) ∧
    (later = id ↔ (36 ≤ os_write os file (bytes_of_string id))%nat).
Proof.
  intros file Hd Ho Hr Hf Hwf. destruct (NewV4_ok r Hwf) as (u & Eu & Hu & Hv).
  set (id := Uuid.String u). set (n := os_write os file (bytes_of_string id)).
  pose proof (getId_new os name path (Some r) fs Hd Hf Ho) as E. rewrite Eu in E. cbn [fst] in E. fold id file in E. fold n in E.
  eexists id, (String.substring 0 n id), _. split_and!; [exact E| | | |].
  - exists u. split; [by apply FromString_String|done].
  - intros other Hne. by apply lookup_insert_ne.
  - intros random fs2 Hfs2. rewrite lookup_insert_eq in Hfs2.
    rewrite (getId_found os name path random fs2 _ _ _ Hd Hfs2 Ho Hr). by rewrite string_of_bytes_take.
  - rewrite substring_whole. unfold id at 1. by rewrite String_length.
Qed.

Definition plain_os : Os := mkOs (λ _, false) (λ _, true) (λ _, true) (λ _, true) (λ _ bs, length bs) 18 0.
Definition zero_bytes : list Z := repeat 0 16.

Lemma identity_survives_restarts_witness : ∃ id later fs',
  getId plain_os "datanode.uuid" (Some zero_bytes) "/data" true ∅ = (Ok id, fs') ∧
  (∃ u, Uuid.FromString id = (u, None) ∧ Uuid.Version u = 4) ∧
  (∀ other, other ≠ "/data/datanode.uuid"%string → fs' !! other = (∅ : fsys) !! other) ∧
  (∀ random fs2, fs2 !! "/data/datanode.uuid"%string = fs' !! "/data/datanode.uuid"%string →
    getId plain_os "datanode.uuid" random "/data" true fs2 = (Ok later, fs2)) ∧
  (later = id ↔ (36 ≤ os_write plain_os "/data/datanode.uuid" (bytes_of_string id))%nat).
Proof.
  apply (identity_survives_restarts plain_os "datanode.uuid" "/data" zero_bytes ∅); [done..|].
  split; [done|]. apply (bool_decide_eq_true_1 (Forall (λ b, 0 ≤ b < 256) zero_bytes)). by vm_compute.
Defined.
