(* ===== verification/Settings.v ===== *)
(** * The settings of the two programs: [cmd/rhosusr/root.go], [cmd/rhosusd/root.go]

    Both programs bind command line flags, environment variables and defaults to
    the keys of viper, and read their addresses and paths from there.  Viper is the
    class [Viper] with the precedence that it documents: a flag that was given, then
    the environment, then the default, then the default of the flag.  Values are
    texts. *)

From S2P Require Import Prelude GoStrings HostFs.

(** a flag of the command line, with the value that was given *)
Record Flag := mkFlag { flag_default : string; flag_given : option string }.
Abbreviation flags := (gmap string Flag).

Class Viper (V : Type) := {
  SetDefault : string → string → V → V;
  BindPFlag : string → option string → V → V;      (* the name of the flag, [None] for a nil one *)
  BindEnv : string → V → bool * V;
  GetString : flags → (string → string) → string → V → string;
}.

(** [strings.ToUpper] of the key names the variable *)
Definition upper (c : ascii) : ascii :=
  let n := N_of_ascii c in if ((97 <=? n) && (n <=? 122))%N then ascii_of_N (n - 32) else c.
Fixpoint ToUpper (s : string) : string := match s with String c s' => String (upper c) (ToUpper s') | "" => "" end.

(** the documented precedence *)
Definition precedence (flag : option Flag) (env : option string) (def : option string) : string :=
  match flag ≫= flag_given, env, def with
  | Some v, _, _ => v
  | None, Some v, _ => v
  | None, None, Some v => v
  | None, None, None => default "" (flag_default <$> flag)
  end%string.

(** an empty variable counts as unset *)
Definition env_value (bound : bool) (env : string → string) (key : string) : option string :=
  if bound && negb (bool_decide (env (ToUpper key) = "")) then Some (env (ToUpper key)) else None.

Class ViperLaws (V : Type) `{Viper V} := {
  v_flag : string → V → option string;
  v_env : string → V → bool;
  v_default : string → V → option string;
  v_GetString : ∀ fl env key v, GetString fl env key v =
    precedence (v_flag key v ≫= λ f, fl !! f) (env_value (v_env key v) env key) (v_default key v);
  v_SetDefault : ∀ k x v k', v_flag k' (SetDefault k x v) = v_flag k' v ∧ v_env k' (SetDefault k x v) = v_env k' v ∧
    v_default k' (SetDefault k x v) = if bool_decide (k' = k) then Some x else v_default k' v;
  v_BindPFlag : ∀ k f v k', v_env k' (BindPFlag k f v) = v_env k' v ∧ v_default k' (BindPFlag k f v) = v_default k' v ∧
    v_flag k' (BindPFlag k f v) = if bool_decide (k' = k ∧ f ≠ None) then f else v_flag k' v;
  v_BindEnv : ∀ k v k', (BindEnv k v).1 = true ∧ v_flag k' (BindEnv k v).2 = v_flag k' v ∧
    v_default k' (BindEnv k v).2 = v_default k' v ∧ v_env k' (BindEnv k v).2 = bool_decide (k' = k) || v_env k' v;
}.

(** ** The tables of the programs *)

(** [rootCmd.Flags()] of the registry: the names and the defaults *)
Definition rhosusr_flags : list (string * string) :=
  [("api_addr", "127.0.0.1:8000"); ("cluster_addr", "127.0.0.1:8100"); ("etcd_addr", "127.0.0.1:2379");
   ("rhosus_path", "/var/lib/rhosus"); ("shutdown_timeout", "30"); ("replication_factor", "30"); ("block_size", "4096")]%string.
(** the key of each [BindPFlag] and the name that it looks up *)
Definition rhosusr_bindings : list (string * string) :=
  [("api_addr", "cluster_addr"); ("cluster_addr", "cluster_addr"); ("etcd_addr", "etcd_addr");
   ("rhosus_path", "rhosus_path"); ("shutdown_timeout", "shutdown_timeout"); ("replication_factor", "replication_factor");
   ("block_size", "block size in bytes")]%string.
Definition rhosusr_defaults : list (string * string) :=
  [("gomaxprocs", "0"); ("api_addr", "127.0.0.1:8000"); ("cluster_addr", "127.0.0.1:8100"); ("etcd_addr", "127.0.0.1:2379");
   ("rhosus_path", "/var/lib/rhosus"); ("wal_path", "wal"); ("shutdown_timeout", "30"); ("replication_factor", "1");
   ("block_size", "4096")]%string.
Definition rhosusr_envs : list string :=
  ["api_addr"; "cluster_addr"; "etcd_addr"; "rhosus_path"; "shutdown_timeout"; "replication_factor"; "block_size"]%string.

Definition rhosusd_flags : list (string * string) :=
  [("service_addr", "127.0.0.1:5400"); ("etcd_addr", "127.0.0.1:2379"); ("rhosus_path", "/var/lib/rhosus"); ("shutdown_timeout", "30")]%string.
Definition rhosusd_bindings : list (string * string) :=
  [("service_addr", "service_addr"); ("etcd_addr", "etcd_addr"); ("rhosus_path", "rhosus_path"); ("shutdown_timeout", "shutdown_timeout")]%string.
Definition rhosusd_defaults : list (string * string) :=
  [("gomaxprocs", "0"); ("service_addr", "127.0.0.1:5400"); ("rhosus_path", "/var/lib/rhosus"); ("shutdown_timeout", "30")]%string.
Definition rhosusd_envs : list string := ["service_addr"; "rhosus_path"; "shutdown_timeout"; "etcd_addr"]%string.

(** the flags of a command line: [given] are its arguments *)
Definition parsed (table : list (string * string)) (given : gmap string string) : flags :=
  list_to_map ((λ p, (p.1, mkFlag p.2 (given !! p.1))) <$> table).

Section setup.
Context {V : Type} `{Viper V}.
(** the order in which Go ranges over [configDefaults] *)
Context (dorder : list (string * string) → list (string * string)).

(** [init]: [Lookup] of an unknown name gives a nil flag *)
Definition bind_flags (table bindings : list (string * string)) (v : V) : V :=
  foldl (λ v b, BindPFlag b.1 (if bool_decide (b.2 ∈ table.*1) then Some b.2 else None) v) v bindings.
(** the defaults and the variables of [Run]; [None] is a [log.Fatal] *)
Definition set_defaults (defaults : list (string * string)) (v : V) : V := foldl (λ v d, SetDefault d.1 d.2 v) v (dorder defaults).
Fixpoint bind_envs (envs : list string) (v : V) : option V :=
  match envs with
  | [] => Some v
  | e :: envs' => match BindEnv e v with (true, v') => bind_envs envs' v' | (false, _) => None end
  end.

Definition rhosusr_setup (v : V) : option V := bind_envs rhosusr_envs (set_defaults rhosusr_defaults (bind_flags rhosusr_flags rhosusr_bindings v)).
Definition rhosusd_setup (v : V) : option V := bind_envs rhosusd_envs (set_defaults rhosusd_defaults (bind_flags rhosusd_flags rhosusd_bindings v)).

(** ** What the registry starts with: [registryConfig], and the address of the api *)

Record RegistryConfig := mkRegistryConfig {
  conf_ID : string;
  conf_RhosusPath : string;
  conf_EtcdAddr : string;
  conf_WalPath : string;
  conf_ClusterAddr : string;
}.

Definition registryConfig (fl : flags) (env : string → string) (v : V) (registryId : string) : RegistryConfig :=
  let rhosusPath := GetString fl env "rhosus_path" v in
  mkRegistryConfig registryId rhosusPath (GetString fl env "etcd_addr" v) (path_Join [rhosusPath; "wal"%string]) (GetString fl env "cluster_addr" v).

Definition api_address (fl : flags) (env : string → string) (v : V) : string := GetString fl env "api_addr" v.
End setup.

(** ** Facts *)

Section facts.
Context {V : Type} `{ViperLaws V} (dorder : list (string * string) → list (string * string)).

Lemma bind_flags_ok table bindings v key : NoDup bindings.*1 →
  v_env key (bind_flags table bindings v) = v_env key v ∧ v_default key (bind_flags table bindings v) = v_default key v ∧
  v_flag key (bind_flags table bindings v) =
    match list_to_map (M := gmap string string) bindings !! key with
    | Some f => if bool_decide (f ∈ table.*1) then Some f else v_flag key v
    | None => v_flag key v
    end.
Proof using.
  revert v. induction bindings as [|[k f] bs IH]; intros v Hnd; [done|]. rewrite fmap_cons in Hnd. apply NoDup_cons in Hnd as [Hni Hnd].
  cbn [bind_flags foldl fst snd list_to_map foldr]. fold (bind_flags table bs).
  set (o := if bool_decide (f ∈ table.*1) then Some f else None).
  change (foldl _ (BindPFlag k o v) bs) with (bind_flags table bs (BindPFlag k o v)).
  destruct (IH (BindPFlag k o v) Hnd) as (-> & -> & ->). destruct (v_BindPFlag k o v key) as (-> & -> & ->).
  split_and!; [done..|]. change (list_to_map ((k, f) :: bs)) with (<[k:=f]> (list_to_map bs : gmap string string)).
  destruct (decide (key = k)) as [->|Hne].
  - rewrite lookup_insert_eq. cbn [fst] in Hni. rewrite (not_elem_of_list_to_map_1 bs k Hni).
    subst o. destruct (decide (f ∈ table.*1)); [rewrite (bool_decide_true (f ∈ _)) by done; by rewrite bool_decide_true|]. rewrite (bool_decide_false (f ∈ _)) by done.
    rewrite bool_decide_false; [done|]. by intros [_ ?].
  - rewrite lookup_insert_ne by done. rewrite (bool_decide_false (key = k ∧ _)) by (by intros [? _]). done.
Qed.

Lemma set_defaults_foldl l v key : NoDup l.*1 →
  let v' := foldl (λ v d, SetDefault d.1 d.2 v) v l in
  v_env key v' = v_env key v ∧ v_flag key v' = v_flag key v ∧
  v_default key v' = match list_to_map (M := gmap string string) l !! key with Some x => Some x | None => v_default key v end.
Proof using.
  revert v. induction l as [|[k x] l IH]; intros v Hnd; [done|]. rewrite fmap_cons in Hnd. apply NoDup_cons in Hnd as [Hni Hnd].
  cbn [foldl fst snd]. destruct (IH (SetDefault k x v) Hnd) as (-> & -> & ->).
  destruct (v_SetDefault k x v key) as (-> & -> & ->). split_and!; [done..|].
  change (list_to_map ((k, x) :: l)) with (<[k:=x]> (list_to_map l : gmap string string)).
  destruct (decide (key = k)) as [->|Hne].
  - rewrite lookup_insert_eq. cbn [fst] in Hni. rewrite (not_elem_of_list_to_map_1 l k Hni). by rewrite bool_decide_true.
  - rewrite lookup_insert_ne by done. by rewrite bool_decide_false.
Qed.

Lemma set_defaults_ok defaults v key : dorder defaults ≡ₚ defaults → NoDup defaults.*1 →
  v_env key (set_defaults dorder defaults v) = v_env key v ∧ v_flag key (set_defaults dorder defaults v) = v_flag key v ∧
  v_default key (set_defaults dorder defaults v) = match list_to_map (M := gmap string string) defaults !! key with Some x => Some x | None => v_default key v end.
Proof using.
  intros Hp Hnd. assert (NoDup (dorder defaults).*1) as Hnd' by by rewrite Hp.
  destruct (set_defaults_foldl (dorder defaults) v key Hnd') as (E1 & E2 & E3). split_and!; [done..|]. etrans; [exact E3|].
  by rewrite (list_to_map_proper _ _ Hnd' Hp).
Qed.

Lemma bind_envs_ok envs v : ∃ v', bind_envs envs v = Some v' ∧ ∀ key,
  v_flag key v' = v_flag key v ∧ v_default key v' = v_default key v ∧ v_env key v' = bool_decide (key ∈ envs) || v_env key v.
Proof using.
  revert v. induction envs as [|e envs IH]; intros v; cbn [bind_envs]; [by exists v|].
  destruct (BindEnv e v) as [b v1] eqn:E. pose proof (v_BindEnv e v) as Hb. rewrite E in Hb. cbn in Hb.
  assert (b = true) as -> by (by destruct (Hb e)). destruct (IH v1) as (v' & Ev' & Hv'). exists v'. split; [done|]. intros key.
  destruct (Hv' key) as (-> & -> & ->). destruct (Hb key) as (_ & -> & -> & ->). split_and!; [done..|].
  rewrite orb_assoc. f_equal. destruct (decide (key = e)) as [->|Hne].
  - by rewrite (bool_decide_true (e ∈ e :: envs)), (bool_decide_true (e = e)), orb_true_r by (done || constructor).
  - rewrite (bool_decide_false (key = e)), orb_false_r by done. apply bool_decide_ext. rewrite elem_of_cons. split; [by right|by intros [?|?]].
Qed.

(** the three steps together, for one key *)
Definition blank (v : V) : Prop := ∀ key, v_flag key v = None ∧ v_env key v = false ∧ v_default key v = None.

Lemma setup_ok table bindings defaults envs v : dorder defaults ≡ₚ defaults → NoDup bindings.*1 → NoDup defaults.*1 → blank v →
  ∃ v', bind_envs envs (set_defaults dorder defaults (bind_flags table bindings v)) = Some v' ∧
  ∀ fl env key, GetString fl env key v' =
    precedence (match list_to_map (M := gmap string string) bindings !! key with
                | Some f => if bool_decide (f ∈ table.*1) then fl !! f else None | None => None end)
      (env_value (bool_decide (key ∈ envs)) env key) (list_to_map (M := gmap string string) defaults !! key).
Proof using All.
  intros Hp Hb Hd Hv. destruct (bind_envs_ok envs (set_defaults dorder defaults (bind_flags table bindings v))) as (v' & E & Hv').
  exists v'. split; [exact E|]. intros fl env key. rewrite v_GetString. destruct (Hv' key) as (-> & -> & ->).
  destruct (set_defaults_ok defaults (bind_flags table bindings v) key Hp Hd) as (-> & -> & ->).
  destruct (bind_flags_ok table bindings v key Hb) as (-> & -> & ->). destruct (Hv key) as (-> & -> & ->).
  rewrite orb_false_r. f_equal.
  - destruct (list_to_map bindings !! key); [|done]. by case_bool_decide.
  - by destruct (list_to_map defaults !! key).
Qed.
End facts.

(** What the registry is configured with: the flag [--api_addr] has no effect, since
    its key is bound to the flag of the cluster address, and a cluster address that
    is given is the address of the http server as well, whatever [--api_addr] and
    the environment say; the other addresses come from their own flag, variable or
    default, in this order. *)
Theorem registry_addresses {V : Type} `{ViperLaws V} (dorder : list (string * string) → list (string * string))
    (given : gmap string string) (env : string → string) (id : string) (v : V) :
  dorder rhosusr_defaults ≡ₚ rhosusr_defaults → blank v →
  ∃ v', rhosusr_setup dorder v = Some v' ∧
    let fl := parsed rhosusr_flags given in
    let conf := registryConfig fl env v' id in
    api_address fl env v' = default (default "127.0.0.1:8000"%string (env_value true env "api_addr")) (given !! "cluster_addr"%string) ∧
    conf_ClusterAddr conf = default (default "127.0.0.1:8100"%string (env_value true env "cluster_addr")) (given !! "cluster_addr"%string) ∧
    conf_EtcdAddr conf = default (default "127.0.0.1:2379"%string (env_value true env "etcd_addr")) (given !! "etcd_addr"%string) ∧
    (is_Some (given !! "cluster_addr"%string) → api_address fl env v' = conf_ClusterAddr conf).
Proof.
  intros Hp Hv. destruct (setup_ok dorder rhosusr_flags rhosusr_bindings rhosusr_defaults rhosusr_envs v Hp) as (v' & E & Hg);
    [by apply (bool_decide_eq_true_1 (NoDup _)); vm_compute..|exact Hv|].
  exists v'. split; [exact E|]. intros fl conf. unfold conf, registryConfig, api_address. cbn [conf_ClusterAddr conf_EtcdAddr].
  rewrite !Hg.
  assert (∀ b k d, precedence (Some (mkFlag d (given !! k))) (env_value b env k) (Some d) =
    default (default d (env_value b env k)) (given !! k)) as Hpre.
  { intros b k d. unfold precedence. cbn. destruct (given !! k), (env_value b env k); done. }
  split_and!.
  - change (precedence (Some (mkFlag "127.0.0.1:8100" (given !! "cluster_addr"%string))) (env_value true env "api_addr") (Some "127.0.0.1:8000"%string) =
      default (default "127.0.0.1:8000"%string (env_value true env "api_addr")) (given !! "cluster_addr"%string)).
    unfold precedence. cbn. by destruct (given !! _), (env_value _ _ _).
  - exact (Hpre true "cluster_addr"%string "127.0.0.1:8100"%string).
  - exact (Hpre true "etcd_addr"%string "127.0.0.1:2379"%string).
  - intros [c Hc]. change (fl !! "cluster_addr"%string) with (Some (mkFlag "127.0.0.1:8100" (given !! "cluster_addr"%string))). 
    cbn. by rewrite Hc.
Qed.

(** the bindings as maps *)
Record bindings := mkBindings { b_flags : gmap string string; b_envs : gset string; b_defaults : gmap string string }.
Definition no_bindings : bindings := mkBindings ∅ ∅ ∅.
#[export] Instance bindings_viper : Viper bindings := {|
  SetDefault k x v := mkBindings (b_flags v) (b_envs v) (<[k := x]> (b_defaults v));
  BindPFlag k f v := match f with Some f => mkBindings (<[k := f]> (b_flags v)) (b_envs v) (b_defaults v) | None => v end;
  BindEnv k v := (true, mkBindings (b_flags v) ({[k]} ∪ b_envs v) (b_defaults v));
  GetString fl env k v := precedence (b_flags v !! k ≫= λ f, fl !! f) (env_value (bool_decide (k ∈ b_envs v)) env k) (b_defaults v !! k);
|}.
#[export, program] Instance bindings_laws : ViperLaws bindings := {|
  v_flag k v := b_flags v !! k; v_env k v := bool_decide (k ∈ b_envs v); v_default k v := b_defaults v !! k |}.
Next Obligation. done. Qed.
Next Obligation.
  intros k x v k'. split_and!; [done..|]. cbn. rewrite lookup_insert. by repeat case_decide; case_bool_decide.
Qed.
Next Obligation.
  intros k [f|] v k'; cbn; split_and!; try done.
  - rewrite lookup_insert. case_decide as E1; case_bool_decide as E2; [done|by destruct E2|by destruct E2 as [-> _]|done].
  - by rewrite bool_decide_false by (by intros [_ ?]).
Qed.
Next Obligation.
  intros k v k'. cbn. split_and!; [done..|]. rewrite <- bool_decide_or. apply bool_decide_ext. set_solver.
Qed.

Lemma blank_no_bindings : blank no_bindings.
Proof. done. Qed.

Lemma registry_addresses_witness :
  ∃ v', rhosusr_setup (λ l, l) no_bindings = Some v' ∧
    let given : gmap string string := {[ "api_addr" := "a:80"; "cluster_addr" := "c:81" ]}%string in
    let fl := parsed rhosusr_flags given in
    let conf := registryConfig fl (λ _, ""%string) v' "id" in
    api_address fl (λ _, ""%string) v' = "c:81"%string ∧ conf_ClusterAddr conf = "c:81"%string ∧
    conf_EtcdAddr conf = "127.0.0.1:2379"%string ∧
    (is_Some (given !! "cluster_addr"%string) → api_address fl (λ _, ""%string) v' = conf_ClusterAddr conf).
Proof.
  destruct (registry_addresses (λ l, l) {[ "api_addr" := "a:80"; "cluster_addr" := "c:81" ]}%string (λ _, ""%string) "id" no_bindings)
    as (v' & E & Ha & Hc & He & Hsame); [done|exact blank_no_bindings|]. exists v'. split; [exact E|]. split_and!.
  - etrans; [exact Ha|reflexivity].
  - etrans; [exact Hc|reflexivity].
  - etrans; [exact He|reflexivity].
  - exact Hsame.
Defined.
