(* ===== verification/Queue.v ===== *)
(** * The byte queue: [util/queue/queue.go]

    An unbounded queue of byte slices kept in a ring buffer that doubles when
    full and halves when half empty.  [Spec] is the queue as a list; [ByteQueue]
    follows the Go code, index arithmetic and panics included; the last section
    proves that no client can tell them apart.

    Every method holds the mutex, so an operation is one atomic step; [Wait] is
    the exception, and is split at the points where the Go code lets go of it. *)

From S2P Require Import Prelude.

#[local] Open Scope nat_scope.

(** ** The operations of the [Queue] interface and their observations *)

Inductive op :=
| OpAdd (b : list Z)
| OpRemove
| OpClose
| OpCloseRemaining
| OpClosed
| OpLen
| OpSize
| OpWaitStart.

Inductive obs :=
| ObsBool (b : bool)
| ObsItem (r : option (list Z))     (* [nil, false] is [None] *)
| ObsItems (l : list (list Z))
| ObsNat (n : nat)
| ObsBlock                          (* [Wait] blocks on the condition variable *)
| ObsCallRemove                     (* [Wait] unlocks and calls [Remove] *)
| ObsUnit.

#[export] Instance obs_eq_dec : EqDecision obs.
Proof. solve_decision. Defined.

(** ** The queue as a list *)

Module Spec.
Record queue := { items : list (list Z); is_closed : bool }.
Definition empty : queue := {| items := []; is_closed := false |}.

Definition total (l : list (list Z)) : nat := sum_list_with length l.

Definition step (o : op) (q : queue) : obs * queue :=
  match o with
  | OpAdd b =>
      if is_closed q then (ObsBool false, q)
      else (ObsBool true, {| items := items q ++ [b]; is_closed := false |})
  | OpRemove =>
      match items q with
      | [] => (ObsItem None, q)
      | x :: l => (ObsItem (Some x), {| items := l; is_closed := is_closed q |})
      end
  | OpClose => (ObsUnit, {| items := []; is_closed := true |})
  | OpCloseRemaining =>
      if is_closed q then (ObsItems [], q)
      else (ObsItems (items q), {| items := []; is_closed := true |})
  | OpClosed => (ObsBool (is_closed q), q)
  | OpLen => (ObsNat (length (items q)), q)
  | OpSize => (ObsNat (total (items q)), q)
  | OpWaitStart =>
      (if is_closed q then ObsItem None
       else match items q with [] => ObsBlock | _ => ObsCallRemove end, q)
  end.
End Spec.

(** ** The ring buffer *)

Module ByteQueue.

Record byteQueue := mkQueue {
  nodes : list (list Z);
  head : nat;
  tail : nat;
  cnt : nat;
  size : nat;
  closed : bool;
  initCap : nat;
}.

Definition initialCapacity : nat := 2.

Definition New : byteQueue :=
  {| nodes := replicate initialCapacity []; head := 0; tail := 0; cnt := 0; size := 0;
     closed := false; initCap := initialCapacity |}.

(** [copy(dst[at:], src)] *)
Definition copy_at {A} (at_ : nat) (dst src : list A) : list A :=
  take at_ dst ++ take (length dst - at_) src ++ drop (at_ + length src) dst.

Definition div_mod_panic (a n : nat) : result unit nat :=
  match n with O => Panic | _ => Ok (a `mod` n) end.

Definition resize (n : nat) (q : byteQueue) : result unit byteQueue :=
  let fresh := replicate n [] in
  ns ← (if bool_decide (head q < tail q) then
          s ← of_option (slice (nodes q) (head q) (tail q)) Panic;
          Ok (copy_at 0 fresh s)
        else
          s1 ← of_option (slice (nodes q) (head q) (length (nodes q))) Panic;
          let ns1 := copy_at 0 fresh s1 in
          let off := length (nodes q) - head q in
          if bool_decide (off ≤ length ns1) then
            s2 ← of_option (slice (nodes q) 0 (tail q)) Panic;
            Ok (copy_at off ns1 s2)
          else Panic);
  t ← div_mod_panic (cnt q) n;
  Ok {| nodes := ns; head := 0; tail := t; cnt := cnt q; size := size q;
        closed := closed q; initCap := initCap q |}.

Definition Add (i : list Z) (q : byteQueue) : result unit (bool * byteQueue) :=
  if closed q then Ok (false, q)
  else
    q ← (if bool_decide (cnt q = length (nodes q)) then resize (cnt q * 2) q else Ok q);
    if bool_decide (tail q < length (nodes q)) then
      let ns := <[tail q := i]> (nodes q) in
      t ← div_mod_panic (tail q + 1) (length ns);
      Ok (true, {| nodes := ns; head := head q; tail := t; cnt := cnt q + 1;
                   size := size q + length i; closed := closed q; initCap := initCap q |})
    else Panic.

Definition Close (q : byteQueue) : byteQueue :=
  {| nodes := []; head := head q; tail := tail q; cnt := 0; size := 0;
     closed := true; initCap := initCap q |}.

(** the loop of [CloseRemaining], [k] items left *)
Fixpoint drain (k : nat) (ns : list (list Z)) (h : nat) : result unit (list (list Z) * nat) :=
  match k with
  | O => Ok ([], h)
  | S k' =>
      i ← of_option (ns !! h) Panic;
      h' ← div_mod_panic (h + 1) (length ns);
      '(rem, h'') ← drain k' ns h';
      Ok (i :: rem, h'')
  end.

Definition CloseRemaining (q : byteQueue) : result unit (list (list Z) * byteQueue) :=
  if closed q then Ok ([], q)
  else
    '(rem, h) ← drain (cnt q) (nodes q) (head q);
    Ok (rem, {| nodes := []; head := h; tail := tail q; cnt := 0; size := 0;
                closed := true; initCap := initCap q |}).

Definition Closed (q : byteQueue) : bool := closed q.

Definition Remove (q : byteQueue) : result unit (option (list Z) * byteQueue) :=
  if bool_decide (cnt q = 0) then Ok (None, q)
  else
    i ← of_option (nodes q !! head q) Panic;
    h ← div_mod_panic (head q + 1) (length (nodes q));
    let q1 := {| nodes := nodes q; head := h; tail := tail q; cnt := cnt q - 1;
                 size := size q - length i; closed := closed q; initCap := initCap q |} in
    let n := length (nodes q1) / 2 in
    q2 ← (if bool_decide (initCap q1 ≤ n ∧ cnt q1 ≤ n) then resize n q1 else Ok q1);
    Ok (Some i, q2).

(** [Wait] up to the point where it releases the mutex *)
Inductive wait_next := WaitClosed | WaitRemove | WaitBlock.
Definition WaitStart (q : byteQueue) : wait_next :=
  if closed q then WaitClosed
  else if bool_decide (cnt q ≠ 0) then WaitRemove else WaitBlock.

Definition Cap (q : byteQueue) : nat := length (nodes q).
Definition Len (q : byteQueue) : nat := cnt q.
Definition Size (q : byteQueue) : nat := size q.

Definition step (o : op) (q : byteQueue) : result unit (obs * byteQueue) :=
  match o with
  | OpAdd b => '(r, q') ← Add b q; Ok (ObsBool r, q')
  | OpRemove => '(r, q') ← Remove q; Ok (ObsItem r, q')
  | OpClose => Ok (ObsUnit, Close q)
  | OpCloseRemaining => '(r, q') ← CloseRemaining q; Ok (ObsItems r, q')
  | OpClosed => Ok (ObsBool (Closed q), q)
  | OpLen => Ok (ObsNat (Len q), q)
  | OpSize => Ok (ObsNat (Size q), q)
  | OpWaitStart =>
      Ok (match WaitStart q with
          | WaitClosed => ObsItem None | WaitRemove => ObsCallRemove | WaitBlock => ObsBlock
          end, q)
  end.

(** a whole history of operations, whichever goroutines issued them *)
Fixpoint run (ops : list op) (q : byteQueue) : result unit (list obs * byteQueue) :=
  match ops with
  | [] => Ok ([], q)
  | o :: ops' =>
      '(r, q') ← step o q;
      '(rs, q'') ← run ops' q';
      Ok (r :: rs, q'')
  end.

End ByteQueue.

Fixpoint spec_run (ops : list op) (q : Spec.queue) : list obs * Spec.queue :=
  match ops with
  | [] => ([], q)
  | o :: ops' =>
      let '(r, q') := Spec.step o q in
      let '(rs, q'') := spec_run ops' q' in
      (r :: rs, q'')
  end.

(** ** Invariant and abstraction *)

Section ring.
Import ByteQueue.

(** the items in the order they will leave the queue *)
Definition contents (q : byteQueue) : list (list Z) :=
  take (cnt q) (drop (head q) (nodes q) ++ take (head q) (nodes q)).

Record ring_ok (q : byteQueue) : Prop := {
  ro_pow : ∃ k, length (nodes q) = 2 ^ (k + 1);
  ro_head : head q < length (nodes q);
  ro_cnt : cnt q ≤ length (nodes q);
  ro_tail : tail q = (head q + cnt q) `mod` length (nodes q);
  ro_dense : length (nodes q) = 2 ∨ length (nodes q) < 2 * cnt q;
}.

Definition queue_inv (q : byteQueue) : Prop :=
  initCap q = 2 ∧ size q = Spec.total (contents q) ∧
  if closed q then cnt q = 0 else ring_ok q.

Definition abs (q : byteQueue) : Spec.queue :=
  {| Spec.items := contents q; Spec.is_closed := closed q |}.

Lemma mod_wrap a b n : a < n → b ≤ n → (a + b) `mod` n = if decide (a + b < n) then a + b else a + b - n.
Proof.
  intros. case_decide; [by apply Nat.mod_small|].
  replace (a + b) with (a + b - n + 1 * n) at 1 by lia.
  rewrite Nat.Div0.mod_add. apply Nat.mod_small. lia.
Qed.

Lemma length_contents q : cnt q ≤ length (nodes q) → length (contents q) = cnt q.
Proof.
  intros. unfold contents. rewrite length_take, length_app, length_drop, length_take. lia.
Qed.

Lemma contents_lookup q j :
  head q < length (nodes q) → cnt q ≤ length (nodes q) → j < cnt q →
  contents q !! j = nodes q !! ((head q + j) `mod` length (nodes q)).
Proof.
  intros Hh Hc Hj. unfold contents. rewrite lookup_take_lt by done.
  rewrite mod_wrap by lia. case_decide.
  - rewrite lookup_app_l by (rewrite length_drop; lia). by rewrite lookup_drop.
  - rewrite lookup_app_r, length_drop by (rewrite length_drop; lia).
    rewrite lookup_take_lt by lia. f_equal. lia.
Qed.

Lemma copy_at_0 {A} (n : nat) (x : A) (s : list A) :
  length s ≤ n → copy_at 0 (replicate n x) s = s ++ replicate (n - length s) x.
Proof.
  intros. unfold copy_at. simpl. rewrite length_replicate, drop_replicate.
  by rewrite take_ge by lia.
Qed.

Lemma copy_at_tail {A} (n : nat) (x : A) (s1 s2 : list A) :
  length s1 + length s2 ≤ n →
  copy_at (length s1) (s1 ++ replicate (n - length s1) x) s2 =
    s1 ++ s2 ++ replicate (n - (length s1 + length s2)) x.
Proof.
  intros. unfold copy_at. rewrite take_app_length, length_app, length_replicate.
  rewrite take_ge by lia. rewrite <- drop_drop, drop_app_length, drop_replicate.
  do 3 f_equal. lia.
Qed.

(** [resize] moves the items to the front of the new buffer *)
Lemma resize_contents n q :
  head q < length (nodes q) → cnt q ≤ length (nodes q) →
  tail q = (head q + cnt q) `mod` length (nodes q) → 0 < cnt q → cnt q ≤ n →
  resize n q = Ok {| nodes := contents q ++ replicate (n - cnt q) []; head := 0;
    tail := cnt q `mod` n; cnt := cnt q; size := size q; closed := closed q;
    initCap := initCap q |}.
Proof.
  intros Hh Hc Ht Hpos Hn. unfold resize, slice.
  rewrite mod_wrap in Ht by lia. unfold contents.
  case_bool_decide as Hlt.
  - case_decide; [|lia].
    rewrite bool_decide_true by lia. cbn [mbind result_bind of_option]. rewrite Ht.
    replace (head q + cnt q - head q) with (cnt q) by lia.
    rewrite copy_at_0 by (rewrite length_take, length_drop; lia).
    rewrite take_app_le by (rewrite length_drop; lia).
    rewrite length_take, length_drop, Nat.min_l by lia.
    destruct n; [lia|]. done.
  - case_decide; [lia|].
    rewrite !bool_decide_true by lia. cbn [mbind result_bind of_option].
    rewrite (take_ge (drop (head q) (nodes q)) (length (nodes q) - head q))
      by (rewrite length_drop; lia).
    rewrite copy_at_0 by (rewrite length_drop; lia).
    rewrite bool_decide_true by (rewrite length_app, length_replicate, length_drop; lia).
    cbn [mbind result_bind of_option]. rewrite Nat.sub_0_r, drop_0.
    set (s1 := drop (head q) (nodes q)).
    assert (length (nodes q) - head q = length s1) as E by (unfold s1; by rewrite length_drop).
    rewrite E, copy_at_tail by (rewrite length_take; lia).
    rewrite take_app_ge by lia. rewrite take_take, length_take.
    rewrite !Nat.min_l by lia.
    destruct n; [lia|]. cbn [mbind result_bind of_option div_mod_panic]. rewrite <- app_assoc.
    replace (tail q) with (cnt q - length s1) by lia.
    by replace (length s1 + (cnt q - length s1)) with (cnt q) by lia.
Qed.

Lemma total_app l1 l2 : Spec.total (l1 ++ l2) = Spec.total l1 + Spec.total l2.
Proof. unfold Spec.total. induction l1; simpl; lia. Qed.

Lemma total_cons x l : Spec.total (x :: l) = length x + Spec.total l.
Proof. done. Qed.

Definition fresh_queue (q : byteQueue) (c : list (list Z)) (n : nat) : byteQueue :=
  {| nodes := c ++ replicate (n - length c) []; head := 0; tail := length c `mod` n;
     cnt := length c; size := size q; closed := closed q; initCap := initCap q |}.

Lemma contents_fresh q c n : contents (fresh_queue q c n) = c.
Proof. unfold contents. simpl. rewrite app_nil_r. apply take_app_length. Qed.

(** storing at the tail appends to the contents *)
Lemma contents_snoc q i sz t :
  head q < length (nodes q) → cnt q < length (nodes q) →
  tail q = (head q + cnt q) `mod` length (nodes q) →
  contents {| nodes := <[tail q := i]> (nodes q); head := head q; tail := t; cnt := cnt q + 1;
              size := sz; closed := closed q; initCap := initCap q |} = contents q ++ [i].
Proof.
  intros Hh Hc Ht. apply list_eq. intros j.
  destruct (decide (j < cnt q + 1)) as [Hj|Hj].
  2:{ rewrite !lookup_ge_None_2; [done|..].
      - rewrite length_app, length_contents by lia. simpl. lia.
      - rewrite length_contents; simpl; rewrite ?length_insert; lia. }
  rewrite contents_lookup; simpl; rewrite ?length_insert; try lia.
  assert ((head q + cnt q) `mod` length (nodes q) < length (nodes q))
    by (apply Nat.mod_upper_bound; lia).
  destruct (decide (j = cnt q)) as [->|Hne].
  - rewrite <- Ht, list_lookup_insert_eq by (rewrite Ht; done).
    rewrite lookup_app_r, length_contents by (rewrite ?length_contents; lia).
    by rewrite Nat.sub_diag.
  - rewrite list_lookup_insert_ne.
    2:{ rewrite Ht, !mod_wrap by lia. repeat case_decide; lia. }
    rewrite lookup_app_l by (rewrite length_contents; lia).
    rewrite contents_lookup by lia. done.
Qed.

Lemma contents_head q :
  head q < length (nodes q) → 0 < cnt q ≤ length (nodes q) →
  ∃ x l, contents q = x :: l ∧ nodes q !! head q = Some x ∧
    ∀ h sz, h = (head q + 1) `mod` length (nodes q) →
      contents {| nodes := nodes q; head := h; tail := tail q; cnt := cnt q - 1;
                  size := sz; closed := closed q; initCap := initCap q |} = l.
Proof.
  intros Hh Hc. destruct (contents q) as [|x l] eqn:E.
  { apply (f_equal length) in E. rewrite length_contents in E by lia. simpl in E. lia. }
  exists x, l. split; [done|]. split.
  - pose proof (contents_lookup q 0) as H. rewrite E, Nat.add_0_r, Nat.mod_small in H by done.
    symmetry. apply H; lia.
  - intros h sz ->. apply list_eq. intros j.
    pose proof (length_contents q ltac:(lia)) as Hl. rewrite E in Hl. simpl in Hl.
    assert ((head q + 1) `mod` length (nodes q) < length (nodes q))
      by (apply Nat.mod_upper_bound; lia).
    destruct (decide (j < cnt q - 1)) as [Hj|Hj].
    2:{ rewrite !lookup_ge_None_2; [done|lia|].
        rewrite length_contents; simpl; lia. }
    rewrite contents_lookup; simpl; try lia.
    rewrite Nat.Div0.add_mod_idemp_l, <- Nat.add_assoc.
    rewrite <- contents_lookup by lia. by rewrite E.
Qed.

(** the ring after a buffer of the right size has been filled *)
Lemma ring_ok_fresh q c n k :
  n = 2 ^ (k + 1) → length c ≤ n → (n = 2 ∨ n < 2 * length c) → ring_ok (fresh_queue q c n).
Proof.
  intros Hn Hc Hd. assert (0 < n) by (subst; apply Nat.neq_0_lt_0, Nat.pow_nonzero; lia).
  assert (length (nodes (fresh_queue q c n)) = n) as E
    by (simpl; rewrite length_app, length_replicate; lia).
  split; rewrite ?E; simpl; eauto.
Qed.

Lemma Add_refines i q :
  queue_inv q → ∃ r q', Add i q = Ok (r, q') ∧ queue_inv q' ∧
    (ObsBool r, abs q') = Spec.step (OpAdd i) (abs q).
Proof.
  intros (Hi & Hs & Hok). unfold Add, Spec.step, abs; simpl.
  destruct (closed q) eqn:Hcl.
  { exists false, q. unfold queue_inv. by rewrite Hcl. }
  assert (∀ q1, head q1 < length (nodes q1) → cnt q1 < length (nodes q1) →
    (∃ k, length (nodes q1) = 2 ^ (k + 1)) →
    tail q1 = (head q1 + cnt q1) `mod` length (nodes q1) → closed q1 = false →
    initCap q1 = 2 → contents q1 = contents q → size q1 = size q → 
    length (nodes q1) = 2 ∨ length (nodes q1) < 2 * (cnt q1 + 1) →
    ∃ r q', (if bool_decide (tail q1 < length (nodes q1)) then
      let ns := <[tail q1 := i]> (nodes q1) in
      t ← div_mod_panic (tail q1 + 1) (length ns);
      Ok (true, {| nodes := ns; head := head q1; tail := t; cnt := cnt q1 + 1;
                   size := size q1 + length i; closed := closed q1; initCap := initCap q1 |})
      else Panic) = Ok (r, q') ∧ queue_inv q' ∧
      (ObsBool r, abs q') =
      (ObsBool true, {| Spec.items := contents q ++ [i]; Spec.is_closed := false |})) as Hstore.
  { intros q1 Hh Hc Hp Ht Hc1 Hi1 Hcont Hs1 Hd.
    rewrite bool_decide_true by (rewrite Ht; apply Nat.mod_upper_bound; lia).
    cbv zeta. rewrite length_insert.
    destruct (length (nodes q1)) as [|n] eqn:El; [lia|]. cbn [div_mod_panic mbind result_bind].
    rewrite <- El in *. eexists _, _. split; [done|].
    pose proof (contents_snoc q1 i (size q1 + length i) ((tail q1 + 1) `mod` length (nodes q1))
      Hh Hc Ht) as E.
    split.
    - split_and!; [done|..]; [|simpl; rewrite Hc1].
      + rewrite E, total_app, Hcont. cbn. lia.
      + split; simpl; rewrite ?length_insert; try done; [lia|].
        by rewrite Ht, Nat.Div0.add_mod_idemp_l, Nat.add_assoc.
    - unfold abs. rewrite E. simpl. by rewrite Hcont, Hc1. }
  destruct Hok as [[k Hk] Hh Hc Ht Hd].
  case_bool_decide as Hfull.
  - rewrite (resize_contents _ q) by (done || lia).
    cbn [mbind result_bind].
    pose proof (length_contents q Hc) as El.
    pose proof (Hstore (fresh_queue q (contents q) (cnt q * 2))) as H.
    unfold fresh_queue in H. rewrite El in H.
    assert (length (contents q ++ replicate (cnt q * 2 - cnt q) []) = cnt q * 2) as El2
      by (rewrite length_app, length_replicate; lia).
    cbn [nodes head tail cnt size closed initCap] in *. rewrite El2 in *.
    apply H; try done; try lia.
    + exists (S k). rewrite Hfull, Hk. rewrite Nat.add_succ_l, (Nat.pow_succ_r' _ (k + 1)). lia.
    + transitivity (contents (fresh_queue q (contents q) (cnt q * 2))); [|apply contents_fresh].
      unfold fresh_queue. by rewrite El.
  - apply Hstore; eauto; lia.
Qed.

Lemma half_pow k : 2 ^ (S k + 1) / 2 = 2 ^ (k + 1).
Proof.
  rewrite Nat.add_succ_l, Nat.pow_succ_r', Nat.mul_comm. by apply Nat.div_mul.
Qed.

Lemma Remove_refines q :
  queue_inv q → ∃ r q', Remove q = Ok (r, q') ∧ queue_inv q' ∧
    (ObsItem r, abs q') = Spec.step OpRemove (abs q).
Proof.
  intros (Hi & Hs & Hok). unfold Remove, abs. cbn [Spec.step Spec.items Spec.is_closed].
  case_bool_decide as H0.
  { assert (contents q = []) as E by (unfold contents; by rewrite H0).
    exists None, q. rewrite E. split_and!; [done| |done]. by split_and!. }
  assert (closed q = false) as Hcl by (by destruct (closed q)).
  rewrite Hcl in Hok.
  destruct Hok as [[k Hk] Hh Hc Ht Hd].
  destruct (contents_head q Hh ltac:(lia)) as (x & l & Ec & Ex & Hl). rewrite Ex.
  cbn [mbind result_bind of_option].
  destruct (length (nodes q)) as [|n0] eqn:El; [lia|]. cbn [div_mod_panic mbind result_bind].
  rewrite <- El in *. cbn [nodes head tail cnt size closed initCap].
  specialize (Hl _ (size q - length x) eq_refl).
  set (q1 := {| nodes := nodes q |}) in *.
  assert (size q - length x = Spec.total l) as Hsz
    by (rewrite Hs, Ec, total_cons; lia).
  assert (length l = cnt q - 1) as Hll.
  { apply (f_equal length) in Ec. rewrite length_contents in Ec by lia. simpl in Ec. lia. }
  assert ((head q + 1) `mod` length (nodes q) < length (nodes q))
    by (apply Nat.mod_upper_bound; lia).
  assert (tail q1 = (head q1 + cnt q1) `mod` length (nodes q1)) as Ht1.
  { simpl. rewrite Nat.Div0.add_mod_idemp_l, Ht.
    by replace (head q + 1 + (cnt q - 1)) with (head q + cnt q) by lia. }
  rewrite Ec. cbn [initCap cnt].
  case_bool_decide as Hshrink.
  - destruct k as [|k]; [rewrite Hk in Hshrink; cbn in Hshrink; lia|].
    change (nodes q1) with (nodes q) in *. rewrite Hk, half_pow in *.
    assert (2 ^ (S k + 1) = 2 * 2 ^ (k + 1)) as E2 by (rewrite Nat.add_succ_l, Nat.pow_succ_r'; done).
    assert (cnt q - 1 = 2 ^ (k + 1)) as Hcnt by lia.
    assert (resize (2 ^ (k + 1)) q1 = Ok (fresh_queue q1 l (2 ^ (k + 1)))) as ->.
    { rewrite resize_contents.
      - unfold fresh_queue. by rewrite Hl, Hll.
      - cbn [nodes head q1]. by rewrite Hk.
      - cbn [nodes cnt q1]. lia.
      - change (nodes q1) with (nodes q). by rewrite Hk.
      - cbn [cnt q1]. lia.
      - cbn [cnt q1]. lia. }
    cbn [mbind result_bind]. eexists _, _. split; [done|]. split.
    + split_and!; [done|by rewrite contents_fresh|]. simpl. rewrite Hcl.
      apply (ring_ok_fresh q1 l _ k); lia.
    + by rewrite contents_fresh.
  - eexists _, _. split; [done|]. split.
    + split_and!; [done|by rewrite Hl|]. cbn [closed q1]. rewrite Hcl.
      change (nodes q1) with (nodes q) in *.
      split; cbn [nodes head cnt q1]; try done; [by exists k|lia|].
      destruct k as [|k]; [by left|right]. rewrite Hk, half_pow in Hshrink.
      assert (2 ^ (S k + 1) = 2 * 2 ^ (k + 1)) as E2
        by (rewrite Nat.add_succ_l, Nat.pow_succ_r'; done).
      assert (2 ^ (k + 1) = 2 * 2 ^ k) by (rewrite Nat.add_1_r, Nat.pow_succ_r'; done).
      pose proof (Nat.pow_nonzero 2 k). cbn [initCap cnt q1] in Hshrink. lia.
    + by rewrite Hl.
Qed.

Lemma drain_lookup k ns h :
  h < length ns → ∃ rem h', drain k ns h = Ok (rem, h') ∧ length rem = k ∧
    ∀ j, j < k → rem !! j = ns !! ((h + j) `mod` length ns).
Proof.
  revert h. induction k as [|k IH]; intros h Hh.
  { exists [], h. split_and!; try done. lia. }
  cbn [drain]. destruct (lookup_lt_is_Some_2 ns h Hh) as [x Hx]. rewrite Hx.
  cbn [of_option mbind result_bind].
  destruct (IH ((h + 1) `mod` length ns)) as (rem & h' & E & El & Hj).
  { apply Nat.mod_upper_bound. lia. }
  assert (div_mod_panic (h + 1) (length ns) = Ok ((h + 1) `mod` length ns)) as ->
    by (by destruct (length ns); [lia|]).
  cbn [mbind result_bind]. rewrite E. exists (x :: rem), h'. split_and!; [done|simpl; lia|].
  intros [|j] Hlt; simpl.
  - by rewrite Nat.add_0_r, Nat.mod_small.
  - rewrite Hj by lia. f_equal. rewrite Nat.Div0.add_mod_idemp_l. f_equal. lia.
Qed.

Lemma drain_contents q :
  ring_ok q → ∃ h, drain (cnt q) (nodes q) (head q) = Ok (contents q, h).
Proof.
  intros [_ Hh Hc _ _].
  destruct (drain_lookup (cnt q) (nodes q) (head q) Hh) as (rem & h & E & El & Hj).
  exists h. rewrite E. do 2 f_equal. apply list_eq. intros j.
  destruct (decide (j < cnt q)).
  - rewrite Hj by done. by rewrite contents_lookup.
  - rewrite !lookup_ge_None_2; rewrite ?length_contents; auto; lia.
Qed.

Lemma queue_inv_closed h t q : initCap q = 2 →
  queue_inv {| nodes := []; head := h; tail := t; cnt := 0; size := 0; closed := true;
               initCap := initCap q |}.
Proof. by repeat split. Qed.

Lemma length_contents_inv q : queue_inv q → length (contents q) = cnt q.
Proof.
  intros (_ & _ & H). destruct (closed q).
  - unfold contents. by rewrite H.
  - apply length_contents, H.
Qed.

(** one operation: no panic, same observation, invariant kept *)
Lemma step_refines o q :
  queue_inv q → ∃ r q', step o q = Ok (r, q') ∧ queue_inv q' ∧
    (r, abs q') = Spec.step o (abs q).
Proof.
  intros Hq. pose proof Hq as (Hi & Hs & Hok). pose proof (length_contents_inv q Hq) as Hl.
  destruct o as [b| | | | | | |]; cbn [step].
  - destruct (Add_refines b q Hq) as (r & q' & -> & ? & ?). by exists (ObsBool r), q'.
  - destruct (Remove_refines q Hq) as (r & q' & -> & ? & ?). by exists (ObsItem r), q'.
  - exists ObsUnit, (Close q). split_and!; [done|by apply queue_inv_closed|done].
  - unfold CloseRemaining, Spec.step. cbn [Spec.is_closed abs].
    destruct (closed q) eqn:Hcl.
    + exists (ObsItems []), q. by split_and!.
    + destruct (drain_contents q Hok) as [h ->]. cbn [mbind result_bind].
      eexists _, _. split_and!; [done|by apply queue_inv_closed|done].
  - by exists (ObsBool (Closed q)), q.
  - exists (ObsNat (Len q)), q. split_and!; [done..|]. unfold Len. simpl. by rewrite Hl.
  - exists (ObsNat (Size q)), q. split_and!; [done..|]. unfold Size. simpl. by rewrite Hs.
  - eexists _, q. split_and!; [done..|]. unfold WaitStart. simpl.
    destruct (closed q); [done|]. rewrite <- Hl. by destruct (contents q).
Qed.

Lemma run_refines ops q :
  queue_inv q → ∃ rs q', run ops q = Ok (rs, q') ∧ queue_inv q' ∧
    (rs, abs q') = spec_run ops (abs q).
Proof.
  revert q. induction ops as [|o ops IH]; intros q Hq; cbn [run spec_run].
  { by exists [], q. }
  destruct (step_refines o q Hq) as (r & q' & -> & Hq' & <-).
  destruct (IH q' Hq') as (rs & q'' & E & Hq'' & Hsp).
  cbn [mbind result_bind]. rewrite E, <- Hsp. by exists (r :: rs), q''.
Qed.

Lemma New_inv : queue_inv New.
Proof.
  split; [done|]. split; [done|]. cbn [closed New].
  split; try done; [by exists 0|simpl; lia..|by left].
Qed.

End ring.

(** C30: whatever operations are applied to a new queue, the ring
    buffer never panics (no index out of range, no modulo by zero) and answers
    each of them as the FIFO list does, [Len] and [Size] included, and its state
    always represents the state of the list. *)
Theorem queue_refines_fifo (ops : list op) :
  ∃ rs q, ByteQueue.run ops ByteQueue.New = Ok (rs, q) ∧
    spec_run ops Spec.empty = (rs, abs q) ∧ queue_inv q.
Proof.
  destruct (run_refines ops ByteQueue.New New_inv) as (rs & q & E & Hq & Hs).
  exists rs, q. by rewrite E.
Qed.

(** after any history of a queue that is not closed, the buffer is
    never smaller than the number of items and, above its initial capacity, less
    than twice as large: growing and shrinking keep memory proportional to the
    contents. *)
Theorem queue_capacity_bounds (ops : list op) (rs : list obs) (q : ByteQueue.byteQueue) :
  ByteQueue.run ops ByteQueue.New = Ok (rs, q) → ByteQueue.Closed q = false →
  ByteQueue.Len q ≤ ByteQueue.Cap q ≤ Nat.max 2 (2 * ByteQueue.Len q - 1) ∧
  ∃ k, ByteQueue.Cap q = 2 ^ (k + 1).
Proof.
  intros E Hc. destruct (run_refines ops ByteQueue.New New_inv) as (rs' & q' & E' & Hq & _).
  rewrite E in E'. injection E' as <- <-. destruct Hq as (_ & _ & H).
  unfold ByteQueue.Closed in Hc. rewrite Hc in H. destruct H as [Hk _ Hl _ Hd].
  unfold ByteQueue.Len, ByteQueue.Cap. split; [lia|done].
Qed.

Lemma queue_capacity_bounds_witness :
  let q := match ByteQueue.run (OpAdd <$> [[1%Z]; [2%Z]; [3%Z]]) ByteQueue.New with
           | Ok (_, q) => q | _ => ByteQueue.New end in
  ByteQueue.Len q ≤ ByteQueue.Cap q ≤ Nat.max 2 (2 * ByteQueue.Len q - 1) ∧
  ∃ k, ByteQueue.Cap q = 2 ^ (k + 1).
Proof.
  apply (queue_capacity_bounds (OpAdd <$> [[1%Z]; [2%Z]; [3%Z]])
    [ObsBool true; ObsBool true; ObsBool true]); vm_compute; reflexivity.
Defined.
