(* ===== verification/Messages.v ===== *)
(** * Messages: the protobuf structs of [pb/control], [pb/fs_pb] and [pb/transport]

    The messages are records with the Go field names, prefixed by the name of the
    message.  Their [Marshal] and [Unmarshal] methods are generated by gogo-proto;
    the rest of the development relies only on their round trip, stated as the
    class [Codec]. *)

From S2P Require Import Prelude.

(** ** Generated codecs *)

(** [Unmarshal] fails ([None]) on bytes that are no message *)
Class Codec (T : Type) := {
  Marshal_msg : T → list Z;
  Unmarshal_msg : list Z → option T;
  Unmarshal_Marshal_msg : ∀ x, Unmarshal_msg (Marshal_msg x) = Some x;
  Marshal_msg_bytes : ∀ x, Forall in_byte (Marshal_msg x);
}.

(** Any countable type has a codec: the one the witnesses run with. *)
Section bit_codec.
Context {T : Type} `{Countable T}.

Fixpoint code_bits (p : positive) : list Z :=
  match p with xH => [] | xO p' => 0 :: code_bits p' | xI p' => 1 :: code_bits p' end.
Fixpoint bits_pos (l : list Z) : option positive :=
  match l with
  | [] => Some xH
  | b :: l' => p ← bits_pos l'; if b =? 0 then Some (xO p) else if b =? 1 then Some (xI p) else None
  end.

Lemma bits_pos_bits p : bits_pos (code_bits p) = Some p.
Proof. induction p as [p IH|p IH|]; simpl; rewrite ?IH; done. Qed.

Lemma code_bits_range p : Forall in_byte (code_bits p).
Proof. induction p; simpl; constructor; by unfold in_byte || done. Qed.

Program Definition bit_codec : Codec T :=
  {| Marshal_msg x := code_bits (encode x); Unmarshal_msg l := bits_pos l ≫= decode |}.
Next Obligation.
  intros x. cbn beta. pose proof (bits_pos_bits (encode x)) as ->. apply decode_encode.
Qed.
Next Obligation. intros x. apply code_bits_range. Qed.
End bit_codec.

(** ** [pb/control] *)

Inductive State := State_LEADER | State_CANDIDATE | State_FOLLOWER.

Inductive Entry_Type :=
| Entry_ASSIGN_FILE | Entry_DELETE_FILE | Entry_ASSIGN_BLOCKS | Entry_DELETE_BLOCKS
| Entry_CREATE_POLICY | Entry_DELETE_POLICY | Entry_CREATE_TOKEN | Entry_REVOKE_TOKEN.

Inductive FileInfo_FileType := FileInfo_DIR | FileInfo_FILE | FileInfo_SYMLINK.

Record Entry := mkEntry {
  Entry_Index : Z; Entry_Term : Z; Entry_type : Entry_Type; Entry_Data : list Z;
  Entry_Timestamp : Z; Entry_Version : Z;   (* the bits of a float32 *)
}.

Record RequestVoteRequest := mkVoteReq {
  VoteReq_Term : Z; VoteReq_CandidateId : string; VoteReq_LastLogIndex : Z; VoteReq_LastLogTerm : Z;
}.

Record RequestVoteResponse := mkVoteResp {
  VoteResp_From : string; VoteResp_Term : Z; VoteResp_VoteGranted : bool;
}.

Record AppendEntriesRequest := mkAppendReq {
  AppendReq_Term : Z; AppendReq_LeaderId : string; AppendReq_PrevLogIndex : Z;
  AppendReq_PrevLogTerm : Z; AppendReq_Entries : list Entry; AppendReq_LeaderCommit : bool;
}.

Record AppendEntriesResponse := mkAppendResp {
  AppendResp_From : string; AppendResp_Term : Z; AppendResp_Success : bool;
  AppendResp_LastAgreedIndex : Z; AppendResp_LastCommittedIndex : Z;
}.

Record FileInfo := mkFileInfo {
  File_Id : string; File_ParentID : string; File_Type : FileInfo_FileType;
  File_Name : string; File_Path : string; File_FileSize : Z; File_Permission : Z;
  File_Owner : string; File_Group : string; File_Symlink : string; File_Replication : Z;
}.

Record BlockInfo_Placement := mkPlacement { Placement_NodeID : string; Placement_PartitionID : string }.

Record BlockInfo := mkBlockInfo {
  Block_Id : string; Block_Index : Z; Block_Size : Z; Block_FileID : string;
  Block_Blocks : list BlockInfo_Placement;
}.

Record Policy_PathRules := mkPathRules {
  PathRules_Path : string; PathRules_Policy : string; PathRules_CapabilitiesBitmap : Z;
  PathRules_Capabilities : list string;
}.

Record Policy := mkPolicy { Policy_Id : string; Policy_Name : string; Policy_Paths : list Policy_PathRules }.

Record Token := mkToken {
  Token_Id : string; Token_AuthEngine : string; Token_Parent : string; Token_Accessor : string;
  Token_Ttl : Z; Token_CreationTime : Z; Token_Policies : list string; Token_Role : string;
  Token_Root : bool;
}.

Record Role := mkRole {
  Role_ID : string; Role_Name : string; Role_Permissions : list string; Role_Password : string;
}.

Record RegistryInfo := mkRegistryInfo {
  Registry_Id : string; Registry_Name : string; Registry_Address : string;
}.

Record EntryAssignFile := mkAssignFile { AssignFile_NodeId : string; AssignFile_File : FileInfo }.
Record EntryDeleteFile := mkDeleteFile { DeleteFile_NodeId : string; DeleteFile_File : FileInfo }.
Record EntryAssignBlocks := mkAssignBlocks { AssignBlocks_NodeId : string; AssignBlocks_Blocks : list BlockInfo; AssignBlocks_Rack : string }.
Record EntryDeleteBlocks := mkDeleteBlocks { DeleteBlocks_NodeId : string; DeleteBlocks_Blocks : list BlockInfo }.
Record EntryCreatePolicy := mkCreatePolicy { CreatePolicy_NodeId : string; CreatePolicy_Policy : Policy }.
Record EntryDeletePolicy := mkDeletePolicy { DeletePolicy_NodeId : string; DeletePolicy_PolicyName : string }.
Record EntryCreateToken := mkCreateToken { CreateToken_NodeId : string; CreateToken_Token : Token }.
Record EntryRevokeToken := mkRevokeToken { RevokeToken_NodeId : string; RevokeToken_Accessor : string }.

(** ** [pb/fs_pb] and [pb/transport] *)

Record FsBlock := mkFsBlock {
  Fs_Id : string; Fs_Index : Z; Fs_FileId : string; Fs_Offset : Z; Fs_Len : Z; Fs_Data : list Z;
  Fs_Checksum : list Z;
}.

Record BlockPlacementInfo := mkBPI {
  BPI_BlockID : string; BPI_PartitionID : string; BPI_Success : bool; BPI_Error : string;
}.

Record NodeMetrics := mkMetrics {
  Metrics_BlocksUsed : Z; Metrics_BlocksRemaining : Z; Metrics_Partitions : Z;
  Metrics_DiskCapacity : Z; Metrics_DiskRemaining : Z; Metrics_DiskUsedPercent : Z;
  Metrics_LastUpdate : Z; Metrics_CacheCapacity : Z; Metrics_CacheUsed : Z; Metrics_MemUsedPercent : Z;
}.

Inductive NodeInfo_State := NodeInfo_NORMAL | NodeInfo_DECOMMISSION_IN_PROGRESS | NodeInfo_DECOMMISSIONED.

Record NodeInfo := mkNodeInfo {
  Node_Id : string; Node_Name : string; Node_Address : string; Node_Location : string;
  Node_State : NodeInfo_State;
}.

(** ** Decidable equality and encodings *)

#[export] Instance State_eq_dec : EqDecision State.
Proof. solve_decision. Defined.
#[export] Instance Entry_Type_eq_dec : EqDecision Entry_Type.
Proof. solve_decision. Defined.
#[export] Instance FileType_eq_dec : EqDecision FileInfo_FileType.
Proof. solve_decision. Defined.
#[export] Instance Entry_eq_dec : EqDecision Entry.
Proof. solve_decision. Defined.
#[export] Instance FileInfo_eq_dec : EqDecision FileInfo.
Proof. solve_decision. Defined.
#[export] Instance Placement_eq_dec : EqDecision BlockInfo_Placement.
Proof. solve_decision. Defined.
#[export] Instance BlockInfo_eq_dec : EqDecision BlockInfo.
Proof. solve_decision. Defined.
#[export] Instance PathRules_eq_dec : EqDecision Policy_PathRules.
Proof. solve_decision. Defined.
#[export] Instance Policy_eq_dec : EqDecision Policy.
Proof. solve_decision. Defined.
#[export] Instance Token_eq_dec : EqDecision Token.
Proof. solve_decision. Defined.
#[export] Instance Role_eq_dec : EqDecision Role.
Proof. solve_decision. Defined.
#[export] Instance FsBlock_eq_dec : EqDecision FsBlock.
Proof. solve_decision. Defined.
#[export] Instance BPI_eq_dec : EqDecision BlockPlacementInfo.
Proof. solve_decision. Defined.
#[export] Instance VoteResp_eq_dec : EqDecision RequestVoteResponse.
Proof. solve_decision. Defined.
#[export] Instance AppendResp_eq_dec : EqDecision AppendEntriesResponse.
Proof. solve_decision. Defined.

Definition Entry_Type_code (t : Entry_Type) : Z :=
  match t with
  | Entry_ASSIGN_FILE => 0 | Entry_DELETE_FILE => 1 | Entry_ASSIGN_BLOCKS => 3
  | Entry_DELETE_BLOCKS => 4 | Entry_CREATE_POLICY => 5 | Entry_DELETE_POLICY => 6
  | Entry_CREATE_TOKEN => 7 | Entry_REVOKE_TOKEN => 8
  end.
Definition Entry_Type_of_code (z : Z) : option Entry_Type :=
  match z with
  | 0 => Some Entry_ASSIGN_FILE | 1 => Some Entry_DELETE_FILE | 3 => Some Entry_ASSIGN_BLOCKS
  | 4 => Some Entry_DELETE_BLOCKS | 5 => Some Entry_CREATE_POLICY | 6 => Some Entry_DELETE_POLICY
  | 7 => Some Entry_CREATE_TOKEN | 8 => Some Entry_REVOKE_TOKEN
  | _ => None
  end.
Definition FileType_code (t : FileInfo_FileType) : Z :=
  match t with FileInfo_DIR => 0 | FileInfo_FILE => 1 | FileInfo_SYMLINK => 3 end.
Definition FileType_of_code (z : Z) : option FileInfo_FileType :=
  match z with 0 => Some FileInfo_DIR | 1 => Some FileInfo_FILE | 3 => Some FileInfo_SYMLINK | _ => None end.

#[export] Program Instance Entry_Type_countable : Countable Entry_Type :=
  inj_countable Entry_Type_code Entry_Type_of_code _.
Next Obligation. by intros []. Qed.
#[export] Program Instance FileType_countable : Countable FileInfo_FileType :=
  inj_countable FileType_code FileType_of_code _.
Next Obligation. by intros []. Qed.

#[export] Program Instance Entry_countable : Countable Entry :=
  inj_countable' (λ e, (Entry_Index e, Entry_Term e, Entry_type e, Entry_Data e, (Entry_Timestamp e, Entry_Version e)))
    (λ '(i, t, ty, d, (ts, v)), mkEntry i t ty d ts v) _.
Next Obligation. by intros []. Qed.
#[export] Program Instance FileInfo_countable : Countable FileInfo :=
  inj_countable' (λ f, (File_Id f, File_ParentID f, File_Type f, File_Name f, File_Path f,
      (File_FileSize f, File_Permission f, File_Owner f, File_Group f, File_Symlink f, File_Replication f)))
    (λ '(a, b, c, d, e, (f, g, h, i, j, k)), mkFileInfo a b c d e f g h i j k) _.
Next Obligation. by intros []. Qed.
#[export] Program Instance Placement_countable : Countable BlockInfo_Placement :=
  inj_countable' (λ p, (Placement_NodeID p, Placement_PartitionID p)) (λ '(a, b), mkPlacement a b) _.
Next Obligation. by intros []. Qed.
#[export] Program Instance BlockInfo_countable : Countable BlockInfo :=
  inj_countable' (λ b, (Block_Id b, Block_Index b, Block_Size b, Block_FileID b, Block_Blocks b))
    (λ '(a, b, c, d, e), mkBlockInfo a b c d e) _.
Next Obligation. by intros []. Qed.
#[export] Program Instance PathRules_countable : Countable Policy_PathRules :=
  inj_countable' (λ p, (PathRules_Path p, PathRules_Policy p, PathRules_CapabilitiesBitmap p, PathRules_Capabilities p))
    (λ '(a, b, c, d), mkPathRules a b c d) _.
Next Obligation. by intros []. Qed.
#[export] Program Instance Policy_countable : Countable Policy :=
  inj_countable' (λ p, (Policy_Id p, Policy_Name p, Policy_Paths p)) (λ '(a, b, c), mkPolicy a b c) _.
Next Obligation. by intros []. Qed.
#[export] Program Instance Token_countable : Countable Token :=
  inj_countable' (λ t, (Token_Id t, Token_AuthEngine t, Token_Parent t, Token_Accessor t,
      (Token_Ttl t, Token_CreationTime t, Token_Policies t, Token_Role t, Token_Root t)))
    (λ '(a, b, c, d, (e, f, g, h, i)), mkToken a b c d e f g h i) _.
Next Obligation. by intros []. Qed.
#[export] Program Instance Role_countable : Countable Role :=
  inj_countable' (λ r, (Role_ID r, Role_Name r, Role_Permissions r, Role_Password r))
    (λ '(a, b, c, d), mkRole a b c d) _.
Next Obligation. by intros []. Qed.
#[export] Instance EntryAssignFile_eq_dec : EqDecision EntryAssignFile.
Proof. solve_decision. Defined.
#[export] Program Instance EntryAssignFile_countable : Countable EntryAssignFile :=
  inj_countable' (λ e, (AssignFile_NodeId e, AssignFile_File e)) (λ '(a, b), mkAssignFile a b) _.
Next Obligation. by intros []. Qed.
#[export] Instance EntryDeleteFile_eq_dec : EqDecision EntryDeleteFile.
Proof. solve_decision. Defined.
#[export] Program Instance EntryDeleteFile_countable : Countable EntryDeleteFile :=
  inj_countable' (λ e, (DeleteFile_NodeId e, DeleteFile_File e)) (λ '(a, b), mkDeleteFile a b) _.
Next Obligation. by intros []. Qed.
#[export] Instance EntryAssignBlocks_eq_dec : EqDecision EntryAssignBlocks.
Proof. solve_decision. Defined.
#[export] Program Instance EntryAssignBlocks_countable : Countable EntryAssignBlocks :=
  inj_countable' (λ e, (AssignBlocks_NodeId e, AssignBlocks_Blocks e, AssignBlocks_Rack e)) (λ '(a, b, c), mkAssignBlocks a b c) _.
Next Obligation. by intros []. Qed.
#[export] Instance EntryDeleteBlocks_eq_dec : EqDecision EntryDeleteBlocks.
Proof. solve_decision. Defined.
#[export] Program Instance EntryDeleteBlocks_countable : Countable EntryDeleteBlocks :=
  inj_countable' (λ e, (DeleteBlocks_NodeId e, DeleteBlocks_Blocks e)) (λ '(a, b), mkDeleteBlocks a b) _.
Next Obligation. by intros []. Qed.
#[export] Instance EntryCreatePolicy_eq_dec : EqDecision EntryCreatePolicy.
Proof. solve_decision. Defined.
#[export] Program Instance EntryCreatePolicy_countable : Countable EntryCreatePolicy :=
  inj_countable' (λ e, (CreatePolicy_NodeId e, CreatePolicy_Policy e)) (λ '(a, b), mkCreatePolicy a b) _.
Next Obligation. by intros []. Qed.
#[export] Instance EntryDeletePolicy_eq_dec : EqDecision EntryDeletePolicy.
Proof. solve_decision. Defined.
#[export] Program Instance EntryDeletePolicy_countable : Countable EntryDeletePolicy :=
  inj_countable' (λ e, (DeletePolicy_NodeId e, DeletePolicy_PolicyName e)) (λ '(a, b), mkDeletePolicy a b) _.
Next Obligation. by intros []. Qed.
#[export] Instance EntryCreateToken_eq_dec : EqDecision EntryCreateToken.
Proof. solve_decision. Defined.
#[export] Program Instance EntryCreateToken_countable : Countable EntryCreateToken :=
  inj_countable' (λ e, (CreateToken_NodeId e, CreateToken_Token e)) (λ '(a, b), mkCreateToken a b) _.
Next Obligation. by intros []. Qed.
#[export] Instance EntryRevokeToken_eq_dec : EqDecision EntryRevokeToken.
Proof. solve_decision. Defined.
#[export] Program Instance EntryRevokeToken_countable : Countable EntryRevokeToken :=
  inj_countable' (λ e, (RevokeToken_NodeId e, RevokeToken_Accessor e)) (λ '(a, b), mkRevokeToken a b) _.
Next Obligation. by intros []. Qed.

(** ** The codecs of the journal's entries and of their payloads *)

Class EntryCodecs := {
  codec_Entry :: Codec Entry;
  codec_AssignFile :: Codec EntryAssignFile;
  codec_DeleteFile :: Codec EntryDeleteFile;
  codec_AssignBlocks :: Codec EntryAssignBlocks;
  codec_DeleteBlocks :: Codec EntryDeleteBlocks;
  codec_CreatePolicy :: Codec EntryCreatePolicy;
  codec_DeletePolicy :: Codec EntryDeletePolicy;
  codec_CreateToken :: Codec EntryCreateToken;
  codec_RevokeToken :: Codec EntryRevokeToken;
}.

(** the codecs the witnesses run with *)
Definition bit_codecs : EntryCodecs :=
  {| codec_Entry := bit_codec; codec_AssignFile := bit_codec; codec_DeleteFile := bit_codec;
     codec_AssignBlocks := bit_codec; codec_DeleteBlocks := bit_codec; codec_CreatePolicy := bit_codec;
     codec_DeletePolicy := bit_codec; codec_CreateToken := bit_codec; codec_RevokeToken := bit_codec |}.

(** the codecs of the records the storage keeps *)
Class RecordCodecs := {
  codec_File :: Codec FileInfo;
  codec_Block :: Codec BlockInfo;
  codec_Role :: Codec Role;
  codec_Token :: Codec Token;
  codec_Policy :: Codec Policy;
}.

Definition bit_records : RecordCodecs :=
  {| codec_File := bit_codec; codec_Block := bit_codec; codec_Role := bit_codec;
     codec_Token := bit_codec; codec_Policy := bit_codec |}.
