(* ===== verification/RandFile.v ===== *)
(** * Random access files

    The [os.File] operations of the data node ([ReadAt], [WriteAt], [Truncate],
    [Seek]) on a sparse file, and [util/fileutil] ([Preallocate]) on top of them.
    A file is its size and the bytes that were written; holes read as zeros, as
    POSIX files do.  Partition files are one gigabyte, so the bytes are kept in a
    finite map. *)

From S2P Require Import Prelude.

Record file := mkFile { f_size : Z; f_data : gmap Z Z }.

Definition empty_file : file := mkFile 0 ∅.

Definition byte_at (f : file) (off : Z) : Z := default 0 (f_data f !! off).

Fixpoint read_range (f : file) (off : Z) (n : nat) : list Z :=
  match n with
  | O => []
  | S n' => byte_at f off :: read_range f (off + 1) n'
  end.

Fixpoint write_range (d : gmap Z Z) (off : Z) (bs : list Z) : gmap Z Z :=
  match bs with
  | [] => d
  | b :: bs' => <[off := b]> (write_range d (off + 1) bs')
  end.

(** [f.ReadAt(make([]byte, n), off)]: [None] when fewer than [n] bytes remain
    ([io.EOF]); an empty buffer is never short *)
Definition read_at (f : file) (off : Z) (n : nat) : option (list Z) :=
  if bool_decide (n = O ∨ off + Z.of_nat n ≤ f_size f) then Some (read_range f off n) else None.

Definition write_at (f : file) (off : Z) (bs : list Z) : file :=
  match bs with
  | [] => f
  | _ => mkFile (Z.max (f_size f) (off + lenZ bs)) (write_range (f_data f) off bs)
  end.

(** [f.Truncate(size)]: cuts the file or extends it with zeros *)
Definition truncate (f : file) (size : Z) : file :=
  mkFile size (filter (λ kv : Z * Z, kv.1 < size) (f_data f)).

(** ** [util/fileutil] *)

Module Fileutil.

(** [fallocate] with the flags of index [i]; [KEEP_SIZE] and [PUNCH_HOLE] leave
    the visible size alone, and the space it reserves has no bytes of its own *)
Inductive falloc_res := FallocOk | FallocNotSup | FallocErr.

(** [const sizeInBytes] aside, the loop of [preallocFixed]: [again:] tries the
    next flags after [ENOTSUP] and remembers the index *)
Definition fallocFlagsLen : nat := 2.

Fixpoint preallocFixed_loop (fuel : nat) (fallocate : nat → falloc_res) (index : nat)
    : result unit unit * nat :=
  if bool_decide (fallocFlagsLen ≤ index)%nat then (Ok tt, index)
  else match fuel with
  | O => (Panic, index)
  | S fuel' =>
      match fallocate index with
      | FallocOk => (Ok tt, index)
      | FallocErr => (Err tt, index)
      | FallocNotSup => preallocFixed_loop fuel' fallocate (S index)
      end
  end.
Definition preallocFixed (fallocate : nat → falloc_res) (index : nat) :=
  preallocFixed_loop fallocFlagsLen fallocate index.

(** [preallocExtendTrunc]: seek to [sizeInBytes] past the end, seek back, and
    truncate unless the position reached is below [sizeInBytes] *)
Definition preallocExtendTrunc (f : file) (sizeInBytes : Z) : file :=
  let size := f_size f + sizeInBytes in
  if sizeInBytes >? size then f else truncate f sizeInBytes.

Definition preallocExtend (fallocate : nat → falloc_res) (index : nat) (f : file)
    (sizeInBytes : Z) : result unit file * nat :=
  match preallocFixed fallocate index with
  | (Ok _, i) => (Ok (preallocExtendTrunc f sizeInBytes), i)
  | (Err e, i) => (Err e, i)
  | (Panic, i) => (Panic, i)
  end.

Definition Preallocate (fallocate : nat → falloc_res) (index : nat) (f : file)
    (sizeInBytes : Z) (extendFile : bool) : result unit file * nat :=
  if sizeInBytes =? 0 then (Ok f, index)
  else if extendFile then preallocExtend fallocate index f sizeInBytes
  else match preallocFixed fallocate index with
       | (Ok _, i) => (Ok f, i)
       | (Err e, i) => (Err e, i)
       | (Panic, i) => (Panic, i)
       end.

(** [preallocate_darwin.go]: the outcome of [fcntl], and the blocks the file has by
    [fstat] times the size of a block by [fstatfs], an [int64] *)
Inductive fcntl_res := FcntlOk | FcntlNotSup | FcntlInvalid | FcntlErr.

Definition preallocFixed_darwin (fcntl : fcntl_res) (blocks blockSize sizeInBytes : Z) : result unit unit :=
  match fcntl with
  | FcntlOk | FcntlNotSup => Ok tt
  | FcntlInvalid => if i64 (blocks * blockSize) >=? sizeInBytes then Ok tt else Err tt
  | FcntlErr => Err tt
  end.

Definition preallocExtend_darwin (fcntl : fcntl_res) (blocks blockSize : Z) (f : file) (sizeInBytes : Z) : result unit file :=
  match preallocFixed_darwin fcntl blocks blockSize sizeInBytes with
  | Ok _ => Ok (preallocExtendTrunc f sizeInBytes)
  | Err e => Err e
  | Panic => Panic
  end.

Definition Preallocate_darwin (fcntl : fcntl_res) (blocks blockSize : Z) (f : file) (sizeInBytes : Z) (extendFile : bool)
    : result unit file :=
  if sizeInBytes =? 0 then Ok f
  else if extendFile then preallocExtend_darwin fcntl blocks blockSize f sizeInBytes
  else match preallocFixed_darwin fcntl blocks blockSize sizeInBytes with
       | Ok _ => Ok f
       | Err e => Err e
       | Panic => Panic
       end.

End Fileutil.

(** ** Lemmas *)

Lemma write_range_lookup d off bs i :
  write_range d off bs !! i =
    if decide (off ≤ i < off + lenZ bs) then bs !! Z.to_nat (i - off) else d !! i.
Proof.
  revert off. induction bs as [|b bs IH]; intros off; cbn [write_range length].
  - case_decide; [lia|done].
  - destruct (decide (i = off)) as [->|Hne].
    + rewrite lookup_insert_eq, Z.sub_diag. case_decide; [done|lia].
    + rewrite lookup_insert_ne, IH by done. repeat case_decide; try lia; [|done].
      replace (Z.to_nat (i - off)) with (S (Z.to_nat (i - (off + 1)))) by lia. done.
Qed.

Lemma length_read_range f off n : length (read_range f off n) = n.
Proof. revert off. induction n; intros off; simpl; [done|by f_equal]. Qed.

Lemma read_range_lookup f off n j :
  (j < n)%nat → read_range f off n !! j = Some (byte_at f (off + Z.of_nat j)).
Proof.
  revert off j. induction n as [|n IH]; intros off j Hj; [lia|].
  destruct j as [|j]; simpl; [by rewrite Z.add_0_r|].
  rewrite IH by lia. do 2 f_equal. lia.
Qed.

(** two files that agree on a range read the same there *)
Lemma read_range_ext f g off n :
  (∀ i, off ≤ i < off + Z.of_nat n → byte_at f i = byte_at g i) →
  read_range f off n = read_range g off n.
Proof.
  intros H. apply list_eq. intros j. destruct (decide (j < n)%nat).
  - rewrite !read_range_lookup by done. f_equal. apply H. lia.
  - rewrite !lookup_ge_None_2; rewrite ?length_read_range; auto; lia.
Qed.

Lemma write_at_byte f off bs i :
  byte_at (write_at f off bs) i =
    if decide (off ≤ i < off + lenZ bs) then default 0 (bs !! Z.to_nat (i - off))
    else byte_at f i.
Proof.
  unfold byte_at, write_at. destruct bs as [|b bs'] eqn:E.
  - simpl. case_decide; [lia|done].
  - rewrite <- E. simpl. rewrite write_range_lookup. by case_decide.
Qed.

Lemma read_range_write_same f off bs :
  read_range (write_at f off bs) off (length bs) = bs.
Proof.
  apply list_eq. intros j. destruct (decide (j < length bs)%nat) as [Hj|].
  - rewrite read_range_lookup, write_at_byte by done. rewrite decide_True by lia.
    replace (Z.to_nat (off + Z.of_nat j - off)) with j by lia.
    destruct (lookup_lt_is_Some_2 bs j Hj) as [x ->]. done.
  - rewrite !lookup_ge_None_2; rewrite ?length_read_range; auto; lia.
Qed.

Lemma read_range_write_other f off bs off' n :
  off' + Z.of_nat n ≤ off ∨ off + lenZ bs ≤ off' →
  read_range (write_at f off bs) off' n = read_range f off' n.
Proof.
  intros H. apply read_range_ext. intros i Hi. rewrite write_at_byte.
  case_decide; [lia|done].
Qed.

Lemma write_at_size f off bs :
  0 ≤ off → f_size f ≤ f_size (write_at f off bs) ∧
  (off + lenZ bs ≤ f_size f → f_size (write_at f off bs) = f_size f) ∧
  (bs ≠ [] → off + lenZ bs ≤ f_size (write_at f off bs)).
Proof. intros H. unfold write_at. destruct bs; simpl; split_and!; intros; try done; lia. Qed.

Lemma truncate_byte f size i :
  byte_at (truncate f size) i = if decide (i < size) then byte_at f i else 0.
Proof.
  unfold byte_at, truncate. simpl. rewrite map_lookup_filter.
  destruct (f_data f !! i) as [x|] eqn:E; simpl; [|by case_decide].
  case_decide; case_guard; simpl in *; done || lia.
Qed.

Lemma preallocFixed_total fallocate index :
  ∃ r i, Fileutil.preallocFixed fallocate index = (r, i) ∧ r ≠ Panic ∧ (index ≤ i)%nat.
Proof.
  unfold Fileutil.preallocFixed, Fileutil.fallocFlagsLen.
  destruct index as [|[|n]]; simpl; repeat (case_match; simpl; try (eexists _, _; done));
    eexists _, _; split_and!; try done; lia.
Qed.

Lemma preallocFixed_ok fallocate index :
  (∀ i, fallocate i ≠ Fileutil.FallocErr) →
  ∃ i, Fileutil.preallocFixed fallocate index = (Ok tt, i).
Proof.
  intros Hno. unfold Fileutil.preallocFixed, Fileutil.fallocFlagsLen.
  destruct index as [|[|n]]; simpl; [| |by eauto].
  - pose proof (Hno 0%nat). pose proof (Hno 1%nat).
    destruct (fallocate 0%nat), (fallocate 1%nat); try done; eauto.
  - pose proof (Hno 1%nat). destruct (fallocate 1%nat); try done; eauto.
Qed.

(** when [fallocate] works, is not supported, or has been found
    unsupported before, [Preallocate(f, size, true)] leaves a file of exactly
    [size] bytes that has the old bytes below [size] and zeros after them; only
    a genuine [fallocate] error is returned, and the loop over the flags ends. *)
Theorem preallocate_extend (fallocate : nat → Fileutil.falloc_res) (index : nat) (f : file) (size : Z) :
  0 < size → 0 ≤ f_size f → (∀ i, f_size f ≤ i → byte_at f i = 0) →
  (∀ i, fallocate i ≠ Fileutil.FallocErr) →
  ∃ f' i, Fileutil.Preallocate fallocate index f size true = (Ok f', i) ∧
    f_size f' = size ∧
    ∀ j, byte_at f' j = if decide (j < Z.min size (f_size f)) then byte_at f j else 0.
Proof.
  intros Hs Hf Hz Hno. unfold Fileutil.Preallocate, Fileutil.preallocExtend.
  rewrite (proj2 (Z.eqb_neq size 0)) by lia.
  destruct (preallocFixed_ok fallocate index Hno) as [i ->].
  exists (truncate f size), i. unfold Fileutil.preallocExtendTrunc.
  destruct (Z.gtb_spec size (f_size f + size)); [lia|].
  split_and!; [done..|]. intros j. rewrite truncate_byte. repeat case_decide; try done; [|lia].
  apply Hz. lia.
Qed.

Lemma preallocate_extend_witness :
  ∃ f' i, Fileutil.Preallocate (λ _, Fileutil.FallocNotSup) 0
      (write_at empty_file 0 [1; 2; 3]) 2 true = (Ok f', i) ∧
    f_size f' = 2 ∧
    ∀ j, byte_at f' j =
      if decide (j < Z.min 2 3) then byte_at (write_at empty_file 0 [1; 2; 3]) j else 0.
Proof.
  apply preallocate_extend; try done.
  intros i Hi. rewrite write_at_byte. cbn in *. case_decide; [lia|done].
Defined.

(** Both platforms leave the same file: [preallocExtendTrunc] compares the size with the
    position that is [size] bytes past the end, so its guard never holds, and a file that
    is larger is cut. *)
Theorem preallocate_cuts_larger_files (fallocate : nat → Fileutil.falloc_res) (index : nat)
    (fcntl : Fileutil.fcntl_res) (blocks blockSize : Z) (f : file) (size : Z) :
  0 < size → 0 ≤ f_size f → (∀ i, fallocate i ≠ Fileutil.FallocErr) →
  fcntl ≠ Fileutil.FcntlErr → (fcntl = Fileutil.FcntlInvalid → size ≤ i64 (blocks * blockSize)) →
  ∃ i, Fileutil.Preallocate fallocate index f size true = (Ok (truncate f size), i) ∧
    Fileutil.Preallocate_darwin fcntl blocks blockSize f size true = Ok (truncate f size).
Proof.
  intros Hs Hf Hno Hne Hinv. unfold Fileutil.Preallocate, Fileutil.Preallocate_darwin, Fileutil.preallocExtend, Fileutil.preallocExtend_darwin.
  rewrite (proj2 (Z.eqb_neq size 0)) by lia. destruct (preallocFixed_ok fallocate index Hno) as [i ->]. exists i.
  assert (Fileutil.preallocFixed_darwin fcntl blocks blockSize size = Ok tt) as ->.
  { destruct fcntl; try done. unfold Fileutil.preallocFixed_darwin. destruct (Z.geb_spec (i64 (blocks * blockSize)) size); [done|].
    specialize (Hinv eq_refl). lia. }
  unfold Fileutil.preallocExtendTrunc. by destruct (Z.gtb_spec size (f_size f + size)); [lia|].
Qed.
