(* ===== verification/IdxFile.v ===== *)
(** * Block index files: [node/data/idx_file.go], [node/data/util.go]

    A partition keeps one 44 byte record per slot in its index file: the 36
    characters of the block identifier and its size as a big-endian [uint64].
    The file is the only durable description of what the partition holds, so the
    properties are about what [Load] finds in it. *)

From S2P Require Import Prelude Bytes RandFile.

Definition defaultBlockSize : Z := 2097152.          (* 2 << 20 *)
Definition defaultPartitionSize : Z := 1073741824.   (* 1 << 30 *)
Definition partitionBlocksCount : Z := defaultPartitionSize / defaultBlockSize.

Definition idxBlockSize : Z := 44.
Definition idxFileSize : Z := partitionBlocksCount * idxBlockSize.

(** which input/output operations fail: an operation is named by its file offset *)
Inductive io_op := IoReadAt (off : Z) | IoWriteAt (off : Z) | IoSync | IoOpen | IoClose.

#[export] Instance io_op_eq_dec : EqDecision io_op.
Proof. solve_decision. Defined.

Inductive data_error :=
| ErrIO | CorruptWriteErr | ErrCorruptWrite | ErrPartitionClosed | ErrWriteTimeout
| ErrShutdown | ErrNotFound.

#[export] Instance data_error_eq_dec : EqDecision data_error.
Proof. solve_decision. Defined.

Record IdxBlock := mkIdx { ID : string; Size : Z; Offset : Z }.

#[export] Instance IdxBlock_eq_dec : EqDecision IdxBlock.
Proof. solve_decision. Defined.

(** the zero value a Go map returns for an absent key *)
Definition zero_IdxBlock : IdxBlock := mkIdx "" 0 0.

Definition isBytesAllZeros (id : list Z) : bool := forallb (λ v, v =? 0) id.

Definition Marshal (i : IdxBlock) : list Z := bytes_of_string (ID i) ++ Binary.put_be64 (Size i).

(** [None] is the panic of [data[:36]] or of [BigEndian.Uint64] on a short slice *)
Definition Unmarshal (i : IdxBlock) (data : list Z) : option IdxBlock :=
  if bool_decide (36 ≤ length data)%nat then
    size ← Binary.be_uint64 (drop 36 data);
    Some (mkIdx (string_of_bytes (take 36 data)) size (Offset i))
  else None.

Section idx.
Context (faulty : io_op → bool).

(** the loop of [Load]: [None] while the fuel lasts no longer, [Panic] never
    comes from a full record *)
Fixpoint Load_loop (fuel : nat) (f : file) (offset : Z) (blocks : gmap string IdxBlock)
    : option (result data_error (gmap string IdxBlock)) :=
  match fuel with
  | O => None
  | S fuel' =>
      if faulty (IoReadAt offset) then Load_loop fuel' f (offset + idxBlockSize) blocks
      else match read_at f offset (Z.to_nat idxBlockSize) with
      | None => Some (Ok blocks)
      | Some data =>
          if negb (isBytesAllZeros data) then
            match Unmarshal zero_IdxBlock data with
            | None => Some Panic
            | Some block =>
                let block := mkIdx (ID block) (Size block) offset in
                Load_loop fuel' f (offset + idxBlockSize) (<[ID block := block]> blocks)
            end
          else Load_loop fuel' f (offset + idxBlockSize) blocks
      end
  end.

(** one iteration per record and one for the end of the file *)
Definition Load_fuel (f : file) : nat := S (Z.to_nat (f_size f / idxBlockSize)).
Definition Load (f : file) : option (result data_error (gmap string IdxBlock)) :=
  Load_loop (Load_fuel f) f 0 ∅.

(** [f.file.WriteAt]: the number of bytes written is all of them unless it fails *)
Definition file_write (f : file) (off : Z) (data : list Z) : result data_error nat * file :=
  if faulty (IoWriteAt off) then (Err ErrIO, f) else (Ok (length data), write_at f off data).

(** [Write] ranges over a map: [blocks] lists it in the order of the iteration *)
Fixpoint Write (blocks : list (Z * IdxBlock)) (f : file) : result data_error unit * file :=
  match blocks with
  | [] => (if faulty IoSync then Err ErrIO else Ok tt, f)
  | (blockN, block) :: blocks' =>
      let data := Marshal block in
      match file_write f (blockN * idxBlockSize) data with
      | (Ok n, f') =>
          if bool_decide (n ≠ length data) then (Err CorruptWriteErr, f')
          else Write blocks' f'
      | (Err e, f') => (Err e, f')
      | (Panic, f') => (Panic, f')
      end
  end.

(** the inner loop of [Erase]: one zero byte at a time; [false] on a write error *)
Fixpoint erase_record (k : nat) (pos : Z) (f : file) : bool * file :=
  match k with
  | O => (true, f)
  | S k' =>
      match file_write f pos [0] with
      | (Ok _, f') => erase_record k' (pos + 1) f'
      | (_, f') => (false, f')
      end
  end.

Fixpoint Erase (blocks : list Z) (f : file) : file :=
  match blocks with
  | [] => f
  | blockN :: blocks' =>
      match erase_record (Z.to_nat idxBlockSize) (blockN * idxBlockSize) f with
      | (true, f') => Erase blocks' f'
      | (false, f') => f'
      end
  end.

(** [NewIdxFile] on the file found at its path ([None]: it does not exist yet) *)
Definition NewIdxFile (fallocate : nat → Fileutil.falloc_res) (index : nat)
    (found : option file) : result data_error file * nat :=
  if faulty IoOpen then (Err ErrIO, index)
  else match Fileutil.Preallocate fallocate index (default empty_file found) idxFileSize true with
       | (Ok f, i) => (Ok f, i)
       | (Err _, i) => (Err ErrIO, i)
       | (Panic, i) => (Panic, i)
       end.
End idx.

(** ** What an index file says *)

(** the record of slot [n] *)
Definition record (f : file) (n : Z) : list Z :=
  read_range f (n * idxBlockSize) (Z.to_nat idxBlockSize).

(** the blocks the registry names: a 36 character identifier (a UUID) that is not
    made of NUL characters *)
Definition wf_id (id : string) : Prop :=
  String.length id = 36%nat ∧ isBytesAllZeros (bytes_of_string id) = false.
Definition wf_block (b : IdxBlock) : Prop := wf_id (ID b) ∧ in_u64 (Size b).

#[export] Instance wf_id_dec id : Decision (wf_id id).
Proof. unfold wf_id. apply _. Defined.
#[export] Instance wf_block_dec b : Decision (wf_block b).
Proof. unfold wf_block, in_u64. apply _. Defined.

(** the map that [Load] computes, as a fold over the slots: a later slot wins *)
Definition slot_entry (f : file) (n : Z) (m : gmap string IdxBlock) : gmap string IdxBlock :=
  if isBytesAllZeros (record f n) then m
  else match Unmarshal zero_IdxBlock (record f n) with
       | Some b => <[ID b := mkIdx (ID b) (Size b) (n * idxBlockSize)]> m
       | None => m
       end.

Fixpoint slots_map (f : file) (n : Z) (k : nat) (m : gmap string IdxBlock) : gmap string IdxBlock :=
  match k with O => m | S k' => slots_map f (n + 1) k' (slot_entry f n m) end.

Section idx_facts.

Lemma length_Marshal b : wf_block b → length (Marshal b) = Z.to_nat idxBlockSize.
Proof.
  intros [[Hl _] _]. unfold Marshal. rewrite length_app, length_bytes_of_string, Hl. done.
Qed.

Lemma Marshal_range b : Forall in_byte (Marshal b).
Proof. apply Forall_app; split; auto with rhosus. apply be_bytes_range. Qed.

Lemma Unmarshal_Marshal z b :
  wf_block b → Unmarshal z (Marshal b) = Some (mkIdx (ID b) (Size b) (Offset z)).
Proof.
  intros [[Hl _] Hs]. unfold Unmarshal, Marshal.
  assert (length (bytes_of_string (ID b)) = 36%nat) as E by by rewrite length_bytes_of_string.
  rewrite bool_decide_true by (rewrite length_app; lia).
  rewrite <- E, drop_app_length, take_app_length, string_of_bytes_of_string.
  rewrite <- (app_nil_r (Binary.put_be64 _)), be_uint64_put by done. done.
Qed.

Lemma length_record f n : length (record f n) = 44%nat.
Proof. apply length_read_range. Qed.

(** a full record never makes [Unmarshal] panic *)
Lemma Unmarshal_total z data : length data = 44%nat → is_Some (Unmarshal z data).
Proof.
  intros H. unfold Unmarshal. rewrite bool_decide_true by lia.
  destruct (drop 36 data) as [|? l] eqn:E; apply (f_equal length) in E;
    rewrite length_drop, H in E; [done|].
  do 7 (destruct l as [|? l]; [done|]). simpl. eauto.
Qed.

Lemma zero_record data : isBytesAllZeros data = true ↔ data = replicate (length data) 0.
Proof.
  unfold isBytesAllZeros. induction data as [|x data IH]; simpl; [done|].
  rewrite andb_true_iff, Z.eqb_eq, IH. split; [intros [-> ->]|intros [= -> ->]].
  - by rewrite length_replicate.
  - by rewrite length_replicate.
Qed.

Lemma Marshal_nonzero b : wf_block b → isBytesAllZeros (Marshal b) = false.
Proof.
  intros [[_ Hz] _]. unfold isBytesAllZeros, Marshal in *. by rewrite forallb_app, Hz.
Qed.

(** two blocks with the same record have the same identifier and size *)
Lemma Marshal_inj b b' :
  wf_block b → wf_block b' → Marshal b = Marshal b' → ID b = ID b' ∧ Size b = Size b'.
Proof.
  intros H H' E. pose proof (Unmarshal_Marshal b b H) as U.
  rewrite E, Unmarshal_Marshal in U by done. by injection U as -> ->.
Qed.

Lemma record_write f n m data :
  length data = 44%nat →
  record (write_at f (n * idxBlockSize) data) m = if decide (m = n) then data else record f m.
Proof.
  intros Hl. unfold record, idxBlockSize. case_decide as Hmn.
  - subst. change (Z.to_nat 44) with 44%nat. rewrite <- Hl. apply read_range_write_same.
  - apply read_range_write_other. rewrite Hl. change (Z.to_nat 44) with 44%nat. lia.
Qed.

Lemma write_at_idx_size f n data :
  length data = 44%nat → 0 ≤ n < partitionBlocksCount → f_size f = idxFileSize →
  f_size (write_at f (n * idxBlockSize) data) = idxFileSize.
Proof.
  intros Hl Hn Hf. rewrite <- Hf. apply write_at_size; [unfold idxBlockSize; lia|].
  rewrite Hl, Hf. unfold idxFileSize, idxBlockSize in *.
  change partitionBlocksCount with 512 in *. lia.
Qed.

End idx_facts.

Section load_facts.
Definition no_faults : io_op → bool := λ _, false.

Lemma Load_loop_slots f k n m :
  0 ≤ n → n * idxBlockSize + Z.of_nat k * idxBlockSize = f_size f →
  Load_loop no_faults (S k) f (n * idxBlockSize) m = Some (Ok (slots_map f n k m)).
Proof.
  intros Hn. revert n m Hn. induction k as [|k IH]; intros n m Hn Hsz.
  - cbn [Load_loop no_faults slots_map]. unfold read_at.
    rewrite bool_decide_false; [done|]. unfold idxBlockSize in *. lia.
  - cbn [Load_loop slots_map]. unfold no_faults at 1. unfold read_at.
    rewrite bool_decide_true by (unfold idxBlockSize in *; lia).
    fold (record f n). unfold slot_entry.
    destruct (Unmarshal_total zero_IdxBlock (record f n) (length_record f n)) as [b Hb].
    replace (n * idxBlockSize + idxBlockSize) with ((n + 1) * idxBlockSize) by lia.
    destruct (isBytesAllZeros (record f n)); cbn [negb]; rewrite ?Hb;
      apply IH; unfold idxBlockSize in *; lia.
Qed.

Lemma Load_slots f :
  f_size f = idxFileSize → Load no_faults f = Some (Ok (slots_map f 0 512 ∅)).
Proof.
  intros Hf. unfold Load, Load_fuel. rewrite Hf.
  apply (Load_loop_slots f 512 0 ∅); [lia|]. by rewrite Hf.
Qed.

End load_facts.

(** ** The index file represents a map of blocks *)

Record idx_repr (f : file) (m : gmap string IdxBlock) : Prop := {
  ir_size : f_size f = idxFileSize;
  ir_map : ∀ id b, m !! id = Some b → ID b = id ∧ wf_block b ∧
    ∃ n, 0 ≤ n < partitionBlocksCount ∧ Offset b = n * idxBlockSize ∧ record f n = Marshal b;
  ir_slot : ∀ n, 0 ≤ n < partitionBlocksCount →
    record f n = replicate 44 0 ∨
    ∃ id b, m !! id = Some b ∧ Offset b = n * idxBlockSize;
}.

Section repr_facts.

(** the blocks whose slot lies below [n] *)
Definition below (n : Z) (m : gmap string IdxBlock) : gmap string IdxBlock :=
  filter (λ kv : string * IdxBlock, Offset kv.2 < n * idxBlockSize) m.

Lemma repr_slot f m id b n :
  idx_repr f m → m !! id = Some b → Offset b = n * idxBlockSize → record f n = Marshal b.
Proof.
  intros H Hm Ho. destruct (ir_map _ _ H _ _ Hm) as (_ & _ & k & _ & Hk & Hr).
  assert (k = n) as -> by (unfold idxBlockSize in *; lia). done.
Qed.

Lemma repr_slot_inj f m id id' b b' :
  idx_repr f m → m !! id = Some b → m !! id' = Some b' → Offset b = Offset b' → id = id'.
Proof.
  intros H Hm Hm' Ho.
  destruct (ir_map _ _ H _ _ Hm) as (<- & Hw & k & _ & Hk & Hr).
  destruct (ir_map _ _ H _ _ Hm') as (<- & Hw' & k' & _ & Hk' & Hr').
  assert (k = k') as -> by (unfold idxBlockSize in *; lia).
  rewrite Hr in Hr'. by apply Marshal_inj.
Qed.

Lemma slot_entry_below f m n :
  idx_repr f m → 0 ≤ n < partitionBlocksCount →
  slot_entry f n (below n m) = below (n + 1) m.
Proof.
  intros H Hn. unfold slot_entry. apply map_eq. intros id. unfold below.
  destruct (ir_slot _ _ H n Hn) as [Hz|(id0 & b0 & Hm0 & Ho0)].
  - rewrite (proj2 (zero_record (record f n))) by by rewrite Hz.
    apply option_eq. intros b. rewrite !map_lookup_filter_Some.
    split; intros [Hm Hlt]; (split; [done|]); simpl in *; [unfold idxBlockSize in *; lia|].
    destruct (ir_map _ _ H _ _ Hm) as (_ & Hw & k & _ & Hk & Hr).
    destruct (decide (k = n)) as [->|]; [|unfold idxBlockSize in *; lia].
    pose proof (Marshal_nonzero b Hw) as Hnz. rewrite <- Hr, Hz in Hnz. done.
  - pose proof (repr_slot _ _ _ _ _ H Hm0 Ho0) as Hr0.
    destruct (ir_map _ _ H _ _ Hm0) as (Hid0 & Hw0 & _).
    rewrite Hr0, Marshal_nonzero, Unmarshal_Marshal by done. cbn [ID Size].
    assert (mkIdx (ID b0) (Size b0) (n * idxBlockSize) = b0) as ->
      by (destruct b0; simpl in *; by subst).
    apply option_eq. intros b. rewrite Hid0.
    destruct (decide (id = id0)) as [->|Hne].
    + rewrite lookup_insert_eq, map_lookup_filter_Some. simpl.
      split; [intros [= <-]; split; [done|unfold idxBlockSize in *; lia]|].
      intros [Hm _]. congruence.
    + rewrite lookup_insert_ne, !map_lookup_filter_Some by done. simpl.
      split; intros [Hm Hlt]; (split; [done|]); [unfold idxBlockSize in *; lia|].
      destruct (ir_map _ _ H _ _ Hm) as (_ & _ & k & _ & Hk & _).
      destruct (decide (k = n)) as [->|]; [|unfold idxBlockSize in *; lia].
      destruct Hne. eapply repr_slot_inj; eauto. congruence.
Qed.

Lemma slots_map_below f m n k :
  idx_repr f m → 0 ≤ n → n + Z.of_nat k ≤ partitionBlocksCount →
  slots_map f n k (below n m) = below (n + Z.of_nat k) m.
Proof.
  intros H. revert n. induction k as [|k IH]; intros n Hn Hk; cbn [slots_map].
  - by rewrite Z.add_0_r.
  - rewrite slot_entry_below, IH by (done || lia). f_equal. lia.
Qed.

Lemma below_all f m : idx_repr f m → below partitionBlocksCount m = m.
Proof.
  intros H. apply map_eq. intros id. apply option_eq. intros b.
  unfold below. rewrite map_lookup_filter_Some. split; [by intros []|].
  intros Hm. split; [done|]. destruct (ir_map _ _ H _ _ Hm) as (_ & _ & k & Hk & Ho & _).
  simpl. unfold idxBlockSize in *. lia.
Qed.

Lemma below_none f m : idx_repr f m → below 0 m = ∅.
Proof.
  intros H. apply map_empty. intros id. apply eq_None_not_Some. intros [b Hb].
  apply map_lookup_filter_Some in Hb as [Hm Hlt]. simpl in *.
  destruct (ir_map _ _ H _ _ Hm) as (_ & _ & k & Hk & Ho & _). unfold idxBlockSize in *. lia.
Qed.

(** [Load] recovers exactly the represented map *)
Lemma Load_repr f m : idx_repr f m → Load no_faults f = Some (Ok m).
Proof.
  intros H. rewrite Load_slots by apply H. do 2 f_equal.
  rewrite <- (below_none f m) by done. rewrite slots_map_below by (done || lia).
  by eapply below_all.
Qed.

(** a fresh index file represents the empty map *)
Lemma empty_repr : idx_repr (mkFile idxFileSize ∅) ∅.
Proof.
  split; [done|by intros ??; rewrite lookup_empty|].
  intros n _. left. unfold record. change (Z.to_nat idxBlockSize) with 44%nat.
  apply list_eq. intros j. destruct (decide (j < 44)%nat).
  - rewrite read_range_lookup, lookup_replicate_2 by done. done.
  - rewrite !lookup_ge_None_2; rewrite ?length_read_range, ?length_replicate; auto; lia.
Qed.

(** recording a block in a slot that holds no other block *)
Lemma repr_write f m n b :
  idx_repr f m → 0 ≤ n < partitionBlocksCount → wf_block b → Offset b = n * idxBlockSize →
  m !! ID b = None → (∀ id b', m !! id = Some b' → Offset b' ≠ n * idxBlockSize) →
  idx_repr (write_at f (n * idxBlockSize) (Marshal b)) (<[ID b := b]> m).
Proof.
  intros H Hn Hw Ho Hnew Hfree. pose proof (length_Marshal b Hw) as Hl.
  split.
  - apply write_at_idx_size; [done..|]. apply H.
  - intros id b'. rewrite lookup_insert. case_decide as Heq.
    + intros [= <-]. split_and!; [done..|]. exists n. split; [done|split; [done|]].
      rewrite record_write by done. by rewrite decide_True.
    + intros Hm. destruct (ir_map _ _ H _ _ Hm) as (? & ? & k & ? & Hk & Hr).
      split_and!; [done..|]. exists k. split; [done|split; [done|]].
      rewrite record_write by done. rewrite decide_False; [done|].
      intros ->. by apply (Hfree _ _ Hm).
  - intros k Hk. rewrite record_write by done. case_decide as Heq.
    + subst. right. exists (ID b), b. by rewrite lookup_insert_eq.
    + destruct (ir_slot _ _ H k Hk) as [|(id & b' & Hm & Ho')]; [by left|right].
      exists id, b'. rewrite lookup_insert_ne; [done|]. congruence.
Qed.

(** ** Writing and erasing records *)

Lemma erase_record_ok k pos f :
  0 ≤ pos → pos + Z.of_nat k ≤ f_size f →
  ∃ f', erase_record no_faults k pos f = (true, f') ∧ f_size f' = f_size f ∧
    ∀ i, byte_at f' i = if decide (pos ≤ i < pos + Z.of_nat k) then 0 else byte_at f i.
Proof.
  revert pos f. induction k as [|k IH]; intros pos f Hp Hs; cbn [erase_record].
  { exists f. split_and!; [done..|]. intros i. case_decide; [lia|done]. }
  unfold file_write, no_faults.
  destruct (write_at_size f pos [0] Hp) as (_ & Hsz & _). cbn [length] in Hsz.
  specialize (Hsz ltac:(lia)).
  destruct (IH (pos + 1) (write_at f pos [0])) as (f' & E & Es & Hb); [lia..|].
  exists f'. split_and!; [done|by rewrite Es|].
  intros i. rewrite Hb, write_at_byte. cbn [length].
  destruct (decide (i = pos)) as [->|].
  - rewrite Z.sub_diag. repeat case_decide; done || lia.
  - repeat case_decide; done || lia.
Qed.

Lemma erase_slot f n :
  f_size f = idxFileSize → 0 ≤ n < partitionBlocksCount →
  ∃ f', erase_record no_faults (Z.to_nat idxBlockSize) (n * idxBlockSize) f = (true, f') ∧
    f_size f' = idxFileSize ∧
    ∀ m, record f' m = if decide (m = n) then replicate 44 0 else record f m.
Proof.
  intros Hf Hn. change partitionBlocksCount with 512 in Hn.
  destruct (erase_record_ok (Z.to_nat idxBlockSize) (n * idxBlockSize) f) as (f' & E & Es & Hb).
  { unfold idxBlockSize. lia. }
  { rewrite Hf. unfold idxFileSize, idxBlockSize. change partitionBlocksCount with 512. lia. }
  exists f'. split_and!; [done|congruence|]. intros m. unfold record.
  change (Z.to_nat idxBlockSize) with 44%nat in *. unfold idxBlockSize in *. case_decide.
  - subst. apply list_eq. intros j. destruct (decide (j < 44)%nat).
    + rewrite read_range_lookup, lookup_replicate_2, Hb by done. rewrite decide_True; [done|lia].
    + rewrite !lookup_ge_None_2; rewrite ?length_read_range, ?length_replicate; auto; lia.
  - apply read_range_ext. intros i Hi. rewrite Hb. rewrite decide_False; [done|lia].
Qed.

Lemma repr_erase f m n id b :
  idx_repr f m → m !! id = Some b → Offset b = n * idxBlockSize →
  ∃ f', erase_record no_faults (Z.to_nat idxBlockSize) (n * idxBlockSize) f = (true, f') ∧
    idx_repr f' (delete id m).
Proof.
  intros H Hm Ho.
  destruct (ir_map _ _ H _ _ Hm) as (_ & _ & k & Hk & Hok & _).
  assert (k = n) as -> by (unfold idxBlockSize in *; lia).
  destruct (erase_slot f n) as (f' & E & Es & Hr); [apply H|done|].
  exists f'. split; [done|]. split; [done|..].
  - intros id' b'. rewrite lookup_delete_Some. intros [Hne Hm'].
    destruct (ir_map _ _ H _ _ Hm') as (? & ? & j & ? & Hj & Hrj).
    split_and!; [done..|]. exists j. split; [done|split; [done|]].
    rewrite Hr, decide_False; [done|]. intros ->. apply Hne.
    eapply repr_slot_inj; eauto. congruence.
  - intros j Hj. rewrite Hr. case_decide as Heq; [by left|].
    destruct (ir_slot _ _ H j Hj) as [|(id' & b' & Hm' & Ho')]; [by left|right].
    exists id', b'. rewrite lookup_delete_ne; [done|].
    intros ->. rewrite Hm in Hm'. injection Hm' as <-. unfold idxBlockSize in *. lia.
Qed.

(** the blocks written at once: distinct slots and identifiers, free in the map *)
Record fresh_records (m : gmap string IdxBlock) (l : list (Z * IdxBlock)) : Prop := {
  fr_slots : NoDup l.*1;
  fr_ids : NoDup ((λ p, ID p.2) <$> l);
  fr_each : ∀ n b, (n, b) ∈ l → 0 ≤ n < partitionBlocksCount ∧ wf_block b ∧
    Offset b = n * idxBlockSize ∧ m !! ID b = None ∧
    (∀ id b', m !! id = Some b' → Offset b' ≠ n * idxBlockSize);
}.

Definition records_map (l : list (Z * IdxBlock)) : gmap string IdxBlock :=
  list_to_map ((λ p, (ID p.2, p.2)) <$> l).

Lemma fresh_records_cons m n b l :
  fresh_records m ((n, b) :: l) → fresh_records (<[ID b := b]> m) l.
Proof.
  intros [Hs Hi He]. cbn in Hs, Hi.
  apply NoDup_cons in Hs as [Hns Hs]. apply NoDup_cons in Hi as [Hni Hi].
  destruct (He n b) as (_ & _ & Ho & _); [by constructor|].
  split; [done..|]. intros n' b' Hin.
  destruct (He n' b') as (? & ? & Ho' & Hf & Hfree); [by constructor|].
  split_and!; try lia; try done.
  - rewrite lookup_insert_ne; [done|]. intros E. apply Hni. rewrite E.
    apply list_elem_of_fmap. by exists (n', b').
  - intros id b''. rewrite lookup_insert. case_decide; [|apply Hfree].
    intros [= <-]. rewrite Ho. intros E. apply Hns.
    assert (n = n') as -> by (unfold idxBlockSize in *; lia).
    apply list_elem_of_fmap. by exists (n', b').
Qed.

Lemma fresh_records_perm m l l' : l' ≡ₚ l → fresh_records m l → fresh_records m l'.
Proof.
  intros Hp [Hs Hi He]. split; [by rewrite Hp..|]. intros n b. rewrite Hp. apply He.
Qed.

Lemma records_map_perm m l l' : l' ≡ₚ l → fresh_records m l → records_map l' = records_map l.
Proof.
  intros Hp H. symmetry. unfold records_map. apply list_to_map_proper; [|by rewrite Hp].
  rewrite <- list_fmap_compose. apply H.
Qed.

Lemma fresh_records_uncons m n b l :
  0 ≤ n < partitionBlocksCount → wf_block b → Offset b = n * idxBlockSize → m !! ID b = None →
  (∀ id b', m !! id = Some b' → Offset b' ≠ n * idxBlockSize) →
  fresh_records (<[ID b := b]> m) l → fresh_records m ((n, b) :: l).
Proof.
  intros Hn Hw Ho Hnew Hfree [Hs Hi He]. split; cbn.
  - apply NoDup_cons. split; [|done]. intros ((n', b') & -> & Hin)%list_elem_of_fmap.
    destruct (He _ _ Hin) as (_ & _ & Ho' & _ & Hf). by apply (Hf (ID b) b); [apply lookup_insert_eq|].
  - apply NoDup_cons. split; [|done]. intros ((n', b') & E & Hin)%list_elem_of_fmap.
    destruct (He _ _ Hin) as (_ & _ & _ & Hf & _). simpl in E. by rewrite <- E, lookup_insert_eq in Hf.
  - intros n' b' [[= -> ->]|Hin]%elem_of_cons; [done|].
    destruct (He _ _ Hin) as (? & ? & ? & Hf & Hfr). split_and!; try lia; try done.
    + apply lookup_insert_None in Hf as [? _]. done.
    + intros id b'' Hm. apply (Hfr id). rewrite lookup_insert_ne; [done|]. intros <-. congruence.
Qed.

Lemma Write_repr f m l :
  idx_repr f m → fresh_records m l →
  ∃ f', Write no_faults l f = (Ok tt, f') ∧ idx_repr f' (records_map l ∪ m).
Proof.
  revert f m. induction l as [|[n b] l IH]; intros f m H Hl; cbn [Write].
  { exists f. split; [done|]. unfold records_map. cbn. by rewrite (left_id_L ∅ (∪)). }
  destruct (fr_each _ _ Hl n b) as (Hn & Hw & Ho & Hf & Hfree); [by constructor|].
  unfold file_write. unfold no_faults at 1. rewrite bool_decide_false by auto.
  destruct (IH (write_at f (n * idxBlockSize) (Marshal b)) (<[ID b := b]> m)) as (f' & E & H').
  { by apply repr_write. }
  { by eapply fresh_records_cons. }
  exists f'. split; [done|]. unfold records_map in *. cbn.
  rewrite <- insert_union_l, insert_union_r; [done|].
  apply not_elem_of_list_to_map. rewrite <- list_fmap_compose.
  pose proof (fr_ids _ _ Hl) as Hi. cbn in Hi. by apply NoDup_cons in Hi as [? _].
Qed.

End repr_facts.

(** a block record survives [Marshal] and [Unmarshal], occupies
    exactly one slot, and is never mistaken for an empty slot. *)
Theorem idx_record_roundtrip (z b : IdxBlock) :
  wf_block b →
  Unmarshal z (Marshal b) = Some (mkIdx (ID b) (Size b) (Offset z)) ∧
  lenZ (Marshal b) = idxBlockSize ∧ isBytesAllZeros (Marshal b) = false.
Proof.
  intros H. split_and!; [by apply Unmarshal_Marshal| |by apply Marshal_nonzero].
  by rewrite length_Marshal.
Qed.

Lemma idx_record_roundtrip_witness :
  let b := mkIdx "f5f43186-4c6f-4358-906d-3929008e991c" 43556 88 in
  Unmarshal zero_IdxBlock (Marshal b) = Some (mkIdx (ID b) (Size b) 0) ∧
  lenZ (Marshal b) = idxBlockSize ∧ isBytesAllZeros (Marshal b) = false.
Proof. apply idx_record_roundtrip. apply (bool_decide_eq_true_1 (wf_block _)). by vm_compute. Defined.

(** [Load] ends, and returns exactly the map the file represents;
    after [Write] of new records, in whatever order the Go map of records is
    iterated, it returns the old map extended with them. *)
Theorem idx_write_load (f : file) (m : gmap string IdxBlock) (l : list (Z * IdxBlock)) :
  idx_repr f m → fresh_records m l →
  Load no_faults f = Some (Ok m) ∧
  ∀ l', l' ≡ₚ l → ∃ f', Write no_faults l' f = (Ok tt, f') ∧
    Load no_faults f' = Some (Ok (records_map l ∪ m)).
Proof.
  intros H Hl. split; [by apply Load_repr|]. intros l' Hp.
  destruct (Write_repr f m l' H) as (f' & E & H'); [by eapply fresh_records_perm|].
  exists f'. split; [done|]. erewrite <- records_map_perm by done. by apply Load_repr.
Qed.

Lemma idx_write_load_witness :
  let b id n := (n, mkIdx id 7 (n * idxBlockSize)) in
  let l := [b "f5f43186-4c6f-4358-906d-3929008e991c" 0; b "b92d35bd-c9b3-4057-a9fb-d5246fa16265" 5] in
  Load no_faults (mkFile idxFileSize ∅) = Some (Ok ∅) ∧
  ∀ l', l' ≡ₚ l → ∃ f', Write no_faults l' (mkFile idxFileSize ∅) = (Ok tt, f') ∧
    Load no_faults f' = Some (Ok (records_map l ∪ ∅)).
Proof.
  apply idx_write_load; [apply empty_repr|].
  split; [apply (bool_decide_eq_true_1 (NoDup _)); by vm_compute..|].
  intros n b Hin.
  apply elem_of_cons in Hin as [[= -> ->]|Hin];
    [|apply elem_of_cons in Hin as [[= -> ->]|Hin]; [|by inversion Hin]].
  all: split; [done|split; [apply (bool_decide_eq_true_1 (wf_block _)); by vm_compute|]].
  all: split; [done|split; [done|by intros ??; rewrite lookup_empty]].
Defined.
