(* ===== verification/Partition.v ===== *)
(** * Partitions: [node/data/partition.go]

    A partition is a preallocated one gigabyte file cut into 512 slots of two
    megabytes, an index file with one record per slot, and the in-memory map
    from block identifiers to records.  Writes reach it through a sink, a
    channel of blocks that a goroutine flushes every half second.

    The model takes the choices of the run time as arguments: which
    input/output operations fail ([part_io], [idx_io]) and the order in which
    the two maps of a write are iterated. *)

From S2P Require Import Prelude Bytes Messages RandFile IdxFile.

Record Partition := mkPartition {
  file_ : file;
  idxFile : file;
  sink : list FsBlock;                 (* the channel [sink.blocks] *)
  blocksMap : gmap string IdxBlock;
  movedBlocks : gmap string string;
  part_ID : string;
  full : bool;
  closed : bool;
}.

Definition sink_cap : nat := 1000.

Section partition.
Context (part_io idx_io : io_op → bool).
(** the iteration order of [map[int]IdxBlock] in [IdxFile.Write] *)
Context (order : list (Z * IdxBlock) → list (Z * IdxBlock)).

Definition with_file (f : file) (p : Partition) : Partition :=
  mkPartition f (idxFile p) (sink p) (blocksMap p) (movedBlocks p) (part_ID p) (full p) (closed p).
Definition with_idx (f : file) (p : Partition) : Partition :=
  mkPartition (file_ p) f (sink p) (blocksMap p) (movedBlocks p) (part_ID p) (full p) (closed p).
Definition with_sink (s : list FsBlock) (p : Partition) : Partition :=
  mkPartition (file_ p) (idxFile p) s (blocksMap p) (movedBlocks p) (part_ID p) (full p) (closed p).
Definition with_map (m : gmap string IdxBlock) (fl : bool) (p : Partition) : Partition :=
  mkPartition (file_ p) (idxFile p) (sink p) m (movedBlocks p) (part_ID p) fl (closed p).

(** [newPartition] on the opened data file and the index file found *)
Definition newPartition (fallocate : nat → Fileutil.falloc_res) (index : nat)
    (id : string) (f : file) (found : option file) : result data_error Partition * nat :=
  match NewIdxFile idx_io fallocate index found with
  | (Ok ix, i) => (Ok (mkPartition f ix [] ∅ ∅ id false false), i)
  | (Err e, i) => (Err e, i)
  | (Panic, i) => (Panic, i)
  end.

Definition getAvailableBlocks (p : Partition) : Z :=
  partitionBlocksCount - Z.of_nat (size (blocksMap p)).

Definition isAvailable (blocks : Z) (p : Partition) : bool :=
  negb (full p) && (blocks <=? getAvailableBlocks p).

Definition IsAvailable (blocks : Z) (p : Partition) : bool :=
  if closed p then false else isAvailable blocks p.

Definition GetUsedBlocks (p : Partition) : Z :=
  if closed p then 0 else Z.of_nat (size (blocksMap p)).

Definition GetAvailableBlocks (p : Partition) : Z :=
  if closed p then 0 else getAvailableBlocks p.

Definition isBlockAllocated (n : Z) (p : Partition) : bool :=
  existsb (λ kv : string * IdxBlock, Offset kv.2 / idxBlockSize =? n) (map_to_list (blocksMap p)).

(** [for n := 0; n < partitionBlocksCount; n++]: the first slot that is not
    allocated; [blockN] keeps its zero value when there is none *)
Fixpoint first_free_from (n : Z) (k : nat) (p : Partition) : Z :=
  match k with
  | O => 0
  | S k' => if isBlockAllocated n p then first_free_from (n + 1) k' p else n
  end.
Definition first_free (p : Partition) : Z := first_free_from 0 (Z.to_nat partitionBlocksCount) p.

(** the bytes are written even when the [Sync] that follows fails *)
Definition writeBlockContents (block : Z) (data : list Z) (p : Partition)
    : result data_error Z * Partition :=
  let offset := block * defaultBlockSize in
  if part_io (IoWriteAt offset) then (Err ErrIO, p)
  else
    let p' := with_file (write_at (file_ p) offset data) p in
    if part_io IoSync then (Err ErrIO, p') else (Ok (lenZ data), p').

(** the loop of [WriteBlocks] over the blocks in their iteration order: the
    per-block errors and the index records to write *)
Fixpoint WriteBlocks_loop (blocks : list (string * list Z)) (errs : gmap string data_error)
    (idxs : gmap Z IdxBlock) (p : Partition)
    : gmap string data_error * gmap Z IdxBlock * Partition :=
  match blocks with
  | [] => (errs, idxs, p)
  | (id, data) :: blocks' =>
      let blockN := first_free p in
      match writeBlockContents blockN data p with
      | (Ok n, p1) =>
          if bool_decide (lenZ data ≠ n) then
            WriteBlocks_loop blocks' (<[id := ErrCorruptWrite]> errs) idxs p1
          else
            let idxBlock := mkIdx id (lenZ data) (blockN * idxBlockSize) in
            let m := <[id := idxBlock]> (blocksMap p1) in
            let fl := if partitionBlocksCount <=? Z.of_nat (size m) then true else full p1 in
            WriteBlocks_loop blocks' errs (<[blockN := idxBlock]> idxs) (with_map m fl p1)
      | (Err e, p1) => WriteBlocks_loop blocks' (<[id := e]> errs) idxs p1
      | (Panic, p1) => (errs, idxs, p1)
      end
  end.

(** [WriteBlocks]: the overall error and the errors per block *)
Definition WriteBlocks (blocks : list (string * list Z)) (p : Partition)
    : option data_error * gmap string data_error * Partition :=
  if closed p then (Some ErrPartitionClosed, ∅, p)
  else
    let '(errs, idxs, p1) := WriteBlocks_loop blocks ∅ ∅ p in
    match Write idx_io (order (map_to_list idxs)) (idxFile p1) with
    | (Ok _, ix) => (None, errs, with_idx ix p1)
    | (Err e, ix) => (Some e, errs, with_idx ix p1)
    | (Panic, ix) => (None, errs, with_idx ix p1)
    end.

Definition Sync (p : Partition) : option data_error := if part_io IoSync then Some ErrIO else None.

(** [loadHeader]: it reads as many bytes of the data file as an index file has
    (from position 0 of a file that was just opened), then loads the index *)
Definition loadHeader (p : Partition) : option (result data_error Partition) :=
  if part_io (IoReadAt 0) then Some (Err ErrIO)
  else if f_size (file_ p) =? 0 then Some (Err ErrIO)
  else if f_size (file_ p) <? idxFileSize then Some (Err ErrCorruptWrite)
  else match Load idx_io (idxFile p) with
       | None => None
       | Some (Ok m) =>
           Some (Ok (with_map (map_fold (λ _ b acc, <[ID b := b]> acc) (blocksMap p) m) (full p) p))
       | Some (Err e) => Some (Err e)
       | Some Panic => Some Panic
       end.

(** the loop of [RemoveBlocks]: an identifier that is not in the map reads as
    the zero [IdxBlock], so its slot number is 0 *)
Fixpoint remove_loop (blocks : list BlockPlacementInfo) (toDelete : list Z)
    (m : gmap string IdxBlock) : list Z * gmap string IdxBlock :=
  match blocks with
  | [] => (toDelete, m)
  | b :: blocks' =>
      let e := default zero_IdxBlock (m !! BPI_BlockID b) in
      remove_loop blocks' (toDelete ++ [Offset e / idxBlockSize]) (delete (BPI_BlockID b) m)
  end.

Definition RemoveBlocks (blocks : list BlockPlacementInfo) (p : Partition)
    : option data_error * Partition :=
  if closed p then (Some ErrPartitionClosed, p)
  else
    let '(toDelete, m) := remove_loop blocks [] (blocksMap p) in
    let fl := if Z.of_nat (size m) <? partitionBlocksCount then false else full p in
    let p1 := with_map m fl p in
    (None, with_idx (Erase idx_io toDelete (idxFile p1)) p1).

Definition readBlockContents (blockN size : Z) (p : Partition) : result data_error (list Z) :=
  let offset := blockN * defaultBlockSize in
  if part_io (IoReadAt offset) then Err ErrIO
  else match read_at (file_ p) offset (Z.to_nat size) with
       | Some data => Ok data
       | None => Err ErrIO
       end.

(** a block that cannot be read is left out of the answer *)
Fixpoint ReadBlocks_loop (blocks : list BlockPlacementInfo) (p : Partition)
    (result_ : gmap string FsBlock) : gmap string FsBlock :=
  match blocks with
  | [] => result_
  | b :: blocks' =>
      let blockHeader := default zero_IdxBlock (blocksMap p !! BPI_BlockID b) in
      let blockN := Offset blockHeader / idxBlockSize in
      match readBlockContents blockN (Size blockHeader) p with
      | Ok data =>
          ReadBlocks_loop blocks' p
            (<[BPI_BlockID b := mkFsBlock (BPI_BlockID b) 0 "" 0 (Size blockHeader) data []]> result_)
      | _ => ReadBlocks_loop blocks' p result_
      end
  end.

Definition ReadBlocks (blocks : list BlockPlacementInfo) (p : Partition)
    : result data_error (gmap string FsBlock) :=
  if closed p then Err ErrPartitionClosed else Ok (ReadBlocks_loop blocks p ∅).

Definition Close (p : Partition) : option data_error * Partition :=
  if closed p then (Some ErrPartitionClosed, p)
  else (if part_io IoClose then Some ErrIO else None,
        mkPartition (file_ p) (idxFile p) (sink p) (blocksMap p) (movedBlocks p)
          (part_ID p) (full p) true).

(** ** The sink *)

(** [sink.put] while the flusher does not run: a full channel times out *)
Definition sink_put (block : FsBlock) (p : Partition) : option data_error * Partition :=
  if bool_decide (length (sink p) < sink_cap)%nat
  then (None, with_sink (sink p ++ [block]) p)
  else (Some ErrWriteTimeout, p).

(** the inner [loop:] of [sink.run]: a later block replaces an earlier one with
    the same identifier *)
Definition drain_sink (p : Partition) : gmap string (list Z) * Partition :=
  (foldl (λ m b, <[Fs_Id b := Fs_Data b]> m) ∅ (sink p), with_sink [] p).

(** one tick of [sink.run]: the blocks that were abandoned and the new state.
    [border] is the iteration order of the map of drained blocks. *)
Definition sink_tick (border : list (string * list Z) → list (string * list Z)) (p : Partition)
    : list (string * list Z) * Partition :=
  let '(blocks, p1) := drain_sink p in
  let l := border (map_to_list blocks) in
  if bool_decide (size blocks = O) then ([], p1)
  else if isAvailable (Z.of_nat (size blocks)) p1 then
    let '(_, _, p2) := WriteBlocks l p1 in ([], p2)
  else
    (* a negative count is never reached by the counter of the loop *)
    let count := if getAvailableBlocks p1 <? 0 then length l
                 else Z.to_nat (getAvailableBlocks p1) in
    let '(err, _, p2) := WriteBlocks (border (map_to_list (list_to_map (take count l) : gmap _ _))) p1 in
    (match err with Some _ => [] | None => drop count l end, p2).
End partition.

(** ** What a partition holds *)

Definition slot_of (b : IdxBlock) : Z := Offset b / idxBlockSize.

Definition stored_in (f : file) (b : IdxBlock) : list Z :=
  read_range f (slot_of b * defaultBlockSize) (Z.to_nat (Size b)).

(** the abstract partition: the bytes of every block it knows *)
Definition view (p : Partition) : gmap string (list Z) := stored_in (file_ p) <$> blocksMap p.

(** the in-memory map: identifiers, sizes and slots make sense, no slot is shared *)
Record wf_map (m : gmap string IdxBlock) : Prop := {
  wm_each : ∀ id b, m !! id = Some b → ID b = id ∧ wf_block b ∧ Size b ≤ defaultBlockSize ∧
    ∃ n, 0 ≤ n < partitionBlocksCount ∧ Offset b = n * idxBlockSize;
  wm_inj : ∀ id id' b b', m !! id = Some b → m !! id' = Some b' → Offset b = Offset b' → id = id';
}.

Definition full_ok (p : Partition) : Prop :=
  full p = true → partitionBlocksCount ≤ Z.of_nat (size (blocksMap p)).

(** the invariant of an open partition *)
Record part_inv (p : Partition) : Prop := {
  pi_idx : idx_repr (idxFile p) (blocksMap p);
  pi_map : wf_map (blocksMap p);
  pi_size : f_size (file_ p) = defaultPartitionSize;
  pi_full : full_ok p;
  pi_open : closed p = false;
}.

(** the blocks a write may receive: new, well named and no larger than a slot *)
Record writable (p : Partition) (blocks : list (string * list Z)) : Prop := {
  wr_ids : NoDup blocks.*1;
  wr_each : ∀ id data, (id, data) ∈ blocks →
    wf_id id ∧ lenZ data ≤ defaultBlockSize ∧ blocksMap p !! id = None;
  wr_room : lenZ blocks ≤ getAvailableBlocks p;
}.

Section slots.

Definition used_slots (m : gmap string IdxBlock) : list Z := (λ kv : string * IdxBlock, slot_of kv.2) <$> map_to_list m.

Lemma elem_of_used m n : n ∈ used_slots m ↔ ∃ id b, m !! id = Some b ∧ slot_of b = n.
Proof.
  unfold used_slots. rewrite list_elem_of_fmap. split.
  - intros ([id b] & -> & H%elem_of_map_to_list). eauto.
  - intros (id & b & H & <-). exists (id, b). split; [done|]. by apply elem_of_map_to_list.
Qed.

Lemma slot_of_offset b n : Offset b = n * idxBlockSize → slot_of b = n.
Proof. intros E. unfold slot_of. rewrite E. by apply Z.div_mul. Qed.

Lemma wf_slot m id b : wf_map m → m !! id = Some b →
  0 ≤ slot_of b < partitionBlocksCount ∧ Offset b = slot_of b * idxBlockSize.
Proof.
  intros H Hm. destruct (wm_each _ H _ _ Hm) as (_ & _ & _ & n & Hn & Ho).
  by rewrite (slot_of_offset _ _ Ho).
Qed.

Lemma wf_slot_inj m id id' b b' :
  wf_map m → m !! id = Some b → m !! id' = Some b' → slot_of b = slot_of b' → id = id'.
Proof.
  intros H Hm Hm' E. eapply (wm_inj _ H); [done..|].
  destruct (wf_slot _ _ _ H Hm) as [_ ->], (wf_slot _ _ _ H Hm') as [_ ->]. by rewrite E.
Qed.

Lemma used_NoDup m : wf_map m → NoDup (used_slots m).
Proof.
  intros H. unfold used_slots. apply NoDup_fmap_2_strong; [|apply NoDup_map_to_list].
  intros [id b] [id' b'] Hm%elem_of_map_to_list Hm'%elem_of_map_to_list E. simpl in *.
  assert (id = id') as -> by (eapply wf_slot_inj; eauto). congruence.
Qed.

Lemma used_length m : length (used_slots m) = size m.
Proof. unfold used_slots. rewrite length_fmap. by rewrite length_map_to_list. Qed.

Lemma used_range m : wf_map m → used_slots m ⊆ seqZ 0 partitionBlocksCount.
Proof.
  intros H n (id & b & Hm & <-)%elem_of_used. apply elem_of_seqZ.
  pose proof (wf_slot _ _ _ H Hm). lia.
Qed.

Lemma length_slots : length (seqZ 0 partitionBlocksCount) = 512%nat.
Proof. by rewrite length_seqZ. Qed.

(** no more blocks than slots *)
Lemma wf_map_size m : wf_map m → Z.of_nat (size m) ≤ partitionBlocksCount.
Proof.
  intros H. rewrite <- used_length.
  pose proof (submseteq_length _ _ (NoDup_submseteq _ _ (used_NoDup m H) (used_range m H))) as L.
  rewrite length_slots in L. change partitionBlocksCount with 512. lia.
Qed.

Lemma isBlockAllocated_spec n p : isBlockAllocated n p = true ↔ n ∈ used_slots (blocksMap p).
Proof.
  unfold isBlockAllocated. rewrite existsb_exists, elem_of_used. split.
  - intros ([id b] & H%list_elem_of_In%elem_of_map_to_list & E%Z.eqb_eq). eauto.
  - intros (id & b & H & E). exists (id, b). split; [|by apply Z.eqb_eq].
    by apply list_elem_of_In, elem_of_map_to_list.
Qed.

Lemma first_free_from_spec n k p :
  (∃ i, n ≤ i < n + Z.of_nat k ∧ i ∉ used_slots (blocksMap p)) →
  n ≤ first_free_from n k p < n + Z.of_nat k ∧ first_free_from n k p ∉ used_slots (blocksMap p).
Proof.
  revert n. induction k as [|k IH]; intros n (i & Hi & Hf); [lia|]. cbn [first_free_from].
  destruct (isBlockAllocated n p) eqn:E.
  - apply isBlockAllocated_spec in E. destruct (IH (n + 1)) as [? ?]; [|split; [lia|done]].
    exists i. split; [|done]. destruct (decide (i = n)) as [->|]; [done|lia].
  - split; [lia|]. rewrite <- isBlockAllocated_spec. by rewrite E.
Qed.

(** while a slot is available, the search finds one that no block uses *)
Lemma first_free_spec p :
  wf_map (blocksMap p) → 0 < getAvailableBlocks p →
  0 ≤ first_free p < partitionBlocksCount ∧
  ∀ id b, blocksMap p !! id = Some b → Offset b ≠ first_free p * idxBlockSize.
Proof.
  intros H Ha. unfold first_free.
  destruct (first_free_from_spec 0 (Z.to_nat partitionBlocksCount) p) as [Hr Hn].
  - destruct (decide (Forall (λ i, i ∈ used_slots (blocksMap p)) (seqZ 0 partitionBlocksCount)))
      as [Hall|Hex].
    + exfalso. rewrite Forall_forall in Hall.
      pose proof (submseteq_length _ _ (NoDup_submseteq _ _ (NoDup_seqZ _ _) Hall)) as L.
      rewrite length_slots, used_length in L. unfold getAvailableBlocks in Ha.
      change partitionBlocksCount with 512 in *. lia.
    + apply not_Forall_Exists, Exists_exists in Hex as (i & Hi%elem_of_seqZ & Hn); [|apply _].
      exists i. split; [|done]. change (Z.to_nat partitionBlocksCount) with 512%nat.
      change partitionBlocksCount with 512 in *. lia.
  - split; [change partitionBlocksCount with 512 in *; lia|].
    intros id b Hm E. apply Hn. apply elem_of_used. exists id, b. split; [done|].
    by apply slot_of_offset.
Qed.

End slots.

Section write_facts.

Definition no_order : list (Z * IdxBlock) → list (Z * IdxBlock) := λ l, l.

Lemma wf_map_insert m b n :
  wf_map m → wf_block b → Size b ≤ defaultBlockSize → 0 ≤ n < partitionBlocksCount →
  Offset b = n * idxBlockSize → (∀ id b', m !! id = Some b' → Offset b' ≠ n * idxBlockSize) →
  wf_map (<[ID b := b]> m).
Proof.
  intros H Hw Hs Hn Ho Hfree. split.
  - intros id b'. rewrite lookup_insert. case_decide.
    + intros [= <-]. split_and!; [done..|]. by exists n.
    + apply (wm_each _ H).
  - intros id id' b1 b2. rewrite !lookup_insert. do 2 case_decide; [congruence| | |apply (wm_inj _ H)].
    + intros [= <-] Hm E. exfalso. apply (Hfree _ _ Hm). congruence.
    + intros Hm [= <-] E. exfalso. apply (Hfree _ _ Hm). congruence.
Qed.

(** two slots do not overlap in the data file *)
Lemma stored_write_other f n data b :
  lenZ data ≤ defaultBlockSize → Size b ≤ defaultBlockSize → 0 ≤ Size b → slot_of b ≠ n →
  stored_in (write_at f (n * defaultBlockSize) data) b = stored_in f b.
Proof.
  intros Hd Hs Hs0 Hne. unfold stored_in. apply read_range_write_other.
  unfold defaultBlockSize in *. lia.
Qed.

Lemma view_write m f n data :
  wf_map m → lenZ data ≤ defaultBlockSize →
  (∀ id b, m !! id = Some b → Offset b ≠ n * idxBlockSize) →
  stored_in (write_at f (n * defaultBlockSize) data) <$> m = stored_in f <$> m.
Proof.
  intros H Hd Hfree. apply map_fmap_ext. intros id b Hm.
  destruct (wm_each _ H _ _ Hm) as (_ & [_ Hu] & Hs & _). destruct (wf_slot _ _ _ H Hm) as [_ Ho].
  apply stored_write_other; [done..|apply Hu|]. intros E. apply (Hfree _ _ Hm). by rewrite Ho, E.
Qed.

Lemma write_slot_size f n data :
  f_size f = defaultPartitionSize → 0 ≤ n < partitionBlocksCount → lenZ data ≤ defaultBlockSize →
  f_size (write_at f (n * defaultBlockSize) data) = defaultPartitionSize.
Proof.
  intros Hf Hn Hd. rewrite <- Hf. change partitionBlocksCount with 512 in *.
  apply write_at_size; unfold defaultBlockSize, defaultPartitionSize in *; lia.
Qed.

(** what one round of the loop of [WriteBlocks] adds to the partition *)
Definition add_block (id : string) (data : list Z) (p : Partition) : Partition :=
  let b := mkIdx id (lenZ data) (first_free p * idxBlockSize) in
  let m := <[id := b]> (blocksMap p) in
  with_map m (if partitionBlocksCount <=? Z.of_nat (size m) then true else full p)
    (with_file (write_at (file_ p) (first_free p * defaultBlockSize) data) p).

Record mem_inv (p : Partition) : Prop := {
  mi_map : wf_map (blocksMap p);
  mi_size : f_size (file_ p) = defaultPartitionSize;
  mi_full : full_ok p;
}.

Lemma part_mem p : part_inv p → mem_inv p.
Proof. intros []. by split. Qed.

Lemma writable_cons p id data blocks :
  mem_inv p → writable p ((id, data) :: blocks) →
  let b := mkIdx id (lenZ data) (first_free p * idxBlockSize) in
  0 ≤ first_free p < partitionBlocksCount ∧ wf_block b ∧ Size b ≤ defaultBlockSize ∧
  blocksMap p !! id = None ∧
  (∀ i b', blocksMap p !! i = Some b' → Offset b' ≠ first_free p * idxBlockSize).
Proof.
  intros H Hw b. destruct (wr_each _ _ Hw id data) as (Hid & Hd & Hnew); [by constructor|].
  destruct (first_free_spec p) as [Hn Hfree]; [apply H| |].
  { pose proof (wr_room _ _ Hw). cbn [length] in *. lia. }
  split_and!; try done; try lia. split; [done|]. unfold in_u64. cbn [Size b].
  unfold defaultBlockSize in *. lia.
Qed.

Lemma add_block_inv p id data blocks :
  mem_inv p → writable p ((id, data) :: blocks) →
  mem_inv (add_block id data p) ∧ writable (add_block id data p) blocks ∧
  view (add_block id data p) = <[id := data]> (view p).
Proof.
  intros H Hw. destruct (writable_cons _ _ _ _ H Hw) as (Hn & Hwb & Hs & Hnew & Hfree).
  set (b := mkIdx id (lenZ data) (first_free p * idxBlockSize)) in *.
  assert (size (blocksMap (add_block id data p)) = S (size (blocksMap p))) as Hsize
    by by apply map_size_insert_None.
  split; [|split].
  - split.
    + by apply (wf_map_insert _ b (first_free p)); [apply H|..].
    + apply write_slot_size; [apply H|done|done].
    + unfold full_ok. rewrite Hsize. cbn [add_block with_map full blocksMap].
      change (<[id:=b]> (blocksMap p)) with (blocksMap (add_block id data p)).
      fold b. change (size (<[id:=b]> (blocksMap p))) with (size (blocksMap (add_block id data p))).
      rewrite Hsize. destruct (Z.leb_spec partitionBlocksCount (Z.of_nat (S (size (blocksMap p))))); [done|].
      intros Hf. pose proof (mi_full _ H Hf). lia.
  - split.
    + pose proof (wr_ids _ _ Hw) as Hd. cbn in Hd. by apply NoDup_cons in Hd as [_ ?].
    + intros id' data' Hin. destruct (wr_each _ _ Hw id' data') as (? & ? & ?); [by constructor|].
      split_and!; [done..|]. cbn. rewrite lookup_insert_ne; [done|]. intros <-.
      pose proof (wr_ids _ _ Hw) as Hd. cbn in Hd. apply NoDup_cons in Hd as [Hd _].
      apply Hd, list_elem_of_fmap. by exists (id, data').
    + pose proof (wr_room _ _ Hw). unfold getAvailableBlocks in *. rewrite Hsize.
      cbn [length] in *. lia.
  - unfold view. cbn. fold b. rewrite fmap_insert. f_equal.
    + unfold stored_in, slot_of. cbn [Offset Size b]. rewrite Z.div_mul, Nat2Z.id by done.
      apply read_range_write_same.
    + apply view_write; [apply H|done..].
Qed.

Lemma WriteBlocks_loop_step errs idxs p id data blocks :
  WriteBlocks_loop no_faults ((id, data) :: blocks) errs idxs p =
  WriteBlocks_loop no_faults blocks errs
    (<[first_free p := mkIdx id (lenZ data) (first_free p * idxBlockSize)]> idxs)
    (add_block id data p).
Proof.
  cbn [WriteBlocks_loop]. unfold writeBlockContents, no_faults.
  rewrite bool_decide_false by (intros []; done). done.
Qed.

(** the whole loop: every block stored, the records to write in fresh slots *)
Lemma WriteBlocks_loop_ok blocks errs idxs p :
  mem_inv p → writable p blocks →
  (∀ n b, idxs !! n = Some b → ∃ id b', blocksMap p !! id = Some b' ∧ Offset b' = n * idxBlockSize) →
  ∃ l p', WriteBlocks_loop no_faults blocks errs idxs p = (errs, list_to_map l ∪ idxs, p') ∧
    mem_inv p' ∧ view p' = list_to_map blocks ∪ view p ∧
    fresh_records (blocksMap p) l ∧ blocksMap p' = records_map l ∪ blocksMap p ∧
    idxFile p' = idxFile p ∧ closed p' = closed p ∧ sink p' = sink p ∧ part_ID p' = part_ID p.
Proof.
  revert idxs p. induction blocks as [|[id data] blocks IH]; intros idxs p H Hw Hidx.
  { exists [], p. cbn. rewrite !(left_id_L ∅ (∪)). split_and!; try done.
    split; [constructor|constructor|]. intros ?? Hin. by inversion Hin. }
  rewrite WriteBlocks_loop_step.
  destruct (add_block_inv _ _ _ _ H Hw) as (H1 & Hw1 & Hv1).
  destruct (writable_cons _ _ _ _ H Hw) as (Hn & Hwb & Hs & Hnew & Hfree).
  set (b := mkIdx id (lenZ data) (first_free p * idxBlockSize)) in *.
  set (p1 := add_block id data p) in *.
  assert (idxs !! first_free p = None) as Hni.
  { apply eq_None_not_Some. intros [b' Hb']. destruct (Hidx _ _ Hb') as (? & ? & Hm & Ho).
    by apply (Hfree _ _ Hm). }
  destruct (IH (<[first_free p := b]> idxs) p1 H1 Hw1) as (l & p' & E & H' & Hv & Hl & Hm & Hrest).
  { intros n b'. rewrite lookup_insert. case_decide as En.
    - intros _. exists id, b. subst. split; [apply lookup_insert_eq|done].
    - intros Hb. destruct (Hidx _ _ Hb) as (i & b'' & Hm & Ho). exists i, b''. split; [|done].
      cbn. rewrite lookup_insert_ne; [done|congruence]. }
  assert (fresh_records (blocksMap p) ((first_free p, b) :: l)) as Hl'.
  { apply fresh_records_uncons; done. }
  exists ((first_free p, b) :: l), p'. split_and!; try done; try apply Hrest.
  - rewrite E. do 2 f_equal. cbn. rewrite <- insert_union_l, insert_union_r; [done|].
    apply not_elem_of_list_to_map. pose proof (fr_slots _ _ Hl') as Hd. cbn in Hd.
    by apply NoDup_cons in Hd as [? _].
  - rewrite Hv, Hv1. cbn. rewrite <- insert_union_l, insert_union_r; [done|].
    apply not_elem_of_list_to_map. pose proof (wr_ids _ _ Hw) as Hd. cbn in Hd.
    by apply NoDup_cons in Hd as [? _].
  - rewrite Hm. unfold records_map. cbn. rewrite <- insert_union_l, insert_union_r; [done|].
    apply not_elem_of_list_to_map. rewrite <- list_fmap_compose.
    pose proof (fr_ids _ _ Hl') as Hd. cbn in Hd. by apply NoDup_cons in Hd as [? _].
Qed.

End write_facts.

Section partition_facts.
Context (order : list (Z * IdxBlock) → list (Z * IdxBlock)) (Horder : ∀ l, order l ≡ₚ l).

Lemma part_inv_writable_perm p blocks blocks' :
  blocks' ≡ₚ blocks → writable p blocks → writable p blocks'.
Proof.
  intros Hp [Hi He Hr]. split; [by rewrite Hp| |by rewrite Hp].
  intros id data. rewrite Hp. apply He.
Qed.

(** a write of new blocks succeeds, extends the view and keeps the invariant *)
Lemma WriteBlocks_ok p blocks :
  part_inv p → writable p blocks →
  ∃ p', WriteBlocks no_faults no_faults order blocks p = (None, ∅, p') ∧ part_inv p' ∧
    view p' = list_to_map blocks ∪ view p ∧ sink p' = sink p ∧ part_ID p' = part_ID p.
Proof using Horder.
  intros H Hw. unfold WriteBlocks. rewrite (pi_open _ H).
  destruct (WriteBlocks_loop_ok blocks ∅ ∅ p) as
    (l & p1 & E & H1 & Hv & Hl & Hm & Hix & Hc & Hs & Hid); [by apply part_mem|done| |].
  { intros ??. by rewrite lookup_empty. }
  rewrite E, Hix, (right_id_L ∅ (∪)).
  assert (order (map_to_list (list_to_map l)) ≡ₚ l) as Hp.
  { rewrite Horder. apply map_to_list_to_map, Hl. }
  pose proof (fresh_records_perm _ _ _ Hp Hl) as Hl'.
  destruct (Write_repr (idxFile p) (blocksMap p) _ (pi_idx _ H) Hl') as (ix & Ew & Hix').
  rewrite Ew. exists (with_idx ix p1). split_and!; try done; [].
  rewrite (records_map_perm _ _ _ Hp Hl) in Hix'.
  split; [by rewrite <- Hm in Hix'|apply H1|apply H1|apply H1|]. cbn. rewrite Hc. apply H.
Qed.

Lemma stored_read p id b :
  part_inv p → blocksMap p !! id = Some b →
  readBlockContents no_faults (Offset b / idxBlockSize) (Size b) p = Ok (stored_in (file_ p) b).
Proof using.
  intros H Hm. unfold readBlockContents, no_faults, read_at.
  destruct (wm_each _ (pi_map _ H) _ _ Hm) as (_ & [_ Hu] & Hs & _).
  destruct (wf_slot _ _ _ (pi_map _ H) Hm) as [Hn _]. unfold slot_of, in_u64 in *.
  rewrite bool_decide_true; [done|]. right. rewrite (pi_size _ H), Z2Nat.id by lia.
  change partitionBlocksCount with 512 in *. unfold defaultBlockSize, defaultPartitionSize in *. lia.
Qed.

(** the answer [ReadBlocks] gives for one identifier *)
Definition read_answer (p : Partition) (id : string) : FsBlock :=
  let data := default [] (view p !! id) in mkFsBlock id 0 "" 0 (lenZ data) data [].

Lemma ReadBlocks_loop_spec p bs acc :
  part_inv p →
  ReadBlocks_loop no_faults bs p acc =
  foldl (λ m b, <[BPI_BlockID b := read_answer p (BPI_BlockID b)]> m) acc bs.
Proof using.
  intros H. revert acc. induction bs as [|b bs IH]; intros acc; [done|]. cbn [ReadBlocks_loop foldl].
  unfold read_answer at 2. unfold view. rewrite lookup_fmap.
  destruct (blocksMap p !! BPI_BlockID b) as [e|] eqn:Em; cbn [default fmap option_fmap option_map id].
  - rewrite (stored_read _ _ _ H Em). rewrite IH. do 3 f_equal. unfold stored_in.
    rewrite length_read_range. destruct (wm_each _ (pi_map _ H) _ _ Em) as (_ & [_ Hu] & _).
    unfold in_u64 in Hu. lia.
  - by rewrite <- IH.
Qed.

Lemma foldl_insert_lookup {B} (f : string → B) (bs : list BlockPlacementInfo) (acc : gmap string B) id :
  foldl (λ m b, <[BPI_BlockID b := f (BPI_BlockID b)]> m) acc bs !! id =
  (if bool_decide (id ∈ BPI_BlockID <$> bs) then Some (f id) else acc !! id : option B).
Proof using.
  revert acc. induction bs as [|b bs IH]; intros acc; [done|]. cbn [foldl]. rewrite IH. cbn.
  destruct (decide (id = BPI_BlockID b)) as [->|Hne].
  - rewrite (bool_decide_true (_ ∈ _ :: _)) by by constructor. case_bool_decide; [done|].
    apply lookup_insert_eq.
  - rewrite lookup_insert_ne by done.
    rewrite (bool_decide_ext (id ∈ BPI_BlockID b :: _) (id ∈ BPI_BlockID <$> bs)); [done|].
    rewrite elem_of_cons. intuition.
Qed.

(** [ReadBlocks] returns the stored bytes; an unknown identifier gets an empty
  block, not an error *)
Lemma ReadBlocks_ok p bs id :
  part_inv p →
  ∃ r, ReadBlocks no_faults bs p = Ok r ∧
    r !! id = if bool_decide (id ∈ BPI_BlockID <$> bs) then Some (read_answer p id) else None.
Proof using.
  intros H. unfold ReadBlocks. rewrite (pi_open _ H). eexists. split; [done|].
  by rewrite ReadBlocks_loop_spec, foldl_insert_lookup.
Qed.

(** ** Restart *)

Lemma idx_repr_ext f g m :
  f_size g = f_size f → (∀ i, 0 ≤ i < idxFileSize → byte_at g i = byte_at f i) →
  idx_repr f m → idx_repr g m.
Proof using.
  intros Hs Hb H.
  assert (∀ n, 0 ≤ n < partitionBlocksCount → record g n = record f n) as Hr.
  { intros n Hn. apply read_range_ext. change (Z.to_nat idxBlockSize) with 44%nat. intros i Hi.
    apply Hb. unfold idxFileSize, idxBlockSize in *. change partitionBlocksCount with 512 in *. lia. }
  split.
  - rewrite Hs. apply H.
  - intros id b Hm. destruct (ir_map _ _ H _ _ Hm) as (? & ? & n & Hn & ? & E).
    split_and!; [done..|]. exists n. split; [done|split; [done|]]. by rewrite Hr.
  - intros n Hn. rewrite Hr by done. by apply H.
Qed.

Lemma NewIdxFile_repr fallocate index f m :
  (∀ i, fallocate i ≠ Fileutil.FallocErr) → idx_repr f m →
  ∃ g i, NewIdxFile no_faults fallocate index (Some f) = (Ok g, i) ∧ idx_repr g m.
Proof using.
  intros Hno H. unfold NewIdxFile, no_faults, Fileutil.Preallocate, Fileutil.preallocExtend. simpl.
  destruct (preallocFixed_ok fallocate index Hno) as [i ->].
  eexists _, i. split; [done|]. unfold Fileutil.preallocExtendTrunc.
  case_match; [done|]. apply (idx_repr_ext f); [|  |done].
  - symmetry. apply H.
  - intros j Hj. rewrite truncate_byte. by rewrite decide_True by lia.
Qed.

Lemma map_fold_ids (m : gmap string IdxBlock) :
  (∀ id b, m !! id = Some b → ID b = id) →
  map_fold (λ _ b acc, <[ID b := b]> acc) ∅ m = m.
Proof using.
  induction m as [|id b m Hm Hf IH] using map_first_key_ind; intros Hid; [done|].
  rewrite map_fold_insert_first_key by done. rewrite (Hid id b) by apply lookup_insert_eq.
  f_equal. apply IH. intros i b' Hi. apply Hid. rewrite lookup_insert_ne; congruence.
Qed.

(** opening the files of a partition finds what its index file represents *)
Lemma open_ok fallocate index id f ix m :
  (∀ i, fallocate i ≠ Fileutil.FallocErr) →
  f_size f = defaultPartitionSize → idx_repr ix m → wf_map m →
  ∃ p0 i p', newPartition no_faults fallocate index id f (Some ix) = (Ok p0, i) ∧
    loadHeader no_faults no_faults p0 = Some (Ok p') ∧
    part_inv p' ∧ file_ p' = f ∧ blocksMap p' = m ∧ part_ID p' = id.
Proof using.
  intros Hno Hf Hix Hm. unfold newPartition.
  destruct (NewIdxFile_repr fallocate index ix m) as (g & i & -> & Hg); [done..|].
  eexists _, _, (mkPartition f g [] m ∅ id false false). split; [done|]. split.
  - unfold loadHeader, no_faults. cbn [file_ idxFile]. rewrite Hf. simpl.
    fold no_faults. rewrite (Load_repr g m) by done. unfold with_map. cbn.
    rewrite map_fold_ids; [done|]. intros i' b Hb. by destruct (wm_each _ Hm _ _ Hb).
  - split_and!; try done.
Qed.

End partition_facts.

(** ** Removing blocks *)

Section remove_facts.

Definition remove_all {B} (bs : list BlockPlacementInfo) (m : gmap string B) : gmap string B :=
  foldl (λ m b, delete (BPI_BlockID b) m) m bs.

Lemma remove_all_lookup {B} bs (m : gmap string B) id :
  remove_all bs m !! id = if bool_decide (id ∈ BPI_BlockID <$> bs) then None else m !! id.
Proof.
  unfold remove_all. revert m. induction bs as [|b bs IH]; intros m; [done|]. cbn. rewrite IH.
  destruct (decide (id = BPI_BlockID b)) as [->|Hne].
  - rewrite lookup_delete_eq, (bool_decide_true (_ ∈ _ :: _)) by by constructor. by case_bool_decide.
  - rewrite lookup_delete_ne by done.
    rewrite (bool_decide_ext (id ∈ BPI_BlockID b :: _) (id ∈ BPI_BlockID <$> bs)); [done|].
    rewrite elem_of_cons. intuition.
Qed.

Lemma remove_all_fmap {B C} (f : B → C) bs (m : gmap string B) :
  f <$> remove_all bs m = remove_all bs (f <$> m).
Proof.
  apply map_eq. intros id. rewrite lookup_fmap, !remove_all_lookup, lookup_fmap.
  by case_bool_decide.
Qed.

Lemma remove_all_subseteq {B} bs (m : gmap string B) : remove_all bs m ⊆ m.
Proof.
  apply map_subseteq_spec. intros id b. rewrite remove_all_lookup. by case_bool_decide.
Qed.

Lemma wf_map_empty : wf_map ∅.
Proof. split; intros *; by rewrite lookup_empty. Qed.

Lemma wf_map_subseteq m m' : m' ⊆ m → wf_map m → wf_map m'.
Proof.
  intros Hs H. rewrite map_subseteq_spec in Hs. split.
  - intros id b Hm. apply (wm_each _ H), Hs, Hm.
  - intros id id' b b' Hm Hm'. apply (wm_inj _ H); by apply Hs.
Qed.

Lemma remove_loop_acc bs acc m :
  remove_loop bs acc m = (acc ++ (remove_loop bs [] m).1, (remove_loop bs [] m).2).
Proof.
  revert acc m. induction bs as [|b bs IH]; intros acc m; cbn [remove_loop].
  - by rewrite app_nil_r.
  - rewrite (IH (acc ++ _)), (IH ([] ++ _)). cbn. by rewrite <- app_assoc.
Qed.

Lemma remove_loop_map bs m : (remove_loop bs [] m).2 = remove_all bs m.
Proof.
  revert m. induction bs as [|b bs IH]; intros m; [done|]. cbn [remove_loop].
  rewrite remove_loop_acc. cbn. by rewrite IH.
Qed.

(** erasing the slots of known blocks leaves an index of the others *)
Lemma remove_erase bs f m :
  idx_repr f m → wf_map m → NoDup (BPI_BlockID <$> bs) →
  (∀ b, b ∈ bs → is_Some (m !! BPI_BlockID b)) →
  idx_repr (Erase no_faults (remove_loop bs [] m).1 f) (remove_all bs m).
Proof.
  revert f m. induction bs as [|b bs IH]; intros f m H Hw Hnd Hin; [done|].
  cbn [remove_loop remove_all foldl]. rewrite remove_loop_acc. cbn [fst app Erase].
  destruct (Hin b) as [e He]; [by constructor|]. rewrite He. cbn [default id].
  destruct (wf_slot _ _ _ Hw He) as [_ Ho]. unfold slot_of in Ho.
  destruct (repr_erase _ _ _ _ _ H He Ho) as (f' & -> & H').
  cbn in Hnd. apply NoDup_cons in Hnd as [Hni Hnd]. apply (IH f'); [done| |done|].
  - eapply wf_map_subseteq; [apply delete_subseteq|done].
  - intros b' Hb'. rewrite lookup_delete_ne; [apply Hin; by constructor|].
    intros E. apply Hni. rewrite E. apply list_elem_of_fmap. by exists b'.
Qed.

Lemma RemoveBlocks_ok p bs :
  part_inv p → NoDup (BPI_BlockID <$> bs) →
  (∀ b, b ∈ bs → is_Some (view p !! BPI_BlockID b)) →
  ∃ p', RemoveBlocks no_faults bs p = (None, p') ∧ part_inv p' ∧
    view p' = remove_all bs (view p) ∧ blocksMap p' = remove_all bs (blocksMap p).
Proof.
  intros H Hnd Hin. unfold RemoveBlocks. rewrite (pi_open _ H).
  destruct (remove_loop bs [] (blocksMap p)) as [dl m] eqn:E.
  pose proof (remove_loop_map bs (blocksMap p)) as Em. rewrite E in Em. cbn in Em. subst m.
  eexists. split; [done|]. split_and!; [|by cbn; rewrite remove_all_fmap|done].
  split; cbn.
  - change dl with (dl, remove_all bs (blocksMap p)).1. rewrite <- E. apply remove_erase; [apply H..|done|].
    intros b Hb. specialize (Hin b Hb). unfold view in Hin. rewrite lookup_fmap in Hin.
    by apply fmap_is_Some in Hin.
  - eapply wf_map_subseteq; [apply remove_all_subseteq|apply H].
  - apply H.
  - unfold full_ok. cbn. destruct (Z.ltb_spec (Z.of_nat (size (remove_all bs (blocksMap p)))) partitionBlocksCount); done.
  - apply H.
Qed.

(** an unknown identifier makes [RemoveBlocks] erase the record of slot 0 *)
Lemma RemoveBlocks_unknown p b id0 b0 :
  part_inv p → blocksMap p !! BPI_BlockID b = None →
  blocksMap p !! id0 = Some b0 → Offset b0 = 0 →
  ∃ p', RemoveBlocks no_faults [b] p = (None, p') ∧ view p' = view p ∧ file_ p' = file_ p ∧
    idx_repr (idxFile p') (delete id0 (blocksMap p)).
Proof.
  intros H Hb H0 Ho. unfold RemoveBlocks. rewrite (pi_open _ H). cbn [remove_loop].
  rewrite Hb, delete_id by done. cbn [default id app Offset zero_IdxBlock].
  change (0 / idxBlockSize) with 0. eexists. split; [done|]. split; [done|]. split; [done|].
  cbn [with_idx idxFile with_map Erase].
  destruct (repr_erase (idxFile p) (blocksMap p) 0 id0 b0 (pi_idx _ H) H0 Ho) as (f' & -> & Hf'). done.
Qed.

End remove_facts.

(** ** The sink *)

Section sink_facts.
Context (order : list (Z * IdxBlock) → list (Z * IdxBlock)) (Horder : ∀ l, order l ≡ₚ l).
Context (border : list (string * list Z) → list (string * list Z)) (Hborder : ∀ l, border l ≡ₚ l).

(** the blocks waiting in the channel, a later one replacing an earlier one *)
Definition waiting (p : Partition) : gmap string (list Z) := (drain_sink p).1.

(** when the waiting blocks fit, one tick stores them all *)
Lemma sink_tick_ok p :
  part_inv p → writable p (map_to_list (waiting p)) →
  ∃ p', sink_tick no_faults no_faults order border p = ([], p') ∧ part_inv p' ∧
    sink p' = [] ∧ view p' = waiting p ∪ view p ∧ part_ID p' = part_ID p.
Proof using Horder Hborder.
  intros H Hw. unfold sink_tick, waiting in *. unfold drain_sink in *. cbn [fst] in *.
  set (w := foldl (λ m b, <[Fs_Id b := Fs_Data b]> m) ∅ (sink p)) in *.
  assert (part_inv (with_sink [] p)) as H1 by (split; apply H).
  case_bool_decide as Hz.
  { exists (with_sink [] p). split_and!; try done. cbn [view].
    apply map_size_empty_inv in Hz. rewrite Hz, (left_id_L ∅ (∪)). done. }
  assert (lenZ (map_to_list w) = Z.of_nat (size w)) as Hlen by by rewrite length_map_to_list.
  pose proof (wr_room _ _ Hw) as Hr. rewrite Hlen in Hr. unfold isAvailable.
  assert (full p = false) as Hfull.
  { destruct (full p) eqn:Ef; [|done]. pose proof (pi_full _ H Ef) as Hf.
    unfold getAvailableBlocks in Hr. lia. }
  cbn [with_sink full]. rewrite Hfull. change (getAvailableBlocks (with_sink [] p)) with (getAvailableBlocks p).
  rewrite (proj2 (Z.leb_le _ _) Hr). cbn [negb andb].
  destruct (WriteBlocks_ok order Horder (with_sink [] p) (border (map_to_list w))) as
    (p' & -> & Hp' & Hv & Hs & Hid); [done| |].
  { eapply part_inv_writable_perm; [apply Hborder|]. split; apply Hw. }
  exists p'. split_and!; try done. rewrite Hv. f_equal.
  rewrite <- (list_to_map_to_list w) at 2. apply list_to_map_proper.
  - rewrite Hborder. apply NoDup_fst_map_to_list.
  - apply Hborder.
Qed.
End sink_facts.

(** ** A partition is a bounded map from identifiers to bytes *)

Inductive part_op :=
| PWrite (blocks : list (string * list Z))
| PRemove (blocks : list BlockPlacementInfo)
| PRead (blocks : list BlockPlacementInfo)
| PReopen.    (* close the process, open the files again *)

Inductive part_obs :=
| PWrote (err : option data_error) (errs : gmap string data_error)
| PRemoved (err : option data_error)
| PReadRes (r : result data_error (gmap string FsBlock))
| PReopened (ok : bool).

Abbreviation store := (gmap string (list Z)).

Module PartSpec.
Definition answer (m : store) (id : string) : FsBlock :=
  let data := default [] (m !! id) in mkFsBlock id 0 "" 0 (lenZ data) data [].

(** the operations a client may issue in a state *)
Definition allowed (o : part_op) (m : store) : Prop :=
  match o with
  | PWrite blocks =>
      NoDup blocks.*1 ∧ lenZ blocks ≤ partitionBlocksCount - Z.of_nat (size m) ∧
      Forall (λ b, wf_id b.1 ∧ lenZ b.2 ≤ defaultBlockSize ∧ m !! b.1 = None) blocks
  | PRemove bs => NoDup (BPI_BlockID <$> bs) ∧ Forall (λ b, is_Some (m !! BPI_BlockID b)) bs
  | PRead _ | PReopen => True
  end.

Definition step (o : part_op) (m : store) : part_obs * store :=
  match o with
  | PWrite blocks => (PWrote None ∅, list_to_map blocks ∪ m)
  | PRemove bs => (PRemoved None, remove_all bs m)
  | PRead bs =>
      (PReadRes (Ok (foldl (λ r b, <[BPI_BlockID b := answer m (BPI_BlockID b)]> r) ∅ bs)), m)
  | PReopen => (PReopened true, m)
  end.

Fixpoint run (ops : list part_op) (m : store) : list part_obs * store :=
  match ops with
  | [] => ([], m)
  | o :: ops' => let '(r, m1) := step o m in let '(rs, m2) := run ops' m1 in (r :: rs, m2)
  end.

Fixpoint allowed_run (ops : list part_op) (m : store) : Prop :=
  match ops with [] => True | o :: ops' => allowed o m ∧ allowed_run ops' (step o m).2 end.

#[export] Instance allowed_dec o m : Decision (allowed o m).
Proof. destruct o; simpl; apply _. Defined.
#[export] Instance allowed_run_dec ops m : Decision (allowed_run ops m).
Proof. revert m. induction ops; intros m; simpl; apply _. Defined.
End PartSpec.

Section part_run.
Context (order : list (Z * IdxBlock) → list (Z * IdxBlock)).
Context (fallocate : nat → Fileutil.falloc_res) (index : nat).

Definition reopen (p : Partition) : part_obs * Partition :=
  match newPartition no_faults fallocate index (part_ID p) (file_ p) (Some (idxFile p)) with
  | (Ok p0, _) =>
      match loadHeader no_faults no_faults p0 with
      | Some (Ok p') => (PReopened true, p')
      | _ => (PReopened false, p)
      end
  | _ => (PReopened false, p)
  end.

Definition part_step (o : part_op) (p : Partition) : part_obs * Partition :=
  match o with
  | PWrite blocks =>
      let '(e, errs, p') := WriteBlocks no_faults no_faults order blocks p in (PWrote e errs, p')
  | PRemove bs => let '(e, p') := RemoveBlocks no_faults bs p in (PRemoved e, p')
  | PRead bs => (PReadRes (ReadBlocks no_faults bs p), p)
  | PReopen => reopen p
  end.

Fixpoint part_run (ops : list part_op) (p : Partition) : list part_obs * Partition :=
  match ops with
  | [] => ([], p)
  | o :: ops' => let '(r, p1) := part_step o p in let '(rs, p2) := part_run ops' p1 in (r :: rs, p2)
  end.

Context (Horder : ∀ l, order l ≡ₚ l) (Hno : ∀ i, fallocate i ≠ Fileutil.FallocErr).

Lemma view_None p id : view p !! id = None ↔ blocksMap p !! id = None.
Proof using. unfold view. by rewrite lookup_fmap, fmap_None. Qed.

Lemma size_view p : size (view p) = size (blocksMap p).
Proof using. apply map_size_fmap. Qed.

Lemma allowed_writable p blocks : PartSpec.allowed (PWrite blocks) (view p) → writable p blocks.
Proof using.
  intros (Hnd & Hlen & Hall). rewrite size_view in Hlen. split; [done| |done].
  intros id data Hin. rewrite Forall_forall in Hall. destruct (Hall _ Hin) as (? & ? & Hv).
  split_and!; [done..|]. by apply view_None.
Qed.

Lemma reopen_ok p m :
  f_size (file_ p) = defaultPartitionSize → idx_repr (idxFile p) m → wf_map m →
  ∃ p', reopen p = (PReopened true, p') ∧ part_inv p' ∧ view p' = stored_in (file_ p) <$> m.
Proof using Hno.
  intros Hf Hix Hm.
  destruct (open_ok fallocate index (part_ID p) (file_ p) (idxFile p) m)
    as (p0 & i & p' & E & E' & Hi & Hf' & Hm' & _); [done..|].
  exists p'. unfold reopen. rewrite E, E'. split_and!; [done..|]. unfold view. by rewrite Hf', Hm'.
Qed.

Lemma part_step_refines o p :
  part_inv p → PartSpec.allowed o (view p) →
  ∃ p', part_step o p = ((PartSpec.step o (view p)).1, p') ∧ part_inv p' ∧
    view p' = (PartSpec.step o (view p)).2.
Proof using Horder Hno.
  intros H Ha. destruct o as [blocks|bs|bs|]; cbn [part_step PartSpec.step fst snd].
  - destruct (WriteBlocks_ok order Horder p blocks H) as (p' & -> & Hi & Hv & _);
      [by apply allowed_writable|]. by exists p'.
  - destruct Ha as [Hnd Hall]. rewrite Forall_forall in Hall.
    destruct (RemoveBlocks_ok p bs H Hnd Hall) as (p' & -> & Hi & Hv & _). by exists p'.
  - exists p. split; [|done]. unfold ReadBlocks. rewrite (pi_open _ H).
    by rewrite ReadBlocks_loop_spec.
  - destruct (reopen_ok p (blocksMap p)) as (p' & E & Hi & Hv); [apply H..|]. by exists p'.
Qed.

Lemma part_run_refines ops p :
  part_inv p → PartSpec.allowed_run ops (view p) →
  ∃ p', part_run ops p = ((PartSpec.run ops (view p)).1, p') ∧ part_inv p' ∧
    view p' = (PartSpec.run ops (view p)).2.
Proof using Horder Hno.
  revert p. induction ops as [|o ops IH]; intros p H Ha; cbn [part_run PartSpec.run]; [by exists p|].
  destruct Ha as [Ha Hr]. destruct (part_step_refines o p H Ha) as (p1 & -> & H1 & Hv).
  rewrite <- Hv in Hr. destruct (IH p1 H1 Hr) as (p' & -> & H' & Hv').
  destruct (PartSpec.step o (view p)) as [r m]. cbn in Hv. subst m.
  exists p'. cbn [fst]. destruct (PartSpec.run ops (view p1)). done.
Qed.

(** a partition created on its preallocated file starts empty *)
Lemma newPartition_inv id f :
  f_size f = defaultPartitionSize →
  ∃ p i, newPartition no_faults fallocate index id f None = (Ok p, i) ∧ part_inv p ∧
    view p = ∅ ∧ sink p = [] ∧ part_ID p = id.
Proof using Hno.
  intros Hf. unfold newPartition, NewIdxFile, no_faults, Fileutil.Preallocate, Fileutil.preallocExtend.
  simpl. destruct (preallocFixed_ok fallocate index Hno) as [i ->].
  eexists _, i. split; [done|]. split_and!; try done.
  split; [|apply wf_map_empty|done..].
  apply (idx_repr_ext (mkFile idxFileSize ∅)); [done|done|apply empty_repr].
Qed.
End part_run.

Section overflow.
Context (order : list (Z * IdxBlock) → list (Z * IdxBlock)) (Horder : ∀ l, order l ≡ₚ l).
Context (border : list (string * list Z) → list (string * list Z)) (Hborder : ∀ l, border l ≡ₚ l).

(** when more blocks wait than slots are free, the tick stores a part of them
    and drops the others, which are then unknown to the partition *)
Lemma sink_tick_overflow p :
  part_inv p →
  (∀ id data, waiting p !! id = Some data → wf_id id ∧ lenZ data ≤ defaultBlockSize ∧ view p !! id = None) →
  getAvailableBlocks p < Z.of_nat (size (waiting p)) →
  ∃ ab p', sink_tick no_faults no_faults order border p = (ab, p') ∧ part_inv p' ∧
    lenZ ab = Z.of_nat (size (waiting p)) - getAvailableBlocks p ∧
    ∀ id data, (id, data) ∈ ab → waiting p !! id = Some data ∧ view p' !! id = None.
Proof using Horder Hborder.
  intros H Hw Hover. unfold sink_tick, waiting in *. unfold drain_sink in *. cbn [fst] in *.
  set (w := foldl (λ m b, <[Fs_Id b := Fs_Data b]> m) ∅ (sink p)) in *.
  set (p1 := with_sink [] p). assert (part_inv p1) as H1 by (split; apply H).
  change (getAvailableBlocks p1) with (getAvailableBlocks p).
  pose proof (wf_map_size _ (pi_map _ H)) as Hsz.
  assert (0 ≤ getAvailableBlocks p) as Hav by (unfold getAvailableBlocks; lia).
  rewrite bool_decide_false by lia.
  assert (isAvailable (Z.of_nat (size w)) p1 = false) as ->.
  { unfold isAvailable. apply andb_false_intro2, Z.leb_gt. exact Hover. }
  rewrite (proj2 (Z.ltb_ge _ _) Hav). set (k := Z.to_nat (getAvailableBlocks p)).
  set (l := border (map_to_list w)).
  assert (l ≡ₚ map_to_list w) as Hl by apply Hborder.
  assert (NoDup l.*1) as Hnd by (rewrite Hl; apply NoDup_fst_map_to_list).
  assert (length l = size w) as Hlen by by rewrite Hl, length_map_to_list.
  assert (NoDup (take k l).*1) as Hndk.
  { rewrite <- (take_drop k l), fmap_app in Hnd. by apply NoDup_app in Hnd as [? _]. }
  set (s := border (map_to_list (list_to_map (take k l)))).
  assert (s ≡ₚ take k l) as Hs.
  { unfold s. rewrite Hborder. by apply map_to_list_to_map. }
  destruct (WriteBlocks_ok order Horder p1 s H1) as (p' & -> & Hp' & Hv & _).
  { split; [by rewrite Hs| |].
    - intros id data Hin. rewrite Hs in Hin. apply take_elem in Hin. rewrite Hl in Hin.
      apply elem_of_map_to_list in Hin. destruct (Hw _ _ Hin) as (? & ? & ?%view_None). done.
    - rewrite Hs, length_take. change (getAvailableBlocks p1) with (getAvailableBlocks p). lia. }
  exists (drop k l), p'. split_and!; [done|done|rewrite length_drop; lia|].
  intros id data Hin. assert ((id, data) ∈ l) as Hinl.
  { rewrite <- (take_drop k l). apply elem_of_app. by right. }
  rewrite Hl in Hinl. apply elem_of_map_to_list in Hinl. split; [done|].
  rewrite Hv, lookup_union_None. split; [|by apply (Hw _ _ Hinl)].
  apply not_elem_of_list_to_map. intros Hin'. rewrite Hs in Hin'.
  rewrite <- (take_drop k l), fmap_app in Hnd. apply NoDup_app in Hnd as (_ & Hd & _).
  apply (Hd _ Hin'), list_elem_of_fmap. by exists (id, data).
Qed.
End overflow.

(** ** Concrete partitions for the witnesses *)

Section examples.
(** a partition on preallocated files, with blocks waiting in its sink *)
Definition empty_part (s : list FsBlock) : Partition :=
  mkPartition (mkFile defaultPartitionSize ∅) (mkFile idxFileSize ∅) s ∅ ∅ "p" false false.

Lemma empty_part_inv s : part_inv (empty_part s).
Proof. split; [apply empty_repr|apply wf_map_empty|done..]. Qed.

Definition id_a : string := "f5f43186-4c6f-4358-906d-3929008e991c".
Definition id_b : string := "b92d35bd-c9b3-4057-a9fb-d5246fa16265".

(** 36 character names [x...xyyyy] with [n] letters [y] *)
Fixpoint letters (a : ascii) (n : nat) : string :=
  match n with O => EmptyString | S n' => String.String a (letters a n') end.
Definition some_id (n : nat) : string :=
  letters (ascii_of_nat (1 + n / 32)) 4 +:+ letters "x"%char (n mod 32) +:+ letters "y"%char (32 - n mod 32).

Definition crowd : list FsBlock := (λ n, mkFsBlock (some_id n) 0 "" 0 1 [7] []) <$> seq 0 513.

(** one block, in slot 0 *)
Definition one_part : Partition := (WriteBlocks no_faults no_faults no_order [(id_a, [1; 2; 3])] (empty_part [])).2.

Lemma one_part_inv : part_inv one_part.
Proof.
  destruct (WriteBlocks_ok no_order (λ l, Permutation_refl l) (empty_part []) [(id_a, [1; 2; 3])]) as (p' & E & H & _).
  - apply empty_part_inv.
  - apply allowed_writable. apply (bool_decide_eq_true_1 (PartSpec.allowed _ _)). by vm_compute.
  - unfold one_part. by rewrite E.
Qed.
End examples.

(** C8: a partition created on its data file behaves, for every
    sequence of writes of new blocks, removals of known blocks, reads and
    restarts of the process, exactly as a map from identifiers to bytes: the
    same results, the bytes read are the bytes written, and a restart loses and
    invents nothing.  The order in which Go iterates the index records and the
    support for [fallocate] do not matter. *)
Theorem partition_refines_map (order : list (Z * IdxBlock) → list (Z * IdxBlock))
    (fallocate : nat → Fileutil.falloc_res) (index : nat) (id : string) (f : file) (ops : list part_op) :
  (∀ l, order l ≡ₚ l) → (∀ i, fallocate i ≠ Fileutil.FallocErr) →
  f_size f = defaultPartitionSize → PartSpec.allowed_run ops ∅ →
  ∃ p0 i p, newPartition no_faults fallocate index id f None = (Ok p0, i) ∧
    part_run order fallocate index ops p0 = ((PartSpec.run ops ∅).1, p) ∧
    view p = (PartSpec.run ops ∅).2 ∧ part_inv p.
Proof.
  intros Ho Hno Hf Ha. destruct (newPartition_inv fallocate index Hno id f Hf) as (p0 & i & E & Hi & Hv & _).
  rewrite <- Hv in Ha. destruct (part_run_refines order fallocate index Ho Hno ops p0 Hi Ha) as (p & E' & Hp & Hv').
  rewrite Hv in E', Hv'. by exists p0, i, p.
Qed.

Lemma partition_refines_map_witness :
  let ops := [PWrite [(id_a, [1; 2; 3]); (id_b, [])]; PRead [mkBPI id_a "p" false ""];
              PReopen; PRemove [mkBPI id_a "p" false ""]; PReopen;
              PRead [mkBPI id_a "p" false ""; mkBPI id_b "p" false ""]] in
  ∃ p0 i p,
    newPartition no_faults (λ _, Fileutil.FallocNotSup) 0 "p" (mkFile defaultPartitionSize ∅) None = (Ok p0, i) ∧
    part_run (@rev _) (λ _, Fileutil.FallocNotSup) 0 ops p0 = ((PartSpec.run ops ∅).1, p) ∧
    view p = (PartSpec.run ops ∅).2 ∧ part_inv p.
Proof.
  apply partition_refines_map; [|done|done|].
  - intros l. symmetry. apply Permutation_rev.
  - apply (bool_decide_eq_true_1 (PartSpec.allowed_run _ _)). by vm_compute.
Defined.

(** Used and available blocks always add up to the 512 slots,
    neither is negative, and [IsAvailable] answers for [n >= 1] blocks exactly
    when [n] slots are free. *)
Theorem partition_capacity (p : Partition) (n : Z) :
  part_inv p → 1 ≤ n →
  GetUsedBlocks p + GetAvailableBlocks p = partitionBlocksCount ∧
  0 ≤ GetUsedBlocks p ∧ 0 ≤ GetAvailableBlocks p ∧
  (IsAvailable n p = true ↔ n ≤ GetAvailableBlocks p).
Proof.
  intros H Hn. unfold GetUsedBlocks, GetAvailableBlocks, IsAvailable, isAvailable.
  rewrite (pi_open _ H). pose proof (wf_map_size _ (pi_map _ H)). unfold getAvailableBlocks.
  split_and!; [lia..|]. rewrite andb_true_iff, Z.leb_le. split; [by intros []|].
  intros Hle. split; [|done]. destruct (full p) eqn:Ef; [|done]. pose proof (pi_full _ H Ef). lia.
Qed.

Lemma partition_capacity_witness :
  GetUsedBlocks (empty_part []) + GetAvailableBlocks (empty_part []) = partitionBlocksCount ∧
  0 ≤ GetUsedBlocks (empty_part []) ∧ 0 ≤ GetAvailableBlocks (empty_part []) ∧
  (IsAvailable 512 (empty_part []) = true ↔ 512 ≤ GetAvailableBlocks (empty_part [])).
Proof. apply partition_capacity; [apply empty_part_inv|done]. Defined.

(** blocks put in the sink of a partition with room for them are,
    after the next tick, stored with their last contents, and they are still
    there after a restart. *)
Theorem sink_flush_durable (order : list (Z * IdxBlock) → list (Z * IdxBlock))
    (border : list (string * list Z) → list (string * list Z))
    (fallocate : nat → Fileutil.falloc_res) (index : nat) (p : Partition) :
  (∀ l, order l ≡ₚ l) → (∀ l, border l ≡ₚ l) → (∀ i, fallocate i ≠ Fileutil.FallocErr) →
  part_inv p → writable p (map_to_list (waiting p)) →
  ∃ p', sink_tick no_faults no_faults order border p = ([], p') ∧
    view p' = waiting p ∪ view p ∧ sink p' = [] ∧
    ∃ p'', reopen fallocate index p' = (PReopened true, p'') ∧ view p'' = waiting p ∪ view p.
Proof.
  intros Ho Hb Hno H Hw.
  destruct (sink_tick_ok order Ho border Hb p H Hw) as (p' & E & H' & Hs & Hv & _).
  exists p'. split_and!; [done..|].
  destruct (reopen_ok fallocate index Hno p' (blocksMap p')) as (p'' & E' & _ & Hv'); [apply H'..|].
  exists p''. split; [done|]. rewrite Hv'. exact Hv.
Qed.

Lemma sink_flush_durable_witness :
  let p := empty_part [mkFsBlock id_a 0 "" 0 1 [7] []; mkFsBlock id_b 0 "" 0 1 [8] [];
                       mkFsBlock id_a 0 "" 0 2 [9; 9] []] in
  ∃ p', sink_tick no_faults no_faults no_order (λ l, l) p = ([], p') ∧
    view p' = waiting p ∪ view p ∧ sink p' = [] ∧
    ∃ p'', reopen (λ _, Fileutil.FallocOk) 0 p' = (PReopened true, p'') ∧ view p'' = waiting p ∪ view p.
Proof.
  apply sink_flush_durable; [done|done|done|apply empty_part_inv|].
  apply allowed_writable. apply (bool_decide_eq_true_1 (PartSpec.allowed _ _)). by vm_compute.
Defined.

(** When more blocks wait in the sink than the partition has
    free slots, the tick drops exactly the excess; the dropped blocks were
    accepted by [put] and are unknown to the partition afterwards. *)
Theorem sink_overflow_abandons (order : list (Z * IdxBlock) → list (Z * IdxBlock))
    (border : list (string * list Z) → list (string * list Z)) (p : Partition) :
  (∀ l, order l ≡ₚ l) → (∀ l, border l ≡ₚ l) → part_inv p →
  (∀ id data, waiting p !! id = Some data → wf_id id ∧ lenZ data ≤ defaultBlockSize ∧ view p !! id = None) →
  getAvailableBlocks p < Z.of_nat (size (waiting p)) →
  ∃ ab p', sink_tick no_faults no_faults order border p = (ab, p') ∧
    lenZ ab = Z.of_nat (size (waiting p)) - getAvailableBlocks p ∧
    ∀ id data, (id, data) ∈ ab → waiting p !! id = Some data ∧ view p' !! id = None.
Proof.
  intros Ho Hb H Hw Hover.
  destruct (sink_tick_overflow order Ho border Hb p H Hw Hover) as (ab & p' & E & _ & Hl & Hab).
  by exists ab, p'.
Qed.

Lemma sink_overflow_abandons_witness :
  let p := empty_part crowd in
  ∃ ab p', sink_tick no_faults no_faults no_order (λ l, l) p = (ab, p') ∧
    lenZ ab = Z.of_nat (size (waiting p)) - getAvailableBlocks p ∧
    ∀ id data, (id, data) ∈ ab → waiting p !! id = Some data ∧ view p' !! id = None.
Proof.
  apply sink_overflow_abandons; [done|done|apply empty_part_inv| |by vm_compute].
  intros id data Hw.
  assert (map_Forall (λ i d, wf_id i ∧ lenZ d ≤ defaultBlockSize) (waiting (empty_part crowd))) as Hall.
  { apply (bool_decide_eq_true_1 (map_Forall _ _)). by vm_compute. }
  destruct (Hall _ _ Hw). split_and!; [done..|]. by apply view_None.
Defined.

(** Removing an identifier the partition does not know reports
    no error, leaves the blocks readable for now, but erases the index record of
    slot 0: after a restart the block that occupies slot 0 is gone. *)
Theorem remove_unknown_loses_slot0 (fallocate : nat → Fileutil.falloc_res) (index : nat)
    (p : Partition) (b : BlockPlacementInfo) (id0 : string) (b0 : IdxBlock) :
  (∀ i, fallocate i ≠ Fileutil.FallocErr) →
  part_inv p → blocksMap p !! BPI_BlockID b = None →
  blocksMap p !! id0 = Some b0 → Offset b0 = 0 →
  ∃ p', RemoveBlocks no_faults [b] p = (None, p') ∧ view p' = view p ∧
    ∃ p'', reopen fallocate index p' = (PReopened true, p'') ∧ view p'' = delete id0 (view p) ∧
      is_Some (view p !! id0).
Proof.
  intros Hno H Hb H0 Ho. destruct (RemoveBlocks_unknown p b id0 b0 H Hb H0 Ho) as (p' & E & Hv & Hf & Hr).
  exists p'. split_and!; [done..|].
  destruct (reopen_ok fallocate index Hno p' (delete id0 (blocksMap p))) as (p'' & E' & _ & Hv');
    [rewrite Hf; apply H|done| |].
  { eapply wf_map_subseteq; [apply delete_subseteq|apply H]. }
  exists p''. split; [done|]. rewrite Hv', Hf, fmap_delete. split; [done|].
  unfold view. by rewrite lookup_fmap, H0.
Qed.

Lemma remove_unknown_loses_slot0_witness :
  ∃ p', RemoveBlocks no_faults [mkBPI id_b "p" false ""] one_part = (None, p') ∧ view p' = view one_part ∧
    ∃ p'', reopen (λ _, Fileutil.FallocOk) 0 p' = (PReopened true, p'') ∧
      view p'' = delete id_a (view one_part) ∧ is_Some (view one_part !! id_a).
Proof.
  apply (remove_unknown_loses_slot0 _ _ one_part (mkBPI id_b "p" false "") id_a (mkIdx id_a 3 0));
    [done|apply one_part_inv|by vm_compute..].
Defined.
