(* ===== verification/PartitionFaults.v ===== *)
(** * Partitions on files that fail

    A write goes to the data file first and to the index file last, record by record, so
    whatever operations fail, or wherever the process dies, a restart finds every old
    block and each new one whole or not at all.  (A process that dies leaves the files as
    if every later operation had failed; a write that fails writes nothing.)  A removal
    clears its record one byte at a time, and has no such protection. *)

From S2P Require Import Prelude Bytes Messages RandFile IdxFile Partition.

(** ** The index file, up to the record that fails *)

Section index.
Context (idx_io : io_op → bool).
Implicit Types (m : gmap string IdxBlock) (l : list (Z * IdxBlock)).

Lemma records_map_cons n b l : NoDup ((λ p, ID p.2) <$> ((n, b) :: l)) →
  ∀ m, records_map l ∪ <[ID b := b]> m = records_map ((n, b) :: l) ∪ m.
Proof using.
  intros Hi m. unfold records_map. cbn. rewrite <- insert_union_l, insert_union_r; [done|].
  apply not_elem_of_list_to_map. rewrite <- list_fmap_compose. cbn in Hi. by apply NoDup_cons in Hi as [? _].
Qed.

Lemma Write_prefix f m l : idx_repr f m → fresh_records m l →
  ∃ k r f', Write idx_io l f = (r, f') ∧ idx_repr f' (records_map (take k l) ∪ m) ∧ (r = Ok tt → take k l = l) ∧ r ≠ Panic.
Proof using.
  revert f m. induction l as [|[n b] l IH]; intros f m H Hl; cbn [Write].
  { exists 0%nat, (if idx_io IoSync then Err ErrIO else Ok tt), f. split; [done|]. unfold records_map. cbn.
    rewrite (left_id_L ∅ (∪)). split; [done|]. by destruct (idx_io IoSync). }
  destruct (fr_each _ _ Hl n b) as (Hn & Hw & Ho & Hf & Hfree); [by constructor|].
  unfold file_write. destruct (idx_io (IoWriteAt (n * idxBlockSize))).
  { exists 0%nat, (Err ErrIO), f. split; [done|]. unfold records_map. cbn. by rewrite (left_id_L ∅ (∪)). }
  rewrite bool_decide_false by auto.
  destruct (IH (write_at f (n * idxBlockSize) (Marshal b)) (<[ID b := b]> m)) as (k & r & f' & E & H' & Hr & Hp).
  { by apply repr_write. }
  { by eapply fresh_records_cons. }
  exists (S k), r, f'. split; [done|]. cbn [take]. split; [|split; [intros Ht; by rewrite (Hr Ht)|done]].
  rewrite <- (records_map_cons n b (take k l)); [done|].
  pose proof (fr_ids _ _ Hl) as Hi. cbn in Hi |- *. apply NoDup_cons in Hi as [Hni Hi].
  apply NoDup_cons. split.
  - intros ((n', b') & E' & Hin)%list_elem_of_fmap. apply Hni, list_elem_of_fmap. exists (n', b'). split; [done|]. by eapply take_elem.
  - rewrite fmap_take. eapply sublist_NoDup; [exact Hi|apply sublist_take].
Qed.
End index.

Section faults.
Context (part_io idx_io : io_op → bool).
Context (order : list (Z * IdxBlock) → list (Z * IdxBlock)) (Horder : ∀ l, order l ≡ₚ l).
Implicit Types (p : Partition) (blocks : list (string * list Z)).

(** a block that fails leaves the map alone, and at most fills a free slot *)
Lemma failed_block p id data blocks r p1 : mem_inv p → writable p ((id, data) :: blocks) →
  writeBlockContents part_io (first_free p) data p = (r, p1) →
  (r = Ok (lenZ data) ∧ p1 = with_file (write_at (file_ p) (first_free p * defaultBlockSize) data) p) ∨
  (r = Err ErrIO ∧ mem_inv p1 ∧ writable p1 blocks ∧ view p1 = view p ∧ blocksMap p1 = blocksMap p ∧ idxFile p1 = idxFile p ∧ 
   closed p1 = closed p ∧ sink p1 = sink p ∧ part_ID p1 = part_ID p).
Proof using.
  intros H Hw. destruct (writable_cons _ _ _ _ H Hw) as (Hn & Hwb & Hs & Hnew & Hfree).
  assert (∀ q, blocksMap q = blocksMap p → writable q blocks) as Htail.
  { intros q Hq. split.
    - pose proof (wr_ids _ _ Hw) as Hd. cbn in Hd. by apply NoDup_cons in Hd as [_ ?].
    - intros id' data' Hin. rewrite Hq. apply (wr_each _ _ Hw). by constructor.
    - unfold getAvailableBlocks. rewrite Hq. pose proof (wr_room _ _ Hw) as Hr. unfold getAvailableBlocks in Hr. cbn [length] in Hr. lia. }
  unfold writeBlockContents. destruct (part_io (IoWriteAt _)).
  { intros [= <- <-]. right. split_and!; try done. by apply Htail. }
  destruct (part_io IoSync); intros [= <- <-]; [right|by left]. split_and!; try done; [|by apply Htail|].
  - split; [apply H| |apply H]. apply write_slot_size; [apply H|done|done].
  - unfold view. cbn. by apply view_write; [apply H|..].
Qed.

(** the whole loop, some blocks failing: the others are stored *)
Lemma WriteBlocks_loop_faulty blocks errs idxs p : mem_inv p → writable p blocks →
  (∀ n b, idxs !! n = Some b → ∃ id b', blocksMap p !! id = Some b' ∧ Offset b' = n * idxBlockSize) →
  ∃ good l errs' p', WriteBlocks_loop part_io blocks errs idxs p = (errs', list_to_map l ∪ idxs, p') ∧
    mem_inv p' ∧ good `sublist_of` blocks ∧ view p' = list_to_map good ∪ view p ∧
    (∀ id, errs' !! id = None → errs !! id = None ∧ ∀ data, (id, data) ∈ blocks → (id, data) ∈ good) ∧
    fresh_records (blocksMap p) l ∧ blocksMap p' = records_map l ∪ blocksMap p ∧
    idxFile p' = idxFile p ∧ closed p' = closed p ∧ sink p' = sink p ∧ part_ID p' = part_ID p.
Proof using.
  revert errs idxs p. induction blocks as [|[id data] blocks IH]; intros errs idxs p H Hw Hidx.
  { exists [], [], errs, p. cbn. rewrite !(left_id_L ∅ (∪)). split_and!; try done.
    split; [constructor|constructor|]. intros ?? Hin. by inversion Hin. }
  cbn [WriteBlocks_loop]. destruct (writeBlockContents part_io (first_free p) data p) as [r p0] eqn:Ewc.
  destruct (failed_block p id data blocks r p0 H Hw Ewc) as [[-> ->]|(-> & H0 & Hw0 & Hv0 & Hm0 & Hi0 & Hc0 & Hs0 & Hid0)].
  - rewrite bool_decide_false by (intros []; done).
    destruct (add_block_inv _ _ _ _ H Hw) as (H1 & Hw1 & Hv1).
    destruct (writable_cons _ _ _ _ H Hw) as (Hn & Hwb & Hs & Hnew & Hfree).
    set (b := mkIdx id (lenZ data) (first_free p * idxBlockSize)) in *.
    change (with_map _ _ _) with (add_block id data p). set (p1 := add_block id data p) in *.
    assert (idxs !! first_free p = None) as Hni.
    { apply eq_None_not_Some. intros [b' Hb']. destruct (Hidx _ _ Hb') as (? & ? & Hm & Ho). by apply (Hfree _ _ Hm). }
    destruct (IH errs (<[first_free p := b]> idxs) p1 H1 Hw1) as (good & l & errs' & p' & E & H' & Hg & Hv & He & Hl & Hm & Hrest).
    { intros n b'. rewrite lookup_insert. case_decide as En.
      - intros _. exists id, b. subst. split; [apply lookup_insert_eq|done].
      - intros Hb. destruct (Hidx _ _ Hb) as (i & b'' & Hm & Ho). exists i, b''. split; [|done].
        cbn. rewrite lookup_insert_ne; [done|congruence]. }
    assert (fresh_records (blocksMap p) ((first_free p, b) :: l)) as Hl' by by apply fresh_records_uncons.
    exists ((id, data) :: good), ((first_free p, b) :: l), errs', p'. split_and!; try done; try apply Hrest.
    + rewrite E. do 2 f_equal. cbn. rewrite <- insert_union_l, insert_union_r; [done|].
      apply not_elem_of_list_to_map. pose proof (fr_slots _ _ Hl') as Hd. cbn in Hd. by apply NoDup_cons in Hd as [? _].
    + by constructor.
    + rewrite Hv, Hv1. cbn. rewrite <- insert_union_l, insert_union_r; [done|].
      apply not_elem_of_list_to_map. pose proof (wr_ids _ _ Hw) as Hd. cbn in Hd. apply NoDup_cons in Hd as [Hd _].
      intros Hin. apply Hd. by apply (elem_of_sublist (good.*1)); [|apply fmap_sublist].
    + intros id' Hnone. destruct (He id' Hnone) as [? Hall]. split; [done|]. intros data' [[= -> ->]|Hin]%elem_of_cons; constructor; auto.
    + rewrite Hm. change (blocksMap p1) with (<[ID b := b]> (blocksMap p)). apply records_map_cons, Hl'.
  - destruct (IH (<[id := ErrIO]> errs) idxs p0 H0 Hw0) as (good & l & errs' & p' & E & H' & Hg & Hv & He & Hl & Hm & Hi & Hc & Hs & Hid).
    { intros n b'' Hb. rewrite Hm0. by apply (Hidx n b''). }
    exists good, l, errs', p'. rewrite Hm0 in Hl, Hm. split_and!; try done; try congruence; [by apply sublist_cons| ].
    intros id' Hnone. destruct (He id' Hnone) as [[Hne Hn]%lookup_insert_None Hall]. split; [done|].
    intros data' [[= -> ->]|Hin]%elem_of_cons; [done|auto].
Qed.
End faults.

(** ** After a restart *)

Section restart.
Context (part_io idx_io : io_op → bool).
Context (order : list (Z * IdxBlock) → list (Z * IdxBlock)) (Horder : ∀ l, order l ≡ₚ l).
Context (fallocate : nat → Fileutil.falloc_res) (index : nat) (Hno : ∀ i, fallocate i ≠ Fileutil.FallocErr).

Lemma WriteBlocks_faulty p blocks : part_inv p → writable p blocks →
  ∃ err errs p1, WriteBlocks part_io idx_io order blocks p = (err, errs, p1) ∧
  ∃ good l k, good `sublist_of` blocks ∧ view p1 = list_to_map good ∪ view p ∧ f_size (file_ p1) = defaultPartitionSize ∧
    wf_map (blocksMap p1) ∧ fresh_records (blocksMap p) l ∧ blocksMap p1 = records_map l ∪ blocksMap p ∧
    idx_repr (idxFile p1) (records_map (take k l) ∪ blocksMap p) ∧ (err = None → take k l = l) ∧
    (∀ id, errs !! id = None → ∀ data, (id, data) ∈ blocks → (id, data) ∈ good).
Proof using Horder.
  intros H Hw. unfold WriteBlocks. rewrite (pi_open _ H).
  destruct (WriteBlocks_loop_faulty part_io blocks ∅ ∅ p) as
    (good & l & errs & p1 & E & H1 & Hg & Hv & He & Hl & Hm & Hix & Hc & Hs & Hid); [by apply part_mem|done| |].
  { intros ??. by rewrite lookup_empty. }
  rewrite E, Hix, (right_id_L ∅ (∪)).
  assert (order (map_to_list (list_to_map l)) ≡ₚ l) as Hp by (rewrite Horder; apply map_to_list_to_map, Hl).
  pose proof (fresh_records_perm _ _ _ Hp Hl) as Hl'. set (l' := order _) in *.
  destruct (Write_prefix idx_io (idxFile p) (blocksMap p) l' (pi_idx _ H) Hl') as (k & r & ix & Ew & Hix' & Hr & Hnp).
  rewrite Ew. rewrite <- (records_map_perm _ _ _ Hp Hl) in Hm.
  exists (match r with Err e => Some e | _ => None end), errs, (with_idx ix p1). split; [by destruct r as [[]|e|]|].
  exists good, l', k. split_and!; try done; try apply H1.
  - destruct r as [[]|e|]; try done. intros _. by apply Hr.
  - intros id Hnone data Hin. by apply (He id Hnone).
Qed.

End restart.

(** ** A removal that stops within a record *)

(** an identifier whose first [j] bytes were cleared *)
Definition ghost (j : nat) (id : string) : string := string_of_bytes (replicate j 0 ++ drop j (bytes_of_string id)).

(** the byte at [off] of the index file cannot be written *)
Definition stops_at (off : Z) : io_op → bool := λ o, bool_decide (o = IoWriteAt off).

Section torn.
Implicit Types (m : gmap string IdxBlock).

Lemma erase_record_stops j k pos f : 0 ≤ pos → pos + Z.of_nat k ≤ f_size f → (j < k)%nat →
  ∃ f', erase_record (stops_at (pos + Z.of_nat j)) k pos f = (false, f') ∧ f_size f' = f_size f ∧
    ∀ i, byte_at f' i = if decide (pos ≤ i < pos + Z.of_nat j) then 0 else byte_at f i.
Proof.
  revert k pos f. induction j as [|j IH]; intros k pos f Hp Hs Hj; (destruct k as [|k]; [lia|]); cbn [erase_record]; unfold file_write, stops_at at 1.
  - rewrite bool_decide_true by (f_equal; lia). exists f. split_and!; [done..|]. intros i. case_decide; [lia|done].
  - rewrite bool_decide_false by (intros [=]; lia). destruct (write_at_size f pos [0] Hp) as (_ & Hsz & _). cbn [length] in Hsz.
    specialize (Hsz ltac:(lia)). destruct (IH k (pos + 1) (write_at f pos [0])) as (f' & E & Es & Hb); [lia..|].
    replace (pos + 1 + Z.of_nat j) with (pos + Z.of_nat (S j)) in E by lia.
    exists f'. split_and!; [exact E|by rewrite Es|]. intros i. rewrite Hb, write_at_byte. cbn [length].
    destruct (decide (i = pos)) as [->|]; [rewrite Z.sub_diag|]; repeat case_decide; done || lia.
Qed.

Lemma ghost_bytes j id : bytes_of_string (ghost j id) = replicate j 0 ++ drop j (bytes_of_string id).
Proof.
  unfold ghost. apply bytes_of_string_of_bytes. apply Forall_app. split; [by apply Forall_replicate|].
  apply Forall_drop, bytes_of_string_range.
Qed.

Lemma repr_stops f m n id b j : idx_repr f m → m !! id = Some b → Offset b = n * idxBlockSize →
  (j < 36)%nat → wf_id (ghost j id) → m !! ghost j id = None →
  ∃ f', erase_record (stops_at (n * idxBlockSize + Z.of_nat j)) (Z.to_nat idxBlockSize) (n * idxBlockSize) f = (false, f') ∧
    idx_repr f' (<[ghost j id := mkIdx (ghost j id) (Size b) (Offset b)]> (delete id m)).
Proof.
  intros H Hm Ho Hj Hg Hnew. destruct (ir_map _ _ H _ _ Hm) as (Hid & [Hwi Hwu] & k & Hk & Hok & Hrk).
  assert (k = n) as -> by (unfold idxBlockSize in *; lia).
  assert (f_size f = idxFileSize) as Hsz by apply H. change partitionBlocksCount with 512 in *.
  destruct (erase_record_stops j (Z.to_nat idxBlockSize) (n * idxBlockSize) f) as (f' & E & Es & Hb).
  { unfold idxBlockSize. lia. }
  { rewrite Hsz. unfold idxFileSize, idxBlockSize. change partitionBlocksCount with 512. lia. }
  { change (Z.to_nat idxBlockSize) with 44%nat. lia. }
  exists f'. split; [exact E|]. set (b' := mkIdx (ghost j id) (Size b) (Offset b)).
  assert (∀ i, i ≠ n → record f' i = record f i) as Hother.
  { intros i Hi. apply read_range_ext. change (Z.to_nat idxBlockSize) with 44%nat. intros x Hx. rewrite Hb. unfold idxBlockSize in *.
    rewrite decide_False; [done|lia]. }
  assert (length (bytes_of_string id) = 36%nat) as Hl36 by (rewrite length_bytes_of_string, <- Hid; apply Hwi).
  assert (record f' n = Marshal b') as Hn.
  { assert (record f' n = replicate j 0 ++ drop j (record f n)) as ->.
    { apply list_eq. intros i. unfold record. change (Z.to_nat idxBlockSize) with 44%nat.
      destruct (decide (i < 44)%nat) as [Hi|]; [|rewrite !lookup_ge_None_2; rewrite ?length_app, ?length_drop, ?length_read_range, ?length_replicate; [done|lia..]].
      rewrite read_range_lookup, Hb by done. unfold idxBlockSize in *. destruct (decide (i < j)%nat).
      - rewrite decide_True, lookup_app_l, lookup_replicate_2 by (rewrite ?length_replicate; lia). done.
      - rewrite decide_False, lookup_app_r, length_replicate, lookup_drop, read_range_lookup by (rewrite ?length_replicate; lia).
        do 2 f_equal. lia. }
    rewrite Hrk. unfold Marshal, b'. cbn [ID Size]. rewrite ghost_bytes, Hid, drop_app_le by lia. by rewrite app_assoc. }
  split.
  - by rewrite Es.
  - intros id' b1. rewrite lookup_insert. case_decide as Heq.
    + intros [= <-]. split; [done|]. split; [by split|]. exists n. change partitionBlocksCount with 512. split; [lia|by split].
    + rewrite lookup_delete_Some. intros [Hne Hm']. destruct (ir_map _ _ H _ _ Hm') as (? & ? & i & Hi & Hoi & Hri).
      split; [done|]. split; [done|]. exists i. split; [exact Hi|]. split; [exact Hoi|]. rewrite Hother; [done|]. intros ->. apply Hne.
      eapply repr_slot_inj; eauto. congruence.
  - intros i Hi. destruct (decide (i = n)) as [->|Hin].
    + right. exists (ghost j id), b'. rewrite lookup_insert_eq. by split.
    + rewrite Hother by done. destruct (ir_slot _ _ H i Hi) as [|(id' & b1 & Hm' & Ho')]; [by left|right].
      exists id', b1. rewrite lookup_insert_ne by congruence. rewrite lookup_delete_ne; [done|].
      intros <-. rewrite Hm in Hm'. injection Hm' as <-. unfold idxBlockSize in *. lia.
Qed.

Lemma wf_map_ghost m id b j : wf_map m → m !! id = Some b → wf_id (ghost j id) →
  wf_map (<[ghost j id := mkIdx (ghost j id) (Size b) (Offset b)]> (delete id m)).
Proof.
  intros H Hm Hg. destruct (wm_each _ H _ _ Hm) as (_ & [_ Hu] & Hs & n & Hn & Ho).
  apply (wf_map_insert _ (mkIdx (ghost j id) (Size b) (Offset b)) n); [|by split|done|done|done|].
  - eapply wf_map_subseteq; [apply delete_subseteq|done].
  - intros id' b' [Hne Hm']%lookup_delete_Some E. apply Hne. apply (wm_inj _ H id id' b b'); [done|done|congruence].
Qed.

End torn.

(** ** Witnesses *)

Section witnesses.

(** the second record cannot be written: its block is lost, the others are not *)
Definition slot_1_fails : io_op → bool := stops_at (1 * idxBlockSize).


End witnesses.
