(* ===== verification/Manager.v ===== *)
(** * The data manager of a node: [node/data/partitions.go], [node/data/data.go]
      and the handlers of [node/grpc_server.go] that use it

    The node keeps its partitions in a map.  A write spreads the blocks over the
    partitions that are not full, round robin, by putting them in their sinks;
    the answer tells the registry in which partition each block went.  A [nil]
    partition in the map (what a failed creation leaves there) is [None]. *)

From S2P Require Import Prelude Bytes Uuid Messages RandFile IdxFile Partition.

Abbreviation parts_map := (gmap string (option Partition)).

Record PartitionsMap := mkPartitionsMap {
  parts : parts_map;
  falloc_index : nat;         (* [fileutil.fallocFlagsIndex], a global variable *)
}.

Definition defaultMinPartitionsCount : nat := 1.

(** what the process finds in the directory: [fi.Name()], [fi.IsDir()] and the bytes *)
Record dirent := mkDirent { de_name : string; de_dir : bool; de_file : file }.

Section manager.
Context (part_io idx_io : io_op → bool).
Context (order : list (Z * IdxBlock) → list (Z * IdxBlock)).
(** the iteration order of the map of partitions *)
Context (porder : list string → list string).
Context (fallocate : nat → Fileutil.falloc_res).

Definition part_keys (s : PartitionsMap) : list string := porder ((map_to_list (parts s)).*1).

(** [createPartition] with the random bytes of the identifier.  When the index
    file cannot be created the map gets a nil partition. *)
Definition createPartition (random : option (list Z)) (s : PartitionsMap)
    : string * option data_error * PartitionsMap :=
  let id := Uuid.String (fst (Uuid.NewV4 random)) in
  if part_io IoOpen then (""%string, Some ErrIO, s)
  else match Fileutil.Preallocate fallocate (falloc_index s) empty_file defaultPartitionSize true with
  | (Ok f, i) =>
      if part_io IoSync then (""%string, Some ErrIO, mkPartitionsMap (parts s) i)
      else match newPartition idx_io fallocate i id f None with
           | (Ok p, i') => (id, None, mkPartitionsMap (<[id := Some p]> (parts s)) i')
           | (Err e, i') => (id, Some e, mkPartitionsMap (<[id := None]> (parts s)) i')
           | (Panic, i') => (id, Some ErrIO, mkPartitionsMap (<[id := None]> (parts s)) i')
           end
  | (_, i) => (""%string, Some ErrIO, mkPartitionsMap (parts s) i)
  end.

(** [GetNotFullPartitions]: the partitions are named by their keys; a nil
    partition is dereferenced by [IsAvailable] *)
Fixpoint filter_available (blocks : Z) (keys : list string) (m : parts_map) : result data_error (list string) :=
  match keys with
  | [] => Ok []
  | k :: keys' =>
      match m !! k with
      | Some (Some p) =>
          l ← filter_available blocks keys' m; mret (if IsAvailable blocks p then k :: l else l)
      | _ => Panic
      end
  end.

Definition GetNotFullPartitions (s : PartitionsMap) : result data_error (list string) :=
  filter_available 1 (part_keys s) (parts s).
Definition GetAvailablePartitions (blocks : Z) (s : PartitionsMap) : result data_error (list string) :=
  filter_available blocks (part_keys s) (parts s).

(** [parts := make([]string, len(p.parts))] then [append]: as many empty
    strings as partitions come first *)
Definition GetPartitionIDs (s : PartitionsMap) : list string :=
  replicate (length (part_keys s)) ""%string ++ part_keys s.

Definition getPartsCount (s : PartitionsMap) : Z := Z.of_nat (size (parts s)).

Definition getPartition (id : string) (s : PartitionsMap) : result data_error (option Partition) :=
  match parts s !! id with Some p => Ok p | None => Err ErrNotFound end.

(** one tick of [watchCreatePartitions] *)
Fixpoint count_roomy (keys : list string) (m : parts_map) : option Z :=
  match keys with
  | [] => Some 0
  | k :: keys' =>
      match m !! k with
      | Some (Some p) =>
          n ← count_roomy keys' m;
          Some (if negb (full p) && (150 <=? getAvailableBlocks p) then n + 1 else n)
      | _ => None
      end
  end.

Definition watch_tick (random : option (list Z)) (s : PartitionsMap) : result data_error unit * PartitionsMap :=
  match count_roomy (part_keys s) (parts s) with
  | None => (Panic, s)
  | Some n => if n <? 1 then let '(_, _, s') := createPartition random s in (Ok tt, s') else (Ok tt, s)
  end.

(** [getRandomPartition]; [pick] is [rand.Intn] *)
Fixpoint roomy_keys (keys : list string) (m : parts_map) : option (list string) :=
  match keys with
  | [] => Some []
  | k :: keys' =>
      match m !! k with
      | Some (Some p) =>
          l ← roomy_keys keys' m;
          Some (if negb (full p) && negb (Z.of_nat (size (blocksMap p)) =? partitionBlocksCount) then k :: l else l)
      | _ => None
      end
  end.

Definition getRandomPartition (pick : nat → nat) (random : option (list Z)) (s : PartitionsMap)
    : result data_error (option Partition) * PartitionsMap :=
  match roomy_keys (part_keys s) (parts s) with
  | None => (Panic, s)
  | Some [] =>
      match createPartition random s with
      | (_, Some e, s') => (Err e, s')
      | (id, None, s') => (Ok (default None (parts s' !! id)), s')
      end
  | Some l =>
      match l !! pick (length l) with
      | Some id => (Ok (default None (parts s !! id)), s)
      | None => (Panic, s)
      end
  end.

(** the first loop of [loadPartitions] over the directory entries, with the
    index file found for each name *)
Fixpoint load_dir (fis : list dirent) (idx_of : string → option file) (s : PartitionsMap)
    : option (result data_error unit * PartitionsMap) :=
  match fis with
  | [] => Some (Ok tt, s)
  | fi :: fis' =>
      if de_dir fi || negb (bool_decide (String.length (de_name fi) = 36%nat)) then load_dir fis' idx_of s
      else if part_io IoOpen then Some (Err ErrIO, s)
      else match newPartition idx_io fallocate (falloc_index s) (de_name fi) (de_file fi) (idx_of (de_name fi)) with
           | (Ok p, i) =>
               match loadHeader part_io idx_io p with
               | None => None
               | Some (Ok p') =>
                   load_dir fis' idx_of (mkPartitionsMap (<[de_name fi := Some p']> (parts s)) i)
               | Some _ => load_dir fis' idx_of (mkPartitionsMap (parts s) i)
               end
           | (_, i) => load_dir fis' idx_of (mkPartitionsMap (parts s) i)
           end
  end.

(** the second loop: one round per attempt to create a partition *)
Fixpoint create_min (randoms : list (option (list Z))) (s : PartitionsMap) : PartitionsMap :=
  match randoms with
  | [] => s
  | random :: randoms' =>
      if bool_decide (defaultMinPartitionsCount ≤ size (parts s))%nat then s
      else if part_io IoOpen then create_min randoms' s
      else
        let id := Uuid.String (fst (Uuid.NewV4 random)) in
        let '(r, i) := Fileutil.Preallocate fallocate (falloc_index s) empty_file defaultPartitionSize true in
        let f := match r with Ok f => f | _ => empty_file end in
        match newPartition idx_io fallocate i id f None with
        | (Ok p, i') => create_min randoms' (mkPartitionsMap (<[id := Some p]> (parts s)) i')
        | (_, i') => create_min randoms' (mkPartitionsMap (parts s) i')
        end
  end.

Definition loadPartitions (fis : list dirent) (idx_of : string → option file)
    (randoms : list (option (list Z))) (s : PartitionsMap) : option (result data_error unit * PartitionsMap) :=
  match load_dir fis idx_of s with
  | Some (Ok _, s') =>
      Some (Ok tt, if bool_decide (size (parts s') = O) then create_min randoms s' else s')
  | r => r
  end.

(** [PartitionsMap.Shutdown] closes every partition and ignores the errors *)
Fixpoint close_all (keys : list string) (m : parts_map) : result data_error parts_map :=
  match keys with
  | [] => Ok m
  | k :: keys' =>
      match m !! k with
      | Some (Some p) => close_all keys' (<[k := Some (Close part_io p).2]> m)
      | _ => Panic
      end
  end.

(** ** [Manager] *)

Record Manager := mkManager { m_parts : PartitionsMap; m_shutdown : bool }.

Definition with_parts (m : Manager) (s : PartitionsMap) : Manager := mkManager s (m_shutdown m).

Fixpoint sum_used (keys : list string) (m : parts_map) : option Z :=
  match keys with
  | [] => Some 0
  | k :: keys' =>
      match m !! k with
      | Some (Some p) => n ← sum_used keys' m; Some (GetUsedBlocks p + n)
      | _ => None
      end
  end.

Definition GetBlocksCount (m : Manager) : result data_error Z :=
  if m_shutdown m then Ok 0
  else of_option (sum_used (part_keys (m_parts m)) (parts (m_parts m))) Panic.

(** [usage] is what the profiler reports as free bytes; [None] when it has none *)
Definition GetFreeBlocksCount (usage : option Z) (m : Manager) : result data_error Z :=
  if m_shutdown m then Ok 0
  else free ← of_option usage Panic;
       used ← of_option (sum_used (part_keys (m_parts m)) (parts (m_parts m))) Panic;
       mret (i64 (u64 (free / defaultBlockSize
                       + getPartsCount (m_parts m) * defaultPartitionSize / defaultBlockSize - used))).

Definition GetPartitionsCount (m : Manager) : Z := if m_shutdown m then 0 else getPartsCount (m_parts m).

(** [part.sink.put(block)] for the partition of key [k] *)
Definition put_in (k : string) (block : FsBlock) (s : PartitionsMap) : result data_error (string) * PartitionsMap :=
  match parts s !! k with
  | Some (Some p) =>
      match sink_put block p with
      | (None, p') => (Ok (part_ID p), mkPartitionsMap (<[k := Some p']> (parts s)) (falloc_index s))
      | (Some e, p') => (Err e, mkPartitionsMap (<[k := Some p']> (parts s)) (falloc_index s))
      end
  | _ => (Panic, s)
  end.

(** the loop over the blocks: a block whose sink is full is left out of the
    placement *)
Fixpoint put_blocks (i : nat) (blocks : list FsBlock) (keys : list string) (s : PartitionsMap)
    : result data_error (list BlockPlacementInfo) * PartitionsMap :=
  match blocks with
  | [] => (Ok [], s)
  | block :: blocks' =>
      match keys !! (i mod length keys)%nat with
      | None => (Panic, s)
      | Some k =>
          match put_in k block s with
          | (Panic, s') => (Panic, s')
          | (Err _, s') => put_blocks (S i) blocks' keys s'
          | (Ok id, s') =>
              match put_blocks (S i) blocks' keys s' with
              | (Ok l, s'') => (Ok (mkBPI (Fs_Id block) id true "" :: l), s'')
              | r => r
              end
          end
      end
  end.

Definition Manager_WriteBlocks (random : option (list Z)) (blocks : list FsBlock) (m : Manager)
    : result data_error (list BlockPlacementInfo) * Manager :=
  if m_shutdown m then (Err ErrShutdown, m)
  else match GetNotFullPartitions (m_parts m) with
  | Ok [] =>
      match createPartition random (m_parts m) with
      | (_, Some e, s) => (Err e, with_parts m s)
      | (id, None, s) =>
          let '(r, s') := put_blocks 0 blocks [id] s in (r, with_parts m s')
      end
  | Ok keys => let '(r, s') := put_blocks 0 blocks keys (m_parts m) in (r, with_parts m s')
  | Err e => (Err e, m)
  | Panic => (Panic, m)
  end.

Fixpoint Manager_RemoveBlocks_loop (blocks : list BlockPlacementInfo) (s : PartitionsMap)
    : result data_error unit * PartitionsMap :=
  match blocks with
  | [] => (Ok tt, s)
  | block :: blocks' =>
      match getPartition (BPI_PartitionID block) s with
      | Ok (Some p) =>
          match RemoveBlocks idx_io [block] p with
          | (None, p') =>
              Manager_RemoveBlocks_loop blocks'
                (mkPartitionsMap (<[BPI_PartitionID block := Some p']> (parts s)) (falloc_index s))
          | (Some e, p') =>
              (Err e, mkPartitionsMap (<[BPI_PartitionID block := Some p']> (parts s)) (falloc_index s))
          end
      | Ok None => (Panic, s)
      | Err e => (Err e, s)
      | Panic => (Panic, s)
      end
  end.

Definition Manager_RemoveBlocks (blocks : list BlockPlacementInfo) (m : Manager)
    : result data_error unit * Manager :=
  if m_shutdown m then (Err ErrShutdown, m)
  else let '(r, s) := Manager_RemoveBlocks_loop blocks (m_parts m) in (r, with_parts m s).

(** the block is nil when the partition could not read it *)
Definition ReadBlock (block : BlockPlacementInfo) (m : Manager) : result data_error (option FsBlock) :=
  if m_shutdown m then Err ErrShutdown
  else p ← getPartition (BPI_PartitionID block) (m_parts m);
       p ← of_option p Panic;
       bs ← ReadBlocks part_io [block] p;
       mret (bs !! BPI_BlockID block).

Definition Shutdown (m : Manager) : result data_error unit * Manager :=
  if m_shutdown m then (Ok tt, m)
  else match close_all (part_keys (m_parts m)) (parts (m_parts m)) with
       | Ok ps => (Ok tt, mkManager (mkPartitionsMap ps (falloc_index (m_parts m))) true)
       | Err e => (Err e, mkManager (m_parts m) true)
       | Panic => (Panic, mkManager (m_parts m) true)
       end.

(** every sink flushes once *)
Definition flush_all (border : list (string * list Z) → list (string * list Z)) (m : Manager) : Manager :=
  with_parts m (mkPartitionsMap
    ((λ o, match o with Some p => Some (sink_tick part_io idx_io order border p).2 | None => None end)
       <$> parts (m_parts m)) (falloc_index (m_parts m))).

(** ** [GrpcServer] *)

(** the results of [srv.Recv] up to [io.EOF]: a failed receive is skipped *)
Definition received (reqs : list (option FsBlock)) : list FsBlock := omap id reqs.

Definition AssignBlocks (random : option (list Z)) (reqs : list (option FsBlock)) (m : Manager)
    : result data_error (list BlockPlacementInfo) * Manager :=
  Manager_WriteBlocks random (received reqs) m.

(** the blocks sent on the stream before the first error *)
Fixpoint GetBlocks (blocks : list BlockPlacementInfo) (m : Manager)
    : list (option FsBlock) * option (result data_error unit) :=
  match blocks with
  | [] => ([], None)
  | b :: blocks' =>
      match ReadBlock b m with
      | Ok data => let '(l, e) := GetBlocks blocks' m in (data :: l, e)
      | Err e => ([], Some (Err e))
      | Panic => ([], Some Panic)
      end
  end.

Definition Server_RemoveBlocks (blocks : list BlockPlacementInfo) (m : Manager) : result data_error bool * Manager :=
  match Manager_RemoveBlocks blocks m with
  | (Ok _, m') => (Ok true, m')
  | (Err _, m') => (Ok false, m')
  | (Panic, m') => (Panic, m')
  end.
End manager.

(** ** From a write to a read *)

(** a running node: open partitions stored under their own identifiers, nothing
    waiting in the sinks *)
Record node_inv (m : Manager) : Prop := {
  ni_open : m_shutdown m = false;
  ni_parts : ∀ k o, parts (m_parts m) !! k = Some o →
    ∃ p, o = Some p ∧ part_inv p ∧ part_ID p = k ∧ sink p = [];
}.

(** blocks a client may send: distinct, well named, no larger than a slot, new to
    the node, and few enough for one sink and for each partition they may reach *)
Record acceptable (m : Manager) (blocks : list FsBlock) : Prop := {
  ac_ids : NoDup (Fs_Id <$> blocks);
  ac_each : ∀ b, b ∈ blocks → wf_id (Fs_Id b) ∧ lenZ (Fs_Data b) ≤ defaultBlockSize;
  ac_new : ∀ b k p, b ∈ blocks → parts (m_parts m) !! k = Some (Some p) → view p !! Fs_Id b = None;
  ac_room : ∀ k p, parts (m_parts m) !! k = Some (Some p) → IsAvailable 1 p = true →
    lenZ blocks ≤ getAvailableBlocks p;
  ac_slots : lenZ blocks ≤ partitionBlocksCount;
}.

Section put_facts.
Context (keys : list string).

(** the blocks that the round robin sends to partition [k] *)
Fixpoint assigned (i : nat) (blocks : list FsBlock) (k : string) : list FsBlock :=
  match blocks with
  | [] => []
  | b :: blocks' =>
      if bool_decide (keys !! (i mod length keys)%nat = Some k)
      then b :: assigned (S i) blocks' k else assigned (S i) blocks' k
  end.

Lemma assigned_sublist i blocks k : assigned i blocks k `sublist_of` blocks.
Proof using.
  revert i. induction blocks as [|b blocks IH]; intros i; cbn [assigned]; [done|].
  case_bool_decide; by constructor.
Qed.

Lemma assigned_none i blocks k : k ∉ keys → assigned i blocks k = [].
Proof using.
  intros Hk. revert i. induction blocks as [|b blocks IH]; intros i; [done|]. cbn [assigned].
  rewrite bool_decide_false; [apply IH|]. intros E. apply Hk. by eapply list_elem_of_lookup_2.
Qed.

Definition fill (i : nat) (blocks : list FsBlock) (k : string) (o : option Partition) : option Partition :=
  (λ p, with_sink (sink p ++ assigned i blocks k) p) <$> o.

Lemma with_sink_with_sink s s' p : with_sink s (with_sink s' p) = with_sink s p.
Proof using. done. Qed.
Lemma with_sink_id p : with_sink (sink p) p = p.
Proof using. by destruct p. Qed.

Lemma put_in_ok k b s p :
  parts s !! k = Some (Some p) → (length (sink p) < sink_cap)%nat →
  put_in k b s = (Ok (part_ID p),
    mkPartitionsMap (<[k := Some (with_sink (sink p ++ [b]) p)]> (parts s)) (falloc_index s)).
Proof using. intros Hk Hl. unfold put_in, sink_put. by rewrite Hk, bool_decide_true. Qed.

Lemma put_blocks_ok i blocks s :
  keys ≠ [] →
  (∀ k, k ∈ keys → ∃ p, parts s !! k = Some (Some p) ∧ part_ID p = k ∧
    (length (sink p) + length blocks ≤ sink_cap)%nat) →
  ∃ pl s', put_blocks i blocks keys s = (Ok pl, s') ∧ length pl = length blocks ∧
    (∀ j b, blocks !! j = Some b → ∃ k, k ∈ keys ∧ pl !! j = Some (mkBPI (Fs_Id b) k true "") ∧
      b ∈ assigned i blocks k) ∧
    (∀ k, parts s' !! k = fill i blocks k <$> (parts s !! k)).
Proof using.
  intros Hne. revert i s. induction blocks as [|b blocks IH]; intros i s Hk; cbn [put_blocks].
  { exists [], s. split_and!; [done..|]. intros k.
    destruct (parts s !! k) as [[p|]|]; [|done..]. unfold fill. cbn.
    by rewrite app_nil_r, with_sink_id. }
  assert (i mod length keys < length keys)%nat as Hi by (apply Nat.mod_upper_bound; by destruct keys).
  destruct (lookup_lt_is_Some_2 keys _ Hi) as [k Ek]. rewrite Ek.
  pose proof (list_elem_of_lookup_2 _ _ _ Ek) as Hkin. destruct (Hk k Hkin) as (p & Ep & Hid & Hl).
  cbn [length] in Hl. rewrite (put_in_ok k b s p Ep) by lia.
  set (p1 := with_sink (sink p ++ [b]) p).
  destruct (IH (S i) (mkPartitionsMap (<[k:=Some p1]> (parts s)) (falloc_index s)))
    as (pl & s' & E & Hlen & Hpl & Hs'); cbn [parts] in *.
  { intros k' Hk'. rewrite lookup_insert. case_decide as Hkk.
    - exists p1. subst k'. split_and!; [done|done|]. unfold p1. cbn. rewrite length_app. cbn. lia.
    - destruct (Hk k' Hk') as (p' & ? & ? & ?). exists p'. split_and!; [done|done|]. cbn [length] in *. lia. }
  rewrite E. eexists _, s'. split; [done|]. split_and!; [cbn; by rewrite Hlen|..].
  - intros [|j] b' Hb'; cbn in Hb'.
    + injection Hb' as <-. exists k. split_and!; [done|by rewrite Hid|]. cbn [assigned].
      rewrite bool_decide_true by done. by constructor.
    + destruct (Hpl j b' Hb') as (k' & ? & ? & Hin). exists k'. split_and!; [done..|]. cbn [assigned].
      case_bool_decide; [by constructor|done].
  - intros k'. rewrite Hs', lookup_insert. cbn [assigned]. unfold fill. cbn [assigned]. case_decide as Hkk.
    + subst k'. rewrite Ep. cbn. rewrite bool_decide_true by done. cbn. by rewrite <- app_assoc.
    + rewrite (bool_decide_false (keys !! _ = Some k')) by congruence. done.
Qed.
End put_facts.

Section waiting_facts.
Definition pairs (l : list FsBlock) : list (string * list Z) := (λ b, (Fs_Id b, Fs_Data b)) <$> l.

Lemma pairs_fst l : (pairs l).*1 = Fs_Id <$> l.
Proof. unfold pairs. by rewrite <- list_fmap_compose. Qed.

Lemma waiting_list p : NoDup (Fs_Id <$> sink p) → waiting p = list_to_map (pairs (sink p)).
Proof.
  unfold waiting, drain_sink. cbn [fst]. intros Hnd.
  assert (∀ l (acc : gmap string (list Z)), NoDup (Fs_Id <$> l) →
    foldl (λ m b, <[Fs_Id b:=Fs_Data b]> m) acc l = list_to_map (pairs l) ∪ acc) as Hgen.
  { induction l as [|b l IH]; intros acc Hl; cbn.
    - by rewrite (left_id_L ∅ (∪)).
    - cbn in Hl. apply NoDup_cons in Hl as [Hni Hl]. rewrite IH by done.
      rewrite <- insert_union_l, insert_union_r; [done|].
      apply not_elem_of_list_to_map. fold (pairs l). by rewrite pairs_fst. }
  by rewrite Hgen, (right_id_L ∅ (∪)).
Qed.

Lemma sublist_pairs_writable p blocks l :
  NoDup (Fs_Id <$> blocks) → l `sublist_of` blocks →
  (∀ b, b ∈ blocks → wf_id (Fs_Id b) ∧ lenZ (Fs_Data b) ≤ defaultBlockSize ∧ view p !! Fs_Id b = None) →
  lenZ blocks ≤ getAvailableBlocks p → sink p = [] →
  writable (with_sink l p) (map_to_list (waiting (with_sink l p))) ∧
  (∀ b, b ∈ l → waiting (with_sink l p) !! Fs_Id b = Some (Fs_Data b)).
Proof.
  intros Hnd Hsub Hb Hroom Hs.
  assert (NoDup (Fs_Id <$> l)) as Hndl.
  { eapply sublist_NoDup; [exact Hnd|]. by apply fmap_sublist. }
  assert (NoDup (pairs l).*1) as Hndp by by rewrite pairs_fst.
  rewrite waiting_list by done. cbn [with_sink sink].
  assert (∀ b, b ∈ l → b ∈ blocks) as Hin by (intros b Hbl; by eapply elem_of_sublist).
  split.
  - apply (part_inv_writable_perm _ (pairs l)); [by apply map_to_list_to_map|].
    split; [done| |].
    + intros id data (b & [= -> ->] & Hbl)%list_elem_of_fmap.
      destruct (Hb b (Hin b Hbl)) as (? & ? & ?%view_None). done.
    + unfold pairs. rewrite length_fmap. pose proof (sublist_length _ _ Hsub).
      change (getAvailableBlocks (with_sink l p)) with (getAvailableBlocks p). lia.
  - intros b Hbl. apply elem_of_list_to_map; [done|]. apply list_elem_of_fmap. by exists b.
Qed.
End waiting_facts.

Section manager_facts.
Context (order : list (Z * IdxBlock) → list (Z * IdxBlock)) (Horder : ∀ l, order l ≡ₚ l).
Context (porder : list string → list string) (Hporder : ∀ l, porder l ≡ₚ l).
Context (border : list (string * list Z) → list (string * list Z)) (Hborder : ∀ l, border l ≡ₚ l).
Context (fallocate : nat → Fileutil.falloc_res) (Hno : ∀ i, fallocate i ≠ Fileutil.FallocErr).

Lemma elem_of_part_keys s k : k ∈ part_keys porder s ↔ is_Some (parts s !! k).
Proof using Hporder.
  unfold part_keys. rewrite Hporder, list_elem_of_fmap. split.
  - intros ([k' o] & -> & H%elem_of_map_to_list). cbn. eauto.
  - intros [o H]. exists (k, o). split; [done|]. by apply elem_of_map_to_list.
Qed.

Lemma filter_available_ok blocks keys m :
  (∀ k, k ∈ keys → ∃ p, m !! k = Some (Some p)) →
  ∃ l, filter_available blocks keys m = Ok l ∧
    ∀ k, k ∈ l ↔ k ∈ keys ∧ ∃ p, m !! k = Some (Some p) ∧ IsAvailable blocks p = true.
Proof using.
  induction keys as [|k keys IH]; intros H; cbn [filter_available].
  { exists []. split; [done|]. intros k. rewrite elem_of_nil. intuition. }
  destruct (H k) as [p Ep]; [by constructor|]. rewrite Ep.
  destruct IH as (l & -> & Hl); [intros k' Hk'; apply H; by constructor|].
  eexists. split; [done|]. intros k'. destruct (IsAvailable blocks p) eqn:Ea.
  - rewrite !elem_of_cons, Hl. split.
    + intros [->|[? ?]]; [split; [by left|by exists p]|split; [by right|done]].
    + intros [[->|?] ?]; [by left|by right].
  - rewrite Hl, elem_of_cons. split.
    + intros [? ?]. split; [by right|done].
    + intros [[->|?] (p' & E & E')]; [congruence|]. split; [done|]. by exists p'.
Qed.

Lemma createPartition_ok random s :
  let id := Uuid.String (fst (Uuid.NewV4 random)) in
  ∃ p i, createPartition no_faults no_faults fallocate random s
           = (id, None, mkPartitionsMap (<[id := Some p]> (parts s)) i) ∧
    part_inv p ∧ view p = ∅ ∧ sink p = [] ∧ part_ID p = id.
Proof using Hno.
  intros id. unfold createPartition, no_faults, Fileutil.Preallocate, Fileutil.preallocExtend. fold id. simpl.
  destruct (preallocFixed_ok fallocate (falloc_index s) Hno) as [i ->].
  fold no_faults. destruct (newPartition_inv fallocate i Hno id
    (Fileutil.preallocExtendTrunc empty_file defaultPartitionSize)) as (p & i' & -> & ?); [done|].
  by exists p, i'.
Qed.

(** the partition a block was sent to returns it after the next flush *)
Lemma flush_read m s keys blocks k p b :
  m_shutdown m = false → keys ≠ [] →
  (∀ k, parts s !! k = fill keys 0 blocks k <$> parts (m_parts m) !! k) →
  parts (m_parts m) !! k = Some (Some p) → part_inv p → sink p = [] →
  NoDup (Fs_Id <$> blocks) → lenZ blocks ≤ getAvailableBlocks p →
  (∀ b, b ∈ blocks → wf_id (Fs_Id b) ∧ lenZ (Fs_Data b) ≤ defaultBlockSize ∧ view p !! Fs_Id b = None) →
  b ∈ assigned keys 0 blocks k →
  ReadBlock no_faults (mkBPI (Fs_Id b) k true "")
    (flush_all no_faults no_faults order border (with_parts m s)) =
  Ok (Some (mkFsBlock (Fs_Id b) 0 "" 0 (lenZ (Fs_Data b)) (Fs_Data b) [])).
Proof using Horder Hborder.
  intros Hsh Hne Hs Hk Hp Hsk Hnd Hroom Hb Hin.
  destruct (sublist_pairs_writable p blocks (assigned keys 0 blocks k) Hnd (assigned_sublist keys 0 blocks k)
    Hb Hroom Hsk) as [Hw Hwait].
  set (p1 := with_sink (assigned keys 0 blocks k) p) in *.
  assert (part_inv p1) as Hp1 by (split; apply Hp).
  destruct (sink_tick_ok order Horder border Hborder p1 Hp1 Hw) as (p2 & E & Hp2 & _ & Hv & _).
  unfold ReadBlock, flush_all, getPartition. cbn [with_parts m_shutdown m_parts parts BPI_PartitionID].
  rewrite Hsh, lookup_fmap, Hs, Hk. unfold fill. cbn -[sink_tick ReadBlocks].
  rewrite Hsk. cbn [app].
  fold p1. rewrite E. cbn -[ReadBlocks].
  destruct (ReadBlocks_ok p2 [mkBPI (Fs_Id b) k true ""] (Fs_Id b) Hp2) as (r & -> & Hr).
  cbn -[lookup]. rewrite Hr, bool_decide_true by by constructor. do 2 f_equal. unfold read_answer.
  rewrite Hv, (lookup_union_Some_l _ _ _ _ (Hwait b Hin)). done.
Qed.

Lemma running_parts m blocks k o : node_inv m → acceptable m blocks → parts (m_parts m) !! k = Some o →
  ∃ p, o = Some p ∧ part_inv p ∧ part_ID p = k ∧ sink p = [] ∧ (∀ b, b ∈ blocks → view p !! Fs_Id b = None).
Proof using.
  intros H Ha Ho. destruct (ni_parts _ H _ _ Ho) as (p & -> & Hp & Hid & Hs). exists p. split_and!; [done..|].
  intros b Hb. by eapply (ac_new _ _ Ha).
Qed.

(** the keys a write uses, and the state it starts from *)
Lemma write_blocks_keys random blocks m :
  node_inv m → acceptable m blocks →
  ∃ m1 keys, m_shutdown m1 = false ∧ keys ≠ [] ∧
    Manager_WriteBlocks no_faults no_faults porder fallocate random blocks m =
      (let '(r, s) := put_blocks 0 blocks keys (m_parts m1) in (r, with_parts m1 s)) ∧
    (∀ k, k ∈ keys → ∃ p, parts (m_parts m1) !! k = Some (Some p) ∧ part_ID p = k ∧ part_inv p ∧
      sink p = [] ∧ lenZ blocks ≤ getAvailableBlocks p ∧
      (∀ b, b ∈ blocks → view p !! Fs_Id b = None)) ∧
    (∀ k o, parts (m_parts m1) !! k = Some o → ∃ p, o = Some p ∧ part_inv p ∧ part_ID p = k ∧ sink p = [] ∧
      (∀ b, b ∈ blocks → view p !! Fs_Id b = None)) ∧
    (parts (m_parts m) !! Uuid.String (Uuid.NewV4 random).1 = None →
      ∀ k o, parts (m_parts m) !! k = Some o → parts (m_parts m1) !! k = Some o).
Proof using Hporder Hno.
  intros H Ha. unfold Manager_WriteBlocks. rewrite (ni_open _ H). unfold GetNotFullPartitions.
  destruct (filter_available_ok 1 (part_keys porder (m_parts m)) (parts (m_parts m))) as (l & -> & Hl).
  { intros k [o Ho]%elem_of_part_keys. destruct (ni_parts _ H _ _ Ho) as (p & -> & _). eauto. }
  destruct l as [|k0 l].
  - destruct (createPartition_ok random (m_parts m)) as (p & i & -> & Hp & Hv & Hs & Hid).
    set (id := Uuid.String (fst (Uuid.NewV4 random))) in *.
    exists (with_parts m (mkPartitionsMap (<[id:=Some p]> (parts (m_parts m))) i)), [id].
    split; [apply H|split; [done|split; [done|]]]. cbn [with_parts m_parts parts]. split.
    + intros k ->%list_elem_of_singleton. exists p. rewrite lookup_insert_eq. split_and!; [done..| |].
      * pose proof (ac_slots _ _ Ha). unfold getAvailableBlocks. rewrite <- size_view, Hv, map_size_empty. lia.
      * intros b _. rewrite Hv. apply lookup_empty.
    + split.
      * intros k o Ho. destruct (decide (k = id)) as [->|Hne].
        -- rewrite lookup_insert_eq in Ho. injection Ho as <-. exists p. split_and!; [done..|]. intros b _. rewrite Hv. apply lookup_empty.
        -- rewrite lookup_insert_ne in Ho by done. by apply (running_parts m blocks k o).
      * intros Hfree k o Ho. rewrite lookup_insert_ne; [done|]. intros <-. by rewrite Hfree in Ho.
  - exists m, (k0 :: l). split; [apply H|split; [done|split; [done|]]]. split.
    + intros k Hk. apply Hl in Hk as (_ & p & Ep & Hav).
      destruct (ni_parts _ H _ _ Ep) as (p' & [= <-] & Hp & Hid & Hs).
      exists p. split_and!; try done; [by eapply (ac_room _ _ Ha)|].
      intros b Hb. by eapply (ac_new _ _ Ha).
    + split; [|done]. intros k o Ho. by apply (running_parts m blocks k o).
Qed.

(** what a read of a partition gives *)
Lemma ReadBlock_at m k p id ok err : m_shutdown m = false → parts (m_parts m) !! k = Some (Some p) → part_inv p →
  ReadBlock no_faults (mkBPI id k ok err) m = Ok (Some (read_answer p id)).
Proof using.
  intros Hsh Hk Hp. unfold ReadBlock, getPartition. cbn [BPI_PartitionID]. rewrite Hsh, Hk. cbn -[ReadBlocks].
  destruct (ReadBlocks_ok p [mkBPI id k ok err] id Hp) as (r & -> & Hr).
  cbn -[lookup]. by rewrite Hr, bool_decide_true by by constructor.
Qed.

(** a flush of a node whose sinks hold acceptable blocks *)
Lemma flush_parts m s keys blocks : m_shutdown m = false → NoDup (Fs_Id <$> blocks) →
  (∀ b, b ∈ blocks → wf_id (Fs_Id b) ∧ lenZ (Fs_Data b) ≤ defaultBlockSize) →
  (∀ k, k ∈ keys → ∃ p, parts (m_parts m) !! k = Some (Some p) ∧ lenZ blocks ≤ getAvailableBlocks p) →
  (∀ k o, parts (m_parts m) !! k = Some o → ∃ p, o = Some p ∧ part_inv p ∧ part_ID p = k ∧ sink p = [] ∧
    (∀ b, b ∈ blocks → view p !! Fs_Id b = None)) →
  (∀ k, parts s !! k = fill keys 0 blocks k <$> parts (m_parts m) !! k) →
  ∀ k o, parts (m_parts (flush_all no_faults no_faults order border (with_parts m s))) !! k = Some o →
    ∃ p p', parts (m_parts m) !! k = Some (Some p) ∧ o = Some p' ∧ part_inv p' ∧ part_ID p' = k ∧ sink p' = [] ∧
      ∀ id, id ∉ Fs_Id <$> blocks → view p' !! id = view p !! id.
Proof using Horder Hborder.
  intros Hsh Hnd Hb Hkeys Hparts Hs k o Ho. cbn [flush_all with_parts m_parts parts] in Ho. rewrite lookup_fmap, Hs in Ho.
  destruct (parts (m_parts m) !! k) as [q|] eqn:Ek; [|done]. destruct (Hparts k q Ek) as (p & -> & Hp & Hid & Hsk & Hnew).
  cbn -[sink_tick] in Ho. rewrite Hsk in Ho. cbn [app] in Ho. set (l := assigned keys 0 blocks k) in *. injection Ho as <-.
  assert (NoDup (Fs_Id <$> l)) as Hndl by (eapply sublist_NoDup; [exact Hnd|]; apply fmap_sublist, assigned_sublist).
  assert (∀ id, id ∉ Fs_Id <$> blocks → waiting (with_sink l p) !! id = None) as Hout.
  { intros id Hid'. rewrite waiting_list by exact Hndl. apply not_elem_of_list_to_map. rewrite pairs_fst. cbn [with_sink sink].
    intros Hin. apply Hid'. eapply elem_of_sublist; [exact Hin|]. apply fmap_sublist, assigned_sublist. }
  assert (writable (with_sink l p) (map_to_list (waiting (with_sink l p)))) as Hw.
  { destruct (decide (k ∈ keys)) as [Hk|Hk].
    - destruct (Hkeys k Hk) as (p' & Ep' & Hroom). assert (p' = p) as -> by congruence.
      apply (sublist_pairs_writable p blocks); [done|apply assigned_sublist| |done|done]. intros b Hbl. destruct (Hb b Hbl). auto.
    - unfold l. rewrite assigned_none by done. rewrite waiting_list by constructor. cbn. rewrite map_to_list_empty.
      pose proof (wf_map_size _ (pi_map _ Hp)) as Hsize. split; [constructor| |].
      + intros id data Hin. by apply elem_of_nil in Hin.
      + unfold getAvailableBlocks in *. cbn [with_sink blocksMap length]. lia. }
  assert (part_inv (with_sink l p)) as Hp1 by (split; apply Hp).
  destruct (sink_tick_ok order Horder border Hborder (with_sink l p) Hp1 Hw) as (p2 & E & Hp2 & Hs2 & Hv & Hid2).
  exists p, p2. rewrite E. split_and!; [done..|by rewrite Hid2|done|]. intros id Hin. rewrite Hv, lookup_union, (Hout id Hin).
  by rewrite (left_id_L None _).
Qed.

(** what a write and the next flush leave alone *)
Lemma write_keeps random blocks m : node_inv m → acceptable m blocks → parts (m_parts m) !! Uuid.String (Uuid.NewV4 random).1 = None →
  let m' := flush_all no_faults no_faults order border (Manager_WriteBlocks no_faults no_faults porder fallocate random blocks m).2 in
  node_inv m' ∧ ∀ id k ok err data, id ∉ Fs_Id <$> blocks →
    ReadBlock no_faults (mkBPI id k ok err) m = Ok (Some data) → ReadBlock no_faults (mkBPI id k ok err) m' = Ok (Some data).
Proof using Horder Hporder Hborder Hno.
  intros H Ha Hfree. destruct (write_blocks_keys random blocks m H Ha) as (m1 & keys & Hsh & Hne & -> & Hk & Hall & Hkept).
  destruct (put_blocks_ok keys 0 blocks (m_parts m1) Hne) as (pl & s' & E & _ & _ & Hs').
  { intros k Hin. destruct (Hk k Hin) as (p & ? & ? & Hp & Hs & Hroom & _). exists p. split_and!; [done..|].
    pose proof (wf_map_size _ (pi_map _ Hp)). unfold getAvailableBlocks in *.
    rewrite Hs. unfold sink_cap. change partitionBlocksCount with 512 in *. cbn [length]. lia. }
  rewrite E. cbn [snd].
  pose proof (flush_parts m1 s' keys blocks Hsh (ac_ids _ _ Ha) (ac_each _ _ Ha) ltac:(intros k Hin; destruct (Hk k Hin) as (p & ? & _ & _ & _ & ? & _); by exists p)
    Hall Hs') as Hparts.
  set (m' := flush_all _ _ _ _ _) in *. assert (m_shutdown m' = false) as Hsh' by exact Hsh. split.
  - split; [done|]. intros k o Ho. destruct (Hparts k o Ho) as (p & p' & _ & -> & ? & ? & ? & _). by exists p'.
  - intros id k ok err data Hid Hr. unfold ReadBlock, getPartition in Hr. rewrite (ni_open _ H) in Hr. cbn [BPI_PartitionID] in Hr.
    destruct (parts (m_parts m) !! k) as [o|] eqn:Ek; [|done]. destruct (ni_parts _ H k o Ek) as (p & -> & Hp & _).
    assert (∃ o', parts (m_parts m') !! k = Some o') as [o' Ho'].
    { cbn [m' flush_all with_parts m_parts parts]. rewrite lookup_fmap, Hs', (Hkept Hfree k _ Ek). by eexists. }
    destruct (Hparts k o' Ho') as (q & q' & Eq & -> & Hq' & _ & _ & Hv). rewrite (Hkept Hfree k _ Ek) in Eq. injection Eq as <-.
    rewrite (ReadBlock_at m' k q' id ok err Hsh' Ho' Hq'). unfold read_answer. rewrite (Hv id Hid).
    rewrite <- Hr. cbn -[ReadBlocks]. destruct (ReadBlocks_ok p [mkBPI id k ok err] id Hp) as (r & -> & Er).
    cbn -[lookup]. by rewrite Er, bool_decide_true by by constructor.
Qed.

(** what a read that gives bytes says of the partition *)
Lemma ReadBlock_view m id k ok err data : node_inv m → data ≠ [] →
  ReadBlock no_faults (mkBPI id k ok err) m = Ok (Some (mkFsBlock id 0 "" 0 (lenZ data) data [])) →
  ∃ p, parts (m_parts m) !! k = Some (Some p) ∧ part_inv p ∧ view p !! id = Some data.
Proof using.
  intros H Hd Hr. destruct (parts (m_parts m) !! k) as [o|] eqn:Ek.
  2:{ unfold ReadBlock, getPartition in Hr. cbn [BPI_PartitionID] in Hr. by rewrite (ni_open _ H), Ek in Hr. }
  destruct (ni_parts _ H k o Ek) as (p & -> & Hp & _). exists p. split_and!; [done..|].
  rewrite (ReadBlock_at m k p id ok err (ni_open _ H) Ek Hp) in Hr. unfold read_answer in Hr.
  destruct (view p !! id) as [v|]; cbn in Hr; injection Hr as _ E; [by subst v|by destruct Hd].
Qed.

(** the removal of blocks that are there *)
Lemma remove_keeps l m : node_inv m → NoDup (BPI_BlockID <$> l) →
  Forall (λ b, ∃ p, parts (m_parts m) !! BPI_PartitionID b = Some (Some p) ∧ is_Some (view p !! BPI_BlockID b)) l →
  ∃ m', Manager_RemoveBlocks no_faults l m = (Ok tt, m') ∧ node_inv m' ∧
    ∀ id k ok err data, id ∉ BPI_BlockID <$> l →
      ReadBlock no_faults (mkBPI id k ok err) m = Ok (Some data) → ReadBlock no_faults (mkBPI id k ok err) m' = Ok (Some data).
Proof using.
  intros H Hnd Hl. unfold Manager_RemoveBlocks. rewrite (ni_open _ H). revert m H Hl.
  induction l as [|b l IH]; intros m H Hl; cbn [Manager_RemoveBlocks_loop].
  { exists m. split; [by destruct m|]. by split. }
  cbn in Hnd. apply NoDup_cons in Hnd as [Hni Hnd]. apply Forall_cons in Hl as [(p & Hk & Hv) Hl].
  set (k := BPI_PartitionID b) in *. destruct (ni_parts _ H _ _ Hk) as (p0 & [= <-] & Hp & Hid & Hs).
  unfold getPartition. rewrite Hk. destruct (RemoveBlocks_ok p [b] Hp) as (p' & E & Hp' & Hview & _).
  { apply NoDup_singleton. }
  { by intros b' ->%list_elem_of_singleton. }
  assert (sink p' = [] ∧ part_ID p' = k) as [Hs' Hid'].
  { unfold RemoveBlocks in E. rewrite (pi_open _ Hp) in E. destruct (remove_loop [b] [] (blocksMap p)). by injection E as <-. }
  rewrite E. set (m1 := with_parts m (mkPartitionsMap (<[k := Some p']> (parts (m_parts m))) (falloc_index (m_parts m)))).
  assert (node_inv m1) as H1.
  { split; [apply H|]. intros k' o. cbn. destruct (decide (k' = k)) as [->|Hne].
    - rewrite lookup_insert_eq. intros [= <-]. by exists p'.
    - rewrite lookup_insert_ne by done. apply (ni_parts _ H). }
  assert (∀ id, id ≠ BPI_BlockID b → view p' !! id = view p !! id) as Hother.
  { intros id Hne. rewrite Hview. cbn. by rewrite lookup_delete_ne. }
  destruct (IH Hnd m1 H1) as (m' & E' & H' & Hkeep).
  { rewrite Forall_forall in Hl |- *. intros c Hc.
    destruct (Hl c Hc) as (q & Hq & Hvq). assert (BPI_BlockID c ≠ BPI_BlockID b) as Hne.
    { intros Heq. apply Hni. rewrite <- Heq. by apply list_elem_of_fmap_2. }
    cbn. destruct (decide (BPI_PartitionID c = k)) as [Heq|Hk'].
    - exists p'. rewrite Heq, lookup_insert_eq, (Hother _ Hne). split; [done|]. rewrite Heq, Hk in Hq. by injection Hq as ->.
    - exists q. by rewrite lookup_insert_ne. }
  exists m'. split; [|split; [exact H'|]].
  - cbn [m1 with_parts m_parts] in E'. destruct (Manager_RemoveBlocks_loop no_faults l _) as [r s']. exact E'.
  - intros id k' ok err data [Hne Hin]%not_elem_of_cons Hr. apply Hkeep; [done|].
    destruct (decide (k' = k)) as [->|Hk'].
    + rewrite (ReadBlock_at m k p id ok err (ni_open _ H) Hk Hp) in Hr.
      rewrite (ReadBlock_at m1 k p' id ok err (ni_open _ H1) (lookup_insert_eq _ _ _) Hp'). unfold read_answer in *.
      by rewrite (Hother _ Hne).
    + rewrite <- Hr. unfold ReadBlock, getPartition. cbn [BPI_PartitionID m1 with_parts m_parts m_shutdown parts].
      by rewrite lookup_insert_ne.
Qed.

(** a write, and the reads after the next flush *)
Lemma write_then_read random blocks m : node_inv m → acceptable m blocks →
  ∃ placement m',
    Manager_WriteBlocks no_faults no_faults porder fallocate random blocks m = (Ok placement, m') ∧
    length placement = length blocks ∧
    ∀ j b, blocks !! j = Some b → ∃ pl, placement !! j = Some pl ∧
      BPI_BlockID pl = Fs_Id b ∧ BPI_Success pl = true ∧
      ReadBlock no_faults pl (flush_all no_faults no_faults order border m') =
        Ok (Some (mkFsBlock (Fs_Id b) 0 "" 0 (lenZ (Fs_Data b)) (Fs_Data b) [])).
Proof using Horder Hporder Hborder Hno.
  intros H Ha.
  destruct (write_blocks_keys random blocks m H Ha) as (m1 & keys & Hsh & Hne & -> & Hk & _ & _).
  destruct (put_blocks_ok keys 0 blocks (m_parts m1) Hne) as (pl & s' & E & Hlen & Hpl & Hs').
  { intros k Hin. destruct (Hk k Hin) as (p & ? & ? & Hp & Hs & Hroom & _). exists p. split_and!; [done..|].
    pose proof (wf_map_size _ (pi_map _ Hp)). unfold getAvailableBlocks in *.
    rewrite Hs. unfold sink_cap. change partitionBlocksCount with 512 in *. cbn [length]. lia. }
  rewrite E. eexists pl, _. split_and!; [done..|]. intros j b Hb.
  destruct (Hpl j b Hb) as (k & Hin & Ej & Has). eexists. split_and!; [done..|].
  destruct (Hk k Hin) as (p & Ep & Hid & Hp & Hs & Hroom & Hnew).
  apply (flush_read m1 s' keys blocks k p b); try done; [apply Ha|].
  intros b' Hb'. destruct (ac_each _ _ Ha b' Hb'). split_and!; [done..|]. by apply Hnew.
Qed.
End manager_facts.

(** on a running node, [WriteBlocks] of acceptable blocks
    succeeds and answers with one successful placement per block, in order; once
    the sinks have flushed, reading each placement returns exactly the bytes that
    were sent.  This holds whatever partitions exist (one is created when none
    has room) and whatever order Go iterates its maps in. *)
Theorem node_write_then_read (order : list (Z * IdxBlock) → list (Z * IdxBlock))
    (porder : list string → list string) (border : list (string * list Z) → list (string * list Z))
    (fallocate : nat → Fileutil.falloc_res) (random : option (list Z)) (blocks : list FsBlock) (m : Manager) :
  (∀ l, order l ≡ₚ l) → (∀ l, porder l ≡ₚ l) → (∀ l, border l ≡ₚ l) →
  (∀ i, fallocate i ≠ Fileutil.FallocErr) →
  node_inv m → acceptable m blocks →
  ∃ placement m',
    Manager_WriteBlocks no_faults no_faults porder fallocate random blocks m = (Ok placement, m') ∧
    length placement = length blocks ∧
    ∀ j b, blocks !! j = Some b → ∃ pl, placement !! j = Some pl ∧
      BPI_BlockID pl = Fs_Id b ∧ BPI_Success pl = true ∧
      ReadBlock no_faults pl (flush_all no_faults no_faults order border m') =
        Ok (Some (mkFsBlock (Fs_Id b) 0 "" 0 (lenZ (Fs_Data b)) (Fs_Data b) [])).
Proof. intros Ho Hpo Hbo Hno H Ha. exact (write_then_read order Ho porder Hpo border Hbo fallocate Hno random blocks m H Ha). Qed.

Lemma node_write_then_read_witness :
  let m := mkManager (mkPartitionsMap {[ "p" := Some (empty_part []) ]} 0) false in
  let blocks := [mkFsBlock id_a 0 "f" 0 3 [1; 2; 3] []; mkFsBlock id_b 1 "f" 0 0 [] []] in
  ∃ placement m',
    Manager_WriteBlocks no_faults no_faults (λ l, l) (λ _, Fileutil.FallocOk) None blocks m = (Ok placement, m') ∧
    length placement = length blocks ∧
    ∀ j b, blocks !! j = Some b → ∃ pl, placement !! j = Some pl ∧
      BPI_BlockID pl = Fs_Id b ∧ BPI_Success pl = true ∧
      ReadBlock no_faults pl (flush_all no_faults no_faults no_order (λ l, l) m') =
        Ok (Some (mkFsBlock (Fs_Id b) 0 "" 0 (lenZ (Fs_Data b)) (Fs_Data b) [])).
Proof.
  intros m blocks. apply node_write_then_read; [done|done|done|done| |].
  - split; [done|]. intros k o Hko. cbn in Hko. apply lookup_singleton_Some in Hko as [<- <-].
    exists (empty_part []). split_and!; [done|apply empty_part_inv|done|done].
  - split.
    + apply (bool_decide_eq_true_1 (NoDup _)). by vm_compute.
    + apply Forall_forall. apply (bool_decide_eq_true_1 (Forall _ _)). by vm_compute.
    + intros b k p _ Hko. cbn in Hko. apply lookup_singleton_Some in Hko as [<- [= <-]].
      by apply view_None.
    + intros k p Hko _. cbn in Hko. apply lookup_singleton_Some in Hko as [<- [= <-]]. by vm_compute.
    + by vm_compute.
Defined.

(** ** Restart and failures *)

Section load_facts.
Context (fallocate : nat → Fileutil.falloc_res) (Hno : ∀ i, fallocate i ≠ Fileutil.FallocErr).
Context (idx_of : string → option file).

Definition is_part (fi : dirent) : Prop := de_dir fi = false ∧ String.length (de_name fi) = 36%nat.

(** the files of a partition whose index represents [mp] *)
Definition on_disk (fi : dirent) (mp : gmap string IdxBlock) : Prop :=
  f_size (de_file fi) = defaultPartitionSize ∧ wf_map mp ∧
  ∃ ix, idx_of (de_name fi) = Some ix ∧ idx_repr ix mp.

Lemma load_dir_ok fis s :
  NoDup (de_name <$> fis) →
  (∀ fi, fi ∈ fis → is_part fi → ∃ mp, on_disk fi mp) →
  ∃ s', load_dir no_faults no_faults fallocate fis idx_of s = Some (Ok tt, s') ∧
    (∀ fi mp, fi ∈ fis → is_part fi → on_disk fi mp → ∃ p, parts s' !! de_name fi = Some (Some p) ∧
      part_inv p ∧ part_ID p = de_name fi ∧ file_ p = de_file fi ∧
      ∃ mp', on_disk fi mp' ∧ blocksMap p = mp') ∧
    (∀ k, (∀ fi, fi ∈ fis → is_part fi → de_name fi ≠ k) → parts s' !! k = parts s !! k).
Proof using Hno.
  revert s. induction fis as [|fi fis IH]; intros s Hnd Hd; cbn [load_dir].
  { exists s. split_and!; [done|intros ? ? Hin; by inversion Hin|done]. }
  cbn in Hnd. apply NoDup_cons in Hnd as [Hni Hnd].
  assert (∀ fi', fi' ∈ fis → de_name fi' ≠ de_name fi) as Hne.
  { intros fi' Hin E. apply Hni. rewrite <- E. apply list_elem_of_fmap. by exists fi'. }
  destruct (decide (de_dir fi = false ∧ String.length (de_name fi) = 36%nat)) as [Hp|Hp].
  - destruct Hp as [Hdir Hlen] eqn:EHp. rewrite Hdir, bool_decide_true by done. cbn [orb negb].
    destruct (Hd fi ltac:(by constructor) Hp) as (mp & Hf & Hmp & ix & Hix & Hr).
    change (no_faults IoOpen) with false. cbv iota. rewrite Hix.
    destruct (open_ok fallocate (falloc_index s) (de_name fi) (de_file fi) ix mp)
      as (p0 & i & p' & -> & -> & Hpi & Hpf & Hpm & Hid); [done..|].
    destruct (IH (mkPartitionsMap (<[de_name fi:=Some p']> (parts s)) i) Hnd) as (s' & -> & Hs1 & Hs2).
    { intros fi' Hin. apply Hd. by constructor. }
    exists s'. split; [done|]. split.
    + intros fi' mp' [->|Hin]%elem_of_cons Hp' Hon.
      * exists p'. rewrite Hs2 by (intros fi' Hin _; by apply Hne). cbn. rewrite lookup_insert_eq.
        split_and!; [done..|]. exists mp. split; [|done]. split_and!; [done..|]. by exists ix.
      * by apply (Hs1 fi' mp').
    + intros k Hk. rewrite Hs2; [|intros fi' Hin; apply Hk; by constructor]. cbn.
      rewrite lookup_insert_ne; [done|]. apply Hk; [by constructor|done].
  - assert (de_dir fi || negb (bool_decide (String.length (de_name fi) = 36%nat)) = true) as ->.
    { destruct (de_dir fi); [done|]. rewrite bool_decide_false; [done|]. intros ?. by apply Hp. }
    destruct (IH s Hnd) as (s' & -> & Hs1 & Hs2); [intros fi' Hin; apply Hd; by constructor|].
    exists s'. split; [done|]. split.
    + intros fi' mp' [->|Hin]%elem_of_cons Hp' Hon; [by destruct Hp|]. by apply (Hs1 fi' mp').
    + intros k Hk. apply Hs2. intros fi' Hin. apply Hk. by constructor.
Qed.

Lemma on_disk_functional fi mp mp' : on_disk fi mp → on_disk fi mp' → mp = mp'.
Proof using.
  intros (_ & _ & ix & E & H) (_ & _ & ix' & E' & H'). rewrite E in E'. injection E' as <-.
  apply Load_repr in H, H'. congruence.
Qed.
End load_facts.

(** a node that starts on a directory reopens every partition it
    finds there (36 character file names; anything else is skipped) with exactly
    the blocks its index file describes and the bytes its data file holds, and
    puts nothing else in its map. *)
Theorem node_restart (fallocate : nat → Fileutil.falloc_res) (idx_of : string → option file)
    (fis : list dirent) (randoms : list (option (list Z))) (i : nat) :
  (∀ j, fallocate j ≠ Fileutil.FallocErr) → NoDup (de_name <$> fis) →
  (∀ fi, fi ∈ fis → is_part fi → ∃ mp, on_disk idx_of fi mp) →
  (∃ fi, fi ∈ fis ∧ is_part fi) →
  ∃ s', loadPartitions no_faults no_faults fallocate fis idx_of randoms (mkPartitionsMap ∅ i) = Some (Ok tt, s') ∧
    (∀ fi mp, fi ∈ fis → is_part fi → on_disk idx_of fi mp → ∃ p, parts s' !! de_name fi = Some (Some p) ∧
      part_inv p ∧ part_ID p = de_name fi ∧ view p = stored_in (de_file fi) <$> mp) ∧
    (∀ k, (∀ fi, fi ∈ fis → is_part fi → de_name fi ≠ k) → parts s' !! k = None).
Proof.
  intros Hno Hnd Hd (fi0 & Hin0 & Hp0).
  destruct (load_dir_ok fallocate Hno idx_of fis (mkPartitionsMap ∅ i) Hnd Hd) as (s' & E & H1 & H2).
  exists s'. unfold loadPartitions. rewrite E. split_and!.
  - destruct (Hd fi0 Hin0 Hp0) as [mp0 Hmp0]. destruct (H1 fi0 mp0 Hin0 Hp0 Hmp0) as (p & Hp & _).
    rewrite bool_decide_false; [done|]. intros Hz. apply map_size_empty_inv in Hz. by rewrite Hz, lookup_empty in Hp.
  - intros fi mp Hin Hp Hon. destruct (H1 fi mp Hin Hp Hon) as (p & ? & ? & ? & Hf & mp' & Hon' & Em).
    exists p. split_and!; [done..|]. unfold view. rewrite Hf, Em. by rewrite (on_disk_functional idx_of _ _ _ Hon Hon').
  - intros k Hk. rewrite H2 by done. apply lookup_empty.
Qed.

Lemma node_restart_witness :
  let fis := [mkDirent "lost+found" true empty_file; mkDirent id_a false (file_ one_part)] in
  let idx_of := λ k, if bool_decide (k = id_a) then Some (idxFile one_part) else None in
  ∃ s', loadPartitions no_faults no_faults (λ _, Fileutil.FallocOk) fis idx_of [] (mkPartitionsMap ∅ 0) = Some (Ok tt, s') ∧
    (∀ fi mp, fi ∈ fis → is_part fi → on_disk idx_of fi mp → ∃ p, parts s' !! de_name fi = Some (Some p) ∧
      part_inv p ∧ part_ID p = de_name fi ∧ view p = stored_in (de_file fi) <$> mp) ∧
    (∀ k, (∀ fi, fi ∈ fis → is_part fi → de_name fi ≠ k) → parts s' !! k = None).
Proof.
  apply node_restart; [done|apply (bool_decide_eq_true_1 (NoDup _)); by vm_compute| |].
  - intros fi [->|[->|Hin]%elem_of_cons]%elem_of_cons; [by intros [? ?]| |by inversion Hin].
    intros _. exists (blocksMap one_part). split; [apply one_part_inv|]. split; [apply one_part_inv|].
    exists (idxFile one_part). split; [done|apply one_part_inv].
  - exists (mkDirent id_a false (file_ one_part)). split; [by do 2 constructor|done].
Defined.

(** when the index file of a new partition cannot be opened,
    [createPartition] reports the error but leaves a nil partition in the map,
    and from then on every write to the node panics. *)
Theorem failed_creation_poisons (porder : list string → list string) (idx_io : io_op → bool)
    (fallocate : nat → Fileutil.falloc_res) (random random' : option (list Z)) (s : PartitionsMap)
    (blocks : list FsBlock) :
  (∀ l, porder l ≡ₚ l) → (∀ i, fallocate i ≠ Fileutil.FallocErr) → idx_io IoOpen = true →
  ∃ id s', createPartition no_faults idx_io fallocate random s = (id, Some ErrIO, s') ∧
    parts s' !! id = Some None ∧
    Manager_WriteBlocks no_faults idx_io porder fallocate random' blocks (mkManager s' false)
      = (Panic, mkManager s' false).
Proof.
  intros Hpo Hno Hio. unfold createPartition, no_faults, Fileutil.Preallocate, Fileutil.preallocExtend. simpl.
  destruct (preallocFixed_ok fallocate (falloc_index s) Hno) as [i ->].
  unfold newPartition, NewIdxFile. rewrite Hio. eexists _, _. split; [done|].
  cbn [parts]. rewrite lookup_insert_eq. split; [done|].
  unfold Manager_WriteBlocks, GetNotFullPartitions. cbn [m_shutdown m_parts].
  set (id := Uuid.String _). set (s1 := mkPartitionsMap _ _).
  assert (∀ keys, id ∈ keys → filter_available 1 keys (parts s1) = Panic) as Hp.
  { induction keys as [|k keys IH]; intros Hin; [by inversion Hin|]. cbn [filter_available].
    destruct (decide (k = id)) as [->|Hne].
    - unfold s1. cbn [parts]. by rewrite lookup_insert_eq.
    - apply elem_of_cons in Hin as [|Hin]; [congruence|].
      destruct (parts s1 !! k) as [[p|]|]; [by rewrite IH|done..]. }
  rewrite Hp; [done|]. apply elem_of_part_keys; [done|]. unfold s1. cbn [parts].
  by rewrite lookup_insert_eq.
Qed.

Lemma failed_creation_poisons_witness :
  ∃ id s', createPartition no_faults (λ o, bool_decide (o = IoOpen)) (λ _, Fileutil.FallocOk) None
      (mkPartitionsMap ∅ 0) = (id, Some ErrIO, s') ∧
    parts s' !! id = Some None ∧
    Manager_WriteBlocks no_faults (λ o, bool_decide (o = IoOpen)) (λ l, l) (λ _, Fileutil.FallocOk) None []
      (mkManager s' false) = (Panic, mkManager s' false).
Proof. apply failed_creation_poisons; [done|done|by vm_compute]. Defined.
