(* ===== verification/Node.v ===== *)
(** * A data node as its registries see it: [node/node.go], [node/grpc_server.go], [profiler]

    The probes of the machine ([gopsutil]) are arguments: [None] is an error of the
    library, which then hands out a nil pointer.  The node itself is the manager of
    [Manager] with its identity and configuration. *)

From Stdlib Require Import SpecFloat.
From S2P Require Import Prelude Bytes Messages RandFile IdxFile Partition Manager.

(** ** Percentages

    A [float64] or a [float32] is the number of its bits. *)

Definition float64_value (bits : Z) : spec_float :=
  let s := Z.testbit bits 63 in
  let e := Z.land (Z.shiftr bits 52) (Z.ones 11) in
  let m := Z.land bits (Z.ones 52) in
  if e =? 0 then match m with Zpos p => S754_finite s p (-1074) | _ => S754_zero s end
  else if e =? 2047 then if m =? 0 then S754_infinity s else S754_nan
  else match m + 2 ^ 52 with Zpos p => S754_finite s p (e - 1075) | _ => S754_nan end.

Definition sign_bit32 (s : bool) : Z := if s then 2 ^ 31 else 0.
Definition float32_bits (f : spec_float) : Z :=
  match f with
  | S754_zero s => sign_bit32 s
  | S754_infinity s => sign_bit32 s + Z.shiftl 255 23
  | S754_nan => Z.shiftl 255 23 + 2 ^ 22
  | S754_finite s p e =>
      sign_bit32 s + (if Zpos p <? 2 ^ 23 then Zpos p else Z.shiftl (e + 150) 23 + (Zpos p - 2 ^ 23))
  end.

(** the conversion [float32(x)]: to the nearest, ties to even *)
Definition to_float32 (bits : Z) : Z :=
  match float64_value bits with
  | S754_finite s p e => float32_bits (binary_round 24 128 s p e)
  | f => float32_bits f
  end.

(** ** [profiler.go] *)

(** the fields of [disk.UsageStat] that are read *)
Record UsageStat := mkUsage { Total : Z; Free : Z; UsedPercent : Z }.

(** [mem.VirtualMemory], its [UsedPercent], and [disk.Usage] of a path *)
Record Probes := mkProbes {
  virtual_memory : option Z;
  disk_usage : string → option UsageStat;
  disk_partitions : option (list string);       (* the mount points *)
  cpu_percent : option (list Z);
}.

Definition GetMem (p : Probes) : option Z := virtual_memory p.
(** an error leaves the slice nil *)
Definition GetCPU (p : Probes) : list Z := default [] (cpu_percent p).
(** a partition without statistics is skipped *)
Definition GetDiskPartitionsUsage (p : Probes) : option (gmap string UsageStat) :=
  disks ← disk_partitions p;
  Some (foldl (λ m d, match disk_usage p d with Some u => <[d := u]> m | None => m end) ∅ disks).
(** [homePath] is the one the profiler was made for *)
Definition GetHomePathDiskUsage (homePath : string) (p : Probes) : option UsageStat := disk_usage p homePath.
Definition GetPathDiskUsage (path : string) (p : Probes) : option UsageStat := disk_usage p path.

(** ** [node.go] *)

Record Config := mkConfig { Config_ID : string; Config_EtcdAddress : string; Config_Address : string; Config_RhosusPath : string }.

(** [data] is the manager; [shutdownC] is closed when [n_down] is set *)
Record DataNode := mkDataNode {
  n_ID : string;
  n_Name : string;
  n_Config : Config;
  n_data : Manager;
  n_down : bool;
}.

Definition with_data (m : Manager) (n : DataNode) : DataNode := mkDataNode (n_ID n) (n_Name n) (n_Config n) m (n_down n).

Section node.
Context (porder : list string → list string).

(** the profiler's home path is the one of the configuration; [now] in seconds *)
Definition CollectMetrics (p : Probes) (now : Z) (n : DataNode) : result data_error NodeMetrics :=
  let v := GetMem p in
  let usage := GetPathDiskUsage (Config_RhosusPath (n_Config n)) p in
  used ← GetBlocksCount porder (n_data n);
  free ← GetFreeBlocksCount porder (Free <$> GetHomePathDiskUsage (Config_RhosusPath (n_Config n)) p) (n_data n);
  usage ← of_option usage Panic;
  percent ← of_option v Panic;
  Ok (mkMetrics (i32 used) (i32 free) 0 (Total usage) (Free usage) (to_float32 (UsedPercent usage)) now 0 0 (to_float32 percent)).

Definition HandleGetBlock (part_io : io_op → bool) (block : BlockPlacementInfo) (n : DataNode) : result data_error (option FsBlock) :=
  ReadBlock part_io block (n_data n).

Definition HandleAssignBlocks (part_io idx_io : io_op → bool) (fallocate : nat → Fileutil.falloc_res) (random : option (list Z))
    (blocks : list FsBlock) (n : DataNode) : result data_error (list BlockPlacementInfo) * DataNode :=
  let '(r, m) := Manager_WriteBlocks part_io idx_io porder fallocate random blocks (n_data n) in (r, with_data m n).

(** ** [grpc_server.go]: [HeartbeatResponse] and [FetchMetricsResponse] *)

Definition Heartbeat (p : Probes) (now : Z) (n : DataNode) : result data_error (string * NodeMetrics) :=
  metrics ← CollectMetrics p now n; Ok (n_Name n, metrics).
Definition FetchMetrics (p : Probes) (now : Z) (n : DataNode) : result data_error (string * NodeMetrics) :=
  metrics ← CollectMetrics p now n; Ok (n_Name n, metrics).

(** the requests that are left to do: [panic("implement me")] *)
Definition ShutdownNode : result data_error unit := Panic.
Definition PlacePages : result data_error unit := Panic.
End node.

Example float32_half : to_float32 (Z.shiftl 1022 52) = Z.shiftl 126 23. Proof. reflexivity. Qed.
Example float32_tenth : to_float32 4591870180066957722 = 1036831949. Proof. reflexivity. Qed.
Example float32_overflow : to_float32 (Z.shiftl 2046 52) = Z.shiftl 255 23. Proof. reflexivity. Qed.

(** ** What a node reports *)

Definition held_blocks (o : option Partition) : Z := match o with Some p => Z.of_nat (size (view p)) | None => 0 end.
(** the blocks that a node has on its disk *)
Definition total_blocks (m : Manager) : Z := foldr Z.add 0 (held_blocks <$> (map_to_list (parts (m_parts m))).*2).

Section counting.
Context (porder : list string → list string) (Hporder : ∀ l, porder l ≡ₚ l).

Lemma sum_used_ok keys m : (∀ k, k ∈ keys → ∃ p, m !! k = Some (Some p) ∧ closed p = false) →
  sum_used keys m = Some (foldr Z.add 0 ((λ k, held_blocks (default None (m !! k))) <$> keys)).
Proof using.
  induction keys as [|k keys IH]; intros Hk; [done|]. destruct (Hk k) as (p & Ep & Hc); [by constructor|].
  cbn [sum_used]. rewrite Ep, IH by (intros k' Hk'; apply Hk; by constructor). cbn [mbind option_bind fmap list_fmap foldr].
  rewrite Ep. cbn [default from_option held_blocks]. unfold GetUsedBlocks. by rewrite Hc, <- size_view.
Qed.

Lemma sum_perm (l l' : list Z) : l ≡ₚ l' → foldr Z.add 0 l = foldr Z.add 0 l'.
Proof using. induction 1; cbn; lia. Qed.

Lemma used_total m : (∀ k o, parts (m_parts m) !! k = Some o → ∃ p, o = Some p ∧ closed p = false) →
  sum_used (part_keys porder (m_parts m)) (parts (m_parts m)) = Some (total_blocks m).
Proof using Hporder.
  intros Hk. rewrite sum_used_ok.
  - f_equal. unfold total_blocks. apply sum_perm. unfold part_keys. rewrite Hporder, <- list_fmap_compose.
    apply reflexive_eq. rewrite <- (list_fmap_compose snd held_blocks). apply list_fmap_ext. intros i [k o] Hi. cbn.
    assert (parts (m_parts m) !! k = Some o) as -> by (by apply elem_of_map_to_list, list_elem_of_lookup_2 with i). done.
  - intros k [o Ho]%(elem_of_part_keys porder Hporder). destruct (Hk k o Ho) as (p & -> & Hc). by exists p.
Qed.

(** the number of used blocks of a heartbeat *)
Lemma CollectMetrics_ok pr now n usage percent : m_shutdown (n_data n) = false →
  (∀ k o, parts (m_parts (n_data n)) !! k = Some o → ∃ p, o = Some p ∧ closed p = false) →
  disk_usage pr (Config_RhosusPath (n_Config n)) = Some usage → virtual_memory pr = Some percent →
  ∃ ms, CollectMetrics porder pr now n = Ok ms ∧ Metrics_BlocksUsed ms = i32 (total_blocks (n_data n)) ∧
    Metrics_LastUpdate ms = now ∧ Metrics_DiskCapacity ms = Total usage.
Proof using Hporder.
  intros Hon Hk Hu Hv. unfold CollectMetrics, GetBlocksCount, GetFreeBlocksCount, GetHomePathDiskUsage, GetPathDiskUsage, GetMem.
  rewrite Hon, Hu, Hv, (used_total _ Hk). cbn. eexists. split; [reflexivity|]. done.
Qed.

(** without a probe the call panics *)
Lemma CollectMetrics_panics pr now n : m_shutdown (n_data n) = false →
  disk_usage pr (Config_RhosusPath (n_Config n)) = None → CollectMetrics porder pr now n = Panic.
Proof using.
  intros Hon Hu. unfold CollectMetrics, GetBlocksCount, GetFreeBlocksCount, GetHomePathDiskUsage, GetPathDiskUsage. rewrite Hon, Hu.
  by destruct (sum_used _ _).
Qed.
End counting.

(** ** Shutting down *)

Lemma close_all_ok part_io keys m : NoDup keys → (∀ k, k ∈ keys → ∃ p, m !! k = Some (Some p)) →
  ∃ m', close_all part_io keys m = Ok m' ∧
    ∀ k p, m' !! k = Some (Some p) → ∃ q, m !! k = Some (Some q) ∧ if bool_decide (k ∈ keys) then p = (Close part_io q).2 else p = q.
Proof.
  revert m. induction keys as [|k keys IH]; intros m Hnd Hk; cbn [close_all].
  { exists m. split; [done|]. intros k p Hp. by exists p. }
  apply NoDup_cons in Hnd as [Hni Hnd]. destruct (Hk k) as [p Ep]; [by constructor|]. rewrite Ep.
  destruct (IH (<[k := Some (Close part_io p).2]> m) Hnd) as (m' & E & Hm').
  { intros k' Hk'. rewrite lookup_insert_ne by (by intros ->). apply Hk. by constructor. }
  exists m'. split; [exact E|]. intros k' q Hq. destruct (Hm' k' q Hq) as (q' & Hq' & Hcase).
  destruct (decide (k' = k)) as [->|Hne].
  - rewrite lookup_insert_eq in Hq'. injection Hq' as <-. exists p. split; [done|].
    rewrite (bool_decide_false (k ∈ keys)) in Hcase by done. rewrite bool_decide_true by constructor. done.
  - rewrite lookup_insert_ne in Hq' by done. exists q'. split; [done|].
    rewrite (bool_decide_ext _ (k' ∈ keys)) by (rewrite elem_of_cons; intuition). exact Hcase.
Qed.

(** the flusher of a closed partition only empties the channel *)
Lemma sink_tick_closed part_io idx_io order border p : closed p = true →
  sink (sink_tick part_io idx_io order border p).2 = [] ∧
  file_ (sink_tick part_io idx_io order border p).2 = file_ p ∧
  idxFile (sink_tick part_io idx_io order border p).2 = idxFile p.
Proof.
  intros Hc. unfold sink_tick, drain_sink. case_bool_decide; [done|].
  destruct (isAvailable _ _); unfold WriteBlocks; cbn [closed with_sink]; by rewrite Hc.
Qed.

(** C14: A node that is shut down before its sinks have flushed loses blocks it answered
    for: WriteBlocks reports success for every block, Shutdown succeeds, and from
    then on the flusher throws the blocks away without writing anything.  The files
    of every partition are those from before, and no index describes one of the
    blocks, so that no restart finds them. *)
Theorem shutdown_drops_blocks (porder : list string → list string) (fallocate : nat → Fileutil.falloc_res)
    (random : option (list Z)) (blocks : list FsBlock) (m : Manager) (part_io idx_io : io_op → bool)
    (order : list (Z * IdxBlock) → list (Z * IdxBlock)) (border : list (string * list Z) → list (string * list Z)) :
  (∀ l, porder l ≡ₚ l) → (∀ i, fallocate i ≠ Fileutil.FallocErr) → node_inv m → acceptable m blocks →
  ∃ placement m1 m2,
    Manager_WriteBlocks no_faults no_faults porder fallocate random blocks m = (Ok placement, m1) ∧
    length placement = length blocks ∧ Forall (λ pl, BPI_Success pl = true) placement ∧
    Shutdown no_faults porder m1 = (Ok tt, m2) ∧
    ∀ k p, parts (m_parts m2) !! k = Some (Some p) →
      let p' := (sink_tick part_io idx_io order border p).2 in
      sink p' = [] ∧ file_ p' = file_ p ∧
      ∃ mp, idx_repr (idxFile p') mp ∧ ∀ b, b ∈ blocks → mp !! Fs_Id b = None.
Proof.
  intros Hpo Hno H Ha.
  destruct (write_blocks_keys porder Hpo fallocate Hno random blocks m H Ha) as (m1 & keys & Hsh & Hne & -> & Hk & Hall & _).
  destruct (put_blocks_ok keys 0 blocks (m_parts m1) Hne) as (pl & s' & E & Hlen & Hpl & Hs').
  { intros k Hin. destruct (Hk k Hin) as (p & ? & ? & Hp & Hs & Hroom & _). exists p. split_and!; [done..|].
    pose proof (wf_map_size _ (pi_map _ Hp)). unfold getAvailableBlocks in *.
    rewrite Hs. unfold sink_cap. change partitionBlocksCount with 512 in *. cbn [length]. lia. }
  rewrite E. assert (∀ k o, parts s' !! k = Some o → ∃ p, o = Some p ∧ part_inv (with_sink [] p) ∧ (∀ b, b ∈ blocks → blocksMap p !! Fs_Id b = None)) as Hparts.
  { intros k o. rewrite Hs', fmap_Some. intros (o0 & Ho0 & ->). destruct (Hall k o0 Ho0) as (p & -> & [] & _ & _ & Hv).
    eexists. split; [reflexivity|]. split; [by split|]. intros b Hb. by apply view_None, Hv. }
  destruct (close_all_ok no_faults (part_keys porder s') (parts s')) as (ps & Ec & Hps).
  { unfold part_keys. rewrite Hpo. apply NoDup_fst_map_to_list. }
  { intros k [o Ho]%(elem_of_part_keys porder Hpo). destruct (Hparts k o Ho) as (p & -> & _). by exists p. }
  eexists pl, _, _. split_and!; [done..| | |].
  - apply Forall_lookup. intros j p Hj. destruct (lookup_lt_is_Some_2 blocks j) as [b Hb].
    { rewrite <- Hlen. by eapply lookup_lt_Some. }
    destruct (Hpl j b Hb) as (k & _ & Hj' & _). by assert (p = mkBPI (Fs_Id b) k true "") as -> by congruence.
  - unfold Shutdown. cbn [with_parts m_shutdown m_parts]. rewrite Hsh, Ec. reflexivity.
  - cbn [m_parts parts]. intros k p Hp. set (p' := (sink_tick _ _ _ _ p).2). destruct (Hps k p Hp) as (q & Hq & Hcase).
    rewrite bool_decide_true in Hcase by (apply (elem_of_part_keys porder Hpo); by eexists).
    destruct (Hparts k _ Hq) as (q' & [= <-] & [Hidx _ _ _ Hop] & Hnone). cbn [with_sink idxFile blocksMap closed] in *.
    assert (closed p = true ∧ idxFile p = idxFile q ∧ blocksMap p = blocksMap q) as (Hc & Hi & _).
    { subst p. unfold Close. by rewrite Hop. }
    destruct (sink_tick_closed part_io idx_io order border p Hc) as (Hs & Hf & Hix). fold p' in Hs, Hf, Hix.
    split_and!; [done..|]. exists (blocksMap q). by rewrite Hix, Hi.
Qed.

Lemma shutdown_drops_blocks_witness :
  let m := mkManager (mkPartitionsMap {[ "p" := Some (empty_part []) ]} 0) false in
  let blocks := [mkFsBlock id_a 0 "f" 0 3 [1; 2; 3] []] in
  ∃ placement m1 m2,
    Manager_WriteBlocks no_faults no_faults (λ l, l) (λ _, Fileutil.FallocOk) None blocks m = (Ok placement, m1) ∧
    length placement = length blocks ∧ Forall (λ pl, BPI_Success pl = true) placement ∧
    Shutdown no_faults (λ l, l) m1 = (Ok tt, m2) ∧
    ∀ k p, parts (m_parts m2) !! k = Some (Some p) →
      let p' := (sink_tick no_faults no_faults no_order (λ l, l) p).2 in
      sink p' = [] ∧ file_ p' = file_ p ∧
      ∃ mp, idx_repr (idxFile p') mp ∧ ∀ b, b ∈ blocks → mp !! Fs_Id b = None.
Proof.
  intros m blocks. apply shutdown_drops_blocks; [done|done| |].
  - split; [done|]. intros k o Hko. cbn in Hko. apply lookup_singleton_Some in Hko as [<- <-].
    exists (empty_part []). split_and!; [done|apply empty_part_inv|done|done].
  - split.
    + apply (bool_decide_eq_true_1 (NoDup _)). by vm_compute.
    + apply Forall_forall. apply (bool_decide_eq_true_1 (Forall _ _)). by vm_compute.
    + intros b k p _ Hko. cbn in Hko. apply lookup_singleton_Some in Hko as [<- [= <-]].
      by apply view_None.
    + intros k p Hko _. cbn in Hko. apply lookup_singleton_Some in Hko as [<- [= <-]]. by vm_compute.
    + by vm_compute.
Defined.
