(* ===== verification/Wal.v ===== *)
(** * The write ahead log: [registry/wal/wal.go]

    The log is a sequence of segment files named by the index of their first
    entry, twenty digits wide so that the directory listing is in index order.
    Segments live behind pointers that the segment list and the LRU cache share:
    evicting a segment from the cache clears the buffers the list sees.  So the
    model has a heap of segments, a directory of files and a script of input/
    output failures, and every method is a computation on that state. *)

From S2P Require Import Prelude Bytes.

Inductive wal_error :=
| ErrCorrupt | ErrClosed | ErrNotFound | ErrOutOfOrder | ErrOutOfRange
| ErrIO | ErrInvalidSeek.

#[export] Instance wal_error_eq_dec : EqDecision wal_error.
Proof. solve_decision. Defined.

(** ** The directory of the log *)

Inductive inode := File (bytes : list Z) | Dir.
#[export] Instance inode_eq_dec : EqDecision inode.
Proof. solve_decision. Defined.
Abbreviation disk := (gmap string inode).

(** byte order on file names, the order of [ioutil.ReadDir] *)
Fixpoint bytes_leb (a b : list Z) : bool :=
  match a, b with
  | [], _ => true
  | _ :: _, [] => false
  | x :: a', y :: b' => (x <? y) || ((x =? y) && bytes_leb a' b')
  end.
Definition name_le (a b : string) : Prop :=
  bytes_leb (bytes_of_string a) (bytes_of_string b) = true.
#[export] Instance name_le_dec a b : Decision (name_le a b).
Proof. unfold name_le. apply _. Defined.

Definition ReadDir (d : disk) : list string := merge_sort name_le ((map_to_list d).*1).

(** ** [segmentName] and [strconv.ParseUint] *)

(** the [k] low decimal digits of [n], most significant first *)
Fixpoint digits (k : nat) (n : Z) : list Z :=
  match k with O => [] | S k' => digits k' (n / 10) ++ [48 + n mod 10] end.

Definition segmentName (index : Z) : string := string_of_bytes (digits 20 index).
#[global] Arguments segmentName index : simpl never.

(** [strconv.ParseUint(s, 10, 64)]: an error on an empty string, on a byte that is
    no digit and on overflow *)
Fixpoint parse_digits (l : list Z) (acc : Z) : option Z :=
  match l with
  | [] => Some acc
  | c :: l' => if (48 <=? c) && (c <=? 57) then parse_digits l' (10 * acc + (c - 48)) else None
  end.
Definition ParseUint (l : list Z) : option Z :=
  match l with
  | [] => None
  | _ => n ← parse_digits l 0; if n <? 2 ^ 64 then Some n else None
  end.

Definition has_suffix (suffix name : list Z) : bool :=
  bool_decide (length suffix ≤ length name)%nat &&
  bool_decide (drop (length name - length suffix) name = suffix).

(** ** The segment cache: [tidwall/tinylru] *)

(** [lru_entries] is what [Range] visits, from the most to the least recently
    used; [lru_set] is [SetEvicted], with the evicted value if there is one. *)
Class LRU (C : Type) := {
  lru_new : nat → C;
  lru_entries : C → list (Z * nat);
  lru_cap : C → nat;
  lru_set : Z → nat → C → option nat * C;
  lru_new_entries : ∀ n, lru_entries (lru_new n) = [];
  lru_new_cap : ∀ n, lru_cap (lru_new n) = n;
  lru_set_cap : ∀ k v c, lru_cap (lru_set k v c).2 = lru_cap c;
  lru_set_entries : ∀ k v c, (0 < lru_cap c)%nat →
    lru_entries (lru_set k v c).2 =
      take (lru_cap c) ((k, v) :: filter (λ e : Z * nat, e.1 ≠ k) (lru_entries c));
  lru_set_evicted : ∀ k v c, (0 < lru_cap c)%nat →
    (lru_set k v c).1 =
      snd <$> head (drop (lru_cap c) ((k, v) :: filter (λ e : Z * nat, e.1 ≠ k) (lru_entries c)));
  lru_bounded : ∀ c, (length (lru_entries c) ≤ lru_cap c)%nat;
}.

(** ** The state of a log *)

Record segment := mkSegment {
  path : string;             (* file name inside the directory of the log *)
  index : Z;
  ebuf : list Z;
  epos : list (nat * nat);
}.

Record Batch := mkBatch { entries : list (Z * nat); datas : list Z }.

Record Options := mkOptions { SegmentSize : Z; SegmentCacheSize : Z; NoCopy : bool }.

Definition DefaultOptions : Options := mkOptions (10 * 1024 * 1024) 2 false.

Record WAL {C : Type} := mkWAL {
  opts : Options;
  closed : bool;
  corrupt : bool;
  heap : gmap nat segment;      (* the segments behind the pointers *)
  segments : list nat;          (* [[]*segment] *)
  firstIndex : Z;
  lastIndex : Z;
  sfile : option string;        (* the open tail file; [None] when closed *)
  wbatch : Batch;
  scache : C;
  dir : disk;
  ticks : nat;                  (* input/output operations so far *)
}.
Arguments WAL C : clear implicits.

Section wal.
Context {C : Type} `{LRU C}.
(** the fate of the [n]-th input/output operation: [Some k] fails, a write
    after [k] bytes *)
Context (flt : nat → option nat).

Local Abbreviation W := (M (WAL C) wal_error).

Definition set_flags (cl co : bool) (w : WAL C) : WAL C :=
  mkWAL C (opts w) cl co (heap w) (segments w) (firstIndex w) (lastIndex w) (sfile w) (wbatch w) (scache w) (dir w) (ticks w).
Definition set_heap (h : gmap nat segment) (w : WAL C) : WAL C :=
  mkWAL C (opts w) (closed w) (corrupt w) h (segments w) (firstIndex w) (lastIndex w) (sfile w) (wbatch w) (scache w) (dir w) (ticks w).
Definition set_segments (l : list nat) (w : WAL C) : WAL C :=
  mkWAL C (opts w) (closed w) (corrupt w) (heap w) l (firstIndex w) (lastIndex w) (sfile w) (wbatch w) (scache w) (dir w) (ticks w).
Definition set_range (f l : Z) (w : WAL C) : WAL C :=
  mkWAL C (opts w) (closed w) (corrupt w) (heap w) (segments w) f l (sfile w) (wbatch w) (scache w) (dir w) (ticks w).
Definition set_sfile (f : option string) (w : WAL C) : WAL C :=
  mkWAL C (opts w) (closed w) (corrupt w) (heap w) (segments w) (firstIndex w) (lastIndex w) f (wbatch w) (scache w) (dir w) (ticks w).
Definition set_wbatch (b : Batch) (w : WAL C) : WAL C :=
  mkWAL C (opts w) (closed w) (corrupt w) (heap w) (segments w) (firstIndex w) (lastIndex w) (sfile w) b (scache w) (dir w) (ticks w).
Definition set_scache (c : C) (w : WAL C) : WAL C :=
  mkWAL C (opts w) (closed w) (corrupt w) (heap w) (segments w) (firstIndex w) (lastIndex w) (sfile w) (wbatch w) c (dir w) (ticks w).
Definition set_dir (d : disk) (w : WAL C) : WAL C :=
  mkWAL C (opts w) (closed w) (corrupt w) (heap w) (segments w) (firstIndex w) (lastIndex w) (sfile w) (wbatch w) (scache w) d (ticks w).
Definition set_ticks (n : nat) (w : WAL C) : WAL C :=
  mkWAL C (opts w) (closed w) (corrupt w) (heap w) (segments w) (firstIndex w) (lastIndex w) (sfile w) (wbatch w) (scache w) (dir w) n.

(** ** Operating system calls *)

Definition io : W (option nat) := λ w, (Ok (flt (ticks w)), set_ticks (S (ticks w)) w).
Definition io_ok : W unit := f ← io; match f with None => mret tt | Some _ => fail ErrIO end.

Definition os_Remove (name : string) : W unit :=
  _ ← io_ok; w ← get;
  match dir w !! name with
  | Some _ => modify (set_dir (delete name (dir w)))
  | None => fail ErrIO
  end.

Definition os_Rename (from to : string) : W unit :=
  _ ← io_ok; w ← get;
  match dir w !! from with
  | Some (File b) => modify (set_dir (<[to := File b]> (delete from (dir w))))
  | _ => fail ErrIO
  end.

(** [os.OpenFile(name, O_CREATE|O_RDWR|O_TRUNC)] as the tail file; the field is
    nil after a failure *)
Definition open_create (name : string) : W unit :=
  f ← io; w ← get;
  match f, dir w !! name with
  | None, Some Dir => _ ← modify (set_sfile None); fail ErrIO
  | None, _ => modify (λ w, set_sfile (Some name) (set_dir (<[name := File []]> (dir w)) w))
  | Some _, _ => _ ← modify (set_sfile None); fail ErrIO
  end.

(** [os.OpenFile(name, O_WRONLY)] followed by [Seek(0, 2)]: the file position *)
Definition open_append (name : string) : W Z :=
  f ← io; w ← get;
  match f, dir w !! name with
  | None, Some (File b) =>
      _ ← modify (set_sfile (Some name)); _ ← io_ok; mret (lenZ b)
  | _, _ => _ ← modify (set_sfile None); fail ErrIO
  end.

Definition sfile_Sync : W unit :=
  _ ← io_ok; w ← get; match sfile w with Some _ => mret tt | None => fail ErrIO end.

Definition sfile_Close : W unit :=
  f ← io; w ← get;
  match sfile w with
  | None => fail ErrIO
  | Some _ =>
      _ ← modify (set_sfile None);
      match f with None => mret tt | Some _ => fail ErrIO end
  end.

Definition append_bytes (bs : list Z) (i : inode) : inode :=
  match i with File b => File (b ++ bs) | Dir => Dir end.

(** a failed write may leave a part of the bytes in the file *)
Definition sfile_Write (bs : list Z) : W unit :=
  f ← io; w ← get;
  match sfile w with
  | None => fail ErrIO
  | Some name =>
      match f with
      | None => modify (set_dir (alter (append_bytes bs) name (dir w)))
      | Some k =>
          _ ← modify (set_dir (alter (append_bytes (take k bs)) name (dir w)));
          fail ErrIO
      end
  end.

Definition ReadFile (name : string) : W (list Z) :=
  _ ← io_ok; w ← get;
  match dir w !! name with Some (File b) => mret b | _ => fail ErrIO end.

(** ** Segments *)

Definition deref (s : nat) : W segment := w ← get; from_option (heap w !! s).
Definition update (s : nat) (f : segment → segment) : W unit :=
  modify (λ w, set_heap (alter f s (heap w)) w).
Definition new_segment (s : segment) : W nat :=
  w ← get;
  let l := fresh (dom (heap w)) in
  _ ← modify (set_heap (<[l := s]> (heap w))); mret l.

Definition set_bufs (b : list Z) (p : list (nat * nat)) (s : segment) : segment :=
  mkSegment (path s) (index s) b p.

Definition tail : W nat := w ← get; from_option (last (segments w)).

Definition pushCache (segIdx : Z) : W unit :=
  w ← get;
  s ← from_option (segments w !! Z.to_nat segIdx);
  let '(ev, c) := lru_set segIdx s (scache w) in
  _ ← modify (set_scache c);
  match ev with
  | Some v => update v (set_bufs [] [])
  | None => mret tt
  end.

(** [loadNextBinaryEntry]: how many bytes the first entry takes; [n] is at most
    [len(data)], so the conversion of the difference to [uint64] changes nothing *)
Definition loadNextBinaryEntry (data : list Z) : result wal_error Z :=
  let '(size, n) := Binary.uvarint data in
  if n <=? 0 then Err ErrCorrupt
  else if lenZ data - n <? size then Err ErrCorrupt
  else Ok (n + size).

(** the loop of [loadSegmentEntries]: it ends because an entry takes at least
    one byte *)
Fixpoint load_entries (fuel : nat) (data : list Z) (pos : nat) (acc : list (nat * nat))
    : result wal_error (list (nat * nat)) :=
  match data with
  | [] => Ok acc
  | _ =>
      match fuel with
      | O => Panic
      | S fuel' =>
          match loadNextBinaryEntry data with
          | Ok n =>
              let n := Z.to_nat n in
              load_entries fuel' (drop n data) (pos + n) (acc ++ [(pos, pos + n)%nat])
          | Err e => Err e
          | Panic => Panic
          end
      end
  end.

Definition loadSegmentEntries (s : nat) : W unit :=
  seg ← deref s;
  data ← ReadFile (path seg);
  ps ← lift (load_entries (length data) data 0 []);
  update s (set_bufs data ps).

(** ** Opening *)

(** [load]'s loop over the directory: the segments and the positions of the
    START and END files *)
Fixpoint scan (names : list string) (d : disk) (segs : list segment) (startIdx endIdx : option nat)
    : list segment * option nat * option nat :=
  match names with
  | [] => (segs, startIdx, endIdx)
  | name :: names' =>
      let b := bytes_of_string name in
      if bool_decide (d !! name = Some Dir) || bool_decide (length b < 20)%nat then scan names' d segs startIdx endIdx
      else match ParseUint (take 20 b) with
      | None | Some 0 => scan names' d segs startIdx endIdx
      | Some idx =>
          let isStart := bool_decide (length b = 26%nat) && has_suffix (bytes_of_string ".START") b in
          let isEnd := bool_decide (length b = 24%nat) && has_suffix (bytes_of_string ".END") b in
          if bool_decide (length b = 20%nat) || isStart || isEnd then
            let st := if isStart then Some (length segs) else startIdx in
            let en := if isStart then endIdx
                      else if isEnd && bool_decide (endIdx = None) then Some (length segs) else endIdx in
            scan names' d (segs ++ [mkSegment name idx [] []]) st en
          else scan names' d segs startIdx endIdx
      end
  end.

(** [orgPath[:len(orgPath)-k]] *)
Definition drop_suffix (k : nat) (name : string) : string :=
  string_of_bytes (take (length (bytes_of_string name) - k) (bytes_of_string name)).

Definition remove_files (segs : list segment) : W unit := for_each segs (λ s, os_Remove (path s)).

Definition set_path (p : string) (s : segment) : segment := mkSegment p (index s) (ebuf s) (epos s).

(** the START branch of [load] *)
Definition load_start (segs : list segment) (startIdx : nat) : W (list segment) :=
  _ ← remove_files (take startIdx segs);
  match drop startIdx segs with
  | [] => panic
  | s :: rest =>
      let finalPath := drop_suffix 6 (path s) in
      _ ← os_Rename (path s) finalPath;
      mret (set_path finalPath s :: rest)
  end.

(** the END branch of [load] *)
Definition load_end (segs : list segment) (endIdx : nat) : W (list segment) :=
  _ ← remove_files (rev (drop (S endIdx) segs));
  let segs := take (S endIdx) segs in
  match rev segs with
  | [] => panic
  | e :: before =>
      let before := match before with
                    | p :: before' => if index p =? index e then before' else before
                    | [] => []
                    end in
      let finalPath := drop_suffix 4 (path e) in
      _ ← os_Rename (path e) finalPath;
      mret (rev before ++ [set_path finalPath e])
  end.

Definition alloc_all (segs : list segment) : W unit :=
  for_each segs (λ s, l ← new_segment s; modify (λ w, set_segments (segments w ++ [l]) w)).

(** the end of [load]: open the last segment for appending and load it *)
Definition open_segments (segs : list segment) : W unit :=
  _ ← alloc_all segs;
  first ← from_option (head segs);
  _ ← modify (λ w, set_range (index first) (lastIndex w) w);
  lseg ← tail;
  lsegv ← deref lseg;
  _ ← open_append (path lsegv);
  _ ← loadSegmentEntries lseg;
  s ← deref lseg;
  modify (λ w, set_range (firstIndex w) (u64 (index s + lenZ (epos s) - 1)) w).

Definition load : W unit :=
  _ ← io_ok; w ← get;
  let '(segs, startIdx, endIdx) := scan (ReadDir (dir w)) (dir w) [] None None in
  match segs with
  | [] =>
      _ ← alloc_all [mkSegment (segmentName 1) 1 [] []];
      _ ← modify (set_range 1 0);
      open_create (segmentName 1)
  | _ =>
      segs ← match startIdx with
             | Some i => match endIdx with Some _ => fail ErrCorrupt | None => load_start segs i end
             | None => mret segs
             end;
      segs ← match endIdx with Some i => load_end segs i | None => mret segs end;
      open_segments segs
  end.

(** [Create(path, opts)] on the directory found there *)
Definition default_opts (o : Options) : Options :=
  mkOptions (if SegmentSize o <=? 0 then SegmentSize DefaultOptions else SegmentSize o)
            (if SegmentCacheSize o <=? 0 then SegmentCacheSize DefaultOptions else SegmentCacheSize o)
            (NoCopy o).

Definition empty_wal (o : Options) (d : disk) (t : nat) : WAL C :=
  mkWAL C o false false ∅ [] 0 0 None (mkBatch [] []) (lru_new (Z.to_nat (SegmentCacheSize o))) d t.

Definition Create (o : option Options) (d : disk) (t : nat) : result wal_error unit * WAL C :=
  load (empty_wal (default_opts (default DefaultOptions o)) d t).

(** ** Writing *)

Definition check_open : W unit :=
  w ← get;
  if corrupt w then fail ErrCorrupt else if closed w then fail ErrClosed else mret tt.

Definition appendUvarint (dst : list Z) (x : Z) : list Z := dst ++ Binary.put_uvarint x.

Definition appendBinaryEntry (dst data : list Z) : list Z * (nat * nat) :=
  let pos := length dst in
  let dst := appendUvarint dst (lenZ data) ++ data in
  (dst, (pos, length dst)).

Definition Batch_Write (index : Z) (data : list Z) (b : Batch) : Batch :=
  mkBatch (entries b ++ [(index, length data)]) (datas b ++ data).
Definition Batch_Clear (b : Batch) : Batch := mkBatch [] [].

(** [cycle]: the tail becomes a cached segment and an empty segment follows *)
Definition cycle : W unit :=
  _ ← sfile_Sync;
  _ ← sfile_Close;
  w ← get;
  _ ← pushCache (lenZ (segments w) - 1);
  w ← get;
  let i := u64 (lastIndex w + 1) in
  _ ← open_create (segmentName i);
  s ← new_segment (mkSegment (segmentName i) i [] []);
  modify (λ w, set_segments (segments w ++ [s]) w).

Definition set_last (i : Z) (w : WAL C) : WAL C := set_range (firstIndex w) i w.

(** the loop of [writeBatch]: the segment and mark reached *)
Fixpoint writeBatch_loop (es : list (Z * nat)) (datas : list Z) (s mark : nat) : W (nat * nat) :=
  match es with
  | [] => mret (s, mark)
  | (i, size) :: es' =>
      data ← from_option (slice datas 0 size);
      seg ← deref s;
      let '(buf, ep) := appendBinaryEntry (ebuf seg) data in
      _ ← update s (set_bufs buf (epos seg ++ [ep]));
      w ← get;
      if SegmentSize (opts w) <=? lenZ buf then
        _ ← sfile_Write (drop mark buf);
        _ ← modify (set_last i);
        _ ← cycle;
        s' ← tail;
        writeBatch_loop es' (drop size datas) s' 0
      else writeBatch_loop es' (drop size datas) s mark
  end.

(** [writeBatch] from [mark := len(s.ebuf)] on, with the tail segment [s] *)
Definition writeBatch_from (b : Batch) (s : nat) : W unit :=
  seg ← deref s;
  '(s, mark) ← writeBatch_loop (entries b) (datas b) s (length (ebuf seg));
  seg ← deref s;
  _ ← (if bool_decide (mark < length (ebuf seg))%nat then
         _ ← sfile_Write (drop mark (ebuf seg));
         e ← from_option (last (entries b));
         modify (set_last e.1)
       else mret tt);
  modify (λ w, set_wbatch (Batch_Clear (wbatch w)) w).

Definition writeBatch (b : Batch) : W unit :=
  s ← tail; seg ← deref s; w ← get;
  s ← (if SegmentSize (opts w) <? lenZ (ebuf seg) then _ ← cycle; tail else mret s);
  writeBatch_from b s.

Definition Write (index : Z) (data : list Z) : W unit :=
  _ ← check_open;
  _ ← modify (λ w, set_wbatch (Batch_Write index data (Batch_Clear (wbatch w))) w);
  w ← get; writeBatch (wbatch w).

(** [WriteBatch] ranges over a map: [data] lists it in the order of the
    iteration; the errors of the writes are dropped *)
Definition WriteBatch (data : list (Z * list Z)) : W unit :=
  _ ← check_open;
  for_each data (λ '(index, d),
    _ ← modify (λ w, set_wbatch (Batch_Write index d (Batch_Clear (wbatch w))) w);
    w ← get; ignore_err (writeBatch (wbatch w))).

(** ** Reading *)

Definition FirstIndex : W Z :=
  _ ← check_open; w ← get; mret (if lastIndex w =? 0 then 0 else firstIndex w).
Definition LastIndex : W Z := _ ← check_open; gets lastIndex.

(** [findSegment]: the binary search; [None] only if the fuel runs out or a
    pointer dangles *)
Fixpoint bsearch (fuel : nat) (i j : nat) (idx : Z) (l : list nat) (h : gmap nat segment) : option nat :=
  if bool_decide (i < j)%nat then
    match fuel with
    | O => None
    | S fuel' =>
        let m := (i + (j - i) / 2)%nat in
        s ← l !! m ≫= (h !!.);
        if index s <=? idx then bsearch fuel' (m + 1) j idx l h else bsearch fuel' i m idx l h
    end
  else Some i.

Definition findSegment (idx : Z) : W Z :=
  w ← get;
  i ← from_option (bsearch (length (segments w)) 0 (length (segments w)) idx (segments w) (heap w));
  mret (Z.of_nat i - 1).

Definition nth_segment (i : Z) : W nat :=
  w ← get; if i <? 0 then panic else from_option (segments w !! Z.to_nat i).

(** the callback of [Range] stops at the first, most recently used, entry *)
Definition cached (idx : Z) (w : WAL C) : option nat :=
  match head (lru_entries (scache w)) with
  | Some (_, v) =>
      s ← heap w !! v;
      if (index s <=? idx) && (idx <? u64 (index s + lenZ (epos s))) then Some v else None
  | None => None
  end.

Definition loadSegment (idx : Z) : W nat :=
  lseg ← tail; lsegv ← deref lseg;
  if index lsegv <=? idx then mret lseg
  else
    w ← get;
    match cached idx w with
    | Some s => mret s
    | None =>
        i ← findSegment idx;
        s ← nth_segment i;
        sv ← deref s;
        _ ← (if bool_decide (epos sv = []) then loadSegmentEntries s else mret tt);
        _ ← pushCache i;
        mret s
    end.

(** the payload of an encoded entry; a copy, so [NoCopy] makes no difference *)
Definition decode_entry (edata : list Z) : result wal_error (list Z) :=
  let '(size, n) := Binary.uvarint edata in
  if n <=? 0 then Err ErrCorrupt
  else if lenZ edata - n <? size then Err ErrCorrupt
  else of_option (slice edata (Z.to_nat n) (Z.to_nat (n + size))) Panic.

Definition Read (idx : Z) : W (list Z) :=
  _ ← check_open; w ← get;
  if (idx =? 0) || (idx <? firstIndex w) || (lastIndex w <? idx) then fail ErrNotFound
  else
    s ← loadSegment idx; seg ← deref s;
    ep ← from_option (epos seg !! Z.to_nat (u64 (idx - index seg)));
    edata ← from_option (slice (ebuf seg) ep.1 ep.2);
    lift (decode_entry edata).

(** [GetEntriesAfter]: [index] itself is included *)
Fixpoint read_from (fuel : nat) (i lastIdx : Z) : W (list (list Z)) :=
  match fuel with
  | O => mret []
  | S fuel' => if i <=? lastIdx then e ← Read i; es ← read_from fuel' (i + 1) lastIdx; mret (e :: es) else mret []
  end.
Definition GetEntriesAfter (idx : Z) : W (list (list Z)) :=
  lastIdx ← LastIndex; read_from (Z.to_nat (lastIdx + 1 - idx)) idx lastIdx.

(** ** Maintenance *)

Definition clearCache : W unit :=
  w ← get;
  _ ← for_each (lru_entries (scache w)) (λ e, update e.2 (set_bufs [] []));
  modify (λ w, set_scache (lru_new (Z.to_nat (SegmentCacheSize (opts w)))) w).

Definition ClearCache : W unit := _ ← check_open; clearCache.

Definition Sync : W unit := _ ← check_open; sfile_Sync.

Definition Close : W unit :=
  w ← get;
  if closed w then fail (if corrupt w then ErrCorrupt else ErrClosed)
  else
    _ ← sfile_Sync; _ ← sfile_Close;
    _ ← modify (λ w, set_flags true (corrupt w) w);
    w ← get; if corrupt w then fail ErrCorrupt else mret tt.

(** the function literal that writes TEMP: its error is assigned to [err] and
    then overwritten by the result of [Rename], so it never shows *)
Definition write_temp (bs : list Z) : W unit :=
  f ← io; w ← get;
  match f, dir w !! "TEMP" with
  | None, Some Dir => mret tt
  | Some _, _ => mret tt
  | None, _ =>
      _ ← modify (set_dir (<["TEMP" := File []]> (dir w)));
      f ← io; w ← get;
      match f with
      | Some k => _ ← modify (set_dir (<["TEMP" := File (take k bs)]> (dir w))); _ ← io; mret tt
      | None =>
          _ ← modify (set_dir (<["TEMP" := File bs]> (dir w)));
          _ ← io; _ ← io; mret tt
      end
  end.

(** the deferred function of the truncations: only a panic makes the log corrupt *)
Definition recovering {A} (m : W A) : W A := λ w,
  match m w with
  | (Panic, w') => (Err ErrCorrupt, set_flags (closed w') true w')
  | r => r
  end.

Definition out_of_range (idx : Z) (w : WAL C) : bool :=
  (idx =? 0) || (lastIndex w =? 0) || (idx <? firstIndex w) || (lastIndex w <? idx).

Definition remove_segments (ls : list nat) : W unit :=
  for_each ls (λ l, s ← deref l; os_Remove (path s)).

Definition reopen_tail (name : string) (len : Z) : W unit :=
  n ← open_append name; guard_err (negb (n =? len)) ErrInvalidSeek.

Definition truncateFront (idx : Z) : W unit :=
  w ← get;
  if out_of_range idx w then fail ErrOutOfRange
  else if idx =? firstIndex w then mret tt
  else
    segIdx ← findSegment idx;
    s ← loadSegment idx; seg ← deref s;
    ps ← from_option (let i := Z.to_nat (u64 (idx - index seg)) in
                      if bool_decide (i ≤ length (epos seg))%nat then Some (drop i (epos seg)) else None);
    p0 ← from_option (head ps);
    buf ← from_option (slice (ebuf seg) p0.1 (length (ebuf seg)));
    _ ← write_temp buf;
    let startName := (segmentName idx +:+ ".START")%string in
    let newName := segmentName idx in
    _ ← os_Rename "TEMP" startName;
    recovering (
      w ← get;
      let isTail := segIdx =? lenZ (segments w) - 1 in
      _ ← (if isTail then sfile_Close else mret tt);
      _ ← remove_segments (take (Z.to_nat (segIdx + 1)) (segments w));
      _ ← os_Rename startName newName;
      _ ← update s (λ sg, mkSegment newName idx (ebuf sg) (epos sg));
      _ ← (if isTail then _ ← reopen_tail newName (lenZ buf); loadSegmentEntries s else mret tt);
      _ ← modify (λ w, set_segments (drop (Z.to_nat segIdx) (segments w)) w);
      _ ← modify (λ w, set_range idx (lastIndex w) w);
      clearCache).

Definition TruncateFront (idx : Z) : W unit := _ ← check_open; truncateFront idx.

Definition truncateBack (idx : Z) : W unit :=
  w ← get;
  if out_of_range idx w then fail ErrOutOfRange
  else if idx =? lastIndex w then mret tt
  else
    segIdx ← findSegment idx;
    s ← loadSegment idx; seg ← deref s;
    ps ← from_option (slice (epos seg) 0 (Z.to_nat (u64 (idx - index seg + 1))));
    pl ← from_option (last ps);
    buf ← from_option (slice (ebuf seg) 0 pl.2);
    _ ← write_temp buf;
    let endName := (segmentName (index seg) +:+ ".END")%string in
    let newName := segmentName (index seg) in
    _ ← os_Rename "TEMP" endName;
    recovering (
      w ← get;
      _ ← sfile_Close;
      _ ← remove_segments (drop (Z.to_nat segIdx) (segments w));
      _ ← os_Rename endName newName;
      _ ← reopen_tail newName (lenZ buf);
      _ ← update s (set_path newName);
      _ ← modify (λ w, set_segments (take (Z.to_nat (segIdx + 1)) (segments w)) w);
      _ ← modify (set_last idx);
      _ ← clearCache;
      loadSegmentEntries s).

Definition TruncateBack (idx : Z) : W unit := _ ← check_open; truncateBack idx.
End wal.
