(* ===== verification/WalCodec.v ===== *)
(** * Segment names and entries of the write ahead log

    The names of the segment files order like their indexes, and a segment file
    is the concatenation of its encoded entries. *)

From S2P Require Import Prelude Bytes Wal.

(** ** Byte order *)

Section byte_order.

Lemma bytes_leb_refl a : bytes_leb a a = true.
Proof. induction a as [|x a IH]; simpl; [done|]. by rewrite Z.ltb_irrefl, Z.eqb_refl, IH. Qed.

Lemma bytes_leb_total a b : bytes_leb a b = true ∨ bytes_leb b a = true.
Proof.
  revert b. induction a as [|x a IH]; intros [|y b]; simpl; auto.
  destruct (Z.ltb_spec x y), (Z.ltb_spec y x), (Z.eqb_spec x y), (Z.eqb_spec y x); simpl; auto; lia.
Qed.

Lemma bytes_leb_trans a b c : bytes_leb a b = true → bytes_leb b c = true → bytes_leb a c = true.
Proof.
  revert b c. induction a as [|x a IH]; intros [|y b] [|z c]; simpl; try done.
  destruct (Z.ltb_spec x y), (Z.ltb_spec y z), (Z.ltb_spec x z), (Z.eqb_spec x y),
    (Z.eqb_spec y z), (Z.eqb_spec x z); simpl; try done; try lia. apply IH.
Qed.

Lemma bytes_leb_antisym a b : bytes_leb a b = true → bytes_leb b a = true → a = b.
Proof.
  revert b. induction a as [|x a IH]; intros [|y b]; simpl; try done.
  destruct (Z.ltb_spec x y), (Z.ltb_spec y x), (Z.eqb_spec x y), (Z.eqb_spec y x); simpl; try done; try lia.
  intros. f_equal; [done|by apply IH].
Qed.

#[export] Instance name_le_trans : Transitive name_le.
Proof. intros a b c. apply bytes_leb_trans. Qed.
#[export] Instance name_le_total : Total name_le.
Proof. intros a b. apply bytes_leb_total. Qed.
#[export] Instance name_le_antisym : AntiSymm (=) name_le.
Proof.
  intros a b H1 H2. rewrite <- (string_of_bytes_of_string a), <- (string_of_bytes_of_string b).
  f_equal. by apply bytes_leb_antisym.
Qed.

Lemma bytes_leb_app x y u v :
  length x = length y →
  bytes_leb (x ++ u) (y ++ v) = if bool_decide (x = y) then bytes_leb u v else bytes_leb x y.
Proof.
  revert y. induction x as [|a x IH]; intros [|b y]; simpl; try done.
  intros [= Hl]. rewrite IH by done.
  destruct (Z.ltb_spec a b), (Z.eqb_spec a b); simpl; try lia.
  - rewrite bool_decide_false; [done|]. intros [= ? ?]. lia.
  - subst. by rewrite (bool_decide_ext (b :: x = b :: y) (x = y)) by naive_solver.
  - rewrite bool_decide_false; [done|]. intros [= ? ?]. lia.
Qed.

End byte_order.

(** ** Segment names *)

Section names.

Lemma length_digits k n : length (digits k n) = k.
Proof. revert n. induction k; intros n; simpl; [done|]. rewrite length_app, IHk. simpl. lia. Qed.

Lemma digits_range k n : 0 ≤ n → Forall (λ c, 48 ≤ c ≤ 57) (digits k n).
Proof.
  revert n. induction k as [|k IH]; intros n Hn; simpl; [done|].
  apply Forall_app. split; [apply IH; apply Z.div_pos; lia|].
  constructor; [|done]. pose proof (Z.mod_pos_bound n 10). lia.
Qed.

Lemma digits_bytes k n : 0 ≤ n → Forall in_byte (digits k n).
Proof. intros H. eapply Forall_impl; [by apply digits_range|]. unfold in_byte. simpl. lia. Qed.

Lemma parse_digits_app l1 l2 acc :
  parse_digits (l1 ++ l2) acc = parse_digits l1 acc ≫= parse_digits l2.
Proof. revert acc. induction l1 as [|c l1 IH]; intros acc; simpl; [done|]. by case_match. Qed.

Lemma parse_digits_digits k n acc :
  0 ≤ n < 10 ^ Z.of_nat k → parse_digits (digits k n) acc = Some (acc * 10 ^ Z.of_nat k + n).
Proof.
  revert n acc. induction k as [|k IH]; intros n acc Hn; cbn [digits parse_digits].
  - simpl in *. f_equal. lia.
  - rewrite Nat2Z.inj_succ, Z.pow_succ_r in Hn by lia. pose proof (Z.mod_pos_bound n 10).
    rewrite parse_digits_app, IH.
    + cbn -[Z.mul Z.add Z.pow]. rewrite (proj2 (Z.leb_le _ _)), (proj2 (Z.leb_le _ _)) by lia.
      cbn [andb]. f_equal. rewrite Nat2Z.inj_succ, Z.pow_succ_r by lia.
      pose proof (Z.div_mod n 10). lia.
    + split; [apply Z.div_pos; lia|]. apply Z.div_lt_upper_bound; lia.
Qed.

Lemma digits_leb k a b :
  0 ≤ a < 10 ^ Z.of_nat k → 0 ≤ b < 10 ^ Z.of_nat k → bytes_leb (digits k a) (digits k b) = (a <=? b).
Proof.
  revert a b. induction k as [|k IH]; intros a b Ha Hb.
  - simpl in *. symmetry. apply Z.leb_le. lia.
  - rewrite Nat2Z.inj_succ, Z.pow_succ_r in Ha, Hb by lia. cbn [digits].
    assert (∀ x, 0 ≤ x < 10 * 10 ^ Z.of_nat k → 0 ≤ x / 10 < 10 ^ Z.of_nat k) as Hd.
    { intros x Hx. split; [apply Z.div_pos; lia|]. apply Z.div_lt_upper_bound; lia. }
    rewrite bytes_leb_app by by rewrite !length_digits.
    pose proof (Z.div_mod a 10). pose proof (Z.div_mod b 10).
    pose proof (Z.mod_pos_bound a 10). pose proof (Z.mod_pos_bound b 10).
    case_bool_decide as E.
    + assert (a / 10 = b / 10) as Ed.
      { pose proof (parse_digits_digits k (a / 10) 0 (Hd a Ha)) as Pa. rewrite E in Pa.
        rewrite (parse_digits_digits k (b / 10) 0 (Hd b Hb)) in Pa. injection Pa. lia. }
      cbn -[Z.add Z.ltb Z.eqb]. apply eq_true_iff_eq.
      rewrite orb_true_iff, andb_true_iff, Z.ltb_lt, Z.eqb_eq, Z.leb_le. intuition lia.
    + rewrite IH by auto. apply eq_true_iff_eq. rewrite !Z.leb_le.
      assert (a / 10 ≠ b / 10) by (intros E'; apply E; by rewrite E'). lia.
Qed.

Lemma pow20 x : in_u64 x → 0 ≤ x < 10 ^ Z.of_nat 20.
Proof. unfold in_u64. intros. split; [lia|]. etrans; [apply H|]. by vm_compute. Qed.

Lemma segmentName_bytes i : 0 ≤ i → bytes_of_string (segmentName i) = digits 20 i.
Proof. intros H. apply bytes_of_string_of_bytes. by apply digits_bytes. Qed.

Lemma segmentName_inj i j : in_u64 i → in_u64 j → segmentName i = segmentName j → i = j.
Proof.
  intros Hi Hj E. apply (f_equal bytes_of_string) in E.
  rewrite !segmentName_bytes in E by (unfold in_u64 in *; lia).
  pose proof (parse_digits_digits 20 i 0 (pow20 _ Hi)) as P. rewrite E in P.
  rewrite (parse_digits_digits 20 j 0 (pow20 _ Hj)) in P. injection P. lia.
Qed.

Lemma segmentName_le i j : in_u64 i → in_u64 j → name_le (segmentName i) (segmentName j) ↔ i ≤ j.
Proof.
  intros Hi Hj. unfold name_le. rewrite !segmentName_bytes by (unfold in_u64 in *; lia).
  rewrite digits_leb by by apply pow20. apply Z.leb_le.
Qed.

Lemma ParseUint_digits i : in_u64 i → ParseUint (digits 20 i) = Some i.
Proof.
  intros H. unfold ParseUint. destruct (digits 20 i) as [|c l] eqn:E.
  { apply (f_equal length) in E. by rewrite length_digits in E. }
  rewrite <- E, parse_digits_digits by by apply pow20. unfold in_u64 in H. simpl.
  by rewrite (proj2 (Z.ltb_lt i _)) by lia.
Qed.

(** the file names that [load] takes for segments *)
Definition segish (name : string) : bool :=
  let b := bytes_of_string name in
  bool_decide (20 ≤ length b)%nat &&
  match ParseUint (take 20 b) with None | Some 0 => false | Some _ => true end &&
  (bool_decide (length b = 20%nat)
   || (bool_decide (length b = 26%nat) && has_suffix (bytes_of_string ".START") b)
   || (bool_decide (length b = 24%nat) && has_suffix (bytes_of_string ".END") b)).

Lemma segish_segmentName i : in_u64 i → 0 < i → segish (segmentName i) = true.
Proof.
  intros Hi Hp. unfold segish. rewrite segmentName_bytes by lia.
  rewrite take_ge by by rewrite length_digits. rewrite ParseUint_digits, length_digits by done.
  destruct i; done || lia.
Qed.

End names.

(** ** Entries *)

Definition enc (d : list Z) : list Z := Binary.put_uvarint (lenZ d) ++ d.
Definition encs (ds : list (list Z)) : list Z := mjoin (enc <$> ds).

Fixpoint poss (pos : nat) (ds : list (list Z)) : list (nat * nat) :=
  match ds with
  | [] => []
  | d :: ds' => (pos, pos + length (enc d))%nat :: poss (pos + length (enc d)) ds'
  end.

(** entries whose length fits the [uint64] of the encoding *)
Definition wf_entry (d : list Z) : Prop := in_u64 (lenZ d).

Section entries.

Lemma encs_app a b : encs (a ++ b) = encs a ++ encs b.
Proof. unfold encs. by rewrite fmap_app, join_app. Qed.
Lemma encs_cons d ds : encs (d :: ds) = enc d ++ encs ds.
Proof. done. Qed.

Lemma encs_single d : encs [d] = enc d.
Proof. unfold encs. cbn -[enc]. by rewrite app_nil_r. Qed.

Lemma poss_app p a b : poss p (a ++ b) = poss p a ++ poss (p + length (encs a)) b.
Proof.
  revert p. induction a as [|d a IH]; intros p; simpl.
  - by rewrite Nat.add_0_r.
  - rewrite IH, encs_cons, length_app. do 3 f_equal. lia.
Qed.

Lemma length_poss p ds : length (poss p ds) = length ds.
Proof. revert p. induction ds; intros p; simpl; [done|]. by rewrite IHds. Qed.

Lemma enc_nonempty d : wf_entry d → (1 ≤ length (enc d))%nat.
Proof. intros H. unfold enc. rewrite length_app. pose proof (put_uvarint_length _ H). lia. Qed.

Lemma uvarint_enc d rest : wf_entry d →
  Binary.uvarint (enc d ++ rest) = (lenZ d, lenZ (Binary.put_uvarint (lenZ d))).
Proof. intros H. unfold enc. rewrite <- app_assoc. by apply uvarint_put. Qed.

Lemma loadNext_enc d rest : wf_entry d → loadNextBinaryEntry (enc d ++ rest) = Ok (lenZ (enc d)).
Proof.
  intros H. unfold loadNextBinaryEntry. rewrite uvarint_enc by done.
  pose proof (put_uvarint_length _ H).
  rewrite (proj2 (Z.leb_gt _ _)) by lia. unfold enc. rewrite !length_app.
  rewrite (proj2 (Z.ltb_ge _ _)) by lia. f_equal. lia.
Qed.

(** a file of encoded entries loads with their positions *)
Lemma load_entries_encs ds fuel pos acc :
  Forall wf_entry ds → (length ds ≤ fuel)%nat →
  load_entries fuel (encs ds) pos acc = Ok (acc ++ poss pos ds).
Proof.
  revert fuel pos acc. induction ds as [|d ds IH]; intros fuel pos acc Hw Hf.
  - destruct fuel; cbn; by rewrite app_nil_r.
  - apply Forall_cons in Hw as [Hd Hw]. pose proof (enc_nonempty d Hd) as Hl.
    destruct fuel as [|fuel]; [simpl in Hf; lia|]. rewrite encs_cons. cbn [load_entries].
    destruct (enc d ++ encs ds) as [|z l] eqn:E.
    { apply (f_equal length) in E. rewrite length_app in E. simpl in E. lia. }
    rewrite <- E, loadNext_enc by done. rewrite Nat2Z.id, drop_app_length.
    rewrite IH by (done || simpl in Hf; lia). by rewrite <- app_assoc.
Qed.

(** the first bytes of an entry are no entry *)
Lemma loadNext_torn d k : wf_entry d → (k < length (enc d))%nat → loadNextBinaryEntry (take k (enc d)) = Err ErrCorrupt.
Proof.
  intros Hd Hk. pose proof (put_uvarint_length _ Hd). unfold loadNextBinaryEntry, enc in *.
  rewrite length_app in Hk. destruct (decide (k < length (Binary.put_uvarint (lenZ d)))%nat) as [Hlt|Hge].
  - rewrite take_app_le by lia. by rewrite uvarint_cut by (done || unfold wf_entry, in_u64 in Hd; lia).
  - rewrite take_app_ge, uvarint_put by (done || lia).
    rewrite (proj2 (Z.leb_gt _ _)) by lia. rewrite length_app, length_take.
    by rewrite (proj2 (Z.ltb_lt _ _)) by lia.
Qed.

(** a file that ends with a torn entry does not load *)
Lemma load_entries_torn ds d k fuel pos acc :
  Forall wf_entry ds → wf_entry d → (0 < k < length (enc d))%nat → (length ds < fuel)%nat →
  load_entries fuel (encs ds ++ take k (enc d)) pos acc = Err ErrCorrupt.
Proof.
  intros Hw Hd Hk. revert fuel pos acc. induction ds as [|e ds IH]; intros fuel pos acc Hf;
    (destruct fuel as [|fuel]; [simpl in Hf; lia|]).
  - change (encs [] ++ take k (enc d)) with (take k (enc d)). cbn [load_entries].
    destruct (take k (enc d)) as [|z l] eqn:E.
    { apply (f_equal length) in E. rewrite length_take in E. simpl in E. lia. }
    by rewrite <- E, loadNext_torn by lia || done.
  - apply Forall_cons in Hw as [He Hw]. pose proof (enc_nonempty e He). rewrite encs_cons, <- app_assoc.
    cbn [load_entries]. destruct (enc e ++ encs ds ++ take k (enc d)) as [|z l] eqn:E.
    { apply (f_equal length) in E. rewrite length_app in E. simpl in E. lia. }
    rewrite <- E, loadNext_enc by done. rewrite Nat2Z.id, drop_app_length.
    apply IH; [done|simpl in Hf; lia].
Qed.

Lemma length_encs_ge ds : Forall wf_entry ds → (length ds ≤ length (encs ds))%nat.
Proof.
  induction ds as [|d ds IH]; intros Hw; [done|]. apply Forall_cons in Hw as [Hd Hw].
  rewrite encs_cons, length_app. pose proof (enc_nonempty d Hd). specialize (IH Hw). simpl. lia.
Qed.

Lemma poss_lookup p ds i d : ds !! i = Some d →
  poss p ds !! i = Some (p + length (encs (take i ds)), p + length (encs (take i ds)) + length (enc d))%nat.
Proof.
  revert p i. induction ds as [|x ds IH]; intros p [|i]; cbn [lookup list_lookup poss take]; try done.
  - intros [= ->]. simpl. by rewrite Nat.add_0_r.
  - intros E. etrans; [apply IH; exact E|]. rewrite encs_cons, length_app. do 2 f_equal; lia.
Qed.

Lemma slice_encs ds i d : ds !! i = Some d →
  slice (encs ds) (length (encs (take i ds))) (length (encs (take i ds)) + length (enc d)) = Some (enc d).
Proof.
  intros E. rewrite <- (take_drop_middle ds i d E) at 1. rewrite encs_app, encs_cons.
  apply slice_app.
Qed.

Lemma decode_enc d : wf_entry d → decode_entry (enc d) = Ok d.
Proof.
  intros H. unfold decode_entry. rewrite <- (app_nil_r (enc d)) at 1. rewrite uvarint_enc by done.
  pose proof (put_uvarint_length _ H).
  rewrite (proj2 (Z.leb_gt _ _)) by lia. unfold enc. rewrite !length_app.
  rewrite (proj2 (Z.ltb_ge _ _)) by lia.
  rewrite Nat2Z.id, Z2Nat.inj_add, !Nat2Z.id by lia.
  rewrite <- (app_nil_r (_ ++ d)), <- app_assoc, slice_app. done.
Qed.

Lemma appendBinaryEntry_encs ds d :
  appendBinaryEntry (encs ds) d =
    (encs (ds ++ [d]), (length (encs ds), length (encs ds) + length (enc d))%nat).
Proof.
  unfold appendBinaryEntry, appendUvarint. rewrite encs_app. cbn -[Binary.put_uvarint].
  unfold encs at 2. cbn -[Binary.put_uvarint]. unfold enc. rewrite app_nil_r, <- app_assoc. f_equal. f_equal.
  by rewrite length_app.
Qed.

Lemma poss_snoc ds d :
  poss 0 (ds ++ [d]) = poss 0 ds ++ [(length (encs ds), length (encs ds) + length (enc d))%nat].
Proof. by rewrite poss_app. Qed.

End entries.
