(* ===== verification/WalInv.v ===== *)
(** * The invariant of the write ahead log

    An open log represents the index of its first entry and the chunks of
    entries of its segments.  This file states how the heap of segments, the
    cache and the directory hold them, and what each internal method does to a
    log that satisfies the invariant when no input/output operation fails. *)

From S2P Require Import Prelude Bytes Wal WalCodec.

Abbreviation chunk := (list (list Z)).

Definition no_flt : nat → option nat := λ _, None.

(** the index of the first entry of chunk [i] *)
Definition start (f : Z) (css : list chunk) (i : nat) : Z := f + lenZ (mjoin (take i css)).

Definition loaded (sg : segment) (c : chunk) : Prop := ebuf sg = encs c ∧ epos sg = poss 0 c.
Definition unloaded (sg : segment) : Prop := ebuf sg = [] ∧ epos sg = [].

(** the segment at [l] stands for the entries [c] starting at index [i] *)
Definition seg_ok (h : gmap nat segment) (d : disk) (l : nat) (i : Z) (c : chunk) : Prop :=
  ∃ sg, h !! l = Some sg ∧ path sg = segmentName i ∧ index sg = i ∧
    d !! segmentName i = Some (File (encs c)) ∧ (loaded sg c ∨ unloaded sg).

Section winv.
Context {C : Type} `{LRU C}.

Record winv_ (f : Z) (css : list chunk) (op : Options) (cl co : bool) (h : gmap nat segment)
    (ls : list nat) (first last_ : Z) (sf : option string) (ca : C) (d : disk) : Prop := {
  wi_open : cl = false ∧ co = false;
  wi_opts : 0 < SegmentSize op ∧ 0 < SegmentCacheSize op;
  wi_first : 1 ≤ f ∧ first = f;
  wi_last : last_ = f + lenZ (mjoin css) - 1 ∧ f + lenZ (mjoin css) < 2 ^ 64;
  wi_len : length ls = length css ∧ css ≠ [];
  wi_nodup : NoDup ls;
  wi_seg : ∀ i l c, ls !! i = Some l → css !! i = Some c → seg_ok h d l (start f css i) c;
  wi_tail : ∀ l c, last ls = Some l → last css = Some c → ∃ sg, h !! l = Some sg ∧ loaded sg c;
  wi_mid : ∀ i c, css !! i = Some c → (S i < length css)%nat → c ≠ [];
  wi_wf : Forall wf_entry (mjoin css);
  wi_cache : ∀ k v, (k, v) ∈ lru_entries ca →
    ∃ i, k = Z.of_nat i ∧ (S i < length ls)%nat ∧ ls !! i = Some v;
  wi_cap : lru_cap ca = Z.to_nat (SegmentCacheSize op);
  wi_sfile : sf = Some (segmentName (start f css (length css - 1)));
  wi_disk : ∀ name nd, d !! name = Some nd → segish name = true →
    ∃ b i, nd = File b ∧ (i < length css)%nat ∧ name = segmentName (start f css i);
  wi_temp : d !! "TEMP" ≠ Some Dir;
}.

(** the invariant reads only these fields, so it ignores the batch and the
    number of input/output operations by conversion *)
Definition winv (f : Z) (css : list chunk) (w : WAL C) : Prop :=
  winv_ f css (opts w) (closed w) (corrupt w) (heap w) (segments w) (firstIndex w) (lastIndex w)
    (sfile w) (scache w) (dir w).
End winv.

(** ** Starts of chunks *)

Section starts.

Lemma start_0 f css : start f css 0 = f.
Proof. unfold start. simpl. lia. Qed.

Lemma start_S f css i c : css !! i = Some c → start f css (S i) = start f css i + lenZ c.
Proof.
  intros E. unfold start. rewrite (take_S_r _ _ _ E), join_app, length_app. simpl.
  rewrite app_nil_r. lia.
Qed.

Lemma start_all f css : start f css (length css) = f + lenZ (mjoin css).
Proof. unfold start. by rewrite firstn_all. Qed.

Lemma start_app_l f css css' i : (i ≤ length css)%nat → start f (css ++ css') i = start f css i.
Proof. intros Hi. unfold start. by rewrite take_app_le. Qed.

Lemma start_mono f css i j : (i ≤ j)%nat → start f css i ≤ start f css j.
Proof.
  intros Hij. unfold start. replace j with (i + (j - i))%nat by lia.
  rewrite <- (take_take_drop css i (j - i)), join_app, length_app. lia.
Qed.

Lemma start_le_total f css i : start f css i ≤ f + lenZ (mjoin css).
Proof.
  unfold start. rewrite <- (take_drop i css) at 2. rewrite join_app, length_app. lia.
Qed.

Lemma start_lt f css i j :
  (∀ k c, css !! k = Some c → (S k < length css)%nat → c ≠ []) →
  (i < j)%nat → (j < length css)%nat → start f css i < start f css j.
Proof.
  intros Hmid Hij Hj. destruct (lookup_lt_is_Some_2 css i ltac:(lia)) as [c Hc].
  pose proof (start_S f css i c Hc). pose proof (start_mono f css (S i) j ltac:(lia)).
  assert (c ≠ []) as Hne by (eapply Hmid; [done|lia]). destruct c; [done|]. simpl in *. lia.
Qed.

(** the entry of index [f + n] is in the chunk whose range contains it *)
Lemma join_lookup f css i c (n : nat) :
  css !! i = Some c → start f css i ≤ f + Z.of_nat n < start f css i + lenZ c →
  mjoin css !! n = c !! Z.to_nat (f + Z.of_nat n - start f css i).
Proof.
  intros Hc Hn. unfold start in *.
  rewrite <- (take_drop_middle css i c Hc) at 1. rewrite join_app. cbn.
  rewrite lookup_app_r by lia. rewrite lookup_app_l by lia. f_equal. lia.
Qed.

End starts.

Definition located (f : Z) (css : list chunk) (idx : Z) (i : nat) (c : chunk) : Prop :=
  css !! i = Some c ∧ start f css i ≤ idx < start f css i + lenZ c.

Section locate.

Lemma Forall_join_lookup {A} (P : A → Prop) (css : list (list A)) i c :
  Forall P (mjoin css) → css !! i = Some c → Forall P c.
Proof.
  intros Hall Hc. rewrite <- (take_drop_middle css i c Hc), join_app in Hall.
  apply Forall_app in Hall as [_ Hall]. change (mjoin (c :: ?l)) with (c ++ mjoin l) in Hall.
  by apply Forall_app in Hall as [? _].
Qed.

Lemma lenZ_join_cons {A} (c : list A) css : lenZ (mjoin (c :: css)) = lenZ c + lenZ (mjoin css).
Proof. change (mjoin (c :: css)) with (c ++ mjoin css). rewrite length_app. lia. Qed.

Lemma located_exists f css idx :
  f ≤ idx < f + lenZ (mjoin css) → ∃ i c, located f css idx i c.
Proof.
  revert f. induction css as [|c css IH]; intros f Hi.
  - cbn [mjoin list_join length] in Hi. lia.
  - rewrite lenZ_join_cons in Hi. destruct (decide (idx < f + lenZ c)).
    + exists 0%nat, c. split; [done|]. rewrite start_0. lia.
    + destruct (IH (f + lenZ c)) as (i & c' & Hc & Hs); [lia|].
      exists (S i), c'. split; [done|]. unfold start in *. rewrite firstn_cons, lenZ_join_cons. lia.
Qed.

Lemma located_unique f css idx i c j c' :
  located f css idx i c → located f css idx j c' → i = j ∧ c = c'.
Proof.
  assert (∀ i c j c', located f css idx i c → located f css idx j c' → ¬ (i < j)%nat) as Hlt.
  { intros i0 c0 j0 c0' [Hc Hs] [Hc' Hs'] Hij. pose proof (start_S f css _ _ Hc).
    pose proof (start_mono f css (S i0) j0 ltac:(lia)). lia. }
  intros Hi Hj. pose proof (Hlt _ _ _ _ Hi Hj). pose proof (Hlt _ _ _ _ Hj Hi).
  assert (i = j) as -> by lia. split; [done|]. destruct Hi, Hj. congruence.
Qed.

(** the binary search returns the number of segments that start at or before [idx] *)
Lemma bsearch_ok fuel i j idx ls h (st : nat → Z) :
  (∀ k, (k < length ls)%nat → ∃ l sg, ls !! k = Some l ∧ h !! l = Some sg ∧ index sg = st k) →
  (∀ k k', (k ≤ k')%nat → st k ≤ st k') →
  (i ≤ j ≤ length ls)%nat → (j - i ≤ fuel)%nat →
  (∀ k, (k < i)%nat → st k ≤ idx) → (∀ k, (j ≤ k < length ls)%nat → idx < st k) →
  ∃ r, bsearch fuel i j idx ls h = Some r ∧ (r ≤ length ls)%nat ∧
    (∀ k, (k < r)%nat → st k ≤ idx) ∧ (∀ k, (r ≤ k < length ls)%nat → idx < st k).
Proof.
  intros Hst Hmono. revert i j. induction fuel as [|fuel IH]; intros i j Hij Hf Hlo Hhi; cbn [bsearch].
  - rewrite bool_decide_false by lia. exists i. split; [done|split; [lia|split; [done|]]].
    intros k Hk. apply Hhi. lia.
  - case_bool_decide as Hlt.
    + set (m := (i + (j - i) / 2)%nat).
      assert (i ≤ m < j)%nat as Hm.
      { unfold m. pose proof (Nat.div_lt (j - i) 2 ltac:(lia) ltac:(lia)). lia. }
      destruct (Hst m) as (l & sg & -> & E & Hi); [lia|]. cbn. rewrite E. cbn. rewrite Hi.
      destruct (Z.leb_spec (st m) idx) as [Hle|Hgt].
      * apply IH; [lia|lia| |done]. intros k Hk.
        etrans; [|exact Hle]. apply Hmono. lia.
      * apply IH; [lia|lia|done|]. intros k Hk. pose proof (Hmono m k). lia.
    + exists i. split; [done|split; [lia|split; [done|]]]. intros k Hk. apply Hhi. lia.
Qed.

End locate.

Section access.
Context {C : Type} `{LRU C}.
Implicit Types (w : WAL C) (f : Z) (css : list chunk).

(** what reading the log leaves alone *)
Definition frame (w w' : WAL C) : Prop :=
  opts w' = opts w ∧ segments w' = segments w ∧ dir w' = dir w ∧ wbatch w' = wbatch w.

#[export] Instance frame_refl : Reflexive frame.
Proof. done. Qed.
#[export] Instance frame_trans : Transitive frame.
Proof. unfold frame. intros w1 w2 w3 (?&?&?&?) (?&?&?&?). split_and!; congruence. Qed.

Lemma winv_start_u64 f css w i : winv f css w → in_u64 (start f css i) ∧ 0 < start f css i.
Proof.
  intros Hw. pose proof (wi_last _ _ _ _ _ _ _ _ _ _ _ _ Hw) as [_ Hb].
  pose proof (wi_first _ _ _ _ _ _ _ _ _ _ _ _ Hw) as [Hf _].
  pose proof (start_le_total f css i). pose proof (start_mono f css 0 i ltac:(lia)) as Hm.
  rewrite start_0 in Hm. unfold in_u64. lia.
Qed.

(** two chunks in the log have different names *)
Lemma winv_name_inj f css w i j :
  winv f css w → (i < length css)%nat → (j < length css)%nat →
  segmentName (start f css i) = segmentName (start f css j) → i = j.
Proof.
  intros Hw Hi Hj E. apply segmentName_inj in E; try eapply winv_start_u64; eauto.
  pose proof (wi_mid _ _ _ _ _ _ _ _ _ _ _ _ Hw) as Hmid.
  destruct (Nat.lt_trichotomy i j) as [Hlt|[->|Hlt]]; [|done|].
  - pose proof (start_lt f css i j Hmid Hlt Hj). lia.
  - pose proof (start_lt f css j i Hmid Hlt Hi). lia.
Qed.

Lemma winv_seg f css w i c :
  winv f css w → css !! i = Some c →
  ∃ l sg, segments w !! i = Some l ∧ heap w !! l = Some sg ∧
    path sg = segmentName (start f css i) ∧ index sg = start f css i ∧
    dir w !! segmentName (start f css i) = Some (File (encs c)) ∧ (loaded sg c ∨ unloaded sg).
Proof.
  intros Hw Hc. destruct (wi_len _ _ _ _ _ _ _ _ _ _ _ _ Hw) as [Hlen _].
  destruct (lookup_lt_is_Some_2 (segments w) i) as [l Hl].
  { rewrite Hlen. by eapply lookup_lt_Some. }
  destruct (wi_seg _ _ _ _ _ _ _ _ _ _ _ _ Hw _ _ _ Hl Hc) as (sg & ?). by exists l, sg.
Qed.

Lemma winv_tail f css w :
  winv f css w → ∃ l c sg, last (segments w) = Some l ∧ last css = Some c ∧
    segments w !! (length css - 1)%nat = Some l ∧ css !! (length css - 1)%nat = Some c ∧
    heap w !! l = Some sg ∧ loaded sg c ∧
    path sg = segmentName (start f css (length css - 1)) ∧ index sg = start f css (length css - 1).
Proof.
  intros Hw. destruct (wi_len _ _ _ _ _ _ _ _ _ _ _ _ Hw) as [Hlen Hne].
  destruct (lookup_lt_is_Some_2 css (length css - 1)%nat) as [c Hc].
  { destruct css; [done|simpl; lia]. }
  destruct (winv_seg f css w _ c Hw Hc) as (l & sg & Hl & Hsg & Hp & Hi & _).
  assert (last (segments w) = Some l) as El.
  { rewrite last_lookup, <- Hl. f_equal. lia. }
  assert (last css = Some c) as Ec by (rewrite last_lookup, <- Hc; f_equal; lia).
  destruct (wi_tail _ _ _ _ _ _ _ _ _ _ _ _ Hw _ _ El Ec) as (sg' & Hsg' & Hld).
  exists l, c, sg. assert (sg' = sg) as -> by congruence. done.
Qed.

Lemma findSegment_ok f css w idx i c :
  winv f css w → located f css idx i c → findSegment idx w = (Ok (Z.of_nat i), w).
Proof.
  intros Hw [Hc Hs]. unfold findSegment. destruct (wi_len _ _ _ _ _ _ _ _ _ _ _ _ Hw) as [Hlen _].
  destruct (bsearch_ok (length (segments w)) 0 (length (segments w)) idx (segments w) (heap w) (start f css))
    as (r & E & Hr & Hlo & Hhi); try lia.
  - intros k Hk. destruct (lookup_lt_is_Some_2 css k) as [c' Hc']; [lia|].
    destruct (winv_seg f css w k c' Hw Hc') as (l & sg & ? & ? & _ & ? & _). by exists l, sg.
  - apply start_mono.
  - run_monad. rewrite E. simpl. pose proof (lookup_lt_Some _ _ _ Hc).
    assert (i < r)%nat as H1.
    { destruct (decide (i < r)%nat); [done|]. pose proof (Hhi i ltac:(lia)). lia. }
    assert (r ≤ S i)%nat as H2.
    { destruct (decide (r ≤ S i)%nat); [done|]. pose proof (Hlo (S i) ltac:(lia)).
      pose proof (start_S f css i c Hc). lia. }
    do 2 f_equal. lia.
Qed.

(** ** Buffers come and go *)

(** a heap whose segments have the same files and buffers that are right *)
Definition heap_step (css : list chunk) (ls : list nat) (h h' : gmap nat segment) : Prop :=
  ∀ i l c sg, ls !! i = Some l → css !! i = Some c → h !! l = Some sg →
    ∃ sg', h' !! l = Some sg' ∧ path sg' = path sg ∧ index sg' = index sg ∧
      (loaded sg' c ∨ (unloaded sg' ∧ S i < length css)%nat).

Lemma winv_heap_step f css w h' :
  winv f css w → heap_step css (segments w) (heap w) h' → winv f css (set_heap h' w).
Proof.
  intros Hw Hs. destruct (wi_len _ _ _ _ _ _ _ _ _ _ _ _ Hw) as [Hlen Hne].
  destruct Hw. split; try done; cbn.
  - intros i l c Hl Hc. destruct (wi_seg0 i l c Hl Hc) as (sg & Hsg & Hp & Hi & Hd & _).
    destruct (Hs i l c sg Hl Hc Hsg) as (sg' & E & Ep & Ei & Hb). exists sg'.
    split_and!; [done|congruence|congruence|done|]. destruct Hb as [|[? _]]; auto.
  - intros l c Hl Hc. rewrite last_lookup in Hl. rewrite last_lookup in Hc.
    destruct (wi_seg0 (pred (length css)) l c) as (sg & Hsg & _); [by rewrite <- Hlen|done|].
    destruct (Hs (pred (length css)) l c sg) as (sg' & E & _ & _ & Hb); [by rewrite <- Hlen|done|done|].
    exists sg'. split; [done|]. destruct Hb as [|[_ Hlt]]; [done|lia].
Qed.

(** loading the entries of a segment from its file *)
Lemma loadSegmentEntries_runs f css w i s c (Q : unit → WAL C → Prop) :
  winv f css w → segments w !! i = Some s → css !! i = Some c →
  (∀ w' sg, winv f css w' → frame w w' → scache w' = scache w → heap w' !! s = Some sg → loaded sg c →
    (∀ l, l ≠ s → heap w' !! l = heap w !! l) → Q tt w') →
  runs (loadSegmentEntries no_flt s) w Q.
Proof.
  intros Hw Hs Hc HQ. destruct (winv_seg f css w i c Hw Hc) as (l & sg & Hl & Hsg & Hp & Hi & Hd & _).
  assert (l = s) as -> by congruence.
  unfold loadSegmentEntries, deref, ReadFile, io_ok, io, update, runs. run_monad.
  rewrite Hsg. cbn. rewrite Hp, Hd. cbn.
  assert (Forall wf_entry c) as Hwf.
  { eapply Forall_join_lookup; [apply Hw|done]. }
  rewrite load_entries_encs by (done || by apply length_encs_ge). cbn.
  set (sg' := set_bufs (encs c) (poss 0 c) sg).
  assert (alter (set_bufs (encs c) (poss 0 c)) s (heap w) !! s = Some sg') as E
    by by rewrite lookup_alter_eq, Hsg.
  eapply HQ; [| |done|exact E|by split|].
  - apply (winv_heap_step f css w (alter (set_bufs (encs c) (poss 0 c)) s (heap w))); [done|].
    intros j l c' sg0 Hl0 Hc0 Hsg0.
    destruct (decide (l = s)) as [->|Hne].
    + exists sg'. assert (j = i) as -> by (eapply NoDup_lookup; [apply Hw|done..]).
      assert (c' = c) as -> by congruence. assert (sg0 = sg) as -> by congruence.
      split_and!; [done..|left; by split].
    + rewrite lookup_alter_ne by done. exists sg0. split_and!; [done..|].
      destruct (wi_seg _ _ _ _ _ _ _ _ _ _ _ _ Hw j l c' Hl0 Hc0) as (sg1 & E1 & _ & _ & _ & Hb).
      assert (sg1 = sg0) as -> by congruence. destruct Hb as [|Hb]; [by left|].
      destruct (decide (S j < length css)%nat); [by right|].
      left. pose proof (lookup_lt_Some _ _ _ Hc0).
      destruct (winv_tail f css w Hw) as (l2 & c2 & sg2 & _ & _ & Hl2 & Hc2 & Hsg2 & Hld & _).
      assert (j = length css - 1)%nat as -> by lia. congruence.
  - done.
  - intros l Hne. by apply lookup_alter_ne.
Qed.
End access.

Section steps.
Context {C : Type} `{LRU C}.
Implicit Types (w : WAL C).

Lemma tail_runs w l (Q : nat → WAL C → Prop) : last (segments w) = Some l → Q l w → runs tail w Q.
Proof. intros E HQ. unfold runs, tail. run_monad. rewrite E. done. Qed.

Lemma deref_runs w s sg (Q : segment → WAL C → Prop) : heap w !! s = Some sg → Q sg w → runs (deref s) w Q.
Proof. intros E HQ. unfold runs, deref. run_monad. rewrite E. done. Qed.

Lemma nth_segment_runs w i s (Q : nat → WAL C → Prop) :
  segments w !! i = Some s → Q s w → runs (nth_segment (Z.of_nat i)) w Q.
Proof.
  intros E HQ. unfold runs, nth_segment. run_monad.
  rewrite (proj2 (Z.ltb_ge _ _)) by lia. rewrite Nat2Z.id, E. done.
Qed.

Definition tick w : WAL C := set_ticks (S (ticks w)) w.

Lemma sfile_Sync_runs w n (Q : unit → WAL C → Prop) :
  sfile w = Some n → Q tt (tick w) → runs (sfile_Sync no_flt) w Q.
Proof. intros E HQ. unfold runs, sfile_Sync, io_ok, io. run_monad. by rewrite E. Qed.

Lemma sfile_Close_runs w n (Q : unit → WAL C → Prop) :
  sfile w = Some n → Q tt (set_sfile None (tick w)) → runs (sfile_Close no_flt) w Q.
Proof. intros E HQ. unfold runs, sfile_Close, io. run_monad. by rewrite E. Qed.

Lemma sfile_Write_runs w n bs (Q : unit → WAL C → Prop) :
  sfile w = Some n → Q tt (set_dir (alter (append_bytes bs) n (dir w)) (tick w)) →
  runs (sfile_Write no_flt bs) w Q.
Proof. intros E HQ. unfold runs, sfile_Write, io. run_monad. by rewrite E. Qed.

Lemma open_create_runs w n (Q : unit → WAL C → Prop) :
  dir w !! n ≠ Some Dir → Q tt (set_sfile (Some n) (set_dir (<[n := File []]> (dir w)) (tick w))) →
  runs (open_create no_flt n) w Q.
Proof.
  intros E HQ. unfold runs, open_create, io. run_monad. by destruct (dir w !! n) as [[]|].
Qed.

Lemma open_append_runs w n b (Q : Z → WAL C → Prop) :
  dir w !! n = Some (File b) → Q (lenZ b) (tick (set_sfile (Some n) (tick w))) →
  runs (open_append no_flt n) w Q.
Proof. intros E HQ. unfold runs, open_append, io_ok, io. run_monad. by rewrite E. Qed.

Lemma os_Remove_runs w n (Q : unit → WAL C → Prop) :
  is_Some (dir w !! n) → Q tt (set_dir (delete n (dir w)) (tick w)) → runs (os_Remove no_flt n) w Q.
Proof. intros [i E] HQ. unfold runs, os_Remove, io_ok, io. run_monad. by rewrite E. Qed.

Lemma os_Rename_runs w n n' b (Q : unit → WAL C → Prop) :
  dir w !! n = Some (File b) → Q tt (set_dir (<[n' := File b]> (delete n (dir w))) (tick w)) →
  runs (os_Rename no_flt n n') w Q.
Proof. intros E HQ. unfold runs, os_Rename, io_ok, io. run_monad. by rewrite E. Qed.

Lemma new_segment_runs w sg (Q : nat → WAL C → Prop) :
  (∀ l, l ∉ dom (heap w) → Q l (set_heap (<[l := sg]> (heap w)) w)) → runs (new_segment sg) w Q.
Proof. intros HQ. apply HQ, is_fresh. Qed.

Lemma update_runs w s g (Q : unit → WAL C → Prop) :
  Q tt (set_heap (alter g s (heap w)) w) → runs (update s g) w Q.
Proof. done. Qed.
End steps.

(** one step of a computation whose first call is described by a [runs] lemma *)
Tactic Notation "step" uconstr(H) := apply runs_bind; eapply H.

Section cache.
Context {C : Type} `{LRU C}.
Implicit Types (w : WAL C) (f : Z) (css : list chunk).

(** the effect of [pushCache]: the segment becomes the most recent one and at
    most one other cached segment loses its buffers *)
Lemma pushCache_eq w i s :
  (0 < lru_cap (scache w))%nat → segments w !! i = Some s →
  ∃ h' c', pushCache (Z.of_nat i) w = (Ok tt, set_heap h' (set_scache c' w)) ∧
    lru_cap c' = lru_cap (scache w) ∧ (Z.of_nat i, s) ∈ lru_entries c' ∧
    (∀ e, e ∈ lru_entries c' → e = (Z.of_nat i, s) ∨ e ∈ lru_entries (scache w)) ∧
    (h' = heap w ∨ ∃ k v, (k, v) ∈ lru_entries (scache w) ∧ k ≠ Z.of_nat i ∧
      h' = alter (set_bufs [] []) v (heap w)).
Proof.
  intros Hcap Hs. unfold pushCache. run_monad. rewrite Nat2Z.id, Hs. simpl.
  pose proof (lru_set_cap (Z.of_nat i) s (scache w)) as Hc.
  pose proof (lru_set_entries (Z.of_nat i) s (scache w) Hcap) as He.
  pose proof (lru_set_evicted (Z.of_nat i) s (scache w) Hcap) as Hev.
  destruct (lru_set (Z.of_nat i) s (scache w)) as [ev c']. cbn [fst snd] in *.
  assert ((Z.of_nat i, s) ∈ lru_entries c') as Hin.
  { rewrite He. destruct (lru_cap (scache w)); [lia|]. rewrite firstn_cons. by constructor. }
  assert (∀ e, e ∈ lru_entries c' → e = (Z.of_nat i, s) ∨ e ∈ lru_entries (scache w)) as Hsub.
  { intros e Hin'. rewrite He in Hin'. apply take_elem, elem_of_cons in Hin' as [|Hin']; [by left|right].
    by apply list_elem_of_filter in Hin' as [_ ?]. }
  destruct ev as [v|]; run_monad; [|exists (heap w), c'; split; [by destruct w|split_and!; auto]].
  eexists _, c'. split; [done|]. split_and!; [done..|]. right.
  destruct (drop (lru_cap (scache w)) ((Z.of_nat i, s) :: filter (λ e, e.1 ≠ Z.of_nat i) (lru_entries (scache w))))
    as [|[k v'] rest] eqn:Ed; [done|]. simpl in Hev. injection Hev as <-.
  assert ((k, v) ∈ filter (λ e : Z * nat, e.1 ≠ Z.of_nat i) (lru_entries (scache w))) as Hf.
  { destruct (lru_cap (scache w)) as [|n]; [lia|]. simpl in Ed. apply (drop_elem _ n). rewrite Ed. by constructor. }
  apply list_elem_of_filter in Hf as [Hk Hf]. by exists k, v.
Qed.

Lemma winv_loc_inj f css w i j l :
  winv f css w → segments w !! i = Some l → segments w !! j = Some l → i = j.
Proof. intros Hw. apply NoDup_lookup, Hw. Qed.

(** dropping the buffers of a segment that is not the tail *)
Lemma unload_step f css w j v :
  winv f css w → segments w !! j = Some v → (S j < length css)%nat →
  heap_step css (segments w) (heap w) (alter (set_bufs [] []) v (heap w)).
Proof.
  intros Hw Hv Hj i l c sg Hl Hc Hsg. destruct (decide (l = v)) as [->|Hne].
  - exists (set_bufs [] [] sg). assert (i = j) as -> by by eapply winv_loc_inj.
    rewrite lookup_alter_eq, Hsg. split_and!; [done..|]. right. split; [by split|done].
  - rewrite lookup_alter_ne by done. exists sg. split_and!; [done..|].
    destruct (winv_seg f css w i c Hw Hc) as (l' & sg' & Hl' & Hsg' & _ & _ & _ & Hb).
    assert (l' = l) as -> by congruence. assert (sg' = sg) as -> by congruence.
    destruct Hb as [|Hb]; [by left|]. destruct (decide (S i < length css)%nat); [by right|left].
    pose proof (lookup_lt_Some _ _ _ Hc).
    destruct (winv_tail f css w Hw) as (l2 & c2 & sg2 & _ & _ & Hl2 & Hc2 & Hsg2 & Hld & _).
    assert (i = length css - 1)%nat as -> by lia. congruence.
Qed.

Lemma winv_set_cache f css w ca :
  winv f css w → lru_cap ca = lru_cap (scache w) →
  (∀ k v, (k, v) ∈ lru_entries ca → ∃ i, k = Z.of_nat i ∧ (S i < length (segments w))%nat ∧ segments w !! i = Some v) →
  winv f css (set_scache ca w).
Proof. intros [] Hcap He. split; try done. cbn. congruence. Qed.

Lemma pushCache_runs f css w i s (Q : unit → WAL C → Prop) :
  winv f css w → segments w !! i = Some s → (S i < length css)%nat →
  (∀ w', winv f css w' → frame w w' → (Z.of_nat i, s) ∈ lru_entries (scache w') →
    heap w' !! s = heap w !! s → Q tt w') →
  runs (pushCache (Z.of_nat i)) w Q.
Proof.
  intros Hw Hs Hi HQ.
  assert (0 < lru_cap (scache w))%nat as Hcap.
  { destruct (wi_opts _ _ _ _ _ _ _ _ _ _ _ _ Hw). pose proof (wi_cap _ _ _ _ _ _ _ _ _ _ _ _ Hw). lia. }
  destruct (wi_len _ _ _ _ _ _ _ _ _ _ _ _ Hw) as [Hlen _].
  destruct (pushCache_eq w i s Hcap Hs) as (h' & c' & E & Hc & Hin & Hsub & Hh).
  eapply runs_intro; [exact E|].
  assert (winv f css (set_scache c' w)) as Hw1.
  { apply winv_set_cache; [done..|]. intros k v [[= -> ->]|He]%Hsub.
    - exists i. split; [done|split; [lia|done]].
    - by apply (wi_cache _ _ _ _ _ _ _ _ _ _ _ _ Hw). }
  destruct Hh as [->|(k & v & He & Hk & ->)].
  - apply HQ; [|done..]. by destruct w.
  - destruct (wi_cache _ _ _ _ _ _ _ _ _ _ _ _ Hw _ _ He) as (j & -> & Hj & Hv).
    apply HQ; [|done|done|].
    + apply (winv_heap_step f css (set_scache c' w) (alter (set_bufs [] []) v (heap w))); [done|].
      apply (unload_step f css w j); [done..|lia].
    + apply lookup_alter_ne. intros ->. apply Hk. f_equal. symmetry. by eapply winv_loc_inj.
Qed.

(** [loadSegment] returns the segment of the entry, loaded; a segment that is
    not the tail is then in the cache *)
Lemma loadSegment_runs f css w idx i c (Q : nat → WAL C → Prop) :
  winv f css w → located f css idx i c →
  (∀ s sg w', winv f css w' → frame w w' → segments w !! i = Some s → heap w' !! s = Some sg →
    loaded sg c → index sg = start f css i →
    ((S i < length css)%nat → ∃ k, (k, s) ∈ lru_entries (scache w')) → Q s w') →
  runs (loadSegment no_flt idx) w Q.
Proof.
  intros Hw Hloc HQ. pose proof Hloc as [Hc Hs]. pose proof (lookup_lt_Some _ _ _ Hc) as Hic.
  destruct (winv_tail f css w Hw) as (tl & tc & tsg & Hlast & _ & Htl & Htc & Htsg & Htld & _ & Htidx).
  destruct (wi_len _ _ _ _ _ _ _ _ _ _ _ _ Hw) as [Hlen _].
  unfold loadSegment. step tail_runs; [done|]. step deref_runs; [done|]. rewrite Htidx.
  destruct (Z.leb_spec (start f css (length css - 1)) idx) as [Hge|Hlt].
  { (* the tail *)
    assert (i = length css - 1)%nat as ->.
    { destruct (decide (i < length css - 1)%nat); [|lia].
      pose proof (start_mono f css (S i) (length css - 1) ltac:(lia)). pose proof (start_S f css i c Hc). lia. }
    eapply HQ; [done|done|done|exact Htsg|congruence|done|lia]. }
  assert (S i < length css)%nat as Hmid.
  { destruct (decide (S i < length css)%nat); [done|]. assert (i = length css - 1)%nat as -> by lia. lia. }
  step runs_get. destruct (cached idx w) as [s|] eqn:Ecached.
  { (* the most recent cached segment *)
    unfold cached in Ecached. destruct (head (lru_entries (scache w))) as [[k v]|] eqn:Eh; [|done].
    assert ((k, v) ∈ lru_entries (scache w)) as Hin.
    { destruct (lru_entries (scache w)) as [|e l]; [done|]. injection Eh as ->. by constructor. }
    destruct (wi_cache _ _ _ _ _ _ _ _ _ _ _ _ Hw _ _ Hin) as (j & -> & Hj & Hv).
    destruct (lookup_lt_is_Some_2 css j) as [cj Hcj]; [lia|].
    destruct (winv_seg f css w j cj Hw Hcj) as (l & sg & Hl & Hsg & _ & Hidx & _ & Hb).
    assert (l = v) as -> by congruence. rewrite Hsg in Ecached. cbn in Ecached. rewrite Hidx in Ecached.
    destruct (Z.leb_spec (start f css j) idx) as [Hle|]; [|done].
    destruct (Z.ltb_spec idx (u64 (start f css j + lenZ (epos sg)))) as [Hlt'|]; [|done].
    injection Ecached as <-. pose proof (start_S f css j cj Hcj) as HS.
    pose proof (proj1 (winv_start_u64 f css w (S j) Hw)) as Hu. pose proof (proj1 (winv_start_u64 f css w j Hw)) as Hu'.
    unfold in_u64 in Hu, Hu'.
    destruct Hb as [Hld|[_ Hun]].
    - pose proof (proj2 Hld) as Hp. rewrite Hp, length_poss, u64_small in Hlt' by (unfold in_u64; lia).
      destruct (located_unique f css idx j cj i c) as [-> ->]; [split; [done|lia]|done|].
      eapply HQ; [done|done|done|exact Hsg|done|done|]. intros _. by eexists.
    - rewrite Hun, u64_small in Hlt' by (unfold in_u64; simpl; lia). simpl in Hlt'. lia. }
  (* the segment array *)
  destruct (winv_seg f css w i c Hw Hc) as (s & sg & Hls & Hsg & _ & Hidx & _ & Hb).
  step runs_intro; [by apply (findSegment_ok f css w idx i c)|].
  step nth_segment_runs; [done|]. step deref_runs; [done|].
  assert (∀ w1 sg1, winv f css w1 → frame w w1 → heap w1 !! s = Some sg1 → loaded sg1 c →
    runs (_ ← pushCache (Z.of_nat i); mret s) w1 Q) as Hrest.
  { intros w1 sg1 Hw1 Hf1 Hsg1 Hld1. pose proof Hf1 as (_ & Hseg1 & _).
    step (pushCache_runs f css w1 i s); [done|congruence|done|]. intros w2 Hw2 Hf2 Hin2 Hh2.
    destruct (winv_seg f css w1 i c Hw1 Hc) as (s2 & sg2 & Hls2 & Hsg2 & _ & Hi2 & _).
    assert (s2 = s) as -> by congruence. assert (sg2 = sg1) as -> by congruence.
    eapply (HQ s sg1); [done|by etrans|done|congruence|done|done|]. intros _. by eexists. }
  apply runs_bind. case_bool_decide as Ep.
  - apply (loadSegmentEntries_runs f css w i s c); [done..|].
    intros w1 sg1 Hw1 Hf1 _ Hsg1 Hld1 _. by eapply Hrest.
  - apply runs_ret. destruct Hb as [Hld|[_ Hun]]; [|done]. by eapply Hrest.
Qed.
End cache.

(** ** Reading *)

Section reading.
Context {C : Type} `{LRU C}.
Implicit Types (w : WAL C) (f : Z) (css : list chunk).

Lemma check_open_runs f css w (Q : unit → WAL C → Prop) :
  winv f css w → Q tt w → runs check_open w Q.
Proof.
  intros Hw HQ. destruct (wi_open _ _ _ _ _ _ _ _ _ _ _ _ Hw) as [Hc Hco].
  unfold runs, check_open. run_monad. by rewrite Hco, Hc.
Qed.

Lemma winv_range f css w : winv f css w →
  firstIndex w = f ∧ lastIndex w = f + lenZ (mjoin css) - 1 ∧ 1 ≤ f ∧ f + lenZ (mjoin css) < 2 ^ 64.
Proof. intros []. intuition. Qed.

Lemma Read_runs f css w idx (Q : list Z → WAL C → Prop) :
  winv f css w → f ≤ idx < f + lenZ (mjoin css) →
  (∀ d w', winv f css w' → frame w w' → mjoin css !! Z.to_nat (idx - f) = Some d → Q d w') →
  runs (Read no_flt idx) w Q.
Proof.
  intros Hw Hr HQ. destruct (winv_range f css w Hw) as (Hf & Hl & Hf1 & Hb).
  unfold Read. step check_open_runs; [done|]. step runs_get. rewrite Hf, Hl.
  rewrite (proj2 (Z.eqb_neq idx 0)), (proj2 (Z.ltb_ge idx f)),
    (proj2 (Z.ltb_ge (f + lenZ (mjoin css) - 1) idx)) by lia. cbn [orb].
  destruct (located_exists f css idx Hr) as (i & c & Hloc). pose proof Hloc as [Hc Hs].
  step (loadSegment_runs f css w idx i c); [done..|]. intros s sg w' Hw' Hf' Hls Hsg [Heb Hep] Hidx _.
  step deref_runs; [done|]. rewrite Hidx, Hep, Heb.
  pose proof (proj1 (winv_start_u64 f css w i Hw)) as Hu. unfold in_u64 in Hu.
  rewrite u64_small by (unfold in_u64; lia).
  set (n := Z.to_nat (idx - start f css i)).
  destruct (lookup_lt_is_Some_2 c n) as [d Hd]; [unfold n; lia|].
  step runs_from_option; [by apply poss_lookup|]. cbn [fst snd]. rewrite Nat.add_0_l.
  step runs_from_option; [by apply slice_encs|].
  assert (wf_entry d) as Hwf.
  { pose proof (Forall_join_lookup _ _ _ _ (wi_wf _ _ _ _ _ _ _ _ _ _ _ _ Hw) Hc) as Hall.
    by eapply Forall_lookup_1. }
  rewrite decode_enc by done. unfold runs, lift. apply HQ; [done..|].
  rewrite (join_lookup f css i c) by (done || lia). rewrite <- Hd. f_equal. unfold n. lia.
Qed.

(** outside the range [Read] answers [ErrNotFound] and changes nothing *)
Lemma Read_out_of_range f css w idx :
  winv f css w → ¬ (f ≤ idx < f + lenZ (mjoin css)) → Read no_flt idx w = (Err ErrNotFound, w).
Proof.
  intros Hw Hr. destruct (winv_range f css w Hw) as (Hf & Hl & Hf1 & Hb).
  destruct (wi_open _ _ _ _ _ _ _ _ _ _ _ _ Hw) as [Hc Hco].
  unfold Read, check_open. run_monad. rewrite Hco, Hc. cbn. rewrite Hf, Hl.
  destruct (Z.eqb_spec idx 0), (Z.ltb_spec idx f), (Z.ltb_spec (f + lenZ (mjoin css) - 1) idx); done || lia.
Qed.

Lemma read_from_runs f css w fuel i (Q : list (list Z) → WAL C → Prop) :
  winv f css w → f ≤ i ≤ f + lenZ (mjoin css) → Z.of_nat fuel = f + lenZ (mjoin css) - i →
  (∀ w', winv f css w' → frame w w' → Q (drop (Z.to_nat (i - f)) (mjoin css)) w') →
  runs (read_from no_flt fuel i (f + lenZ (mjoin css) - 1)) w Q.
Proof.
  revert w i Q. induction fuel as [|fuel IH]; intros w i Q Hw Hi Hfu HQ; cbn [read_from].
  - apply runs_ret. rewrite <- (drop_ge (mjoin css) (Z.to_nat (i - f))) by lia. by apply HQ.
  - rewrite (proj2 (Z.leb_le _ _)) by lia. step (Read_runs f css w i); [done|lia|].
    intros d w1 Hw1 Hf1 Hd. apply runs_bind. apply IH; [done|lia|lia|].
    intros w2 Hw2 Hf2. apply runs_ret.
    rewrite (drop_S (mjoin css) d) in HQ by done.
    replace (Z.to_nat (i + 1 - f)) with (S (Z.to_nat (i - f))) by lia.
    apply HQ; [done|by etrans].
Qed.
End reading.

(** ** Writing *)

Section writing.
Context {C : Type} `{LRU C}.
Implicit Types (w : WAL C) (f : Z) (css : list chunk).

Lemma join_snoc {A} (css : list (list A)) c : mjoin (css ++ [c]) = mjoin css ++ c.
Proof. rewrite join_app. cbn. by rewrite app_nil_r. Qed.

(** an empty segment after a tail that has entries *)
Lemma winv_new_segment f css w l ca :
  winv f css w → (∀ c, last css = Some c → c ≠ []) → l ∉ dom (heap w) →
  lru_cap ca = lru_cap (scache w) →
  (∀ k v, (k, v) ∈ lru_entries ca → ∃ i, k = Z.of_nat i ∧ (i < length (segments w))%nat ∧ segments w !! i = Some v) →
  let i := f + lenZ (mjoin css) in
  winv_ f (css ++ [[]]) (opts w) (closed w) (corrupt w) (<[l := mkSegment (segmentName i) i [] []]> (heap w))
    (segments w ++ [l]) (firstIndex w) (lastIndex w) (Some (segmentName i)) ca
    (<[segmentName i := File []]> (dir w)).
Proof.
  intros Hw Hne Hl Hcap Hca i. pose proof Hw as Hw0. destruct Hw as [].
  destruct wi_len0 as [Hlen Hnil].
  assert (start f (css ++ [[]]) (length css) = i) as Hsi by by rewrite start_app_l, start_all.
  assert (∀ j, (j < length css)%nat → start f css j < i) as Hlt.
  { intros j Hj. unfold i. rewrite <- start_all.
    destruct (lookup_lt_is_Some_2 css j Hj) as [c Hc]. pose proof (start_S f css j c Hc).
    pose proof (start_mono f css (S j) (length css) ltac:(lia)).
    assert (c ≠ []) as Hcne.
    { destruct (decide (S j < length css)%nat); [by eapply wi_mid0|].
      apply Hne. rewrite last_lookup, <- Hc. f_equal. lia. }
    destruct c; [done|]. cbn [length] in *. lia. }
  assert (in_u64 i) as Hiu by (unfold in_u64, i; lia).
  assert (∀ j, (j < length css)%nat → segmentName (start f css j) ≠ segmentName i) as Hname.
  { intros j Hj E. apply segmentName_inj in E; [|by eapply winv_start_u64|done]. pose proof (Hlt j Hj). lia. }
  split; try done.
  - unfold i in *. rewrite join_snoc, app_nil_r. done.
  - rewrite !length_app. cbn. split; [lia|]. by destruct css.
  - apply NoDup_app. split_and!; [done| |apply NoDup_singleton].
    intros l' Hl'%list_elem_of_lookup ->%list_elem_of_singleton. destruct Hl' as [j Hj].
    destruct (lookup_lt_is_Some_2 css j) as [c Hc]; [rewrite <- Hlen; by eapply lookup_lt_Some|].
    destruct (wi_seg0 _ _ _ Hj Hc) as (sg & Hsg & _). apply Hl, elem_of_dom. by exists sg.
  - intros j l' c Hl' Hc. apply lookup_snoc_Some in Hl' as [[Hj Hl']|[Hj ->]].
    + rewrite lookup_app_l in Hc by lia. rewrite start_app_l by lia.
      destruct (wi_seg0 _ _ _ Hl' Hc) as (sg & Hsg & Hp & Hi & Hd & Hb). exists sg.
      rewrite lookup_insert_ne by (intros <-; apply Hl, elem_of_dom; by exists sg).
      rewrite lookup_insert_ne by (symmetry; apply Hname; lia). done.
    + assert (j = length css) as -> by lia. rewrite lookup_app_r, Nat.sub_diag in Hc by done.
      injection Hc as <-. rewrite Hsi. eexists. rewrite !lookup_insert_eq. split_and!; [done..|]. by left.
  - intros l' c Hl' Hc. rewrite last_snoc in Hl'. rewrite last_snoc in Hc.
    injection Hl' as <-. injection Hc as <-. eexists. rewrite lookup_insert_eq. by split.
  - intros j c Hc Hj. rewrite length_app in Hj. cbn in Hj. rewrite lookup_app_l in Hc by lia.
    destruct (decide (S j < length css)%nat); [by eapply wi_mid0|].
    apply Hne. rewrite last_lookup, <- Hc. f_equal. lia.
  - by rewrite join_snoc, app_nil_r.
  - intros k v He. destruct (Hca k v He) as (j & -> & Hj & Hv). exists j. rewrite length_app. cbn.
    split_and!; [done|lia|]. by rewrite lookup_app_l.
  - by rewrite Hcap.
  - rewrite length_app. cbn. replace (length css + 1 - 1)%nat with (length css) by lia. by rewrite Hsi.
  - intros name nd. rewrite lookup_insert. case_decide as E.
    + intros [= <-] _. exists [], (length css). rewrite length_app, Hsi. cbn. split_and!; [done|lia|done].
    + intros Hd Hs. destruct (wi_disk0 _ _ Hd Hs) as (b & j & -> & Hj & ->). exists b, j.
      rewrite length_app, start_app_l by lia. cbn. split_and!; [done|lia|done].
  - rewrite lookup_insert_ne; [done|]. intros E.
    apply (f_equal (λ s, length (bytes_of_string s))) in E. rewrite segmentName_bytes, length_digits in E by (unfold i; lia). done.
Qed.

Lemma cycle_runs f css w (Q : unit → WAL C → Prop) :
  winv f css w → (∀ c, last css = Some c → c ≠ []) →
  (∀ w', winv f (css ++ [[]]) w' → opts w' = opts w → wbatch w' = wbatch w → lastIndex w' = lastIndex w → Q tt w') →
  runs (cycle no_flt) w Q.
Proof.
  intros Hw Hne HQ. destruct (winv_range f css w Hw) as (_ & Hlast & Hf1 & Hb).
  destruct (winv_tail f css w Hw) as (tl & tc & tsg & Htl & _ & Hls & _).
  destruct (wi_len _ _ _ _ _ _ _ _ _ _ _ _ Hw) as [Hlen Hnil].
  pose proof (wi_sfile _ _ _ _ _ _ _ _ _ _ _ _ Hw) as Hsf.
  assert (0 < length css)%nat as Hpos by (destruct css; [done|simpl; lia]).
  unfold cycle. step sfile_Sync_runs; [done|]. step sfile_Close_runs; [done|]. step runs_get.
  set (w1 := set_sfile None _).
  assert (0 < lru_cap (scache w1))%nat as Hcap.
  { destruct (wi_opts _ _ _ _ _ _ _ _ _ _ _ _ Hw). pose proof (wi_cap _ _ _ _ _ _ _ _ _ _ _ _ Hw).
    change (scache w1) with (scache w). lia. }
  change (segments w1) with (segments w). rewrite Hlen.
  replace (lenZ css - 1) with (Z.of_nat (length css - 1)) by lia.
  destruct (pushCache_eq w1 (length css - 1) tl Hcap Hls) as (h' & c' & E & Hc & _ & Hsub & Hh).
  step runs_intro; [exact E|]. clear E. step runs_get.
  assert (winv f css (set_heap h' w)) as Hw2.
  { destruct Hh as [->|(k & v & He & Hk & ->)]; [by destruct w|].
    destruct (wi_cache _ _ _ _ _ _ _ _ _ _ _ _ Hw _ _ He) as (j & -> & Hj & Hv).
    apply (winv_heap_step f css w (alter (set_bufs [] []) v (heap w))); [done|]. apply (unload_step f css w j); [done..|lia]. }
  change (lastIndex (set_heap h' (set_scache c' w1))) with (lastIndex w). rewrite Hlast.
  replace (f + lenZ (mjoin css) - 1 + 1) with (f + lenZ (mjoin css)) by lia.
  rewrite u64_small by (unfold in_u64; lia). set (i := f + lenZ (mjoin css)).
  assert (dir w !! segmentName i ≠ Some Dir) as Hnd.
  { intros Hd. destruct (wi_disk _ _ _ _ _ _ _ _ _ _ _ _ Hw _ _ Hd) as (b & ? & ? & _); [|done].
    apply segish_segmentName; unfold in_u64, i; lia. }
  step open_create_runs; [done|]. step new_segment_runs. intros l Hl. apply runs_modify.
  apply HQ; [|done..].
  eapply (winv_new_segment f css (set_heap h' w)); [exact Hw2|done|exact Hl|exact Hc|].
  intros k v [[= -> ->]|He]%Hsub.
  - exists (length css - 1)%nat. cbn. rewrite Hlen. split_and!; [done|lia|done].
  - destruct (wi_cache _ _ _ _ _ _ _ _ _ _ _ _ Hw _ _ He) as (j & -> & Hj & Hv). exists j.
    split_and!; [done|cbn; lia|done].
Qed.

(** an entry more in the tail segment, in memory and in its file *)
Lemma winv_append f css c w s d :
  winv f (css ++ [c]) w → last (segments w) = Some s → wf_entry d →
  f + lenZ (mjoin (css ++ [c])) + 1 < 2 ^ 64 →
  winv_ f (css ++ [c ++ [d]]) (opts w) (closed w) (corrupt w)
    (alter (set_bufs (encs (c ++ [d])) (poss 0 (c ++ [d]))) s (heap w)) (segments w) (firstIndex w)
    (f + lenZ (mjoin (css ++ [c]))) (sfile w) (scache w)
    (alter (append_bytes (enc d)) (segmentName (start f css (length css))) (dir w)).
Proof.
  intros Hw Hs Hd Hb. pose proof Hw as Hw0. destruct Hw as [].
  destruct wi_len0 as [Hlen _]. rewrite length_app in Hlen. cbn in Hlen.
  assert (∀ i, (i ≤ length css)%nat → start f (css ++ [c ++ [d]]) i = start f (css ++ [c]) i) as Hst.
  { intros i Hi. by rewrite !start_app_l. }
  assert (segments w !! length css = Some s) as Hls.
  { rewrite last_lookup, Hlen in Hs. rewrite <- Hs. f_equal. lia. }
  assert (∀ i, (i < length css)%nat → segmentName (start f css (length css)) ≠ segmentName (start f (css ++ [c]) i)) as Hname.
  { intros i Hi E. rewrite <- (start_app_l f css [c]) in E by lia.
    apply (winv_name_inj f (css ++ [c]) w) in E; rewrite ?length_app; cbn; lia || done. }
  split; try done.
  - rewrite !join_snoc, app_assoc, (length_app _ [d]) in *. cbn [length] in *. lia.
  - rewrite !length_app. cbn. split; [lia|]. by destruct css.
  - intros i l c' Hl Hc. apply lookup_snoc_Some in Hc as [[Hi Hc]|[-> <-]].
    + destruct (wi_seg0 i l c' Hl) as (sg & Hsg & Hp & Hix & Hdd & Hld); [by rewrite lookup_app_l|].
      rewrite Hst by lia. exists sg. rewrite lookup_alter_ne.
      * rewrite lookup_alter_ne by by apply Hname. done.
      * intros <-. assert (i = length css) by by eapply winv_loc_inj. lia.
    + assert (l = s) as -> by congruence.
      destruct (wi_seg0 (length css) s c Hls) as (sg & Hsg & Hp & Hix & Hdd & Hld); [by rewrite lookup_app_r, Nat.sub_diag|].
      rewrite Hst by done. rewrite start_app_l in * by done. eexists.
      rewrite !lookup_alter_eq, Hsg, Hdd. cbn. split_and!; [done..| |].
      * by rewrite encs_app, encs_single.
      * left. by split.
  - intros l c' Hl Hc. rewrite last_snoc in Hc. injection Hc as <-.
    assert (l = s) as -> by congruence.
    destruct (wi_seg0 (length css) s c Hls) as (sg & Hsg & _); [by rewrite lookup_app_r, Nat.sub_diag|].
    eexists. rewrite lookup_alter_eq, Hsg. split; [done|by split].
  - intros i c' Hc Hi. rewrite length_app in Hi. cbn in Hi. rewrite lookup_app_l in Hc by lia.
    apply (wi_mid0 i c'); [by rewrite lookup_app_l by lia|]. rewrite length_app. cbn. lia.
  - rewrite join_snoc, app_assoc. rewrite join_snoc in wi_wf0. apply Forall_app. split; [done|by apply Forall_singleton].
  - rewrite wi_sfile0, !length_app. cbn. rewrite Hst by lia. done.
  - intros name nd Hn Hsg. apply lookup_alter_Some in Hn as [(<- & i & Hn & ->)|[Hne Hn]].
    + destruct (wi_disk0 _ _ Hn Hsg) as (b & j & -> & Hj & E). exists (b ++ enc d), j.
      rewrite length_app in *. cbn in *. rewrite Hst by lia. split_and!; [done|lia|done].
    + destruct (wi_disk0 _ _ Hn Hsg) as (b & j & -> & Hj & E). exists b, j.
      rewrite length_app in *. cbn in *. rewrite Hst by lia. split_and!; [done|lia|done].
  - rewrite lookup_alter_ne; [done|]. intros E.
    apply (f_equal (λ s, length (bytes_of_string s))) in E.
    rewrite segmentName_bytes, length_digits in E; [done|].
    pose proof (start_mono f css 0 (length css) ltac:(lia)) as Hm. rewrite start_0 in Hm. lia.
Qed.

Lemma last_split {A} (l : list A) : l ≠ [] → ∃ l0 x, l = l0 ++ [x].
Proof. induction l as [|x l _] using rev_ind; [done|]. intros _. by exists l, x. Qed.

Lemma drop_encs c d : drop (length (encs c)) (encs (c ++ [d])) = enc d.
Proof. by rewrite encs_app, drop_app_length, encs_single. Qed.

Lemma writeBatch_from_runs f css w s d (Q : unit → WAL C → Prop) :
  winv f css w → last (segments w) = Some s → wf_entry d → f + lenZ (mjoin css) + 1 < 2 ^ 64 →
  (∀ css' w', winv f css' w' → mjoin css' = mjoin css ++ [d] → opts w' = opts w → Q tt w') →
  runs (writeBatch_from no_flt (mkBatch [(f + lenZ (mjoin css), length d)] d) s) w Q.
Proof.
  intros Hw Hs Hd Hb HQ. destruct (wi_len _ _ _ _ _ _ _ _ _ _ _ _ Hw) as [Hlen Hnil].
  destruct (last_split css Hnil) as (css0 & c & ->).
  destruct (winv_tail _ _ w Hw) as (tl & tc & tsg & Htl & Htc & _ & _ & Htsg & [Heb Hep] & _).
  rewrite last_snoc in Htc. injection Htc as <-. assert (tl = s) as -> by congruence.
  pose proof (winv_append f css0 c w s d Hw Hs Hd Hb) as Hw'.
  pose proof (wi_sfile _ _ _ _ _ _ _ _ _ _ _ _ Hw) as Hsf.
  rewrite length_app in Hsf. cbn [length] in Hsf. replace (length css0 + 1 - 1)%nat with (length css0) in Hsf by lia.
  rewrite start_app_l in Hsf by done.
  unfold writeBatch_from. step deref_runs; [done|]. rewrite Heb.
  apply runs_bind. cbn [entries datas writeBatch_loop].
  assert (slice d 0 (length d) = Some d) as Hsl.
  { unfold slice. rewrite bool_decide_true by lia. by rewrite drop_0, take_ge by lia. }
  step runs_from_option; [done|]. step deref_runs; [done|]. rewrite Heb, appendBinaryEntry_encs.
  cbv beta iota. rewrite Hep, <- poss_snoc. step update_runs. step runs_get. set (w1 := set_heap _ w).
  assert (heap w1 !! s = Some (set_bufs (encs (c ++ [d])) (poss 0 (c ++ [d])) tsg)) as Hw1s.
  { unfold w1. cbn. by rewrite lookup_alter_eq, Htsg. }
  assert (length (encs c) < length (encs (c ++ [d])))%nat as Hgrow.
  { rewrite encs_app, length_app, encs_single. pose proof (enc_nonempty d Hd). lia. }
  destruct (Z.leb_spec (SegmentSize (opts w1)) (lenZ (encs (c ++ [d])))) as [Hfull|Hroom].
  - step sfile_Write_runs; [exact Hsf|]. rewrite drop_encs. step runs_modify.
    step (cycle_runs f (css0 ++ [c ++ [d]])).
    + exact Hw'.
    + intros c' Hc'. rewrite last_snoc in Hc'. injection Hc' as <-. by destruct c.
    + intros w2 Hw2 Ho2 _ _.
      destruct (winv_tail _ _ w2 Hw2) as (s2 & c2 & sg2 & Hl2 & Hc2 & _ & _ & Hsg2 & [Heb2 _] & _).
      rewrite last_snoc in Hc2. injection Hc2 as <-.
      step tail_runs; [done|]. apply runs_ret. step deref_runs; [done|]. rewrite Heb2.
      cbn. apply runs_bind. apply runs_ret. apply runs_modify.
      eapply (HQ ((css0 ++ [c ++ [d]]) ++ [[]])); [exact Hw2| |exact Ho2].
      by rewrite !join_snoc, app_nil_r, app_assoc.
  - apply runs_ret. step deref_runs; [done|]. cbn [ebuf set_bufs]. rewrite bool_decide_true by done.
    apply runs_bind. step sfile_Write_runs; [exact Hsf|]. rewrite drop_encs.
    step runs_from_option; [done|]. apply runs_modify. apply runs_modify.
    eapply (HQ (css0 ++ [c ++ [d]])); [|by rewrite !join_snoc, app_assoc|done].
    exact Hw'.
Qed.

Lemma Write_runs f css w d (Q : unit → WAL C → Prop) :
  winv f css w → wf_entry d → f + lenZ (mjoin css) + 1 < 2 ^ 64 →
  (∀ css' w', winv f css' w' → mjoin css' = mjoin css ++ [d] → opts w' = opts w → Q tt w') →
  runs (Write no_flt (f + lenZ (mjoin css)) d) w Q.
Proof.
  intros Hw Hd Hb HQ. unfold Write. step check_open_runs; [done|]. step runs_modify. step runs_get.
  set (w1 := set_wbatch _ w). assert (winv f css w1) as Hw1 by exact Hw.
  change (wbatch w1) with (mkBatch [(f + lenZ (mjoin css), length d)] d).
  destruct (winv_tail f css w1 Hw1) as (s & c & sg & Hl & Hc & _ & _ & Hsg & [Heb _] & _).
  unfold writeBatch. step tail_runs; [done|]. step deref_runs; [done|]. step runs_get. apply runs_bind.
  destruct (Z.ltb_spec (SegmentSize (opts w1)) (lenZ (ebuf sg))) as [Hfull|_].
  - step (cycle_runs f css); [done| |].
    + intros c' Hc'. assert (c' = c) as -> by congruence. intros ->. rewrite Heb in Hfull.
      destruct (wi_opts _ _ _ _ _ _ _ _ _ _ _ _ Hw1). change (lenZ (encs [])) with 0 in Hfull. lia.
    + intros w2 Hw2 Ho2 _ _.
      destruct (winv_tail _ _ w2 Hw2) as (s2 & _ & _ & Hl2 & _).
      eapply tail_runs; [done|].
      replace (f + lenZ (mjoin css)) with (f + lenZ (mjoin (css ++ [[]]))) by by rewrite join_snoc, app_nil_r.
      apply (writeBatch_from_runs f (css ++ [[]])); [done..|by rewrite join_snoc, app_nil_r|].
      intros css' w' Hw' Hj Ho. eapply HQ; [done|by rewrite Hj, join_snoc, app_nil_r|by rewrite Ho, Ho2].
  - apply runs_ret. apply (writeBatch_from_runs f css); [done..|].
    intros css' w' Hw' Hj Ho. by eapply HQ.
Qed.
End writing.

(** ** Logs on disk *)

(** the directory [d] holds the log of first index [f] and chunks [css] *)
Record disk_log (f : Z) (css : list chunk) (d : disk) : Prop := {
  dl_first : 1 ≤ f;
  dl_bound : f + lenZ (mjoin css) < 2 ^ 64;
  dl_ne : css ≠ [];
  dl_mid : ∀ i c, css !! i = Some c → (S i < length css)%nat → c ≠ [];
  dl_wf : Forall wf_entry (mjoin css);
  dl_files : ∀ i c, css !! i = Some c → d !! segmentName (start f css i) = Some (File (encs c));
  dl_disk : ∀ name nd, d !! name = Some nd → segish name = true →
    ∃ b i, nd = File b ∧ (i < length css)%nat ∧ name = segmentName (start f css i);
  dl_temp : d !! "TEMP" ≠ Some Dir;
}.

Section disk_logs.
Context {C : Type} `{LRU C}.
Implicit Types (w : WAL C) (f : Z) (css : list chunk) (d : disk).

Lemma winv_disk_log f css w : winv f css w → disk_log f css (dir w).
Proof.
  intros Hw. split.
  - apply (wi_first _ _ _ _ _ _ _ _ _ _ _ _ Hw).
  - apply (wi_last _ _ _ _ _ _ _ _ _ _ _ _ Hw).
  - apply (wi_len _ _ _ _ _ _ _ _ _ _ _ _ Hw).
  - apply (wi_mid _ _ _ _ _ _ _ _ _ _ _ _ Hw).
  - apply (wi_wf _ _ _ _ _ _ _ _ _ _ _ _ Hw).
  - intros i c Hc. destruct (winv_seg f css w i c Hw Hc) as (_ & _ & _ & _ & _ & _ & Hd & _). done.
  - apply (wi_disk _ _ _ _ _ _ _ _ _ _ _ _ Hw).
  - apply (wi_temp _ _ _ _ _ _ _ _ _ _ _ _ Hw).
Qed.

Lemma dl_start f css d i : disk_log f css d → in_u64 (start f css i) ∧ 0 < start f css i.
Proof using.
  intros Hd. pose proof (dl_bound _ _ _ Hd). pose proof (dl_first _ _ _ Hd).
  pose proof (start_le_total f css i). pose proof (start_mono f css 0 i ltac:(lia)) as Hm.
  rewrite start_0 in Hm. unfold in_u64. lia.
Qed.

(** two segments of a log on disk have different names *)
Lemma dl_name_inj f css d i j :
  disk_log f css d → (i < length css)%nat → (j < length css)%nat →
  segmentName (start f css i) = segmentName (start f css j) → i = j.
Proof using.
  intros Hd Hi Hj E. apply segmentName_inj in E; try eapply dl_start; eauto.
  pose proof (dl_mid _ _ _ Hd) as Hmid.
  destruct (Nat.lt_trichotomy i j) as [Hlt|[->|Hlt]]; [|done|].
  - pose proof (start_lt f css i j Hmid Hlt Hj). lia.
  - pose proof (start_lt f css j i Hmid Hlt Hi). lia.
Qed.
End disk_logs.
