(* ===== verification/WalTrunc.v ===== *)
(** * Truncation of the write ahead log

    [ClearCache], [TruncateFront] and [TruncateBack] on a log that satisfies the
    invariant: between the first rename and the last one the directory and the
    memory disagree, so the lemmas follow the whole sequence of operations and
    show that the invariant holds again at the end, for the truncated entries. *)

From S2P Require Import Prelude Bytes Wal WalCodec WalInv.

Section file_names.

Lemma segmentName_length i : 0 ≤ i → String.length (segmentName i) = 20%nat.
Proof. intros H. rewrite <- length_bytes_of_string, segmentName_bytes, length_digits; done. Qed.

Lemma segmentName_not i s : 0 ≤ i → String.length s ≠ 20%nat → segmentName i ≠ s.
Proof. intros Hi Hl <-. by apply Hl, segmentName_length. Qed.

Lemma length_string_app a b : String.length (a +:+ b) = (String.length a + String.length b)%nat.
Proof. induction a; simpl; auto. Qed.

Lemma start_name_length i : 0 ≤ i → String.length (segmentName i +:+ ".START") = 26%nat.
Proof. intros. by rewrite length_string_app, segmentName_length. Qed.
Lemma end_name_length i : 0 ≤ i → String.length (segmentName i +:+ ".END") = 24%nat.
Proof. intros. by rewrite length_string_app, segmentName_length. Qed.

End file_names.

(** ** Exact effects *)

Section effects.
Context {C : Type} `{LRU C}.
Implicit Types (w : WAL C) (f : Z) (css : list chunk).

Definition unload_all (es : list (Z * nat)) (h : gmap nat segment) : gmap nat segment :=
  foldl (λ h e, alter (set_bufs [] []) e.2 h) h es.

Lemma unload_all_lookup es h v :
  unload_all es h !! v = if bool_decide (v ∈ es.*2) then set_bufs [] [] <$> h !! v else h !! v.
Proof.
  unfold unload_all. revert h. induction es as [|e es IH]; intros h; [done|].
  cbn [foldl]. rewrite IH, fmap_cons. destruct (decide (v = e.2)) as [->|Hne].
  - rewrite lookup_alter_eq, (bool_decide_true (_ ∈ _ :: _)) by by constructor.
    case_bool_decide; [|done]. by destruct (h !! e.2).
  - rewrite lookup_alter_ne by done.
    rewrite (bool_decide_ext (v ∈ e.2 :: es.*2) (v ∈ es.*2)); [done|].
    rewrite elem_of_cons. intuition.
Qed.

Lemma clearCache_eq w :
  clearCache w = (Ok tt, set_scache (lru_new (Z.to_nat (SegmentCacheSize (opts w))))
                          (set_heap (unload_all (lru_entries (scache w)) (heap w)) w)).
Proof.
  assert (∀ es w, for_each es (λ e, update e.2 (set_bufs [] [])) w
    = (Ok tt : result wal_error unit, set_heap (unload_all es (heap w)) w)) as Hf.
  { induction es as [|e es IH]; intros w'; [by destruct w'|]. cbn [for_each].
    etrans; [eapply bind_ok; reflexivity|]. by rewrite IH. }
  unfold clearCache. etrans; [eapply bind_ok; reflexivity|]. etrans; [eapply bind_ok, Hf|]. done.
Qed.

Lemma remove_segments_runs w ls ns (Q : unit → WAL C → Prop) :
  Forall2 (λ l n, ∃ sg, heap w !! l = Some sg ∧ path sg = n) ls ns →
  NoDup ns → (∀ n, n ∈ ns → is_Some (dir w !! n)) →
  (∀ d t, (∀ x, d !! x = if bool_decide (x ∈ ns) then None else dir w !! x) →
    Q tt (set_dir d (set_ticks t w))) →
  runs (remove_segments no_flt ls) w Q.
Proof.
  unfold remove_segments. revert w ns Q. induction ls as [|l ls IH]; intros w ns Q Hls Hnd Hd HQ.
  - inversion Hls; subst. apply runs_ret. specialize (HQ (dir w) (ticks w) (λ x, eq_refl)). by destruct w.
  - apply Forall2_cons_inv_l in Hls as (n & ns' & (sg & Hsg & Hp) & Hls & ->).
    apply NoDup_cons in Hnd as [Hni Hnd]. cbn [for_each].
    apply runs_bind. step deref_runs; [done|]. rewrite Hp.
    apply os_Remove_runs; [apply Hd; by constructor|].
    apply (IH _ ns'); [done|done| |].
    + intros n' Hn'. cbn. rewrite lookup_delete_ne; [apply Hd; by constructor|]. intros <-. done.
    + intros d t Hdl. apply (HQ d t). intros x. rewrite Hdl. cbn.
      destruct (decide (x = n)) as [->|Hne].
      * rewrite lookup_delete_eq, (bool_decide_true (_ ∈ _ :: _)) by by constructor. by case_bool_decide.
      * rewrite lookup_delete_ne by done.
        rewrite (bool_decide_ext (x ∈ n :: ns') (x ∈ ns')); [done|]. rewrite elem_of_cons. intuition.
Qed.

Lemma write_temp_runs w bs (Q : unit → WAL C → Prop) :
  dir w !! "TEMP" ≠ Some Dir →
  (∀ t, Q tt (set_dir (<["TEMP" := File bs]> (dir w)) (set_ticks t w))) → runs (write_temp no_flt bs) w Q.
Proof.
  intros Hd HQ. unfold runs, write_temp, io. run_monad.
  destruct (dir w !! "TEMP") as [[b|]|] eqn:E; try done; run_monad; rewrite insert_insert_eq;
    apply (HQ (S (S (S (S (ticks w)))))).
Qed.

Lemma recovering_runs {A} (m : M (WAL C) wal_error A) w Q : runs m w Q → runs (recovering m) w Q.
Proof. unfold runs, recovering. by destruct (m w) as [[a|e|] w']. Qed.

(** the file names of the segments, in order *)
Definition names f css : list string := (λ i, segmentName (start f css i)) <$> seq 0 (length css).

Lemma names_lookup f css i : (i < length css)%nat → names f css !! i = Some (segmentName (start f css i)).
Proof. intros Hi. unfold names. rewrite list_lookup_fmap, lookup_seq_lt by done. done. Qed.

Lemma length_names f css : length (names f css) = length css.
Proof. unfold names. by rewrite length_fmap, length_seq. Qed.

Lemma segment_names f css w :
  winv f css w → Forall2 (λ l n, ∃ sg, heap w !! l = Some sg ∧ path sg = n) (segments w) (names f css).
Proof.
  intros Hw. destruct (wi_len _ _ _ _ _ _ _ _ _ _ _ _ Hw) as [Hlen _].
  apply Forall2_same_length_lookup_2; [by rewrite length_names|]. intros i l n Hl Hn.
  pose proof (lookup_lt_Some _ _ _ Hn) as Hi. rewrite length_names in Hi.
  rewrite names_lookup in Hn by done. injection Hn as <-.
  destruct (lookup_lt_is_Some_2 css i Hi) as [c Hc].
  destruct (winv_seg f css w i c Hw Hc) as (l' & sg & Hl' & Hsg & Hp & _).
  exists sg. by assert (l' = l) as -> by congruence.
Qed.

Lemma NoDup_names f css w : winv f css w → NoDup (names f css).
Proof.
  intros Hw. apply NoDup_alt. intros i j n Hi Hj.
  pose proof (lookup_lt_Some _ _ _ Hi) as Hil. pose proof (lookup_lt_Some _ _ _ Hj) as Hjl.
  rewrite length_names in *. rewrite names_lookup in Hi, Hj by done.
  eapply (winv_name_inj f css w); [done..|congruence].
Qed.

Lemma elem_take_names f css k x :
  x ∈ take k (names f css) ↔ ∃ i, (i < k)%nat ∧ (i < length css)%nat ∧ x = segmentName (start f css i).
Proof.
  rewrite list_elem_of_lookup. split.
  - intros [i Hi]. apply lookup_take_Some in Hi as [Hi Hk]. exists i.
    pose proof (lookup_lt_Some _ _ _ Hi) as Hl. rewrite length_names in Hl.
    rewrite names_lookup in Hi by done. injection Hi as <-. done.
  - intros (i & Hk & Hl & ->). exists i. apply lookup_take_Some. split; [by apply names_lookup|done].
Qed.

Lemma elem_drop_names f css k x :
  x ∈ drop k (names f css) ↔ ∃ i, (k ≤ i)%nat ∧ (i < length css)%nat ∧ x = segmentName (start f css i).
Proof.
  rewrite list_elem_of_lookup. split.
  - intros [i Hi]. rewrite lookup_drop in Hi. exists (k + i)%nat.
    pose proof (lookup_lt_Some _ _ _ Hi) as Hl. rewrite length_names in Hl.
    rewrite names_lookup in Hi by done. injection Hi as <-. split_and!; [lia|done..].
  - intros (i & Hk & Hl & ->). exists (i - k)%nat. rewrite lookup_drop.
    replace (k + (i - k))%nat with i by lia. by apply names_lookup.
Qed.

Lemma names_on_disk f css w x : winv f css w → x ∈ names f css → is_Some (dir w !! x).
Proof.
  intros Hw (i & -> & Hi%elem_of_seq)%list_elem_of_fmap.
  destruct (lookup_lt_is_Some_2 css i) as [c Hc]; [lia|].
  destruct (winv_seg f css w i c Hw Hc) as (_ & _ & _ & _ & _ & _ & Hd & _). by rewrite Hd.
Qed.

Lemma names_NoDup_take f css w k : winv f css w → NoDup (take k (names f css)).
Proof. intros Hw. eapply sublist_NoDup; [by eapply NoDup_names|apply sublist_take]. Qed.
Lemma names_NoDup_drop f css w k : winv f css w → NoDup (drop k (names f css)).
Proof. intros Hw. eapply sublist_NoDup; [by eapply NoDup_names|apply sublist_drop]. Qed.
End effects.

(** ** Dropping the front *)

Section front.
Context {C : Type} `{LRU C}.
Implicit Types (w : WAL C) (f : Z) (css : list chunk).

(** the chunks that remain when [idx], in chunk [i], becomes the first index *)
Definition front_chunks f css idx i c : list chunk :=
  drop (Z.to_nat (idx - start f css i)) c :: drop (S i) css.

Lemma start_front f css idx i c j :
  located f css idx i c → start idx (front_chunks f css idx i c) (S j) = start f css (S i + j).
Proof.
  intros [Hc Hs]. unfold front_chunks, start at 1. rewrite firstn_cons, lenZ_join_cons, length_drop.
  pose proof (start_S f css i c Hc) as HS.
  assert (start f css (S i + j) = start f css (S i) + lenZ (mjoin (take j (drop (S i) css)))) as ->.
  { unfold start. rewrite <- (take_take_drop css (S i) j), join_app, length_app. lia. }
  lia.
Qed.

Lemma join_middle {A} (css : list (list A)) i c :
  css !! i = Some c → mjoin css = mjoin (take i css) ++ c ++ mjoin (drop (S i) css).
Proof.
  intros Hc. rewrite <- (take_drop_middle css i c Hc) at 1. rewrite join_app.
  by change (mjoin (c :: ?l)) with (c ++ mjoin l).
Qed.

Lemma join_front f css idx i c :
  located f css idx i c → mjoin (front_chunks f css idx i c) = drop (Z.to_nat (idx - f)) (mjoin css).
Proof.
  intros [Hc Hs]. unfold front_chunks. change (mjoin (?a :: ?l)) with (a ++ mjoin l).
  rewrite (join_middle css i c Hc). unfold start in *. rewrite drop_app. rewrite (drop_ge (mjoin (take i css))) by lia. cbn [app].
  rewrite drop_app_le by lia. do 2 f_equal. lia.
Qed.

Lemma winv_front f css w idx i c h' ca D :
  winv f css w → located f css idx i c →
  let css' := front_chunks f css idx i c in
  (∀ j l c', segments w !! (i + j)%nat = Some l → css' !! j = Some c' →
    ∃ sg, h' !! l = Some sg ∧ path sg = segmentName (start idx css' j) ∧ index sg = start idx css' j ∧
      (loaded sg c' ∨ (unloaded sg ∧ S j < length css')%nat)) →
  (∀ j c', css' !! j = Some c' → D !! segmentName (start idx css' j) = Some (File (encs c'))) →
  (∀ name nd, D !! name = Some nd → segish name = true →
    ∃ b j, nd = File b ∧ (j < length css')%nat ∧ name = segmentName (start idx css' j)) →
  D !! "TEMP" ≠ Some Dir → lru_entries ca = [] → lru_cap ca = lru_cap (scache w) →
  winv_ idx css' (opts w) (closed w) (corrupt w) h' (drop i (segments w)) idx (lastIndex w)
    (Some (segmentName (start idx css' (length css' - 1)))) ca D.
Proof.
  intros Hw Hloc css' Hh Hd HD Ht Hca Hcap. pose proof Hloc as [Hc Hs].
  pose proof (lookup_lt_Some _ _ _ Hc) as Hi. pose proof Hw as Hw0. destruct Hw as [].
  destruct wi_len as [Hlen _].
  assert (length css' = (length css - i)%nat) as Hl'.
  { unfold css', front_chunks. cbn. rewrite length_drop. lia. }
  assert (lenZ (mjoin css') = f + lenZ (mjoin css) - idx) as Hj.
  { unfold css'. rewrite (join_front f css idx i c Hloc), length_drop.
    pose proof (start_mono f css 0 i ltac:(lia)) as Hm. rewrite start_0 in Hm.
    pose proof (start_S f css i c Hc). pose proof (start_le_total f css (S i)). lia. }
  split; try done.
  - pose proof (start_mono f css 0 i ltac:(lia)) as Hm. rewrite start_0 in Hm. lia.
  - rewrite Hj. lia.
  - rewrite length_drop. split; [lia|done].
  - eapply sublist_NoDup; [exact wi_nodup|apply sublist_drop].
  - intros j l c' Hl Hc'. rewrite lookup_drop in Hl.
    destruct (Hh j l c' Hl Hc') as (sg & ? & ? & ? & Hb). exists sg.
    split_and!; [done..|by apply Hd|]. destruct Hb as [|[]]; auto.
  - intros l c' Hl Hc'. rewrite last_lookup in Hl. rewrite last_lookup in Hc'.
    rewrite length_drop, lookup_drop in Hl. rewrite Hl' in Hc'.
    replace (i + pred (length (segments w) - i))%nat with (i + pred (length css - i))%nat in Hl by lia.
    destruct (Hh _ l c' Hl Hc') as (sg & ? & _ & _ & Hb). exists sg. split; [done|].
    destruct Hb as [|[]]; [done|lia].
  - intros [|j] c' Hc' Hj'.
    + change (Some (drop (Z.to_nat (idx - start f css i)) c) = Some c') in Hc'.
      injection Hc' as <-. intros E%(f_equal length). rewrite length_drop in E. cbn in E. lia.
    + change (drop (S i) css !! j = Some c') in Hc'. rewrite lookup_drop in Hc'. eapply wi_mid; [exact Hc'|]. lia.
  - unfold css'. rewrite (join_front f css idx i c Hloc). by apply Forall_drop.
  - intros k v. rewrite Hca. intros Hin. by inversion Hin.
  - congruence.
Qed.

(** the directory after [TruncateFront] *)
Lemma front_disk f css d idx i c (D : disk) :
  disk_log f css d → located f css idx i c →
  let css' := front_chunks f css idx i c in
  D !! segmentName idx = Some (File (encs (drop (Z.to_nat (idx - start f css i)) c))) →
  (∀ x, x ≠ segmentName idx →
    D !! x = if bool_decide (x = "TEMP" ∨ x = segmentName idx +:+ ".START" ∨ x ∈ take (S i) (names f css))
             then None else d !! x) →
  (∀ j c', css' !! j = Some c' → D !! segmentName (start idx css' j) = Some (File (encs c'))) ∧
  (∀ name nd, D !! name = Some nd → segish name = true →
    ∃ b j, nd = File b ∧ (j < length css')%nat ∧ name = segmentName (start idx css' j)) ∧
  D !! "TEMP" ≠ Some Dir.
Proof.
  intros Hw Hloc css' Hnew Hother. pose proof Hloc as [Hc Hs].
  destruct (dl_start f css d i Hw) as [Hu Hpos]. unfold in_u64 in Hu.
  pose proof (lookup_lt_Some _ _ _ Hc) as Hi. pose proof (start_S f css i c Hc) as HS.
  assert (∀ j, start idx css' (S j) = start f css (S i + j)) as Hst.
  { intros j. by apply start_front. }
  assert (∀ k, (i < k)%nat → segmentName (start f css k) ≠ segmentName idx) as Hne.
  { intros k Hk E. pose proof (start_mono f css (S i) k ltac:(lia)).
    apply segmentName_inj in E; [lia|by eapply dl_start|].
    pose proof (proj1 (dl_start f css d (S i) Hw)). unfold in_u64 in *. lia. }
  assert (∀ k, (i < k < length css)%nat → D !! segmentName (start f css k) = d !! segmentName (start f css k)) as Hk.
  { intros k Hk. rewrite Hother by (apply Hne; lia).
    destruct (dl_start f css d k Hw) as [_ Hkp]. rewrite bool_decide_false; [done|].
    intros [E|[E|(m & Hm & Hml & E)%elem_take_names]].
    - by apply segmentName_not in E; [|lia|].
    - apply segmentName_not in E; [done|lia|]. rewrite start_name_length; lia.
    - apply (dl_name_inj f css d) in E; lia || done. }
  split_and!.
  - intros [|j] c' Hc'.
    + change (Some (drop (Z.to_nat (idx - start f css i)) c) = Some c') in Hc'. injection Hc' as <-.
      by rewrite start_0.
    + change (drop (S i) css !! j = Some c') in Hc'. rewrite lookup_drop in Hc'.
      rewrite Hst, Hk by (split; [lia|by eapply lookup_lt_Some]).
      by apply (dl_files _ _ _ Hw).
  - intros name nd Hn Hsg. destruct (decide (name = segmentName idx)) as [->|Hx].
    + rewrite Hnew in Hn. injection Hn as <-. eexists _, 0%nat. rewrite start_0. split_and!; [done|cbn; lia|done].
    + rewrite Hother in Hn by done. case_bool_decide as E; [done|].
      destruct (dl_disk _ _ _ Hw _ _ Hn Hsg) as (b & k & -> & Hkl & ->).
      assert (i < k)%nat as Hik.
      { destruct (decide (i < k)%nat); [done|]. destruct E. right; right.
        apply elem_take_names. exists k. split_and!; [lia|done|done]. }
      exists b, (S (k - S i)). rewrite Hst. replace (S i + (k - S i))%nat with k by lia.
      split; [done|split; [|done]]. unfold css', front_chunks. cbn. rewrite length_drop. lia.
  - rewrite Hother; [rewrite bool_decide_true; auto|]. apply not_eq_sym, segmentName_not; [lia|done].
Qed.

(** no segment has the name of a START or END file, nor of TEMP *)
Lemma names_not_file f css d y sfx x :
  disk_log f css d → 0 ≤ y → String.length sfx ≠ 0%nat → x ∈ names f css → x ≠ segmentName y +:+ sfx ∧ x ≠ "TEMP".
Proof.
  intros Hd Hy Hs (j & -> & _)%list_elem_of_fmap. destruct (dl_start f css d j Hd) as [_ Hj].
  split; apply segmentName_not; try lia; [rewrite length_string_app, segmentName_length; lia|done].
Qed.

(** START or END gets its final name once the segments are removed *)
Lemma file_renamed f css d0 y sfx gone buf (d D : disk) : disk_log f css d0 → 0 ≤ y → String.length sfx ≠ 0%nat → gone ⊆ names f css →
  (∀ x, d !! x = if decide (x = segmentName y +:+ sfx) then Some (File buf)
                 else if decide (x = "TEMP") then None else d0 !! x) →
  (∀ x, D !! x = if bool_decide (x ∈ gone) then None else d !! x) →
  D !! (segmentName y +:+ sfx) = Some (File buf) ∧
  ∀ x, x ≠ segmentName y →
    <[segmentName y := File buf]> (delete (segmentName y +:+ sfx) D) !! x =
    (if bool_decide (x = "TEMP" ∨ x = segmentName y +:+ sfx ∨ x ∈ gone) then None else d0 !! x).
Proof.
  intros Hd0 Hy Hs Hg Hd HD. split.
  - rewrite HD, bool_decide_false, Hd; [by rewrite decide_True|].
    intros Hx%Hg. by destruct (names_not_file f css d0 y sfx _ Hd0 Hy Hs Hx).
  - intros x Hx. rewrite lookup_insert_ne by done. destruct (decide (x = segmentName y +:+ sfx)) as [->|HxS].
    { by rewrite lookup_delete_eq, bool_decide_true by auto. }
    rewrite lookup_delete_ne, HD, Hd by done. rewrite (decide_False (P := x = segmentName y +:+ sfx)) by done.
    destruct (decide (x = "TEMP")) as [->|HxT]; [rewrite (bool_decide_true (_ ∨ _)) by auto; by case_bool_decide|].
    rewrite (bool_decide_ext (x = "TEMP" ∨ _) (x ∈ gone)); [done|]. intuition.
Qed.

(** the segments after [TruncateFront] *)
Lemma front_heap f css w idx i c s (h' : gmap nat segment) sg' :
  winv f css w → located f css idx i c → segments w !! i = Some s →
  let css' := front_chunks f css idx i c in
  (∀ l, l ≠ s → h' !! l = if bool_decide (l ∈ (lru_entries (scache w)).*2)
                         then set_bufs [] [] <$> heap w !! l else heap w !! l) →
  h' !! s = Some sg' → path sg' = segmentName idx → index sg' = idx →
  loaded sg' (drop (Z.to_nat (idx - start f css i)) c) ∨ (unloaded sg' ∧ S i < length css)%nat →
  ∀ j l c', segments w !! (i + j)%nat = Some l → css' !! j = Some c' →
    ∃ sg, h' !! l = Some sg ∧ path sg = segmentName (start idx css' j) ∧ index sg = start idx css' j ∧
      (loaded sg c' ∨ (unloaded sg ∧ S j < length css')%nat).
Proof.
  intros Hw Hloc Hls css' Hh Hs Hp Hx Hb [|j] l c' Hl Hc'.
  - rewrite Nat.add_0_r in Hl. assert (l = s) as -> by congruence.
    change (Some (drop (Z.to_nat (idx - start f css i)) c) = Some c') in Hc'. injection Hc' as <-.
    exists sg'. rewrite start_0. split_and!; [done..|]. destruct Hb as [|[? ?]]; [by left|right].
    split; [done|]. unfold css', front_chunks. cbn. rewrite length_drop. lia.
  - change (drop (S i) css !! j = Some c') in Hc'. rewrite lookup_drop in Hc'.
    replace (i + S j)%nat with (S i + j)%nat in Hl by lia.
    assert (l ≠ s) as Hne.
    { intros ->. pose proof (winv_loc_inj f css w _ _ _ Hw Hls Hl). lia. }
    destruct (winv_seg f css w _ c' Hw Hc') as (l' & sg & Hl' & Hsg & Hpp & Hxx & _ & Hld).
    assert (l' = l) as -> by congruence. rewrite Hh by done.
    pose proof (lookup_lt_Some _ _ _ Hc') as Hlt.
    unfold css'. rewrite (start_front f css idx i c j Hloc).
    assert (length (front_chunks f css idx i c) = (length css - i)%nat) as Hlen.
    { unfold front_chunks. cbn. rewrite length_drop. lia. }
    case_bool_decide as Hin.
    + exists (set_bufs [] [] sg). rewrite Hsg. split_and!; [done..|]. right. split; [by split|].
      apply list_elem_of_fmap in Hin as ([k v] & -> & Hin).
      destruct (wi_cache _ _ _ _ _ _ _ _ _ _ _ _ Hw _ _ Hin) as (m & -> & Hm & Hv).
      pose proof (winv_loc_inj f css w _ _ _ Hw Hv Hl). destruct (wi_len _ _ _ _ _ _ _ _ _ _ _ _ Hw). lia.
    + exists sg. split_and!; [done..|]. destruct Hld as [|Hun]; [by left|].
      destruct (decide (S (S i + j) < length css)%nat); [right; split; [done|lia]|left].
      destruct (winv_tail f css w Hw) as (l2 & c2 & sg2 & _ & _ & Hl2 & Hc2 & Hsg2 & Hld2 & _).
      assert (S i + j = length css - 1)%nat as E by lia. rewrite E in *. congruence.
Qed.

(** the invariant after [TruncateFront], from its heap and its directory *)
Lemma winv_fronted f css w idx i c s (h' : gmap nat segment) sg' sf ca (D : disk) :
  winv f css w → located f css idx i c → segments w !! i = Some s →
  let css' := front_chunks f css idx i c in
  let c' := drop (Z.to_nat (idx - start f css i)) c in
  D !! segmentName idx = Some (File (encs c')) →
  (∀ x, x ≠ segmentName idx →
    D !! x = if bool_decide (x = "TEMP" ∨ x = segmentName idx +:+ ".START" ∨ x ∈ take (S i) (names f css)) then None else dir w !! x) →
  (∀ l, l ≠ s → h' !! l = unload_all (lru_entries (scache w)) (heap w) !! l) →
  h' !! s = Some sg' → path sg' = segmentName idx → index sg' = idx →
  loaded sg' c' ∨ (unloaded sg' ∧ S i < length css)%nat →
  sf = Some (segmentName (start idx css' (length css' - 1))) → lru_entries ca = [] → lru_cap ca = lru_cap (scache w) →
  winv_ idx css' (opts w) (closed w) (corrupt w) h' (drop i (segments w)) idx (lastIndex w) sf ca D.
Proof.
  intros Hw Hloc Hls css' c' HDn HD Hh Hs Hp Hx Hb -> Hca Hcap.
  destruct (front_disk f css (dir w) idx i c D (winv_disk_log _ _ _ Hw) Hloc HDn HD) as (Hdk & HDk & HT).
  apply (winv_front f css w idx i c); [done|done| |done..].
  apply (front_heap f css w idx i c s h' sg'); [done..| |done|done|done|done].
  intros l Hl. by rewrite Hh, unload_all_lookup by done.
Qed.
End front.

Section load_eq.
Context {C : Type} `{LRU C}.

Lemma loadSegmentEntries_eq (w : WAL C) s sg c (Q : unit → WAL C → Prop) :
  heap w !! s = Some sg → dir w !! path sg = Some (File (encs c)) → Forall wf_entry c →
  Q tt (set_heap (alter (set_bufs (encs c) (poss 0 c)) s (heap w)) (tick w)) →
  runs (loadSegmentEntries no_flt s) w Q.
Proof.
  intros Hsg Hd Hwf HQ. unfold loadSegmentEntries. step deref_runs; [done|].
  unfold runs, ReadFile, io_ok, io, update. run_monad. rewrite Hd. run_monad.
  rewrite load_entries_encs by (done || by apply length_encs_ge). done.
Qed.

Lemma head_drop {A} (l : list A) n : head (drop n l) = l !! n.
Proof. revert n. induction l as [|x l IH]; intros [|n]; simpl; done || apply IH. Qed.

Lemma slice_encs_drop c n :
  slice (encs c) (length (encs (take n c))) (length (encs c)) = Some (encs (drop n c)).
Proof.
  rewrite <- (take_drop n c) at 1 3. rewrite encs_app, length_app.
  rewrite <- (app_nil_r (encs (drop n c))) at 1. apply slice_app.
Qed.

Lemma slice_encs_take c n : slice (encs c) 0 (length (encs (take n c))) = Some (encs (take n c)).
Proof.
  rewrite <- (take_drop n c) at 1. rewrite encs_app.
  apply (slice_app [] (encs (take n c)) (encs (drop n c))).
Qed.
End load_eq.

Section truncate_front.
Context {C : Type} `{LRU C}.
Implicit Types (w : WAL C) (f : Z) (css : list chunk).

Lemma entry_lookup_in_chunk f css w idx i c :
  winv f css w → located f css idx i c →
  in_u64 (idx - start f css i) ∧ (Z.to_nat (idx - start f css i) < length c)%nat.
Proof.
  intros Hw [Hc Hs]. pose proof (proj1 (winv_start_u64 f css w (S i) Hw)) as Hu.
  pose proof (start_S f css i c Hc). pose proof (proj1 (winv_start_u64 f css w i Hw)).
  unfold in_u64 in *. lia.
Qed.

(** the rest of [truncateFront] once TEMP is renamed to START *)
Definition finish_front (segIdx idx : Z) (s : nat) (buf : list Z) : M (WAL C) wal_error unit :=
  w ← get;
  let isTail := segIdx =? lenZ (segments w) - 1 in
  _ ← (if isTail then sfile_Close no_flt else mret tt);
  _ ← remove_segments no_flt (take (Z.to_nat (segIdx + 1)) (segments w));
  _ ← os_Rename no_flt (segmentName idx +:+ ".START") (segmentName idx);
  _ ← update s (λ sg, mkSegment (segmentName idx) idx (ebuf sg) (epos sg));
  _ ← (if isTail then _ ← reopen_tail no_flt (segmentName idx) (lenZ buf); loadSegmentEntries no_flt s else mret tt);
  _ ← modify (λ w, set_segments (drop (Z.to_nat segIdx) (segments w)) w);
  _ ← modify (λ w, set_range idx (lastIndex w) w);
  clearCache.

(** the names and the directory that [finish_front] works on *)
Lemma remove_front_runs f css w i t sf d (Q : unit → WAL C → Prop) :
  winv f css w → (∀ x, x ∈ names f css → d !! x = dir w !! x) →
  (∀ d4 t4, (∀ x, d4 !! x = if bool_decide (x ∈ take (S i) (names f css)) then None else d !! x) →
     Q tt (set_dir d4 (set_ticks t4 (set_sfile sf w)))) →
  runs (remove_segments no_flt (take (S i) (segments w))) (set_sfile sf (set_dir d (set_ticks t w))) Q.
Proof.
  intros Hw Hd HQ. apply (remove_segments_runs _ _ (take (S i) (names f css))).
  - apply Forall2_take. exact (segment_names f css w Hw).
  - by eapply names_NoDup_take.
  - intros n Hn%take_elem. cbn. rewrite Hd by done. by eapply names_on_disk.
  - intros d4 t4 Hd4. by apply (HQ d4 t4).
Qed.

Section finish.
Context (f : Z) (css : list chunk) (w : WAL C) (idx : Z) (i : nat) (c : chunk) (s : nat) (sg : segment).
Context (Hw : winv f css w) (Hloc : located f css idx i c) (Hls : segments w !! i = Some s) (Hsg : heap w !! s = Some sg).
Local Abbreviation c' := (drop (Z.to_nat (idx - start f css i)) c).
Local Abbreviation buf := (encs c').
Local Abbreviation rename := (alter (λ sg, mkSegment (segmentName idx) idx (ebuf sg) (epos sg)) s (heap w)).
Local Abbreviation fresh := (lru_new (Z.to_nat (SegmentCacheSize (opts w))) : C).
(** the directory once START has its final name *)
Context (D : disk) (HDn : D !! segmentName idx = Some (File buf)).
Context (HD : ∀ x, x ≠ segmentName idx →
  D !! x = if bool_decide (x = "TEMP" ∨ x = segmentName idx +:+ ".START" ∨ x ∈ take (S i) (names f css)) then None else dir w !! x).

(** the tail was cut: it is read again *)
Lemma winv_front_tail : S i = length css →
  winv_ idx (front_chunks f css idx i c) (opts w) (closed w) (corrupt w)
    (unload_all (lru_entries (scache w)) (alter (set_bufs buf (poss 0 c')) s rename))
    (drop i (segments w)) idx (lastIndex w) (Some (segmentName idx)) fresh D.
Proof using Hw Hloc Hls Hsg HDn HD.
  intros Hil. assert (∀ v, v ∈ (lru_entries (scache w)).*2 → v ≠ s) as Hns.
  { intros v ([k v'] & -> & Hin)%list_elem_of_fmap. cbn [snd]. intros ->.
    destruct (wi_cache _ _ _ _ _ _ _ _ _ _ _ _ Hw _ _ Hin) as (m & -> & Hm & Hv).
    pose proof (winv_loc_inj f css w _ _ _ Hw Hv Hls). destruct (wi_len _ _ _ _ _ _ _ _ _ _ _ _ Hw). lia. }
  apply (winv_fronted f css w idx i c s _ (set_bufs buf (poss 0 c') (mkSegment (segmentName idx) idx (ebuf sg) (epos sg))));
    try done; [| |by left; split| |apply lru_new_entries|rewrite lru_new_cap; symmetry; apply Hw].
  - intros l Hl. by rewrite !unload_all_lookup, !lookup_alter_ne by done.
  - rewrite unload_all_lookup, bool_decide_false by (intros Hin; by apply (Hns s)). by rewrite !lookup_alter_eq, Hsg.
  - unfold front_chunks. cbn [length]. rewrite length_drop. replace (S (length css - S i) - 1)%nat with 0%nat by lia. by rewrite start_0.
Qed.

(** a segment before the tail was cut: it leaves the cache *)
Lemma winv_front_mid : (S i < length css)%nat → (∃ k, (k, s) ∈ lru_entries (scache w)) →
  winv_ idx (front_chunks f css idx i c) (opts w) (closed w) (corrupt w)
    (unload_all (lru_entries (scache w)) rename) (drop i (segments w)) idx (lastIndex w) (sfile w) fresh D.
Proof using Hw Hloc Hls Hsg HDn HD.
  intros Hil [k Hk].
  apply (winv_fronted f css w idx i c s _ (set_bufs [] [] (mkSegment (segmentName idx) idx (ebuf sg) (epos sg))));
    try done; [| |right; split; [by split|done]| |apply lru_new_entries|rewrite lru_new_cap; symmetry; apply Hw].
  - intros l Hl. by rewrite !unload_all_lookup, !lookup_alter_ne by done.
  - rewrite unload_all_lookup, bool_decide_true; [by rewrite lookup_alter_eq, Hsg|]. apply list_elem_of_fmap. by exists (k, s).
  - etrans; [exact (wi_sfile _ _ _ _ _ _ _ _ _ _ _ _ Hw)|]. do 2 f_equal.
    replace (length (front_chunks f css idx i c) - 1)%nat with (S (length css - S (S i))).
    + rewrite (start_front f css idx i c) by done. f_equal. lia.
    + unfold front_chunks. cbn. rewrite length_drop. lia.
Qed.
End finish.

(** [w] satisfies the invariant; [d] is its directory once START is there *)
Lemma finish_front_runs f css w idx i c s sg d t (Q : unit → WAL C → Prop) :
  winv f css w → located f css idx i c → segments w !! i = Some s → heap w !! s = Some sg →
  ((S i < length css)%nat → ∃ k, (k, s) ∈ lru_entries (scache w)) →
  let buf := encs (drop (Z.to_nat (idx - start f css i)) c) in
  (∀ x, d !! x = if decide (x = segmentName idx +:+ ".START") then Some (File buf)
                 else if decide (x = "TEMP") then None else dir w !! x) →
  (∀ w', winv idx (front_chunks f css idx i c) w' → opts w' = opts w → Q tt w') →
  runs (finish_front (Z.of_nat i) idx s buf) (set_dir d (set_ticks t w)) Q.
Proof.
  intros Hw Hloc Hls Hsg Hcache buf Hd HQ. pose proof Hloc as [Hc Hs]. pose proof (winv_disk_log _ _ _ Hw) as Hdl.
  pose proof (lookup_lt_Some _ _ _ Hc) as Hi. destruct (wi_len _ _ _ _ _ _ _ _ _ _ _ _ Hw) as [Hlen Hnil].
  destruct (winv_start_u64 f css w i Hw) as [Hu Hpos]. assert (0 ≤ idx) as Hidx by lia.
  unfold finish_front. step runs_get. cbn [segments set_dir set_ticks].
  replace (Z.to_nat (Z.of_nat i + 1)) with (S i) by lia. rewrite Nat2Z.id.
  assert (∀ x, x ∈ names f css → d !! x = dir w !! x) as Hnames.
  { intros x Hx. destruct (names_not_file f css (dir w) idx ".START" x Hdl Hidx ltac:(done) Hx). by rewrite Hd, !decide_False. }
  apply runs_bind. destruct (Z.eqb_spec (Z.of_nat i) (lenZ (segments w) - 1)) as [Htail|Hmid].
  - eapply sfile_Close_runs; [apply Hw|]. apply runs_bind. apply (remove_front_runs f css w i (S t) None); [done|done|].
    intros d4 t4 Hd4. destruct (file_renamed f css (dir w) idx ".START" _ buf d d4 Hdl Hidx ltac:(done) (λ x, take_elem _ _ x) Hd Hd4) as [Hst Hrest].
    step os_Rename_runs; [exact Hst|]. step update_runs. apply runs_bind. apply runs_bind. unfold reopen_tail.
    step open_append_runs; [by apply lookup_insert_eq|]. rewrite Z.eqb_refl. cbn [negb guard_err]. apply runs_ret.
    eapply (loadSegmentEntries_eq _ s (mkSegment (segmentName idx) idx (ebuf sg) (epos sg))); [cbn; by rewrite lookup_alter_eq, Hsg|by apply lookup_insert_eq| |].
    { apply Forall_drop. eapply Forall_join_lookup; [apply Hw|done]. }
    step runs_modify. step runs_modify. eapply runs_intro; [apply clearCache_eq|]. apply HQ; [|done].
    apply (winv_front_tail f css w idx i c s sg Hw Hloc Hls Hsg _ (lookup_insert_eq _ _ _) Hrest). lia.
  - apply runs_ret. apply runs_bind. assert (S i < length css)%nat as Hil by lia.
    change (set_dir d (set_ticks t w)) with (set_sfile (sfile w) (set_dir d (set_ticks t w))).
    apply (remove_front_runs f css w i t (sfile w)); [done|done|].
    intros d4 t4 Hd4. destruct (file_renamed f css (dir w) idx ".START" _ buf d d4 Hdl Hidx ltac:(done) (λ x, take_elem _ _ x) Hd Hd4) as [Hst Hrest].
    step os_Rename_runs; [exact Hst|]. step update_runs. apply runs_bind, runs_ret.
    step runs_modify. step runs_modify. eapply runs_intro; [apply clearCache_eq|]. apply HQ; [|done].
    exact (winv_front_mid f css w idx i c s sg Hw Hloc Hls Hsg _ (lookup_insert_eq _ _ _) Hrest Hil (Hcache Hil)).
Qed.

Lemma TruncateFront_runs f css w idx (Q : unit → WAL C → Prop) :
  winv f css w → f ≤ idx < f + lenZ (mjoin css) →
  (∀ css' w', winv idx css' w' → mjoin css' = drop (Z.to_nat (idx - f)) (mjoin css) → opts w' = opts w → Q tt w') →
  runs (TruncateFront no_flt idx) w Q.
Proof.
  intros Hw Hr HQ. destruct (winv_range f css w Hw) as (Hf & Hl & Hf1 & Hb).
  unfold TruncateFront. step check_open_runs; [done|]. unfold truncateFront. step runs_get.
  assert (out_of_range idx w = false) as ->.
  { unfold out_of_range. rewrite Hf, Hl.
    destruct (Z.eqb_spec idx 0), (Z.eqb_spec (f + lenZ (mjoin css) - 1) 0), (Z.ltb_spec idx f),
      (Z.ltb_spec (f + lenZ (mjoin css) - 1) idx); done || lia. }
  rewrite Hf. destruct (Z.eqb_spec idx f) as [->|Hne].
  { apply runs_ret. eapply (HQ css); [done| |done]. by rewrite Z.sub_diag. }
  destruct (located_exists f css idx Hr) as (i & c & Hloc). pose proof Hloc as [Hc Hs].
  step runs_intro; [by apply (findSegment_ok f css w idx i c)|].
  step (loadSegment_runs f css w idx i c); [done..|].
  intros s sg w1 Hw1 Hf1' Hls Hsg [Heb Hep] Hidx Hcache. step deref_runs; [done|].
  rewrite Hidx, Hep, Heb, length_poss.
  destruct (entry_lookup_in_chunk f css w idx i c Hw Hloc) as [Hu Hn].
  rewrite u64_small by done. set (n := Z.to_nat (idx - start f css i)) in *.
  step runs_from_option; [by rewrite bool_decide_true by lia|].
  destruct (lookup_lt_is_Some_2 c n Hn) as [e He].
  step runs_from_option; [by rewrite head_drop; apply poss_lookup|]. cbn [fst]. rewrite Nat.add_0_l.
  step runs_from_option; [by apply slice_encs_drop|].
  step write_temp_runs; [apply Hw1|]. intros t.
  step os_Rename_runs; [apply lookup_insert_eq|]. apply recovering_runs.
  assert (segments w1 !! i = Some s) as Hls1 by (destruct Hf1' as (_ & -> & _); done).
  assert (opts w1 = opts w) as Ho1 by apply Hf1'.
  eapply (finish_front_runs f css w1 idx i c s sg _ (S t)); [done..| |].
  - intros x. cbn. destruct (decide (x = segmentName idx +:+ ".START")) as [->|Hx].
    + by rewrite lookup_insert_eq.
    + rewrite lookup_insert_ne by done. destruct (decide (x = "TEMP")) as [->|HxT].
      * by rewrite lookup_delete_eq.
      * by rewrite lookup_delete_ne, lookup_insert_ne by done.
  - intros w' Hw' Ho. eapply HQ; [done| |congruence]. by apply join_front.
Qed.
End truncate_front.

(** ** Dropping the back *)

Section truncate_back.
Context {C : Type} `{LRU C}.
Implicit Types (w : WAL C) (f : Z) (css : list chunk).

(** the chunks that remain when [idx], in chunk [i], becomes the last index *)
Definition back_chunks f css idx i c : list chunk :=
  take i css ++ [take (S (Z.to_nat (idx - start f css i))) c].

Lemma length_back f css idx i c : (i < length css)%nat → length (back_chunks f css idx i c) = S i.
Proof using. intros Hi. unfold back_chunks. rewrite length_app, length_take. cbn. lia. Qed.

Lemma start_back f css idx i c j :
  (i < length css)%nat → (j ≤ i)%nat → start f (back_chunks f css idx i c) j = start f css j.
Proof using.
  intros Hi Hj. unfold back_chunks. rewrite start_app_l by (rewrite length_take; lia).
  unfold start. rewrite take_take. by replace (j `min` i)%nat with j by lia.
Qed.

Lemma join_back f css idx i c :
  located f css idx i c →
  mjoin (back_chunks f css idx i c) = take (Z.to_nat (idx - f + 1)) (mjoin css).
Proof using.
  intros [Hc Hs]. unfold back_chunks. rewrite join_snoc, (join_middle css i c Hc).
  unfold start in *. rewrite take_app, (take_ge (mjoin (take i css))) by lia. f_equal.
  rewrite take_app_le by lia. f_equal. lia.
Qed.

(** what [idx] leaves of its chunk *)
Definition kept_front f css idx i (c : chunk) : chunk := take (S (Z.to_nat (idx - start f css i))) c.

Lemma back_chunks_last f css idx i c : (i < length css)%nat → back_chunks f css idx i c !! i = Some (kept_front f css idx i c).
Proof using.
  intros Hi. unfold back_chunks. rewrite lookup_app_r by (rewrite length_take; lia).
  rewrite length_take. by replace (i - i `min` length css)%nat with 0%nat by lia.
Qed.
Lemma back_chunks_before f css idx i c j : (i < length css)%nat → (j < i)%nat → back_chunks f css idx i c !! j = css !! j.
Proof using.
  intros Hi Hj. unfold back_chunks. rewrite lookup_app_l by (rewrite length_take; lia). by rewrite lookup_take_lt by lia.
Qed.

(** the directory after [TruncateBack] *)
Lemma disk_log_back f css d0 idx i c (D : disk) :
  disk_log f css d0 → located f css idx i c →
  D !! segmentName (start f css i) = Some (File (encs (kept_front f css idx i c))) →
  (∀ x, x ≠ segmentName (start f css i) →
    D !! x = if bool_decide (x = "TEMP" ∨ x = segmentName (start f css i) +:+ ".END" ∨ x ∈ drop i (names f css)) then None else d0 !! x) →
  disk_log f (back_chunks f css idx i c) D.
Proof using.
  intros Hd Hloc HDi HD. pose proof Hloc as [Hc Hs]. pose proof (lookup_lt_Some _ _ _ Hc) as Hi.
  pose proof (length_back f css idx i c Hi) as Hl. destruct (dl_start f css d0 i Hd) as [Hiu Hip].
  set (css' := back_chunks f css idx i c) in *.
  assert (∀ j, (j ≤ i)%nat → start f css' j = start f css j) as Hst by (intros; by apply start_back).
  assert (∀ j, (j < i)%nat → css' !! j = css !! j) as Hcj by (intros; by apply back_chunks_before).
  pose proof (back_chunks_last f css idx i c Hi) as Hci. fold css' in Hci.
  assert (mjoin css' = take (Z.to_nat (idx - f + 1)) (mjoin css)) as Hj by by apply join_back.
  pose proof (dl_bound _ _ _ Hd). split.
  - apply Hd.
  - rewrite Hj, length_take. lia.
  - intros E. by rewrite E in Hl.
  - intros j c' Hc' Hlt. rewrite Hl in Hlt. rewrite Hcj in Hc' by lia. apply (dl_mid _ _ _ Hd j c' Hc'). lia.
  - rewrite Hj. apply Forall_take, Hd.
  - intros j c' Hc'. pose proof (lookup_lt_Some _ _ _ Hc') as Hjl. rewrite Hl in Hjl. rewrite Hst by lia.
    destruct (decide (j = i)) as [->|Hne]; [by rewrite Hci in Hc'; injection Hc' as <-|].
    rewrite Hcj in Hc' by lia. destruct (dl_start f css d0 j Hd) as [_ Hjp].
    rewrite HD by (intros E; apply (dl_name_inj f css d0) in E; lia || done).
    rewrite bool_decide_false; [by apply (dl_files _ _ _ Hd)|]. intros [E|[E|(m & Hm & Hml & E)%elem_drop_names]].
    + by apply segmentName_not in E; [|lia|].
    + apply segmentName_not in E; [done|lia|]. rewrite end_name_length; lia.
    + apply (dl_name_inj f css d0) in E; lia || done.
  - intros x nd Hn Hsg. destruct (decide (x = segmentName (start f css i))) as [->|Hx].
    + rewrite HDi in Hn. injection Hn as <-. eexists _, i. rewrite Hl, Hst by done. split_and!; [done|lia|done].
    + rewrite HD in Hn by done. case_bool_decide as E; [done|].
      destruct (dl_disk _ _ _ Hd _ _ Hn Hsg) as (b & k & -> & Hkl & ->). assert (k < i)%nat as Hik.
      { destruct (decide (k < i)%nat); [done|]. destruct E. right; right. apply elem_drop_names. exists k. split_and!; [lia|done|done]. }
      exists b, k. rewrite Hl, Hst by lia. split_and!; [done|lia|done].
  - rewrite HD; [by rewrite bool_decide_true by auto|]. apply not_eq_sym, segmentName_not; [lia|done].
Qed.

Lemma winv_back f css w idx i c h' ca (D : disk) :
  winv f css w → located f css idx i c →
  let css' := back_chunks f css idx i c in
  (∀ j l c', (j < i)%nat → segments w !! j = Some l → css !! j = Some c' →
    ∃ sg, h' !! l = Some sg ∧ path sg = segmentName (start f css j) ∧ index sg = start f css j ∧
      (loaded sg c' ∨ unloaded sg)) →
  (∀ l, segments w !! i = Some l → ∃ sg, h' !! l = Some sg ∧ path sg = segmentName (start f css i) ∧
    index sg = start f css i ∧ loaded sg (kept_front f css idx i c)) →
  D !! segmentName (start f css i) = Some (File (encs (kept_front f css idx i c))) →
  (∀ x, x ≠ segmentName (start f css i) →
    D !! x = if bool_decide (x = "TEMP" ∨ x = segmentName (start f css i) +:+ ".END" ∨ x ∈ drop i (names f css))
             then None else dir w !! x) →
  lru_entries ca = [] → lru_cap ca = lru_cap (scache w) →
  winv_ f css' (opts w) (closed w) (corrupt w) h' (take (S i) (segments w)) (firstIndex w) idx
    (Some (segmentName (start f css i))) ca D.
Proof.
  intros Hw Hloc css' Hh Hs HDi HD Hca Hcap. pose proof Hloc as [Hc Hsi].
  pose proof (disk_log_back f css (dir w) idx i c D (winv_disk_log _ _ _ Hw) Hloc HDi HD) as Hdl. fold css' in Hdl.
  pose proof (lookup_lt_Some _ _ _ Hc) as Hi. pose proof (length_back f css idx i c Hi) as Hl'. fold css' in Hl'.
  pose proof (start_S f css i c Hc) as HSi. pose proof (start_le_total f css (S i)).
  pose proof (start_mono f css 0 i ltac:(lia)) as Hm. rewrite start_0 in Hm.
  assert (∀ j, (j ≤ i)%nat → start f css' j = start f css j) as Hst by (intros; by apply start_back).
  assert (mjoin css' = take (Z.to_nat (idx - f + 1)) (mjoin css)) as Hj by by apply join_back.
  destruct Hw as []. destruct wi_len as [Hlen Hnil]. split; try done; try apply Hdl.
  - rewrite Hj, length_take. lia.
  - rewrite length_take, Hl'. split; [lia|]. intros E. by rewrite E in Hl'.
  - eapply sublist_NoDup; [exact wi_nodup|apply sublist_take].
  - intros j l c' Hl Hc'. apply lookup_take_Some in Hl as [Hl Hji]. pose proof (dl_files _ _ _ Hdl j c' Hc') as Hf.
    rewrite Hst in Hf |- * by lia. destruct (decide (j = i)) as [->|Hne].
    + unfold css' in Hc'. rewrite back_chunks_last in Hc' by done. injection Hc' as <-. destruct (Hs l Hl) as (sg & ? & ? & ? & ?).
      exists sg. split_and!; [done..|]. by left.
    + unfold css' in Hc'. rewrite back_chunks_before in Hc' by lia. destruct (Hh j l c' ltac:(lia) Hl Hc') as (sg & ? & ? & ? & ?). by exists sg.
  - intros l c' Hl Hc'. rewrite last_lookup in Hl. rewrite last_lookup in Hc'. rewrite length_take in Hl. rewrite Hl' in Hc'. cbn [pred] in Hc'.
    replace (pred (S i `min` length (segments w))) with i in Hl by lia. apply lookup_take_Some in Hl as [Hl _].
    unfold css' in Hc'. rewrite back_chunks_last in Hc' by done. injection Hc' as <-. destruct (Hs l Hl) as (sg & ? & _ & _ & ?). by exists sg.
  - intros k v. rewrite Hca. intros Hin. by inversion Hin.
  - congruence.
  - rewrite Hl'. replace (S i - 1)%nat with i by lia. by rewrite Hst.
Qed.

(** the rest of [truncateBack] once TEMP is renamed to END *)
Definition finish_back (flt : nat → option nat) (segIdx idx : Z) (s : nat) (seg : segment) (buf : list Z) : M (WAL C) wal_error unit :=
  w ← get;
  _ ← sfile_Close flt;
  _ ← remove_segments flt (drop (Z.to_nat segIdx) (segments w));
  _ ← os_Rename flt (segmentName (index seg) +:+ ".END") (segmentName (index seg));
  _ ← reopen_tail flt (segmentName (index seg)) (lenZ buf);
  _ ← update s (set_path (segmentName (index seg)));
  _ ← modify (λ w, set_segments (take (Z.to_nat (segIdx + 1)) (segments w)) w);
  _ ← modify (set_last idx);
  _ ← clearCache;
  loadSegmentEntries flt s.

Lemma back_heap f css w i s l j c' sg :
  winv f css w → segments w !! i = Some s → (j < i)%nat → segments w !! j = Some l → css !! j = Some c' →
  heap w !! l = Some sg →
  let h' := alter (set_bufs sg.(ebuf) sg.(epos)) s (unload_all (lru_entries (scache w)) (heap w)) in
  l ≠ s ∧ ∃ sg', unload_all (lru_entries (scache w)) (heap w) !! l = Some sg' ∧
    path sg' = segmentName (start f css j) ∧ index sg' = start f css j ∧ (loaded sg' c' ∨ unloaded sg').
Proof.
  intros Hw Hs Hji Hl Hc' Hsg _. split.
  { intros ->. pose proof (winv_loc_inj f css w _ _ _ Hw Hs Hl). lia. }
  destruct (winv_seg f css w j c' Hw Hc') as (l' & sg0 & Hl' & Hsg0 & Hp & Hx & _ & Hb).
  assert (l' = l) as -> by congruence. rewrite unload_all_lookup, Hsg0. case_bool_decide.
  - exists (set_bufs [] [] sg0). split_and!; [done..|]. right. by split.
  - by exists sg0.
Qed.

Lemma finish_back_runs f css w idx i c s sg d t (Q : unit → WAL C → Prop) :
  winv f css w → located f css idx i c → segments w !! i = Some s → heap w !! s = Some sg →
  path sg = segmentName (start f css i) → index sg = start f css i →
  let buf := encs (take (S (Z.to_nat (idx - start f css i))) c) in
  (∀ x, d !! x = if decide (x = segmentName (start f css i) +:+ ".END") then Some (File buf)
                 else if decide (x = "TEMP") then None else dir w !! x) →
  (∀ w', winv f (back_chunks f css idx i c) w' → opts w' = opts w → Q tt w') →
  runs (finish_back no_flt (Z.of_nat i) idx s sg buf) (set_dir d (set_ticks t w)) Q.
Proof.
  intros Hw Hloc Hls Hsg Hpath Hidx buf Hd HQ. pose proof Hloc as [Hc Hs]. pose proof (winv_disk_log _ _ _ Hw) as Hdl.
  destruct (winv_start_u64 f css w i Hw) as [Hu Hpos]. assert (0 ≤ start f css i) as Hy by lia.
  set (nm := segmentName (start f css i)).
  assert (Forall wf_entry (take (S (Z.to_nat (idx - start f css i))) c)) as Hwf.
  { apply Forall_take. eapply Forall_join_lookup; [apply Hw|done]. }
  unfold finish_back. rewrite Hidx. fold nm. step runs_get. cbn [segments set_dir set_ticks].
  rewrite Nat2Z.id. step sfile_Close_runs; [apply Hw|].
  apply runs_bind. apply (remove_segments_runs _ _ (drop i (names f css))).
  { apply Forall2_drop. exact (segment_names f css w Hw). }
  { by eapply names_NoDup_drop. }
  { intros n Hn%drop_elem. cbn. rewrite Hd. destruct (names_not_file f css (dir w) (start f css i) ".END" n Hdl Hy ltac:(done) Hn).
    rewrite !decide_False by done. by eapply names_on_disk. }
  cbn [dir set_sfile tick set_ticks set_dir]. intros d4 t4 Hd4.
  destruct (file_renamed f css (dir w) (start f css i) ".END" _ buf d d4 Hdl Hy ltac:(done) (λ x, drop_elem _ _ x) Hd Hd4) as [HE HD].
  step os_Rename_runs; [exact HE|]. fold nm in HD |- *. set (D := <[nm := File buf]> (delete (nm +:+ ".END") d4)) in *.
  assert (D !! nm = Some (File buf)) as HDn by apply lookup_insert_eq.
  unfold reopen_tail. apply runs_bind. step open_append_runs; [exact HDn|]. rewrite Z.eqb_refl. cbn [negb guard_err].
  apply runs_ret. step update_runs. step runs_modify. step runs_modify.
  replace (Z.to_nat (Z.of_nat i + 1)) with (S i) by lia.
  step runs_intro; [apply clearCache_eq|].
  set (h1 := alter (set_path nm) s (heap w)).
  assert (h1 = heap w) as Eh.
  { unfold h1. apply map_eq. intros l. destruct (decide (l = s)) as [->|Hne].
    - rewrite lookup_alter_eq, Hsg. cbn. f_equal. unfold nm. rewrite <- Hpath. by destruct sg.
    - by rewrite lookup_alter_ne. }
  set (h2 := unload_all (lru_entries (scache w)) (heap w)).
  destruct (h2 !! s) as [sg2|] eqn:E2; [|exfalso; unfold h2 in E2; rewrite unload_all_lookup, Hsg in E2; by case_bool_decide].
  assert (path sg2 = nm ∧ index sg2 = start f css i) as [Hp2 Hx2].
  { unfold h2 in E2. rewrite unload_all_lookup, Hsg in E2. case_bool_decide; injection E2 as <-; by split. }
  eapply (loadSegmentEntries_eq _ s sg2); [|by rewrite Hp2|exact Hwf|].
  { change (unload_all (lru_entries (scache w)) h1 !! s = Some sg2). by rewrite Eh. }
  apply HQ; [|done].
  refine (winv_back f css w idx i c
    (alter (set_bufs buf (poss 0 (take (S (Z.to_nat (idx - start f css i))) c))) s (unload_all (lru_entries (scache w)) h1))
    (lru_new (Z.to_nat (SegmentCacheSize (opts w)))) D Hw Hloc _ _ HDn HD (lru_new_entries _) _); rewrite ?Eh; fold h2.
  - intros j l c' Hji Hl Hc'.
    destruct (winv_seg f css w j c' Hw Hc') as (l' & sg0 & Hl' & Hsg0 & _).
    assert (l' = l) as -> by congruence.
    destruct (back_heap f css w i s l j c' sg0 Hw Hls Hji Hl Hc' Hsg0) as (Hne & sg' & E' & ?).
    exists sg'. by rewrite lookup_alter_ne.
  - intros l Hl. assert (l = s) as -> by congruence. eexists. rewrite lookup_alter_eq, E2.
    split_and!; [done..|by split].
  - rewrite lru_new_cap. symmetry. apply Hw.
Qed.

(** the positions of the entries that stay, and the last of them *)
Lemma positions_front (c : chunk) n : (n < length c)%nat →
  slice (poss 0 c) 0 (S n) = Some (take (S n) (poss 0 c)) ∧
  last (take (S n) (poss 0 c)) = Some (length (encs (take n c)), length (encs (take (S n) c))).
Proof using.
  intros Hn. destruct (lookup_lt_is_Some_2 c n Hn) as [e He]. split.
  - unfold slice. rewrite bool_decide_true by (rewrite length_poss; lia). by rewrite drop_0, Nat.sub_0_r.
  - rewrite last_lookup, length_take, length_poss. replace (pred (S n `min` length c)) with n by lia.
    rewrite lookup_take_lt by lia. by rewrite (poss_lookup 0 c n e He), (take_S_r c n e He), encs_app, encs_single, length_app.
Qed.

Lemma TruncateBack_runs f css w idx (Q : unit → WAL C → Prop) :
  winv f css w → f ≤ idx < f + lenZ (mjoin css) →
  (∀ css' w', winv f css' w' → mjoin css' = take (Z.to_nat (idx - f + 1)) (mjoin css) → opts w' = opts w → Q tt w') →
  runs (TruncateBack no_flt idx) w Q.
Proof.
  intros Hw Hr HQ. destruct (winv_range f css w Hw) as (Hf & Hl & Hf1 & Hb).
  unfold TruncateBack. step check_open_runs; [done|]. unfold truncateBack. step runs_get.
  assert (out_of_range idx w = false) as ->.
  { unfold out_of_range. rewrite Hf, Hl.
    destruct (Z.eqb_spec idx 0), (Z.eqb_spec (f + lenZ (mjoin css) - 1) 0), (Z.ltb_spec idx f),
      (Z.ltb_spec (f + lenZ (mjoin css) - 1) idx); done || lia. }
  rewrite Hl. destruct (Z.eqb_spec idx (f + lenZ (mjoin css) - 1)) as [->|Hne].
  { apply runs_ret. eapply (HQ css); [done| |done]. by rewrite take_ge by lia. }
  destruct (located_exists f css idx Hr) as (i & c & Hloc). pose proof Hloc as [Hc Hs].
  step runs_intro; [by apply (findSegment_ok f css w idx i c)|].
  step (loadSegment_runs f css w idx i c); [done..|].
  intros s sg w1 Hw1 Hf1' Hls Hsg [Heb Hep] Hidx _. step deref_runs; [done|].
  destruct (entry_lookup_in_chunk f css w idx i c Hw Hloc) as [Hu Hn].
  destruct (winv_seg f css w1 i c Hw1 Hc) as (s' & sg' & Hls' & Hsg' & Hpath & _).
  assert (segments w1 !! i = Some s) as Hls1 by (destruct Hf1' as (_ & -> & _); done).
  assert (s' = s) as -> by congruence. assert (sg' = sg) as -> by congruence.
  rewrite Hidx, Hep, Heb.
  pose proof (winv_start_u64 f css w i Hw) as [Hui Hpi]. unfold in_u64 in Hu, Hui.
  rewrite u64_small by (unfold in_u64; lia).
  replace (Z.to_nat (idx - start f css i + 1)) with (S (Z.to_nat (idx - start f css i))) by lia.
  set (n := Z.to_nat (idx - start f css i)) in *.
  destruct (positions_front c n Hn) as [Hsl Hla]. step runs_from_option; [exact Hsl|]. step runs_from_option; [exact Hla|].
  cbn [snd]. step runs_from_option; [by apply slice_encs_take|].
  step write_temp_runs; [apply Hw1|]. intros t.
  step os_Rename_runs; [apply lookup_insert_eq|]. apply recovering_runs.
  assert (opts w1 = opts w) as Ho1 by apply Hf1'. rewrite <- Hidx.
  eapply (finish_back_runs f css w1 idx i c s sg _ (S t)); [done..| |].
  - intros x. cbn. rewrite Hidx. destruct (decide (x = segmentName (start f css i) +:+ ".END")) as [->|Hx].
    + by rewrite lookup_insert_eq.
    + rewrite lookup_insert_ne by done. destruct (decide (x = "TEMP")) as [->|HxT].
      * by rewrite lookup_delete_eq.
      * by rewrite lookup_delete_ne, lookup_insert_ne by done.
  - intros w' Hw' Ho. eapply HQ; [done| |congruence]. by apply join_back.
Qed.
End truncate_back.
