(* ===== verification/WalOpen.v ===== *)
(** * Opening and closing the write ahead log

    [Create] on the directory that a log left behind finds the same entries:
    the listing in name order is the list of segments in index order, and the
    last one is read back from its file. *)

From S2P Require Import Prelude Bytes Wal WalCodec WalInv WalTrunc.

Section scanning.

Lemma scan_skip d name names segs st en :
  segish name = false → scan (name :: names) d segs st en = scan names d segs st en.
Proof.
  intros Hs. cbn [scan]. unfold segish in Hs.
  destruct (bool_decide (d !! name = Some Dir) || bool_decide (length (bytes_of_string name) < 20)%nat) eqn:E; [done|].
  apply orb_false_iff in E as [_ E]. apply bool_decide_eq_false in E.
  rewrite bool_decide_true in Hs by lia. cbn [andb] in Hs.
  destruct (ParseUint (take 20 (bytes_of_string name))) as [[|p|p]|]; try done; cbn [andb] in Hs; by rewrite Hs.
Qed.

Lemma scan_filter d names segs st en :
  scan names d segs st en = scan (filter (λ n, segish n = true) names) d segs st en.
Proof.
  revert segs st en. induction names as [|n names IH]; intros segs st en; [done|].
  destruct (segish n) eqn:Es.
  - rewrite filter_cons_True by done. cbn [scan]. rewrite <- !IH.
    destruct (ParseUint _) as [[|p|p]|]; by rewrite <- ?IH.
  - rewrite scan_skip, filter_cons_False by (done || by rewrite Es). apply IH.
Qed.

Lemma scan_take d i names segs st en :
  in_u64 i → 0 < i → d !! segmentName i ≠ Some Dir →
  scan (segmentName i :: names) d segs st en =
  scan names d (segs ++ [mkSegment (segmentName i) i [] []]) st en.
Proof.
  intros Hi Hp Hd. cbn [scan]. rewrite segmentName_bytes, length_digits by lia.
  rewrite (bool_decide_false (_ = Some Dir)) by done. cbn -[ParseUint digits has_suffix scan].
  rewrite take_ge by (rewrite length_digits; lia). rewrite ParseUint_digits by done.
  destruct i; done || lia.
Qed.

Definition seg_of_index (i : Z) : segment := mkSegment (segmentName i) i [] [].

Lemma scan_indexes d is_ names segs st en :
  Forall (λ i, in_u64 i ∧ 0 < i ∧ d !! segmentName i ≠ Some Dir) is_ →
  scan ((segmentName <$> is_) ++ names) d segs st en =
  scan names d (segs ++ (seg_of_index <$> is_)) st en.
Proof.
  intros Hall. revert segs. induction Hall as [|i is_ (Hi & Hp & Hd) _ IH]; intros segs.
  - by rewrite app_nil_r.
  - rewrite fmap_cons. cbn [app]. rewrite scan_take, IH by done. by rewrite <- app_assoc.
Qed.

(** the START file of index [i] *)
Definition start_file (i : Z) : string := segmentName i +:+ ".START".
Definition end_file (i : Z) : string := segmentName i +:+ ".END".

Lemma bytes_of_string_app a b : bytes_of_string (a +:+ b) = bytes_of_string a ++ bytes_of_string b.
Proof.
  unfold bytes_of_string. induction a as [|c a IH]; [done|].
  change (list_ascii_of_string (String c a +:+ b)) with (c :: list_ascii_of_string (a +:+ b)).
  change (list_ascii_of_string (String c a)) with (c :: list_ascii_of_string a).
  rewrite !fmap_cons, IH. done.
Qed.

Lemma suffix_bytes i sfx : 0 ≤ i → bytes_of_string (segmentName i +:+ sfx) = digits 20 i ++ bytes_of_string sfx.
Proof. intros Hi. by rewrite bytes_of_string_app, segmentName_bytes. Qed.
Lemma start_file_bytes i : 0 ≤ i → bytes_of_string (start_file i) = digits 20 i ++ bytes_of_string ".START".
Proof. apply suffix_bytes. Qed.
Lemma end_file_bytes i : 0 ≤ i → bytes_of_string (end_file i) = digits 20 i ++ bytes_of_string ".END".
Proof. apply suffix_bytes. Qed.

Lemma suffix_facts i sfx : 0 ≤ i → 
  take 20 (digits 20 i ++ sfx) = digits 20 i ∧ length (digits 20 i ++ sfx) = (20 + length sfx)%nat ∧
  has_suffix sfx (digits 20 i ++ sfx) = true.
Proof.
  intros Hi. pose proof (length_digits 20 i) as Hl. split_and!.
  - rewrite take_app_le by lia. apply take_ge. lia.
  - rewrite length_app. lia.
  - unfold has_suffix. rewrite length_app, Hl, bool_decide_true by lia.
    replace (20 + length sfx - length sfx)%nat with (length (digits 20 i)) by lia.
    rewrite drop_app_length. by rewrite bool_decide_true.
Qed.

Lemma segish_start i : in_u64 i → 0 < i → segish (start_file i) = true.
Proof.
  intros Hi Hp. unfold segish. rewrite start_file_bytes by lia.
  destruct (suffix_facts i (bytes_of_string ".START")) as (-> & -> & ->); [lia|].
  rewrite ParseUint_digits by done. destruct i; done || lia.
Qed.

Lemma scan_start d i names segs en :
  in_u64 i → 0 < i → d !! start_file i ≠ Some Dir →
  scan (start_file i :: names) d segs None en =
  scan names d (segs ++ [mkSegment (start_file i) i [] []]) (Some (length segs)) en.
Proof.
  intros Hi Hp Hd. cbn [scan]. rewrite start_file_bytes by lia.
  destruct (suffix_facts i (bytes_of_string ".START")) as (-> & -> & ->); [lia|].
  rewrite (bool_decide_false (_ = Some Dir)) by done. rewrite ParseUint_digits by done.
  destruct i; done || lia.
Qed.

Lemma segish_end i : in_u64 i → 0 < i → segish (end_file i) = true.
Proof.
  intros Hi Hp. unfold segish. rewrite end_file_bytes by lia.
  destruct (suffix_facts i (bytes_of_string ".END")) as (-> & -> & ->); [lia|].
  rewrite ParseUint_digits by done. destruct i; done || lia.
Qed.

Lemma scan_end d i names segs st :
  in_u64 i → 0 < i → d !! end_file i ≠ Some Dir →
  scan (end_file i :: names) d segs st None =
  scan names d (segs ++ [mkSegment (end_file i) i [] []]) st (Some (length segs)).
Proof.
  intros Hi Hp Hd. cbn [scan]. rewrite end_file_bytes by lia.
  destruct (suffix_facts i (bytes_of_string ".END")) as (-> & -> & ->); [lia|].
  rewrite (bool_decide_false (_ = Some Dir)) by done. rewrite ParseUint_digits by done.
  destruct i; done || lia.
Qed.

(** a file of an index sorts after the index and before the next one *)
Lemma name_le_suffix i j sfx : in_u64 i → in_u64 j → i ≤ j → name_le (segmentName i) (segmentName j +:+ sfx).
Proof.
  intros Hi Hj Hij. unfold name_le. unfold in_u64 in Hi, Hj. rewrite segmentName_bytes, suffix_bytes by lia.
  rewrite <- (app_nil_r (digits 20 i)), bytes_leb_app by by rewrite !length_digits.
  case_bool_decide; [done|]. rewrite digits_leb by by apply pow20. by apply Z.leb_le.
Qed.

Lemma name_le_after_suffix i j sfx : in_u64 i → in_u64 j → i < j → name_le (segmentName i +:+ sfx) (segmentName j).
Proof.
  intros Hi Hj Hij. unfold name_le. pose proof Hi. pose proof Hj. unfold in_u64 in Hi, Hj.
  rewrite segmentName_bytes, suffix_bytes by lia.
  rewrite <- (app_nil_r (digits 20 j)), bytes_leb_app by by rewrite !length_digits.
  rewrite bool_decide_false.
  - rewrite digits_leb by by apply pow20. apply Z.leb_le. lia.
  - intros E. pose proof (f_equal (λ l, parse_digits l 0) E) as E'. cbn beta in E'.
    rewrite !parse_digits_digits in E' by by apply pow20. injection E'. lia.
Qed.

Lemma elem_of_ReadDir d n : n ∈ ReadDir d ↔ is_Some (d !! n).
Proof.
  unfold ReadDir. rewrite merge_sort_Permutation, list_elem_of_fmap. split.
  - intros ([k nd] & -> & H%elem_of_map_to_list). by exists nd.
  - intros [nd H]. exists (n, nd). split; [done|]. by apply elem_of_map_to_list.
Qed.

Lemma NoDup_ReadDir d : NoDup (ReadDir d).
Proof. unfold ReadDir. rewrite merge_sort_Permutation. apply NoDup_fst_map_to_list. Qed.

Lemma StronglySorted_filter {A} (R : A → A → Prop) (P : A → Prop) `{∀ x, Decision (P x)} l :
  StronglySorted R l → StronglySorted R (filter P l).
Proof.
  induction 1 as [|x l Hl IH Hx]; [constructor|]. rewrite filter_cons. case_decide; [|done].
  constructor; [done|]. rewrite Forall_forall in Hx |- *. intros y Hy.
  apply list_elem_of_filter in Hy as [_ Hy]. by apply Hx.
Qed.

(** a strictly increasing list of indexes gives a sorted list of names *)
Lemma sorted_names (l : list Z) :
  StronglySorted Z.le l → Forall in_u64 l → StronglySorted name_le (segmentName <$> l).
Proof.
  induction 1 as [|x l Hl IH Hx]; intros Hu; [constructor|]. apply Forall_cons in Hu as [Hxu Hu].
  cbn. constructor; [by apply IH|]. rewrite Forall_fmap.
  rewrite Forall_forall in Hx, Hu |- *. intros y Hy. apply segmentName_le; auto.
Qed.

End scanning.

Section listings.
Implicit Types (f : Z) (css : list chunk) (d : disk).

Definition start_list f css : list Z := start f css <$> seq 0 (length css).

Lemma names_starts f css : names f css = segmentName <$> start_list f css.
Proof using. unfold names, start_list. by rewrite <- list_fmap_compose. Qed.

Lemma start_list_lookup f css i : (i < length css)%nat → start_list f css !! i = Some (start f css i).
Proof using. intros Hi. unfold start_list. rewrite list_lookup_fmap, lookup_seq_lt by done. done. Qed.

Lemma length_start_list f css : length (start_list f css) = length css.
Proof using. unfold start_list. by rewrite length_fmap, length_seq. Qed.

Lemma start_list_sorted f css d : disk_log f css d → StronglySorted Z.lt (start_list f css).
Proof using.
  intros Hd. unfold start_list.
  enough (∀ n k, (k + n = length css)%nat → StronglySorted Z.lt (start f css <$> seq k n)) as Hs by by apply Hs.
  induction n as [|n IH]; intros k Hk; cbn; [constructor|].
  constructor; [apply IH; lia|]. apply Forall_fmap, Forall_forall. intros j [Hj1 Hj2]%elem_of_seq. cbn.
  apply start_lt; [apply Hd|lia|lia].
Qed.

Lemma start_list_u64 f css d : disk_log f css d → Forall (λ i, in_u64 i ∧ 0 < i) (start_list f css).
Proof using. intros Hd. apply Forall_fmap, Forall_forall. intros i _. by apply (dl_start f css d). Qed.

Lemma StronglySorted_lt_le l : StronglySorted Z.lt l → StronglySorted Z.le l.
Proof using.
  induction 1 as [|x l _ IH Hx]; constructor; [done|]. eapply Forall_impl; [exact Hx|]. intros; lia.
Qed.

Lemma NoDup_names_sorted l :
  StronglySorted Z.lt l → Forall in_u64 l → NoDup (segmentName <$> l).
Proof using.
  induction 1 as [|x l _ IH Hx]; intros Hu; [constructor|]. apply Forall_cons in Hu as [Hxu Hu].
  cbn. constructor; [|by apply IH]. intros (y & E & Hy)%list_elem_of_fmap.
  rewrite Forall_forall in Hx, Hu. apply segmentName_inj in E; auto. specialize (Hx y Hy). lia.
Qed.

Lemma filter_ReadDir_unique d (l : list string) :
  StronglySorted name_le l → NoDup l →
  (∀ n, n ∈ l ↔ segish n = true ∧ is_Some (d !! n)) →
  filter (λ n, segish n = true) (ReadDir d) = l.
Proof using.
  intros Hs Hnd Hl. apply (StronglySorted_unique name_le).
  - apply StronglySorted_filter. apply Sorted_StronglySorted; [apply _|].
    apply Sorted_merge_sort. apply _.
  - done.
  - apply NoDup_Permutation; [apply NoDup_filter, NoDup_ReadDir|done|].
    intros n. rewrite list_elem_of_filter, elem_of_ReadDir. by rewrite Hl.
Qed.

Lemma Forall_in_u64 f css d : disk_log f css d → Forall in_u64 (start_list f css).
Proof using. intros Hd. eapply Forall_impl; [by eapply start_list_u64|]. by intros i []. Qed.

(** the directory [D] has the same file names as [d] *)
Definition same_names (D d : disk) : Prop := ∀ n, is_Some (D !! n) ↔ is_Some (d !! n).

(** the listing of the directory, without the other files, is the list of the
    segments in order *)
Lemma listing_names f css d (D : disk) :
  disk_log f css d → same_names D d →
  filter (λ n, segish n = true) (ReadDir D) = segmentName <$> start_list f css.
Proof using.
  intros Hd HD. pose proof (start_list_sorted f css d Hd) as Hs. pose proof (Forall_in_u64 f css d Hd) as Hu.
  apply filter_ReadDir_unique.
  - apply sorted_names; [by apply StronglySorted_lt_le|done].
  - by apply NoDup_names_sorted.
  - intros n. rewrite list_elem_of_fmap, (HD n). split.
    + intros (i & -> & Hi). apply list_elem_of_fmap in Hi as (j & -> & Hj%elem_of_seq).
      destruct (dl_start f css d j Hd). split; [by apply segish_segmentName|].
      destruct (lookup_lt_is_Some_2 css j) as [c Hc]; [lia|]. by rewrite (dl_files _ _ _ Hd j c Hc).
    + intros [Hsg [nd Hn]]. destruct (dl_disk _ _ _ Hd _ _ Hn Hsg) as (b & i & _ & Hi & ->).
      exists (start f css i). split; [done|]. apply list_elem_of_fmap. exists i. split; [done|].
      apply elem_of_seq. lia.
Qed.

Lemma listing f css d :
  disk_log f css d → filter (λ n, segish n = true) (ReadDir d) = segmentName <$> start_list f css.
Proof using. intros Hd. by apply (listing_names f css d d Hd). Qed.
End listings.

Section opening.
Context {C : Type} `{LRU C}.
Implicit Types (w : WAL C) (f : Z) (css : list chunk) (d : disk).

Lemma alloc_all_runs segs w (Q : unit → WAL C → Prop) :
  NoDup (segments w) → (∀ l, l ∈ segments w → l ∈ dom (heap w)) →
  (∀ ls h, NoDup (segments w ++ ls) → Forall2 (λ l s, h !! l = Some s) ls segs →
    (∀ l, l ∈ dom (heap w) → h !! l = heap w !! l) →
    Q tt (set_segments (segments w ++ ls) (set_heap h w))) →
  runs (alloc_all segs) w Q.
Proof.
  unfold alloc_all. revert w Q. induction segs as [|s segs IH]; intros w Q Hnd Hdom HQ; cbn [for_each].
  { apply runs_ret. specialize (HQ [] (heap w)). rewrite app_nil_r in HQ.
    destruct w. apply HQ; [done|constructor|done]. }
  apply runs_bind. step new_segment_runs. intros l Hl. apply runs_modify.
  apply IH; cbn [segments set_segments set_heap heap].
  - apply NoDup_app. split_and!; [done| |apply NoDup_singleton].
    intros x Hx ->%list_elem_of_singleton. by apply Hl, Hdom.
  - intros x [Hx| ->%list_elem_of_singleton]%elem_of_app; rewrite dom_insert_L; set_solver.
  - intros ls h Hnd' Hf Hh. rewrite <- app_assoc in Hnd'.
    specialize (HQ (l :: ls) h Hnd'). cbn in HQ. rewrite <- app_assoc. apply HQ.
    + constructor; [|done]. rewrite Hh; [by rewrite lookup_insert_eq|]. rewrite dom_insert_L. set_solver.
    + intros x Hx. rewrite Hh; [|rewrite dom_insert_L; set_solver].
      rewrite lookup_insert_ne; [done|]. intros <-. done.
Qed.

Lemma default_opts_pos o : 0 < SegmentSize (default_opts o) ∧ 0 < SegmentCacheSize (default_opts o).
Proof using.
  unfold default_opts. cbn. destruct (Z.leb_spec (SegmentSize o) 0), (Z.leb_spec (SegmentCacheSize o) 0); lia.
Qed.

Lemma io_ok_runs w (Q : unit → WAL C → Prop) : Q tt (tick w) → runs (io_ok no_flt) w Q.
Proof. done. Qed.

(** opening the segments of a log on disk, in order, restores its invariant *)
Lemma open_segments_runs f css o d t t' (Q : unit → WAL C → Prop) :
  disk_log f css d →
  (∀ w', winv f css w' → dir w' = d → opts w' = default_opts o → Q tt w') →
  runs (open_segments no_flt (seg_of_index <$> start_list f css))
    (set_dir d (set_ticks t' (empty_wal (default_opts o) d t))) Q.
Proof.
  intros Hd HQ. unfold open_segments.
  apply runs_bind. apply alloc_all_runs; [constructor|intros l Hl; by inversion Hl|].
  cbn [segments tick set_ticks set_dir empty_wal app]. intros ls h Hnd Hfs _.
  assert (length ls = length css) as Hlls.
  { apply Forall2_length in Hfs. by rewrite length_fmap, length_start_list in Hfs. }
  assert (∀ i l, ls !! i = Some l → h !! l = Some (seg_of_index (start f css i))) as Hh.
  { intros i l Hl. pose proof (lookup_lt_Some _ _ _ Hl) as Hi.
    destruct (Forall2_lookup_l _ _ _ _ _ Hfs Hl) as (sg & Hsg & ->).
    rewrite list_lookup_fmap, start_list_lookup in Hsg by lia. by injection Hsg as <-. }
  pose proof (dl_ne _ _ _ Hd) as Hne.
  step (runs_from_option _ (seg_of_index f)).
  { destruct css as [|c0 css0]; [done|]. cbn. by rewrite start_0. }
  step runs_modify. cbn [index seg_of_index].
  set (n := (length css - 1)%nat).
  destruct (lookup_lt_is_Some_2 css n) as [c Hc]; [destruct css; [done|cbn in *; lia]|].
  pose proof (lookup_lt_Some _ _ _ Hc) as Hn.
  destruct (lookup_lt_is_Some_2 ls n) as [tl Htl]; [lia|].
  assert (last ls = Some tl) as Hlast_ls by (rewrite last_lookup, <- Htl; f_equal; lia).
  step tail_runs; [exact Hlast_ls|]. step deref_runs; [by apply (Hh n)|]. cbn [path seg_of_index].
  pose proof (dl_files _ _ _ Hd n c Hc) as Hdc.
  step open_append_runs; [exact Hdc|].
  apply runs_bind. eapply (loadSegmentEntries_eq _ tl); [by apply (Hh n)|exact Hdc| |].
  { eapply Forall_join_lookup; [apply Hd|done]. }
  step deref_runs; [cbn; rewrite lookup_alter_eq, (Hh n tl Htl); done|].
  apply runs_modify. cbn [index epos set_bufs seg_of_index]. rewrite length_poss.
  assert (start f css n + lenZ c = f + lenZ (mjoin css)) as Htot.
  { rewrite <- (start_S f css n c Hc), <- start_all. f_equal. lia. }
  pose proof (dl_bound _ _ _ Hd). pose proof (dl_first _ _ _ Hd).
  rewrite u64_small by (unfold in_u64; lia). apply HQ; [|done..].
  destruct (default_opts_pos o) as [Ho1 Ho2].
  split; try done; try apply Hd; cbn.
  - lia.
  - intros i l c' Hl Hc'. pose proof (dl_files _ _ _ Hd i c' Hc') as Hdi.
    destruct (decide (l = tl)) as [->|Hne'].
    + assert (i = n) as -> by by eapply NoDup_lookup.
      assert (c' = c) as -> by congruence. eexists. rewrite lookup_alter_eq, (Hh n tl Htl).
      split_and!; [done..|]. left. by split.
    + eexists. rewrite lookup_alter_ne by done. split_and!; [by apply Hh|done|done|done|]. right. by split.
  - intros l c' Hl Hc'. rewrite last_lookup in Hc'. assert (l = tl) as -> by congruence.
    replace (pred (length css)) with n in Hc' by lia. assert (c' = c) as -> by congruence.
    eexists. rewrite lookup_alter_eq, (Hh n tl Htl). split; [done|by split].
  - rewrite lru_new_entries. intros k v Hin. by inversion Hin.
  - by rewrite lru_new_cap.
Qed.

Lemma Create_of_load o d t (P : WAL C → Prop) :
  runs (load no_flt) (empty_wal (default_opts (default DefaultOptions o)) d t) (λ _, P) →
  ∃ w' : WAL C, Create no_flt o d t = (Ok tt, w') ∧ P w'.
Proof. intros ([] & w' & E & HQ)%runs_elim. by exists w'. Qed.

(** opening the directory of a log finds its entries *)
Lemma Create_disk_log f css d o t :
  disk_log f css d →
  ∃ w' : WAL C, Create no_flt o d t = (Ok tt, w') ∧ winv f css w' ∧ dir w' = d ∧
    opts w' = default_opts (default DefaultOptions o).
Proof.
  intros Hd. apply Create_of_load. unfold load.
  step io_ok_runs. step runs_get. cbn [dir tick set_ticks empty_wal].
  rewrite scan_filter, (listing f css d Hd), <- (app_nil_r (segmentName <$> _)), scan_indexes.
  - cbn [scan app]. pose proof (dl_ne _ _ _ Hd) as Hne.
    destruct (seg_of_index <$> start_list f css) as [|s0 rest] eqn:Es.
    { apply (f_equal length) in Es. rewrite length_fmap, length_start_list in Es. by destruct css. }
    apply runs_bind, runs_ret. apply runs_bind, runs_ret. rewrite <- Es.
    change (tick (empty_wal (default_opts (default DefaultOptions o)) d t) : WAL C)
      with (set_dir d (set_ticks (S t) (empty_wal (default_opts (default DefaultOptions o)) d t)) : WAL C).
    apply open_segments_runs; [done|]. auto.
  - apply Forall_fmap, Forall_forall. intros j [_ Hj]%elem_of_seq. cbn.
    destruct (dl_start f css d j Hd). split_and!; [done..|].
    destruct (lookup_lt_is_Some_2 css j) as [c Hc]; [lia|]. by rewrite (dl_files _ _ _ Hd j c Hc).
Qed.

(** ** A torn write *)

Definition fails {A} (m : M (WAL C) wal_error A) w (e : wal_error) : Prop := (m w).1 = Err e.

Lemma fails_bind {A B} (m : M (WAL C) wal_error A) (g : A → M (WAL C) wal_error B) w e :
  runs m w (λ a w', fails (g a) w' e) → fails (m ≫= g) w e.
Proof using. unfold runs, fails, mbind, M_bind. by destruct (m w) as [[a|?|] w']. Qed.

Lemma fails_now {A B} (m : M (WAL C) wal_error A) (g : A → M (WAL C) wal_error B) w e :
  fails m w e → fails (m ≫= g) w e.
Proof using. unfold fails, mbind, M_bind. destruct (m w) as [[a|?|] w']; cbn; congruence. Qed.

(** the directory of a log whose last file ends with the first [k] bytes of an
    entry cannot be opened *)
Lemma Create_torn f css d c e k o t :
  disk_log f css d → last css = Some c → wf_entry e → (0 < k < length (enc e))%nat →
  ∃ w' : WAL C, Create no_flt o
    (alter (append_bytes (take k (enc e))) (segmentName (start f css (length css - 1))) d) t = (Err ErrCorrupt, w').
Proof.
  intros Hd Hc He Hk. set (n := (length css - 1)%nat). set (D := alter _ _ d).
  assert (css !! n = Some c) as Hcn.
  { rewrite last_lookup in Hc. rewrite <- Hc. f_equal. unfold n. lia. }
  pose proof (lookup_lt_Some _ _ _ Hcn) as Hn. pose proof (dl_files _ _ _ Hd n c Hcn) as Hdc.
  assert (same_names D d) as HD.
  { intros x. unfold D. destruct (decide (x = segmentName (start f css n))) as [->|].
    - rewrite lookup_alter_eq, Hdc. done.
    - by rewrite lookup_alter_ne. }
  assert (D !! segmentName (start f css n) = Some (File (encs c ++ take k (enc e)))) as HDc.
  { unfold D. by rewrite lookup_alter_eq, Hdc. }
  assert (Forall wf_entry c) as Hwf by (eapply Forall_join_lookup; [apply Hd|done]).
  cut (fails (load no_flt) (empty_wal (default_opts (default DefaultOptions o)) D t) ErrCorrupt).
  { unfold fails, Create. destruct (load _ _) as [r w']. cbn. intros ->. by exists w'. }
  unfold load. apply fails_bind. apply io_ok_runs. apply fails_bind, runs_get. cbn [dir tick set_ticks empty_wal].
  rewrite scan_filter, (listing_names f css d D Hd HD), <- (app_nil_r (segmentName <$> _)), scan_indexes.
  2:{ apply Forall_fmap, Forall_forall. intros j [_ Hj]%elem_of_seq. cbn.
      destruct (dl_start f css d j Hd). split_and!; [done..|]. unfold D.
      destruct (lookup_lt_is_Some_2 css j) as [c' Hc']; [lia|].
      pose proof (dl_files _ _ _ Hd j c' Hc') as E.
      destruct (decide (segmentName (start f css j) = segmentName (start f css n))) as [->|].
      - by rewrite lookup_alter_eq, Hdc.
      - by rewrite lookup_alter_ne, E. }
  cbn [scan app]. destruct (seg_of_index <$> start_list f css) as [|s0 rest] eqn:Es.
  { apply (f_equal length) in Es. rewrite length_fmap, length_start_list in Es. cbn in Es. lia. }
  apply fails_bind, runs_ret. apply fails_bind, runs_ret. rewrite <- Es. unfold open_segments.
  apply fails_bind. apply alloc_all_runs; [constructor|intros l Hl; by inversion Hl|].
  cbn [segments tick set_ticks set_dir empty_wal app]. intros ls h Hnd Hfs _.
  pose proof (Forall2_length _ _ _ Hfs) as Hlls. rewrite length_fmap, length_start_list in Hlls.
  apply fails_bind. apply (runs_from_option _ s0); [by rewrite Es|]. apply fails_bind, runs_modify.
  destruct (lookup_lt_is_Some_2 ls n) as [tl Htl]; [lia|].
  destruct (Forall2_lookup_l _ _ _ _ _ Hfs Htl) as (sg & Hsg & Hh).
  rewrite list_lookup_fmap, start_list_lookup in Hsg by lia. injection Hsg as <-.
  apply fails_bind. apply (tail_runs _ tl); [cbn; rewrite last_lookup, <- Htl; f_equal; lia|].
  apply fails_bind. eapply deref_runs; [exact Hh|]. cbn [path seg_of_index].
  apply fails_bind. eapply open_append_runs; [exact HDc|].
  apply fails_now. unfold loadSegmentEntries. apply fails_bind. eapply deref_runs; [exact Hh|].
  unfold fails, ReadFile, io_ok, io. run_monad. rewrite HDc. run_monad.
  rewrite load_entries_torn; [done..|].
  rewrite length_app, length_take. pose proof (length_encs_ge c Hwf). lia.
Qed.

(** opening a directory that holds no segment creates an empty log *)
Lemma Create_empty d o t :
  (∀ name nd, d !! name = Some nd → segish name = false) → d !! "TEMP" ≠ Some Dir →
  ∃ w' : WAL C, Create no_flt o d t = (Ok tt, w') ∧ winv 1 [[]] w' ∧
    opts w' = default_opts (default DefaultOptions o).
Proof.
  intros Hd HT. apply Create_of_load.
  unfold load. step io_ok_runs. step runs_get. cbn [dir tick set_ticks empty_wal].
  rewrite scan_filter, (filter_ReadDir_unique d []).
  2,3: by constructor.
  2: { intros n. split; [by inversion 1|]. intros [Hs [nd Hn]]. by rewrite (Hd n nd Hn) in Hs. }
  cbn [scan].
  apply runs_bind. apply alloc_all_runs; [constructor|intros l Hl; by inversion Hl|].
  cbn [segments tick set_ticks empty_wal app]. intros ls h Hnd Hfs _.
  inversion Hfs as [|l sg ls' ? Hl Hfs']; subst. inversion Hfs'; subst.
  assert (segish (segmentName 1) = true) as Hs1 by by apply segish_segmentName.
  step runs_modify. apply open_create_runs.
  { cbn. intros E. by rewrite (Hd _ _ E) in Hs1. }
  split; [|done]. destruct (default_opts_pos (default DefaultOptions o)) as [Ho1 Ho2].
  assert (start 1 [[]] 0 = 1) as S0 by done.
  split; try done; cbn -[start].
  - intros [|i] l' c Hl' Hc; [|done]. injection Hl' as <-. injection Hc as <-. rewrite S0.
    eexists. split_and!; [exact Hl|done|done|by rewrite lookup_insert_eq|]. left. by split.
  - intros l' c [= <-] [= <-]. eexists. split; [exact Hl|by split].
  - intros [|i] c Hc Hi; [lia|done].
  - rewrite lru_new_entries. intros k v Hin. by inversion Hin.
  - by rewrite lru_new_cap.
  - intros name nd. rewrite lookup_insert. case_decide as E.
    + intros [= <-] _. exists [], 0%nat. rewrite S0. split_and!; [done|lia|done].
    + intros Hn Hs. by rewrite (Hd _ _ Hn) in Hs.
  - rewrite lookup_insert_ne; [done|]. apply segmentName_not; [lia|done].
Qed.

Lemma Close_eq f css w :
  winv f css w → Close no_flt w = (Ok tt, set_flags true false (set_sfile None (tick (tick w)))).
Proof.
  intros Hw. destruct (wi_open _ _ _ _ _ _ _ _ _ _ _ _ Hw) as [Hc Hco].
  pose proof (wi_sfile _ _ _ _ _ _ _ _ _ _ _ _ Hw) as Hsf.
  unfold Close, sfile_Sync, sfile_Close, io_ok, io. run_monad. rewrite Hc. run_monad. rewrite Hsf. run_monad.
  rewrite Hsf. run_monad. by rewrite Hco.
Qed.
End opening.

(** ** Recovery from an interrupted [TruncateFront] *)

Section recovery.
Context {C : Type} `{LRU C}.
Implicit Types (w : WAL C) (f : Z) (css : list chunk) (d : disk).

(** the directory left when the process dies after the rename to START and the
    removal of the first [m] segment files *)
Definition interrupted_front f css idx i c m d0 d : Prop :=
  ∀ x, d !! x = if decide (x = start_file idx) then Some (File (encs (drop (Z.to_nat (idx - start f css i)) c)))
                else if decide (x = "TEMP") then None
                else if bool_decide (x ∈ take m (names f css)) then None else d0 !! x.

Lemma disk_log_front f css d0 idx i c D :
  disk_log f css d0 → located f css idx i c →
  D !! segmentName idx = Some (File (encs (drop (Z.to_nat (idx - start f css i)) c))) →
  (∀ x, x ≠ segmentName idx →
    D !! x = if bool_decide (x = "TEMP" ∨ x = start_file idx ∨ x ∈ take (S i) (names f css)) then None else d0 !! x) →
  disk_log idx (front_chunks f css idx i c) D.
Proof using.
  intros Hd Hloc HDi HD. destruct (front_disk f css d0 idx i c D Hd Hloc HDi HD) as (H1 & H2 & H3).
  pose proof Hloc as [Hc Hs]. pose proof (dl_first _ _ _ Hd).
  pose proof (start_mono f css 0 i ltac:(lia)) as Hm. rewrite start_0 in Hm.
  pose proof (lookup_lt_Some _ _ _ Hc) as Hi.
  split; try done.
  - lia.
  - rewrite (join_front f css idx i c Hloc), length_drop. pose proof (dl_bound _ _ _ Hd).
    pose proof (start_S f css i c Hc). pose proof (start_le_total f css (S i)). lia.
  - intros [|j] c' Hc' Hj'.
    + change (Some (drop (Z.to_nat (idx - start f css i)) c) = Some c') in Hc'.
      injection Hc' as <-. intros E%(f_equal length). rewrite length_drop in E. cbn in E. lia.
    + change (drop (S i) css !! j = Some c') in Hc'. rewrite lookup_drop in Hc'.
      eapply (dl_mid _ _ _ Hd); [exact Hc'|]. unfold front_chunks in Hj'. cbn in Hj'. rewrite length_drop in Hj'. lia.
  - rewrite (join_front f css idx i c Hloc). apply Forall_drop, Hd.
Qed.

Lemma start_list_front f css idx i c :
  located f css idx i c → start_list idx (front_chunks f css idx i c) = idx :: drop (S i) (start_list f css).
Proof using.
  intros Hloc. pose proof Hloc as [Hc Hs]. pose proof (lookup_lt_Some _ _ _ Hc) as Hi.
  assert (length (front_chunks f css idx i c) = (length css - i)%nat) as Hl.
  { unfold front_chunks. cbn. rewrite length_drop. lia. }
  apply list_eq. intros [|j].
  - rewrite start_list_lookup by lia. by rewrite start_0.
  - change ((idx :: drop (S i) (start_list f css)) !! S j) with (drop (S i) (start_list f css) !! j).
    rewrite lookup_drop. destruct (decide (S i + j < length css)%nat).
    + rewrite !start_list_lookup by lia. by rewrite (start_front f css idx i c).
    + rewrite !lookup_ge_None_2; rewrite ?length_start_list; [done|lia..].
Qed.

Lemma StronglySorted_app_intro {A} (R : A → A → Prop) l1 l2 :
  StronglySorted R l1 → StronglySorted R l2 → (∀ x y, x ∈ l1 → y ∈ l2 → R x y) → StronglySorted R (l1 ++ l2).
Proof using.
  induction 1 as [|x l1 _ IH Hx]; intros H2 Hxy; [done|]. cbn. constructor.
  - apply IH; [done|]. intros a b Ha Hb. apply Hxy; [by constructor|done].
  - apply Forall_app. split; [done|]. apply Forall_forall. intros y Hy. apply Hxy; [by constructor|done].
Qed.

Lemma StronglySorted_sublist {A} (R : A → A → Prop) l l' :
  l' `sublist_of` l → StronglySorted R l → StronglySorted R l'.
Proof using.
  intros Hsub. induction Hsub as [|x l1 l2 Hsub IH|x l1 l2 Hsub IH]; intros Hs; [constructor| |].
  - inversion Hs as [|? ? Hs' Hx]; subst. constructor; [by apply IH|].
    rewrite Forall_forall in Hx |- *. intros y Hy. by apply Hx, (elem_of_sublist l1 l2).
  - inversion Hs; subst. by apply IH.
Qed.

Lemma elem_take_starts f css k x :
  x ∈ take k (start_list f css) ↔ ∃ j, (j < k)%nat ∧ (j < length css)%nat ∧ x = start f css j.
Proof using.
  rewrite list_elem_of_lookup. split.
  - intros [j Hj]. apply lookup_take_Some in Hj as [Hj Hk]. exists j.
    pose proof (lookup_lt_Some _ _ _ Hj) as Hl. rewrite length_start_list in Hl.
    rewrite start_list_lookup in Hj by done. injection Hj as <-. done.
  - intros (j & Hk & Hl & ->). exists j. apply lookup_take_Some. split; [by apply start_list_lookup|done].
Qed.

Lemma elem_drop_starts f css k x :
  x ∈ drop k (start_list f css) ↔ ∃ j, (k ≤ j)%nat ∧ (j < length css)%nat ∧ x = start f css j.
Proof using.
  rewrite list_elem_of_lookup. split.
  - intros [j Hj]. rewrite lookup_drop in Hj. exists (k + j)%nat.
    pose proof (lookup_lt_Some _ _ _ Hj) as Hl. rewrite length_start_list in Hl.
    rewrite start_list_lookup in Hj by done. injection Hj as <-. split_and!; [lia|done..].
  - intros (j & Hk & Hl & ->). exists (j - k)%nat. rewrite lookup_drop.
    replace (k + (j - k))%nat with j by lia. by apply start_list_lookup.
Qed.

(** the indexes whose segment files are not [gone] *)
Definition spared (gone : list string) (l : list Z) : list Z := filter (λ x, segmentName x ∉ gone) l.

Lemma spared_sublist gone l : spared gone l `sublist_of` l.
Proof using.
  unfold spared. induction l as [|x l IH]; [done|]. rewrite filter_cons. case_decide; by constructor.
Qed.

(** the names [load] finds in the directory of a log when some segments are gone and a
    file of index [y] is there, the first [k] segments being at most at [y] *)
Lemma listing_with_file f css d0 d k y sfx gone :
  disk_log f css d0 → in_u64 y → 0 < y → segish (segmentName y +:+ sfx) = true → String.length (segmentName y +:+ sfx) ≠ 20%nat →
  (∀ j, (j < k)%nat → (j < length css)%nat → start f css j ≤ y) →
  (∀ j, (k ≤ j)%nat → (j < length css)%nat → y < start f css j) →
  (∀ x, segish x = true → is_Some (d !! x) ↔ x = segmentName y +:+ sfx ∨ ((x ∉ gone) ∧ is_Some (d0 !! x))) →
  filter (λ n, segish n = true) (ReadDir d) =
    (segmentName <$> spared gone (take k (start_list f css))) ++
    [segmentName y +:+ sfx] ++ (segmentName <$> spared gone (drop k (start_list f css))).
Proof using.
  intros Hd0 Hyu Hyp Hys Hyl Hbefore Hafter Hd.
  pose proof (start_list_sorted f css d0 Hd0) as Hsort. pose proof (Forall_in_u64 f css d0 Hd0) as Hu.
  set (A := spared gone (take k (start_list f css))). set (B := spared gone (drop k (start_list f css))).
  assert (A `sublist_of` start_list f css) as HsubA by (etrans; [apply spared_sublist|apply sublist_take]).
  assert (B `sublist_of` start_list f css) as HsubB by (etrans; [apply spared_sublist|apply sublist_drop]).
  assert (∀ l x, l `sublist_of` start_list f css → x ∈ l → in_u64 x) as Hin.
  { intros l x Hl Hx. rewrite Forall_forall in Hu. by apply Hu, (elem_of_sublist l _ x). }
  assert (∀ x, x ∈ A → x ≤ y) as HA.
  { intros x [_ (j & Hj & Hjl & ->)%elem_take_starts]%list_elem_of_filter. by apply Hbefore. }
  assert (∀ x, x ∈ B → y < x) as HB.
  { intros x [_ (j & Hj & Hjl & ->)%elem_drop_starts]%list_elem_of_filter. by apply Hafter. }
  assert (∀ l, l `sublist_of` start_list f css → StronglySorted name_le (segmentName <$> l) ∧ NoDup (segmentName <$> l)) as Hl.
  { intros l Hl. pose proof (StronglySorted_sublist _ _ _ Hl Hsort). assert (Forall in_u64 l) by (apply Forall_forall; eauto).
    split; [apply sorted_names; [by apply StronglySorted_lt_le|done]|by apply NoDup_names_sorted]. }
  assert (∀ x, in_u64 x → segmentName x ≠ segmentName y +:+ sfx) as Hns.
  { intros x Hx. apply segmentName_not; [apply Hx|done]. }
  apply filter_ReadDir_unique.
  - apply StronglySorted_app_intro; [by apply Hl| |].
    + cbn. constructor; [by apply Hl|]. apply Forall_fmap, Forall_forall. intros x Hx.
      apply name_le_after_suffix; [done|by apply (Hin B)|by apply HB].
    + intros x z (a & -> & Ha)%list_elem_of_fmap Hz. pose proof (HA a Ha).
      apply elem_of_app in Hz as [->%list_elem_of_singleton|(b & -> & Hb)%list_elem_of_fmap].
      * apply name_le_suffix; [by apply (Hin A)|done|done].
      * pose proof (HB b Hb). apply segmentName_le; [by apply (Hin A)|by apply (Hin B)|lia].
  - apply NoDup_app. split_and!; [by apply Hl| |].
    + intros x (a & -> & Ha)%list_elem_of_fmap Hz. pose proof (HA a Ha). pose proof (Hin A a HsubA Ha).
      apply elem_of_app in Hz as [E%list_elem_of_singleton|(b & E & Hb)%list_elem_of_fmap]; [by apply (Hns a)|].
      pose proof (HB b Hb). apply segmentName_inj in E; [lia|done|by apply (Hin B)].
    + cbn. constructor; [|by apply Hl]. intros (b & E & Hb)%list_elem_of_fmap.
      by apply (Hns b); [apply (Hin B)|].
  - intros n. rewrite !elem_of_app, list_elem_of_singleton.
    assert (∀ l x, x ∈ segmentName <$> spared gone l ↔ (x ∉ gone) ∧ x ∈ segmentName <$> l) as Hsp.
    { intros l x. unfold spared. rewrite !list_elem_of_fmap. split.
      - intros (a & -> & [Ha Hal]%list_elem_of_filter). eauto.
      - intros (Hg & a & -> & Ha). exists a. split; [done|]. by apply list_elem_of_filter. }
    unfold A, B. rewrite !Hsp.
    assert (n ∈ segmentName <$> start_list f css ↔ n ∈ segmentName <$> take k (start_list f css) ∨ n ∈ segmentName <$> drop k (start_list f css)) as Hall.
    { by rewrite <- (take_drop k (start_list f css)) at 1; rewrite fmap_app, elem_of_app. }
    rewrite <- (listing f css d0 Hd0), list_elem_of_filter, elem_of_ReadDir in Hall.
    split.
    + intros Hn. assert (segish n = true) as Hsg by (destruct Hn as [?|[->|?]]; [tauto|done|tauto]).
      split; [done|]. apply Hd; [done|]. tauto.
    + intros [Hsg Hn%Hd]; [tauto|done].
Qed.

Lemma spared_app gone l1 l2 : spared gone (l1 ++ l2) = spared gone l1 ++ spared gone l2.
Proof using. apply filter_app. Qed.
Lemma spared_none l gone : (∀ x, x ∈ l → segmentName x ∉ gone) → spared gone l = l.
Proof using.
  unfold spared. induction l as [|x l IH]; intros Hl; [done|]. rewrite filter_cons_True by (apply Hl; constructor).
  f_equal. apply IH. intros z Hz. apply Hl. by constructor.
Qed.
Lemma spared_all l gone : (∀ x, x ∈ l → segmentName x ∈ gone) → spared gone l = [].
Proof using.
  unfold spared. induction l as [|x l IH]; intros Hl; [done|]. rewrite filter_cons_False by (intros Hx; apply Hx, Hl; constructor).
  apply IH. intros z Hz. apply Hl. by constructor.
Qed.

(** what is left of the old front, START, the rest *)
Lemma interrupted_listing f css idx i c m d0 d :
  disk_log f css d0 → located f css idx i c → (m ≤ S i)%nat → interrupted_front f css idx i c m d0 d →
  filter (λ n, segish n = true) (ReadDir d) =
    (segmentName <$> drop m (take (S i) (start_list f css))) ++
    [start_file idx] ++ (segmentName <$> drop (S i) (start_list f css)).
Proof using.
  intros Hd0 Hloc Hm Hd. pose proof Hloc as [Hc Hs]. pose proof (lookup_lt_Some _ _ _ Hc) as Hi.
  pose proof (dl_start f css d0 i Hd0) as [Hiu Hip]. pose proof (start_S f css i c Hc) as HS.
  pose proof (dl_start f css d0 (S i) Hd0) as [HSu _].
  assert (in_u64 idx ∧ 0 < idx) as [Hxu Hxp] by (unfold in_u64 in *; lia).
  assert (∀ j, (m ≤ j)%nat → (j < length css)%nat → segmentName (start f css j) ∉ take m (names f css)) as Hleft.
  { intros j Hj Hjl (k & Hk & Hkl & E)%elem_take_names. apply (dl_name_inj f css d0) in E; [lia|done..]. }
  unfold start_file. rewrite (listing_with_file f css d0 d (S i) idx ".START" (take m (names f css))); [|try done..].
  - rewrite (spared_none (drop _ _)) by (intros x (j & Hj & Hjl & ->)%elem_drop_starts; apply Hleft; [lia|done]). do 2 f_equal.
    rewrite <- (take_drop m (take (S i) (start_list f css))) at 1. rewrite spared_app, spared_all, spared_none; [done| |].
    + intros x Hx. apply list_elem_of_lookup in Hx as [j Hj]. rewrite lookup_drop in Hj. apply lookup_take_Some in Hj as [Hj _].
      pose proof (lookup_lt_Some _ _ _ Hj) as Hjl. rewrite length_start_list in Hjl. rewrite start_list_lookup in Hj by done.
      injection Hj as <-. apply Hleft; [lia|done].
    + intros x. rewrite take_take. intros (j & Hj & Hjl & ->)%elem_take_starts. apply elem_take_names. exists j. split_and!; [lia|done..].
  - by apply segish_start.
  - intros j Hj _. pose proof (start_mono f css j i ltac:(lia)). lia.
  - intros j Hj _. pose proof (start_mono f css (S i) j ltac:(lia)). lia.
  - intros x Hsg. rewrite Hd. unfold start_file. destruct (decide (x = segmentName idx +:+ ".START")); [split; [by left|by eexists]|].
    destruct (decide (x = "TEMP")) as [->|]; [by vm_compute in Hsg|]. case_bool_decide; [|tauto].
    split; [by intros []|tauto].
Qed.

Lemma remove_files_runs w segs (Q : unit → WAL C → Prop) :
  NoDup (path <$> segs) → (∀ s, s ∈ segs → is_Some (dir w !! path s)) →
  (∀ d t, (∀ x, d !! x = if bool_decide (x ∈ path <$> segs) then None else dir w !! x) →
    Q tt (set_dir d (set_ticks t w))) →
  runs (remove_files no_flt segs) w Q.
Proof.
  unfold remove_files. revert w Q. induction segs as [|s segs IH]; intros w Q Hnd Hd HQ; cbn [for_each].
  - apply runs_ret. specialize (HQ (dir w) (ticks w) (λ x, eq_refl)). by destruct w.
  - rewrite fmap_cons in Hnd. apply NoDup_cons in Hnd as [Hni Hnd].
    step os_Remove_runs; [apply Hd; by constructor|]. apply IH; [done| |].
    + intros s' Hs'. cbn. rewrite lookup_delete_ne; [apply Hd; by constructor|].
      intros E. apply Hni. rewrite E. apply list_elem_of_fmap. by exists s'.
    + intros d t Hdl. apply (HQ d t). intros x. rewrite Hdl, fmap_cons. cbn.
      destruct (decide (x = path s)) as [->|Hne].
      * rewrite lookup_delete_eq, (bool_decide_true (_ ∈ _ :: _)) by by constructor. by case_bool_decide.
      * rewrite lookup_delete_ne by done.
        rewrite (bool_decide_ext (x ∈ path s :: _) (x ∈ path <$> segs)); [done|]. rewrite elem_of_cons. intuition.
Qed.

End recovery.
