(* ===== verification/WalCrash.v ===== *)
(** * Crashes during a truncation of the log

    The process may die before any input/output operation.  The files of the
    directory are then what the operations before it left, and the next [Create]
    must find either the log before the truncation or the log after it. *)

From S2P Require Import Prelude Bytes Wal WalCodec WalInv WalTrunc WalOpen.

(** the process dies at the [k]-th input/output operation; if that is a write,
    [p] bytes of it reach the file *)
Definition killed (k p : nat) : nat → option nat := λ t,
  if bool_decide (t < k)%nat then None else Some (if bool_decide (t = k) then p else 0%nat).

Section dies.
Context {C : Type} `{LRU C}.
Implicit Types (w : WAL C) (f : Z) (css : list chunk) (R : disk → Prop).

(** [m] succeeds with [Q], or stops on a directory that satisfies [R] *)
Definition dies {A} (m : M (WAL C) wal_error A) w (Q : A → WAL C → Prop) R : Prop :=
  match m w with (Ok a, w') => Q a w' | (_, w') => R (dir w') end.

Lemma dies_bind {A B} (m : M (WAL C) wal_error A) (g : A → M (WAL C) wal_error B) w Q R :
  dies m w (λ a w', dies (g a) w' Q R) R → dies (m ≫= g) w Q R.
Proof. unfold dies, mbind, M_bind. by destruct (m w) as [[a|e|] w']. Qed.

Lemma dies_runs {A} (m : M (WAL C) wal_error A) w Q R : runs m w Q → dies m w Q R.
Proof. unfold runs, dies. by destruct (m w) as [[a|e|] w']. Qed.

Lemma dies_ret {A} (a : A) w (Q : A → WAL C → Prop) R : Q a w → dies (mret a) w Q R.
Proof. done. Qed.

Lemma dies_recovering {A} (m : M (WAL C) wal_error A) w Q R : dies m w Q R → dies (recovering m) w Q R.
Proof. unfold dies, recovering. by destruct (m w) as [[a|e|] w']. Qed.

(** computations that leave the files alone *)
Definition keeps_dir {A} (m : M (WAL C) wal_error A) : Prop := ∀ w, dir (m w).2 = dir w.

Lemma keeps_bind {A B} (m : M (WAL C) wal_error A) (g : A → M (WAL C) wal_error B) :
  keeps_dir m → (∀ a, keeps_dir (g a)) → keeps_dir (m ≫= g).
Proof.
  intros Hm Hg w. unfold mbind, M_bind. specialize (Hm w).
  destruct (m w) as [[a|e|] w']; cbn in *; [by rewrite Hg|done..].
Qed.

Lemma keeps_dies {A} (m : M (WAL C) wal_error A) w R :
  keeps_dir m → R (dir w) → dies m w (λ _ w', R (dir w')) R.
Proof. intros Hm HR. specialize (Hm w). unfold dies. by destruct (m w) as [[a|e|] w']; cbn in Hm; rewrite Hm. Qed.

Context (flt : nat → option nat).

Lemma keeps_io_ok : keeps_dir (io_ok flt : M (WAL C) wal_error unit).
Proof using. intros w. unfold io_ok, io. run_monad. by destruct (flt (ticks w)). Qed.

Lemma keeps_ReadFile n : keeps_dir (ReadFile flt n : M (WAL C) wal_error _).
Proof using.
  unfold ReadFile. apply keeps_bind; [apply keeps_io_ok|]. intros _ w. run_monad.
  by destruct (dir w !! n) as [[]|].
Qed.

Lemma keeps_loadSegmentEntries s : keeps_dir (loadSegmentEntries flt s : M (WAL C) wal_error _).
Proof using.
  unfold loadSegmentEntries. apply keeps_bind; [intros w; unfold deref; run_monad; by destruct (heap w !! s)|].
  intros seg. apply keeps_bind; [apply keeps_ReadFile|]. intros data w.
  unfold update. run_monad. by destruct (load_entries _ _ _ _).
Qed.

Lemma keeps_reopen_tail n len : keeps_dir (reopen_tail flt n len : M (WAL C) wal_error _).
Proof using.
  intros w. unfold reopen_tail, open_append, io_ok, io. run_monad.
  destruct (flt (ticks w)); cbn; [done|]. destruct (dir w !! n) as [[b|]|]; cbn; try done.
  destruct (flt (S (ticks w))); cbn; try done. by destruct (negb (lenZ b =? len)).
Qed.

Lemma keeps_clearCache : keeps_dir (clearCache : M (WAL C) wal_error _).
Proof. intros w. by rewrite clearCache_eq. Qed.

Lemma dies_Rename w n n' b (Q : unit → WAL C → Prop) R :
  dir w !! n = Some (File b) → R (dir w) →
  Q tt (set_dir (<[n' := File b]> (delete n (dir w))) (tick w)) → dies (os_Rename flt n n') w Q R.
Proof using.
  intros E HR HQ. unfold dies, os_Rename, io_ok, io. run_monad.
  destruct (flt (ticks w)); run_monad; [done|]. by rewrite E.
Qed.

Lemma dies_Close w n (Q : unit → WAL C → Prop) R :
  sfile w = Some n → R (dir w) → Q tt (set_sfile None (tick w)) → dies (sfile_Close flt) w Q R.
Proof using.
  intros E HR HQ. unfold dies, sfile_Close, io. run_monad. rewrite E. run_monad.
  by destruct (flt (ticks w)).
Qed.

Lemma dies_remove_names w ns (Q : unit → WAL C → Prop) R :
  NoDup ns → (∀ n, n ∈ ns → is_Some (dir w !! n)) →
  (∀ m d, (m ≤ length ns)%nat → (∀ x, d !! x = if bool_decide (x ∈ take m ns) then None else dir w !! x) → R d) →
  (∀ d t, (∀ x, d !! x = if bool_decide (x ∈ ns) then None else dir w !! x) →
    Q tt (set_dir d (set_ticks t w))) →
  dies (for_each ns (os_Remove flt)) w Q R.
Proof using.
  revert w. induction ns as [|n ns IH]; intros w Hnd Hd HR HQ.
  - apply dies_ret. specialize (HQ (dir w) (ticks w) (λ x, eq_refl)). by destruct w.
  - apply NoDup_cons in Hnd as [Hni Hnd]. cbn [for_each]. apply dies_bind. destruct (Hd n) as [nd Hn]; [by constructor|].
    unfold dies at 1, os_Remove, io_ok, io. run_monad. destruct (flt (ticks w)); run_monad.
    { apply (HR 0%nat); [lia|]. intros x. by rewrite take_0. }
    rewrite Hn. cbn.
    assert (∀ (d : disk) ns', n ∉ ns' →
      (∀ x, d !! x = if bool_decide (x ∈ ns') then None else delete n (dir w) !! x) →
      ∀ x, d !! x = if bool_decide (x ∈ n :: ns') then None else dir w !! x) as Hcons.
    { intros d l' Hl' Hdl x. rewrite Hdl. destruct (decide (x = n)) as [->|Hne].
      - rewrite lookup_delete_eq, (bool_decide_true (_ ∈ _ :: _)) by by constructor. by case_bool_decide.
      - rewrite lookup_delete_ne by done.
        rewrite (bool_decide_ext (x ∈ n :: l') (x ∈ l')); [done|]. rewrite elem_of_cons. intuition. }
    apply IH; [done| | |].
    + intros n' Hn'. cbn. rewrite lookup_delete_ne; [apply Hd; by constructor|]. intros <-. done.
    + intros m d Hm Hdl. apply (HR (S m)); [cbn; lia|]. cbn [take]. apply Hcons; [|done].
      by intros ?%take_elem.
    + intros d t Hdl. apply (HQ d t). by apply Hcons.
Qed.

Lemma remove_segments_names w ls ns :
  Forall2 (λ l n, ∃ sg, heap w !! l = Some sg ∧ path sg = n) ls ns →
  remove_segments flt ls w = for_each ns (os_Remove flt) w.
Proof using.
  unfold remove_segments. revert w ns. induction ls as [|l ls IH]; intros w ns Hls; [by inversion Hls|].
  apply Forall2_cons_inv_l in Hls as (n & ns' & (sg & Hsg & <-) & Hls & ->). cbn [for_each].
  unfold mbind, M_bind, deref. run_monad. rewrite Hsg. run_monad.
  assert (heap (os_Remove flt (path sg) w).2 = heap w) as Hh.
  { unfold os_Remove, io_ok, io. run_monad. destruct (flt (ticks w)); run_monad; [done|]. by destruct (dir w !! path sg). }
  destruct (os_Remove flt (path sg) w) as [[[]|e|] w1]; cbn in Hh; [|done..]. apply IH. by rewrite Hh.
Qed.

Lemma dies_remove_segments w ls ns (Q : unit → WAL C → Prop) R :
  Forall2 (λ l n, ∃ sg, heap w !! l = Some sg ∧ path sg = n) ls ns →
  NoDup ns → (∀ n, n ∈ ns → is_Some (dir w !! n)) →
  (∀ m d, (m ≤ length ns)%nat → (∀ x, d !! x = if bool_decide (x ∈ take m ns) then None else dir w !! x) → R d) →
  (∀ d t, (∀ x, d !! x = if bool_decide (x ∈ ns) then None else dir w !! x) →
    Q tt (set_dir d (set_ticks t w))) →
  dies (remove_segments flt ls) w Q R.
Proof using.
  intros Hls Hnd Hd HR HQ. unfold dies. rewrite (remove_segments_names w ls ns Hls). by apply dies_remove_names.
Qed.
End dies.

(** ** The two parts of the truncation that come before the rename to START *)

Section before_rename.
Context {C : Type} `{LRU C}.
Implicit Types (w : WAL C) (f : Z) (css : list chunk) (R : disk → Prop).

Lemma loadSegmentEntries_flt flt s w :
  loadSegmentEntries flt s w = loadSegmentEntries no_flt s w ∨
  ∃ w', loadSegmentEntries flt s w = (Err ErrIO, w') ∧ dir w' = dir w.
Proof using.
  unfold loadSegmentEntries, deref, ReadFile, io_ok, io. run_monad.
  destruct (heap w !! s) as [sg|]; cbn; [|by left].
  destruct (flt (ticks w)) eqn:E; cbn; [right; by eexists|by left].
Qed.

Lemma loadSegment_dies flt idx w (Q : nat → WAL C → Prop) R :
  runs (loadSegment no_flt idx) w Q → R (dir w) → dies (loadSegment flt idx) w Q R.
Proof.
  intros HQ HR. assert (loadSegment flt idx w = loadSegment no_flt idx w ∨
    ∃ w', loadSegment flt idx w = (Err ErrIO, w') ∧ dir w' = dir w) as [E|(w' & E & Hd)].
  - unfold loadSegment, tail, deref. run_monad.
    destruct (last (segments w)) as [tl|]; cbn; [|by left].
    destruct (heap w !! tl) as [tsg|]; cbn; [|by left].
    destruct (index tsg <=? idx); cbn; [by left|].
    destruct (cached idx w) as [v|]; cbn; [by left|].
    unfold findSegment. run_monad. destruct (bsearch _ _ _ _ _ _) as [i|]; cbn; [|by left].
    unfold nth_segment. run_monad. destruct (Z.of_nat i - 1 <? 0); cbn; [by left|].
    destruct (segments w !! _) as [s|]; cbn; [|by left].
    destruct (heap w !! s) as [sg|]; cbn; [|by left].
    case_bool_decide; cbn; [|by left].
    destruct (loadSegmentEntries_flt flt s w) as [-> | (w' & -> & Hd)]; [by left|].
    right. by exists w'.
  - apply dies_runs. unfold runs in *. by rewrite E.
  - unfold dies. by rewrite E, Hd.
Qed.

(** what a death while TEMP is written can leave *)
Definition temp_differs (d0 d : disk) : Prop :=
  d !! "TEMP" ≠ Some Dir ∧ ∀ x, x ≠ "TEMP" → d !! x = d0 !! x.

Lemma write_temp_dies k p w bs (g : M (WAL C) wal_error unit) (Q : unit → WAL C → Prop) R n n' :
  dir w !! "TEMP" ≠ Some Dir → (∀ d, temp_differs (dir w) d → R d) →
  (∀ t, dies (os_Rename (killed k p) n n' ≫= λ _, g)
          (set_dir (<["TEMP" := File bs]> (dir w)) (set_ticks t w)) Q R) →
  dies (write_temp (killed k p) bs ≫= λ _, os_Rename (killed k p) n n' ≫= λ _, g) w Q R.
Proof using.
  intros HT HR HQ.
  assert (∀ w' : WAL C, killed k p (ticks w') ≠ None → temp_differs (dir w) (dir w') →
    dies (os_Rename (killed k p) n n' ≫= λ _, g) w' Q R) as Hdead.
  { intros w' Hk Hd. unfold dies, os_Rename, io_ok, io. run_monad. destruct (killed k p (ticks w')); [|done].
    cbn. by apply HR. }
  assert (∀ t t', (t ≤ t')%nat → killed k p t ≠ None → killed k p t' ≠ None) as Hmono.
  { unfold killed. intros t t' Ht Hk. rewrite bool_decide_false; [done|]. intros Hlt.
    by rewrite bool_decide_true in Hk by lia. }
  assert (∀ b, temp_differs (dir w) (<["TEMP" := File b]> (dir w))) as Htd.
  { intros b. split; [by rewrite lookup_insert_eq|]. intros x Hx. by rewrite lookup_insert_ne. }
  apply dies_bind. unfold dies at 1, write_temp, io. run_monad.
  destruct (killed k p (ticks w)) as [q|] eqn:E0; cbn.
  { apply Hdead; [cbn; apply (Hmono (ticks w)); [lia|congruence]|by split]. }
  assert (match dir w !! "TEMP" with Some Dir => false | _ => true end = true) as HTb.
  { by destruct (dir w !! "TEMP") as [[]|]. }
  destruct (dir w !! "TEMP") as [[b|]|] eqn:ET; try done; cbn.
  all: destruct (killed k p (S (ticks w))) as [q|] eqn:E1; cbn; rewrite insert_insert_eq;
    [apply Hdead; [cbn; apply (Hmono (S (ticks w))); [lia|congruence]|apply Htd]|].
  all: apply (HQ (S (S (S (S (ticks w)))))).
Qed.
End before_rename.

(** ** Every death of [TruncateFront] *)

Section front.
Context {C : Type} `{LRU C}.
Implicit Types (w : WAL C) (f : Z) (css : list chunk) (R : disk → Prop).

(** the steps from the rename to the final name *)
Definition name_front (flt : nat → option nat) (isTail : bool) (segIdx idx : Z) (s : nat) (len : Z) : M (WAL C) wal_error unit :=
  _ ← os_Rename flt (start_file idx) (segmentName idx);
  _ ← update s (λ sg, mkSegment (segmentName idx) idx (ebuf sg) (epos sg));
  _ ← (if isTail then _ ← reopen_tail flt (segmentName idx) len; loadSegmentEntries flt s else mret tt);
  _ ← modify (λ w, set_segments (drop (Z.to_nat segIdx) (segments w)) w);
  _ ← modify (λ w, set_range idx (lastIndex w) w);
  clearCache.

Lemma name_front_dies flt isTail segIdx idx s len b w R :
  dir w !! start_file idx = Some (File b) → R (dir w) → R (<[segmentName idx := File b]> (delete (start_file idx) (dir w))) →
  dies (name_front flt isTail segIdx idx s len) w (λ _ w', R (dir w')) R.
Proof.
  intros Hst HR4 HRD. unfold name_front. apply dies_bind. eapply dies_Rename; [exact Hst|done|].
  apply keeps_dies; [|exact HRD]. apply keeps_bind; [by intros w5|intros _].
  apply keeps_bind.
  { destruct isTail; [|by intros w5]. apply keeps_bind; [apply keeps_reopen_tail|intros _; apply keeps_loadSegmentEntries]. }
  intros _. apply keeps_bind; [by intros w5|intros _]. apply keeps_bind; [by intros w5|intros _].
  apply keeps_clearCache.
Qed.

(** the steps after the rename to START *)
Lemma after_start_dies k p f css w idx i c s d t (R : disk → Prop) :
  winv f css w → located f css idx i c → segments w !! i = Some s →
  let buf := encs (drop (Z.to_nat (idx - start f css i)) c) in
  (∀ x, d !! x = if decide (x = start_file idx) then Some (File buf)
                 else if decide (x = "TEMP") then None else dir w !! x) →
  (∀ m d', (m ≤ S i)%nat → interrupted_front f css idx i c m (dir w) d' → R d') →
  (∀ d', disk_log idx (front_chunks f css idx i c) d' → R d') →
  dies (w ← get;
        let isTail := Z.of_nat i =? lenZ (segments w) - 1 in
        _ ← (if isTail then sfile_Close (killed k p) else mret tt);
        _ ← remove_segments (killed k p) (take (Z.to_nat (Z.of_nat i + 1)) (segments w));
        name_front (killed k p) isTail (Z.of_nat i) idx s (lenZ buf))
    (set_dir d (set_ticks t w)) (λ _ w', R (dir w')) R.
Proof.
  intros Hw Hloc Hls buf Hd HRi HRf. pose proof Hloc as [Hc Hs]. pose proof (winv_disk_log _ _ _ Hw) as Hdl.
  destruct (dl_start f css _ i Hdl) as [Hu Hpos]. assert (0 ≤ idx) as Hidx by lia.
  assert (∀ x, x ∈ names f css → x ≠ start_file idx ∧ x ≠ "TEMP") as Hnames.
  { intros x Hx. exact (names_not_file f css (dir w) idx ".START" x Hdl Hidx ltac:(discriminate) Hx). }
  assert (∀ m d', (∀ x, d' !! x = if bool_decide (x ∈ take m (names f css)) then None else d !! x) →
    interrupted_front f css idx i c m (dir w) d') as Hint.
  { intros m d' Hd' x. rewrite Hd', Hd.
    destruct (decide (x = start_file idx)) as [->|]; [by rewrite bool_decide_false by (intros Hx%take_elem; by destruct (Hnames _ Hx))|].
    destruct (decide (x = "TEMP")) as [->|]; [by case_bool_decide|done]. }
  assert (R d) as HRd by (apply (HRi 0%nat); [lia|]; apply Hint; intros x; by rewrite take_0).
  apply dies_bind. unfold dies at 1, get. cbn [segments set_dir set_ticks]. replace (Z.to_nat (Z.of_nat i + 1)) with (S i) by lia.
  assert (∀ isTail t' sf, dies (remove_segments (killed k p) (take (S i) (segments w)) ≫= λ _,
      name_front (killed k p) isTail (Z.of_nat i) idx s (lenZ buf)) (set_sfile sf (set_dir d (set_ticks t' w))) (λ _ w', R (dir w')) R) as Hrm.
  { intros isTail t' sf. apply dies_bind, (dies_remove_segments _ _ _ (take (S i) (names f css))).
    - apply Forall2_take. exact (segment_names f css w Hw).
    - by eapply names_NoDup_take.
    - intros n Hn%take_elem. cbn. rewrite Hd. destruct (Hnames n Hn). rewrite !decide_False by done. by eapply names_on_disk.
    - intros m d' Hm Hd'. rewrite length_take in Hm. rewrite take_take in Hd'. replace (m `min` S i)%nat with m in Hd' by lia.
      apply (HRi m); [lia|by apply Hint].
    - intros d4 t4 Hd4. destruct (file_renamed f css (dir w) idx ".START" _ buf d d4 Hdl Hidx ltac:(done) (λ x, take_elem _ _ x) Hd Hd4) as [HE HD].
      apply (name_front_dies _ _ _ _ _ _ buf); [exact HE|by apply (HRi (S i)); [lia|apply Hint]|].
      apply HRf, (disk_log_front f css (dir w) idx i c); [done|done|apply lookup_insert_eq|exact HD]. }
  apply dies_bind. destruct (Z.eqb_spec (Z.of_nat i) (lenZ (segments w) - 1)).
  - eapply dies_Close; [apply Hw|exact HRd|]. apply (Hrm true (S t) None).
  - apply dies_ret. apply (Hrm false t (sfile w)).
Qed.

Lemma TruncateFront_dies k p f css w idx i c (R : disk → Prop) :
  winv f css w → located f css idx i c →
  (∀ d, temp_differs (dir w) d → R d) →
  (∀ m d, (m ≤ S i)%nat → interrupted_front f css idx i c m (dir w) d → R d) →
  (∀ d, disk_log idx (front_chunks f css idx i c) d → R d) →
  dies (TruncateFront (killed k p) idx) w (λ _ w', R (dir w')) R.
Proof.
  intros Hw Hloc HRt HRi HRf. pose proof Hloc as [Hc Hs].
  destruct (winv_range f css w Hw) as (Hf & Hl & Hf1 & Hb).
  pose proof (start_mono f css 0 i ltac:(lia)) as Hm. rewrite start_0 in Hm.
  pose proof (start_S f css i c Hc) as HS. pose proof (start_le_total f css (S i)).
  assert (R (dir w)) as HR0 by (apply HRt; split; [apply Hw|done]).
  unfold TruncateFront. apply dies_bind, dies_runs. eapply check_open_runs; [done|].
  unfold truncateFront. apply dies_bind. unfold dies at 1, get.
  assert (out_of_range idx w = false) as ->.
  { unfold out_of_range. rewrite Hf, Hl.
    destruct (Z.eqb_spec idx 0), (Z.eqb_spec (f + lenZ (mjoin css) - 1) 0), (Z.ltb_spec idx f),
      (Z.ltb_spec (f + lenZ (mjoin css) - 1) idx); done || lia. }
  rewrite Hf. destruct (Z.eqb_spec idx f) as [->|Hne]; [exact HR0|].
  apply dies_bind, dies_runs. eapply runs_intro; [by apply (findSegment_ok f css w idx i c)|].
  apply dies_bind, loadSegment_dies; [|exact HR0]. apply (loadSegment_runs f css w idx i c); [done..|].
  intros s sg w1 Hw1 Hfr Hls Hsg [Heb Hep] Hidx _. assert (dir w1 = dir w) as Hdir by apply Hfr.
  assert (segments w1 !! i = Some s) as Hls1 by (destruct Hfr as (_ & -> & _); done).
  apply dies_bind, dies_runs. eapply deref_runs; [done|]. rewrite Hidx, Hep, Heb, length_poss.
  destruct (entry_lookup_in_chunk f css w idx i c Hw Hloc) as [Hu Hn].
  rewrite u64_small by done. set (n := Z.to_nat (idx - start f css i)) in *.
  apply dies_bind, dies_runs. eapply runs_from_option; [by rewrite bool_decide_true by lia|].
  destruct (lookup_lt_is_Some_2 c n Hn) as [e He].
  apply dies_bind, dies_runs. eapply runs_from_option; [by rewrite head_drop; apply poss_lookup|].
  cbn [fst]. rewrite Nat.add_0_l.
  apply dies_bind, dies_runs. eapply runs_from_option; [by apply slice_encs_drop|].
  apply write_temp_dies; [apply Hw1|by rewrite Hdir|]. intros t.
  apply dies_bind. eapply dies_Rename; [apply lookup_insert_eq| |].
  { apply HRt. split; cbn; [by rewrite lookup_insert_eq|]. intros x Hx. by rewrite lookup_insert_ne, Hdir by done. }
  apply dies_recovering.
  apply (after_start_dies k p f css w1 idx i c s _ (S t)); [done..| |by rewrite Hdir|done].
  intros x. cbn. fold (start_file idx). destruct (decide (x = start_file idx)) as [->|Hx].
  - by rewrite lookup_insert_eq.
  - rewrite lookup_insert_ne by done. destruct (decide (x = "TEMP")) as [->|HxT].
    + by rewrite lookup_delete_eq.
    + by rewrite lookup_delete_ne, lookup_insert_ne by done.
Qed.

Lemma disk_log_temp f css d0 d : disk_log f css d0 → temp_differs d0 d → disk_log f css d.
Proof.
  intros Hd [HT Hx]. assert (∀ x, segish x = true → d !! x = d0 !! x) as Hs.
  { intros x Hsg. apply Hx. intros ->. by vm_compute in Hsg. }
  destruct Hd. split; try done.
  - intros i c Hc. rewrite Hs; [auto|]. apply segish_segmentName; apply (dl_start f css d0); done.
  - intros name nd Hn Hsg. rewrite Hs in Hn by done. eauto.
Qed.
End front.
