(* ===== verification/WalRecover.v ===== *)
(** * Recovery from interrupted truncations

    Once TEMP is renamed to START or to END the truncation is decided: [load] removes
    the segments that are left on the dropped side and renames the file.  A recovery that
    fails or dies in turn leaves such a directory again. *)

From S2P Require Import Prelude Bytes Wal WalCodec WalInv WalTrunc WalOpen WalCrash.

(** ** What [load] does with such a directory *)

Section recovering.
Context {C : Type} `{LRU C}.
Implicit Types (w : WAL C) (f : Z) (css : list chunk) (d : disk) (R : disk → Prop).

Lemma runs_ext {B} (m m' : M (WAL C) wal_error B) w (Q : B → WAL C → Prop) : m w = m' w → runs m' w Q → runs m w Q.
Proof using. unfold runs. by intros ->. Qed.
Lemma dies_ext {B} (m m' : M (WAL C) wal_error B) w (Q : B → WAL C → Prop) R : m w = m' w → dies m' w Q R → dies m w Q R.
Proof using. unfold dies. by intros ->. Qed.

Lemma remove_files_names flt (segs : list segment) : remove_files flt segs = (for_each (path <$> segs) (os_Remove flt) : M (WAL C) wal_error unit).
Proof using. unfold remove_files. induction segs as [|s segs IH]; [done|]. cbn [for_each fmap list_fmap]. by rewrite IH. Qed.

(** the same computation after a directory is read *)
Lemma io_ok_then {B} flt w (g : unit → M (WAL C) wal_error B) (g' : unit → M (WAL C) wal_error B) :
  (∀ w', dir w' = dir w → g tt w' = g' tt w') → (io_ok flt ≫= g) w = (io_ok flt ≫= g') w.
Proof using.
  intros Hg. unfold mbind, M_bind. pose proof (keeps_io_ok flt w) as Hk.
  destruct (io_ok flt w) as [[[]|e|] w']; cbn in Hk; [by apply Hg|done..].
Qed.

Lemma keeps_open_segments flt segs : keeps_dir (open_segments flt segs : M (WAL C) wal_error unit).
Proof using.
  unfold open_segments. apply keeps_bind.
  { unfold alloc_all. induction segs as [|s segs IH]; [done|]. cbn [for_each]. apply keeps_bind; [|intros _; exact IH]. by intros w. }
  intros _. apply keeps_bind; [intros w; by destruct (head segs)|]. intros first. apply keeps_bind; [done|]. intros _.
  apply keeps_bind; [intros w; unfold tail, mbind, M_bind, get; by destruct (last (segments w))|]. intros l.
  assert (∀ l, keeps_dir (deref l : M (WAL C) wal_error _)) as Hderef.
  { intros l' w. unfold deref, mbind, M_bind, get. by destruct (heap w !! l'). }
  apply keeps_bind; [apply Hderef|]. intros lv. apply keeps_bind.
  { intros w. unfold open_append, io_ok, io. run_monad. destruct (flt (ticks w)); cbn; [done|]. destruct (dir w !! path lv) as [[b|]|]; cbn; try done. by destruct (flt (S (ticks w))). }
  intros _. apply keeps_bind; [apply keeps_loadSegmentEntries|]. intros _. by apply keeps_bind.
Qed.

(** what [load] amounts to: the files that go, the file that is renamed, the log *)
Definition finish_recovery flt (ns : list string) (from to : string) f css : M (WAL C) wal_error unit :=
  _ ← io_ok flt; _ ← for_each ns (os_Remove flt); _ ← os_Rename flt from to;
  open_segments flt (seg_of_index <$> start_list f css).

(** every step of it stays among the directories of [R], and the last one makes the log *)
Record removal (ns : list string) (from to : string) (b : list Z) f css R d : Prop := {
  rm_nodup : NoDup ns;
  rm_there : ∀ n, n ∈ ns → is_Some (d !! n);
  rm_part : ∀ m d', (∀ x, d' !! x = if bool_decide (x ∈ take m ns) then None else d !! x) → R d';
  rm_last : ∀ d', (∀ x, d' !! x = if bool_decide (x ∈ ns) then None else d !! x) →
    d' !! from = Some (File b) ∧ disk_log f css (<[to := File b]> (delete from d'));
}.

Lemma Create_removal ns from to b f css R d o t :
  removal ns from to b f css R d → (∀ w, dir w = d → load no_flt w = finish_recovery no_flt ns from to f css w) →
  ∃ w' : WAL C, Create no_flt o d t = (Ok tt, w') ∧ winv f css w' ∧ opts w' = default_opts (default DefaultOptions o).
Proof.
  intros [Hnd Hin _ HD] Hload. apply Create_of_load. eapply runs_ext; [by apply Hload|]. unfold finish_recovery. step io_ok_runs.
  assert (∀ ns, for_each ns (os_Remove no_flt) = remove_files no_flt ((λ n, mkSegment n 0 [] []) <$> ns) :> M (WAL C) wal_error unit) as ->.
  { intros l. by rewrite remove_files_names, <- list_fmap_compose, list_fmap_id. }
  assert (path <$> ((λ n, mkSegment n 0 [] []) <$> ns) = ns) as Hns by by rewrite <- list_fmap_compose, list_fmap_id.
  apply runs_bind, remove_files_runs; rewrite ?Hns; [done| |].
  { intros sg Hsg. apply Hin. rewrite <- Hns. apply list_elem_of_fmap. by exists sg. }
  intros d1 t1 Hd1. destruct (HD d1 Hd1) as [HE HDl]. step os_Rename_runs; [exact HE|].
  refine (open_segments_runs f css (default DefaultOptions o) _ t _ _ HDl _). auto.
Qed.

Lemma failed_removal flt ns from to b f css R d o t :
  removal ns from to b f css R d → (∀ w, dir w = d → load flt w = finish_recovery flt ns from to f css w) →
  R (dir (Create (C := C) flt o d t).2) ∨ disk_log f css (dir (Create (C := C) flt o d t).2).
Proof.
  intros [Hnd Hin Hpart HD] Hload. set (R' := λ d, R d ∨ disk_log f css d).
  assert (R' d) as HRd by (left; by apply (Hpart 0%nat)).
  assert (dies (load flt) (empty_wal (default_opts (default DefaultOptions o)) d t) (λ _ w', R' (dir w')) R') as Hdies.
  { eapply dies_ext; [by apply Hload|]. unfold finish_recovery. apply dies_bind. unfold dies at 1, io_ok, io. run_monad.
    destruct (flt t); run_monad; [exact HRd|]. apply dies_bind, dies_remove_names; [done|done| |].
    { intros m d' _ Hd'. left. by apply (Hpart m). }
    intros d1 t1 Hd1. destruct (HD d1 Hd1) as [HE HDl]. apply dies_bind. eapply dies_Rename; [exact HE| |].
    { left. apply (Hpart (length ns)). by rewrite take_ge. }
    apply keeps_dies; [apply keeps_open_segments|]. by right. }
  unfold dies in Hdies. unfold Create. by destruct (load _ _) as [[[]|e|] w'].
Qed.

(** the file of a decided truncation *)
Definition decided_file (back : bool) (y : Z) : string := if back then end_file y else start_file y.

Lemma load_listed (back : bool) flt (A B : list Z) y w :
  filter (λ n, segish n = true) (ReadDir (dir w)) = (segmentName <$> A) ++ [decided_file back y] ++ (segmentName <$> B) →
  (∀ x, segish x = true → dir w !! x ≠ Some Dir) → (∀ x, x ∈ A ++ B → in_u64 x ∧ 0 < x) → in_u64 y → 0 < y →
  load flt w = (io_ok flt ≫= λ _,
    ((if back then load_end flt else load_start flt)
       ((seg_of_index <$> A) ++ [mkSegment (decided_file back y) y [] []] ++ (seg_of_index <$> B)) (length A) ≫= open_segments flt)) w.
Proof using.
  intros Hls HnD HAB Hyu Hyp. unfold load. apply io_ok_then. intros w1 Hw1. unfold mbind at 1, M_bind at 1, get at 1. rewrite Hw1.
  assert (∀ x, x ∈ filter (λ n, segish n = true) (ReadDir (dir w)) → dir w !! x ≠ Some Dir) as HnD'.
  { intros x [Hsg _]%list_elem_of_filter. by apply HnD. }
  assert (∀ l, (∀ x, x ∈ l → x ∈ A ++ B) → Forall (λ i, in_u64 i ∧ 0 < i ∧ dir w !! segmentName i ≠ Some Dir) l) as HF.
  { intros l Hl. apply Forall_forall. intros x Hx. destruct (HAB x (Hl x Hx)). split_and!; [done..|].
    apply HnD'. rewrite Hls. specialize (Hl x Hx). rewrite !elem_of_app, !list_elem_of_fmap.
    apply elem_of_app in Hl as [?|?]; eauto. }
  rewrite scan_filter, Hls, scan_indexes by (apply HF; intros x Hx; apply elem_of_app; by left).
  assert (dir w !! decided_file back y ≠ Some Dir) as Hy.
  { apply HnD'. rewrite Hls, !elem_of_app, list_elem_of_singleton. auto. }
  cbn [app]. rewrite <- (app_nil_r (segmentName <$> B)).
  destruct back; cbn [decided_file] in *; [rewrite scan_end by done|rewrite scan_start by done];
    (rewrite scan_indexes by (apply HF; intros x Hx; apply elem_of_app; by right));
    cbn [scan]; rewrite <- app_assoc, length_fmap;
    (destruct ((seg_of_index <$> A) ++ [mkSegment _ _ _ _] ++ _) as [|s0 rest] eqn:Es; [by apply app_eq_nil in Es as [_ ?]|]);
    rewrite <- Es; clear Es; [done|].
  unfold mbind, M_bind. cbn [app mret M_ret]. by destruct (load_start flt _ _ w1) as [[sgs|e|] w2].
Qed.

(** ** START *)

Lemma drop_suffix_start i : 0 ≤ i → drop_suffix 6 (start_file i) = segmentName i.
Proof using.
  intros Hi. unfold drop_suffix. rewrite start_file_bytes by done.
  rewrite length_app, take_app_le; rewrite length_digits; [|cbn; lia].
  rewrite take_ge by (rewrite length_digits; cbn; lia). done.
Qed.

Lemma load_start_eq flt (A B : list Z) y : 0 ≤ y →
  load_start flt ((seg_of_index <$> A) ++ [mkSegment (start_file y) y [] []] ++ (seg_of_index <$> B)) (length A) =
    (_ ← for_each (segmentName <$> A) (os_Remove flt);
     _ ← os_Rename flt (start_file y) (segmentName y);
     mret (seg_of_index <$> y :: B) : M (WAL C) wal_error _).
Proof using.
  intros Hy. unfold load_start. rewrite <- (length_fmap seg_of_index A), take_app_length, drop_app_length.
  cbn [app path]. by rewrite drop_suffix_start, remove_files_names, <- list_fmap_compose by done.
Qed.

Lemma load_front flt f css idx i c m d0 w :
  disk_log f css d0 → located f css idx i c → (m ≤ S i)%nat → interrupted_front f css idx i c m d0 (dir w) →
  load flt w = finish_recovery flt (drop m (take (S i) (names f css))) (start_file idx) (segmentName idx)
    idx (front_chunks f css idx i c) w.
Proof using.
  intros Hd0 Hloc Hm Hint. pose proof Hloc as [Hc Hs]. pose proof (start_S f css i c Hc) as HS.
  pose proof (dl_start f css d0 i Hd0) as [Hiu Hip]. pose proof (dl_start f css d0 (S i) Hd0) as [HSu _].
  assert (in_u64 idx ∧ 0 < idx) as [Hxu Hxp] by (unfold in_u64 in *; lia).
  pose proof (start_list_u64 f css d0 Hd0) as Hu. rewrite Forall_forall in Hu.
  rewrite (load_listed false flt (drop m (take (S i) (start_list f css))) (drop (S i) (start_list f css)) idx w); [|..|done|done].
  - unfold finish_recovery. rewrite load_start_eq by lia. rewrite names_starts, <- !fmap_take, <- fmap_drop, (start_list_front f css idx i c Hloc).
    apply io_ok_then. intros w1 _. unfold mbind, M_bind. destruct (for_each _ _ w1) as [[[]|e|] w2]; [|done..]. by destruct (os_Rename _ _ _ w2) as [[[]|e|] w3].
  - by apply (interrupted_listing f css idx i c m d0).
  - intros x Hsg. rewrite (Hint x). repeat (case_decide; [done|]). case_bool_decide; [done|].
    intros E. by destruct (dl_disk _ _ _ Hd0 _ _ E Hsg) as (b & j & ? & _).
  - intros x Hx. apply Hu. apply elem_of_app in Hx as [Hx%drop_elem%take_elem|Hx%drop_elem]; done.
Qed.

Definition dead_front f css idx i c d0 d : Prop := ∃ m, (m ≤ S i)%nat ∧ interrupted_front f css idx i c m d0 d.

Lemma front_removal f css idx i c m d0 d :
  disk_log f css d0 → located f css idx i c → (m ≤ S i)%nat → interrupted_front f css idx i c m d0 d →
  removal (drop m (take (S i) (names f css))) (start_file idx) (segmentName idx) (encs (drop (Z.to_nat (idx - start f css i)) c))
    idx (front_chunks f css idx i c) (dead_front f css idx i c d0) d.
Proof using.
  intros Hd0 Hloc Hm Hd. pose proof Hloc as [Hc Hs]. destruct (dl_start f css d0 i Hd0) as [Hiu Hip].
  set (ns := drop m (take (S i) (names f css))).
  assert (∀ x, x ∈ names f css → x ≠ start_file idx ∧ x ≠ "TEMP" ∧ is_Some (d0 !! x)) as Hnames.
  { intros x (j & -> & Hj%elem_of_seq)%list_elem_of_fmap. destruct (dl_start f css d0 j Hd0) as [_ Hjp]. split_and!.
    - apply segmentName_not; [lia|]. unfold start_file. rewrite start_name_length; lia.
    - apply segmentName_not; [lia|done].
    - destruct (lookup_lt_is_Some_2 css j) as [c' Hc']; [lia|]. by rewrite (dl_files _ _ _ Hd0 j c' Hc'). }
  assert (NoDup (names f css)) as Hnd.
  { rewrite names_starts. apply NoDup_names_sorted; [by eapply start_list_sorted|by eapply Forall_in_u64]. }
  assert (∀ k x, x ∈ take (m `min` S i + k) (take (S i) (names f css)) ↔ x ∈ take m (names f css) ∨ x ∈ take k ns) as Hsplit.
  { intros k x. unfold ns. replace (m `min` S i)%nat with m by lia. rewrite <- take_take_drop, elem_of_app, take_take.
    by replace (m `min` S i)%nat with m by lia. }
  split.
  - eapply sublist_NoDup; [exact Hnd|]. etrans; [apply sublist_drop|apply sublist_take].
  - intros n Hn. assert (n ∉ take m (names f css)) as Hgone.
    { intros Hn'. assert (NoDup (take (S i) (names f css))) as Hnd' by (eapply sublist_NoDup; [exact Hnd|apply sublist_take]).
      rewrite <- (take_drop m (take (S i) (names f css))), take_take in Hnd'. replace (m `min` S i)%nat with m in Hnd' by lia.
      apply NoDup_app in Hnd' as (_ & Hdis & _). by apply (Hdis n). }
    apply drop_elem, take_elem in Hn. destruct (Hnames n Hn) as (HnS & HnT & Hs'). by rewrite Hd, !decide_False, bool_decide_false.
  - intros k d' Hd'. exists ((m + k) `min` S i)%nat. split; [lia|]. intros x. rewrite Hd', Hd.
    assert (x ∈ take ((m + k) `min` S i) (names f css) ↔ x ∈ take m (names f css) ∨ x ∈ take k ns) as Hx.
    { rewrite <- Hsplit, take_take. by replace (m `min` S i + k)%nat with (m + k)%nat by lia. }
    destruct (decide (x = start_file idx)) as [->|HxS].
    { rewrite bool_decide_false; [done|]. intros Hn%take_elem%drop_elem%take_elem. by destruct (Hnames _ Hn). }
    destruct (decide (x = "TEMP")) as [->|HxT]; [by case_bool_decide|]. repeat case_bool_decide; tauto || done.
  - intros d' Hd'. assert (start_file idx ∉ ns) as Hns.
    { intros Hn%drop_elem%take_elem. by destruct (Hnames _ Hn). }
    split; [by rewrite Hd', bool_decide_false, Hd, decide_True|].
    apply (disk_log_front f css d0 idx i c); [done|done|apply lookup_insert_eq|]. intros x Hx. rewrite lookup_insert_ne by done.
    destruct (decide (x = start_file idx)) as [->|HxS]; [by rewrite lookup_delete_eq, bool_decide_true by auto|].
    rewrite lookup_delete_ne, Hd', Hd by done. rewrite (decide_False (P := x = start_file _)) by done.
    destruct (decide (x = "TEMP")) as [->|HxT]; [rewrite (bool_decide_true (_ ∨ _)) by auto; by case_bool_decide|].
    assert (x ∈ take (S i) (names f css) ↔ x ∈ take m (names f css) ∨ x ∈ ns) as HxE.
    { rewrite <- (take_ge ns (S i)) by (unfold ns; rewrite length_drop, length_take; lia). rewrite <- Hsplit, take_take.
      by replace ((m `min` S i + S i) `min` S i)%nat with (S i) by lia. }
    repeat case_bool_decide; tauto || done.
Qed.

(** ** END *)

(** the directory after the rename to END: some of the segments from [i] on are gone *)
Definition interrupted_back f css idx i c (gone : list string) d0 d : Prop :=
  gone ⊆ drop i (names f css) ∧
  ∀ x, d !! x = if decide (x = end_file (start f css i)) then Some (File (encs (kept_front f css idx i c)))
                else if decide (x = "TEMP") then None
                else if bool_decide (x ∈ gone) then None else d0 !! x.

Lemma segment_not_end f css d0 j y : disk_log f css d0 → 0 ≤ y → segmentName (start f css j) ≠ end_file y.
Proof using.
  intros Hd Hy. destruct (dl_start f css d0 j Hd). apply segmentName_not; [lia|]. unfold end_file. rewrite end_name_length; lia.
Qed.
Lemma segment_not_temp f css d0 j : disk_log f css d0 → segmentName (start f css j) ≠ "TEMP".
Proof using. intros Hd. destruct (dl_start f css d0 j Hd). apply segmentName_not; [lia|done]. Qed.

(** END in place of what was dropped *)
Lemma end_renamed f css idx i c gone d0 d D :
  disk_log f css d0 → located f css idx i c → interrupted_back f css idx i c gone d0 d →
  (∀ x, x ≠ segmentName (start f css i) → D !! x = if bool_decide (x ∈ drop i (names f css)) then None else d !! x) →
  disk_log f (back_chunks f css idx i c)
    (<[segmentName (start f css i) := File (encs (kept_front f css idx i c))]> (delete (end_file (start f css i)) D)).
Proof using.
  intros Hd0 Hloc [Hg Hd] HD. apply (disk_log_back f css d0); [done|done|by rewrite lookup_insert_eq|].
  intros x Hx. rewrite lookup_insert_ne by done.
  destruct (decide (x = end_file (start f css i))) as [->|HxE]; [by rewrite lookup_delete_eq, bool_decide_true by auto|].
  rewrite lookup_delete_ne, HD, Hd by done. rewrite (decide_False (P := x = end_file _)) by done.
  destruct (decide (x = "TEMP")) as [->|HxT]; [rewrite (bool_decide_true (_ ∨ _)) by auto; by case_bool_decide|].
  specialize (Hg x). repeat case_bool_decide; tauto || done.
Qed.

Lemma back_listing f css idx i c gone d0 d :
  disk_log f css d0 → located f css idx i c → interrupted_back f css idx i c gone d0 d →
  filter (λ n, segish n = true) (ReadDir d) =
    (segmentName <$> spared gone (take (S i) (start_list f css))) ++
    [end_file (start f css i)] ++ (segmentName <$> spared gone (drop (S i) (start_list f css))).
Proof using.
  intros Hd0 Hloc [Hg Hd]. pose proof Hloc as [Hc Hs]. pose proof (lookup_lt_Some _ _ _ Hc) as Hi.
  destruct (dl_start f css d0 i Hd0) as [Hiu Hip]. unfold end_file. apply (listing_with_file f css d0); [exact Hd0|exact Hiu|exact Hip| | | | |].
  - by apply segish_end.
  - rewrite end_name_length; lia.
  - intros j Hj _. apply start_mono. lia.
  - intros j Hj Hjl. apply start_lt; [apply Hd0|lia|done].
  - intros x Hsg. rewrite Hd. fold (end_file (start f css i)).
    destruct (decide (x = end_file (start f css i))); [split; [by left|by eexists]|].
    destruct (decide (x = "TEMP")) as [->|]; [by vm_compute in Hsg|]. case_bool_decide; [|tauto].
    split; [by intros []|tauto].
Qed.

(** the segments up to the one of END, which may be gone *)
Lemma spared_front f css i gone :
  gone ⊆ drop i (names f css) → (i < length css)%nat → (∀ j k, (j < length css)%nat → (k < length css)%nat →
    segmentName (start f css j) = segmentName (start f css k) → j = k) →
  spared gone (take (S i) (start_list f css)) = take i (start_list f css) ∨
  spared gone (take (S i) (start_list f css)) = take i (start_list f css) ++ [start f css i].
Proof using.
  intros Hg Hi Hinj. rewrite (take_S_r _ _ (start f css i)) by by apply start_list_lookup.
  rewrite spared_app, spared_none.
  - unfold spared. rewrite filter_cons. case_decide; [by right|left; apply app_nil_r].
  - intros x (j & Hj & Hjl & ->)%elem_take_starts (k & Hk & Hkl & E)%Hg%elem_drop_names. apply Hinj in E; [lia|done..].
Qed.


Lemma load_end_eq flt (A0 A B : list Z) y :
  (∀ x, x ∈ A0 → x < y) → A = A0 ∨ A = A0 ++ [y] → 0 ≤ y →
  load_end flt ((seg_of_index <$> A) ++ [mkSegment (end_file y) y [] []] ++ (seg_of_index <$> B)) (length A) =
    (_ ← remove_files flt (rev (seg_of_index <$> B));
     _ ← os_Rename flt (end_file y) (segmentName y);
     mret (seg_of_index <$> (A0 ++ [y])) : M (WAL C) wal_error _).
Proof using.
  intros HA HAy Hy. unfold load_end.
  set (e := mkSegment (end_file y) y [] []).
  assert (∀ X : list segment, drop (S (length A)) ((seg_of_index <$> A) ++ e :: X) = X ∧
    take (S (length A)) ((seg_of_index <$> A) ++ e :: X) = (seg_of_index <$> A) ++ [e]) as HX.
  { intros X. rewrite <- (length_fmap seg_of_index A), cons_middle, app_assoc. split.
    - rewrite drop_app_le, drop_ge; [done|..]; rewrite length_app; cbn; lia.
    - rewrite take_app_le, take_ge; [done|..]; rewrite length_app; cbn; lia. }
  cbn [app]. destruct (HX (seg_of_index <$> B)) as [-> ->].
  rewrite rev_app_distr. cbn [rev app]. change (path e) with (end_file y).
  assert (drop_suffix 4 (end_file y) = segmentName y) as ->.
  { unfold drop_suffix. rewrite end_file_bytes by done.
    rewrite length_app, take_app_le; rewrite length_digits; [|cbn; lia].
    rewrite take_ge by (rewrite length_digits; cbn; lia). done. }
  assert (match rev (seg_of_index <$> A) with
          | p :: before' => if index p =? index e then before' else rev (seg_of_index <$> A)
          | [] => [] end = rev (seg_of_index <$> A0)) as ->.
  { destruct HAy as [-> | ->].
    - destruct A0 as [|x A0 _] using rev_ind; [done|]. rewrite fmap_app, rev_app_distr. cbn.
      pose proof (HA x ltac:(apply elem_of_app; right; constructor)). by rewrite (proj2 (Z.eqb_neq _ _)) by lia.
    - rewrite fmap_app, rev_app_distr. cbn. by rewrite Z.eqb_refl. }
  rewrite rev_involutive, fmap_app. done.
Qed.


Lemma start_list_back f css idx i c :
  (i < length css)%nat → start_list f (back_chunks f css idx i c) = take i (start_list f css) ++ [start f css i].
Proof using.
  intros Hi. pose proof (length_back f css idx i c Hi) as Hl. rewrite <- (take_S_r _ _ _ (start_list_lookup f css i Hi)).
  apply list_eq. intros j. destruct (decide (j < S i)%nat) as [Hj|Hj].
  - rewrite lookup_take_lt, !start_list_lookup by lia. f_equal. apply start_back; lia.
  - rewrite !lookup_ge_None_2; rewrite ?length_take, ?length_start_list; [done|lia..].
Qed.


Lemma load_back flt f css idx i c gone d0 w :
  disk_log f css d0 → located f css idx i c → interrupted_back f css idx i c gone d0 (dir w) →
  load flt w = finish_recovery flt (reverse (segmentName <$> spared gone (drop (S i) (start_list f css))))
    (end_file (start f css i)) (segmentName (start f css i)) f (back_chunks f css idx i c) w.
Proof using.
  intros Hd0 Hloc Hint. pose proof Hloc as [Hc _]. pose proof (lookup_lt_Some _ _ _ Hc) as Hi.
  destruct (dl_start f css d0 i Hd0) as [Hiu Hip]. pose proof (start_list_u64 f css d0 Hd0) as Hu. rewrite Forall_forall in Hu.
  set (A := spared gone (take (S i) (start_list f css))). set (B := spared gone (drop (S i) (start_list f css))).
  rewrite (load_listed true flt A B (start f css i) w); [|by apply (back_listing f css idx i c gone d0)|..|done|done].
  - rewrite (load_end_eq flt (take i (start_list f css)) A B); [| |apply spared_front; [apply Hint|done|intros j k; by apply (dl_name_inj f css d0)]|lia].
    2: { intros x (j & Hj & Hjl & ->)%elem_take_starts. apply start_lt; [apply Hd0|done|done]. }
    unfold finish_recovery. rewrite remove_files_names, (start_list_back f css idx i c Hi).
    assert (path <$> rev (seg_of_index <$> B) = reverse (segmentName <$> B)) as ->.
    { assert (∀ T (l : list T), rev l = reverse l) as Hrev by (intros; apply rev_alt). by rewrite !Hrev, fmap_reverse, <- list_fmap_compose. }
    apply io_ok_then. intros w1 _. unfold mbind, M_bind. destruct (for_each _ _ w1) as [[[]|e|] w2]; [|done..]. by destruct (os_Rename _ _ _ w2) as [[[]|e|] w3].
  - intros x Hsg. destruct Hint as [_ Hd]. rewrite Hd. repeat (case_decide; [done|]). case_bool_decide; [done|].
    intros E. by destruct (dl_disk _ _ _ Hd0 _ _ E Hsg) as (b & j & ? & _).
  - intros x Hx. apply Hu. apply elem_of_app in Hx as [Hx|Hx]; apply list_elem_of_filter in Hx as [_ Hx];
      [by apply take_elem in Hx|by apply drop_elem in Hx].
Qed.


Definition dead_back f css idx i c d0 d : Prop := ∃ gone, interrupted_back f css idx i c gone d0 d.

(** removing what is left behind END, and then renaming END *)
Lemma back_removal f css idx i c gone d0 d :
  disk_log f css d0 → located f css idx i c → interrupted_back f css idx i c gone d0 d →
  removal (reverse (segmentName <$> spared gone (drop (S i) (start_list f css)))) (end_file (start f css i)) (segmentName (start f css i))
    (encs (kept_front f css idx i c)) f (back_chunks f css idx i c) (dead_back f css idx i c d0) d.
Proof using.
  intros Hd0 Hloc Hint. set (B := reverse _). pose proof Hint as [Hg Hd]. destruct (dl_start f css d0 i Hd0) as [Hiu Hip].
  assert (∀ x, x ∈ B ↔ (x ∉ gone) ∧ x ∈ drop (S i) (names f css)) as HB.
  { intros x. unfold B. rewrite elem_of_reverse, names_starts, <- fmap_drop.
    unfold spared. rewrite !list_elem_of_fmap. split.
    - intros (a & -> & [Ha Hal]%list_elem_of_filter). eauto.
    - intros (Hx & a & -> & Ha). exists a. split; [done|]. by apply list_elem_of_filter. }
  assert (∀ x, x ∈ B → x ∈ drop i (names f css) ∧ x ≠ end_file (start f css i) ∧ x ≠ "TEMP" ∧ is_Some (d0 !! x)) as HBd.
  { intros x [_ (j & Hj & Hjl & ->)%elem_drop_names]%HB. split_and!.
    - apply elem_drop_names. exists j. split_and!; [lia|done..].
    - apply (segment_not_end f css d0); [done|lia].
    - by apply (segment_not_temp f css d0).
    - destruct (lookup_lt_is_Some_2 css j Hjl) as [c' Hc']. by rewrite (dl_files _ _ _ Hd0 j c' Hc'). }
  split.
  - unfold B. rewrite reverse_Permutation. apply NoDup_names_sorted; [eapply StronglySorted_sublist; [|by eapply start_list_sorted]|].
    + etrans; [apply spared_sublist|apply sublist_drop].
    + apply Forall_forall. intros x [_ Hx%drop_elem]%list_elem_of_filter. pose proof (Forall_in_u64 f css d0 Hd0) as Hu.
      rewrite Forall_forall in Hu. by apply Hu.
  - intros n Hn. destruct (HBd n Hn) as (_ & HnE & HnT & Hs). apply HB in Hn as [Hn _].
    by rewrite Hd, !decide_False, bool_decide_false.
  - intros m d' Hd'. exists (gone ++ take m B). split.
    + intros x [Hx|Hx%take_elem]%elem_of_app; [by apply Hg|by apply HBd].
    + intros x. rewrite Hd', Hd. destruct (decide (x ∈ take m B)) as [Hx|Hx].
      * rewrite bool_decide_true by done. destruct (HBd x (take_elem _ _ _ Hx)) as (_ & HxE & HxT & _).
        rewrite !decide_False, bool_decide_true; [done|apply elem_of_app; by right|done..].
      * rewrite bool_decide_false by done. repeat (case_decide; [done|]).
        rewrite (bool_decide_ext (x ∈ gone ++ _) (x ∈ gone)); [done|]. rewrite elem_of_app. tauto.
  - intros d' Hd'. split.
    + rewrite Hd', bool_decide_false by (intros Hx%HBd; tauto). by rewrite Hd, decide_True.
    + apply (end_renamed f css idx i c gone d0 d); [done..|]. intros x Hx. rewrite Hd'.
      destruct (decide (x ∈ B)) as [HxB|HxB]; [destruct (HBd x HxB); by rewrite !bool_decide_true|].
      rewrite bool_decide_false by done. case_bool_decide as Hin; [|done].
      apply elem_drop_names in Hin as (j & Hj & Hjl & ->). rewrite Hd, decide_False, decide_False; [|by apply (segment_not_temp f css d0)|apply (segment_not_end f css d0); [done|lia]].
      rewrite bool_decide_true; [done|]. apply dec_stable. intros Hg'. apply HxB, HB. split; [done|].
      apply elem_drop_names. exists j. split_and!; [|done..]. destruct (decide (j = i)) as [->|]; [done|lia].
Qed.

End recovering.

(** ** Every death of [TruncateBack] *)

Section back.
Context {C : Type} `{LRU C}.
Implicit Types (w : WAL C) (f : Z) (css : list chunk) (R : disk → Prop).

Lemma after_end_dies k p f css w idx i c s sg d t R :
  winv f css w → located f css idx i c → segments w !! i = Some s → index sg = start f css i →
  (∀ x, d !! x = if decide (x = end_file (start f css i)) then Some (File (encs (kept_front f css idx i c)))
                 else if decide (x = "TEMP") then None else dir w !! x) →
  (∀ d', dead_back f css idx i c (dir w) d' → R d') →
  (∀ d', disk_log f (back_chunks f css idx i c) d' → R d') →
  dies (finish_back (killed k p) (Z.of_nat i) idx s sg (encs (kept_front f css idx i c)))
    (set_dir d (set_ticks t w)) (λ _ w', R (dir w')) R.
Proof.
  intros Hw Hloc Hls Hidx Hd HRi HRf. pose proof Hloc as [Hc Hs]. pose proof (winv_disk_log _ _ _ Hw) as Hdl.
  pose proof (lookup_lt_Some _ _ _ Hc) as Hi. destruct (dl_start f css _ i Hdl) as [Hu Hpos]. set (y := start f css i) in *.
  assert (∀ x, x ∈ names f css → x ≠ end_file y ∧ x ≠ "TEMP") as Hnames.
  { intros x (j & -> & _)%list_elem_of_fmap. split; [apply (segment_not_end f css (dir w)); [done|lia]|by apply (segment_not_temp f css (dir w))]. }
  assert (∀ m d', (∀ x, d' !! x = if bool_decide (x ∈ take m (drop i (names f css))) then None else d !! x) →
    interrupted_back f css idx i c (take m (drop i (names f css))) (dir w) d') as Hint.
  { intros m d' Hd'. split; [by intros x Hx%take_elem|]. intros x. rewrite Hd', Hd. fold y.
    destruct (decide (x = end_file y)) as [->|]; [by rewrite bool_decide_false by (intros Hx%take_elem%drop_elem; by destruct (Hnames _ Hx))|].
    destruct (decide (x = "TEMP")) as [->|]; [by case_bool_decide|done]. }
  assert (R d) as HRd.
  { apply HRi. exists []. apply (Hint 0%nat). intros x. by rewrite take_0. }
  unfold finish_back. rewrite Hidx. fold y (end_file y). apply dies_bind. unfold dies at 1, get. cbn [segments set_dir set_ticks]. rewrite Nat2Z.id.
  apply dies_bind. eapply dies_Close; [apply Hw|exact HRd|].
  apply dies_bind, (dies_remove_segments _ _ _ (drop i (names f css))).
  - apply Forall2_drop. exact (segment_names f css w Hw).
  - by eapply names_NoDup_drop.
  - intros n Hn%drop_elem. cbn. rewrite Hd. destruct (Hnames n Hn). rewrite !decide_False by done. by eapply names_on_disk.
  - intros m d' _ Hd'. apply HRi. exists (take m (drop i (names f css))). by apply Hint.
  - cbn [dir set_sfile tick set_ticks set_dir]. intros d4 t4 Hd4.
    assert (interrupted_back f css idx i c (drop i (names f css)) (dir w) d4) as Hint4.
    { rewrite <- (take_ge (drop i (names f css)) (length (drop i (names f css)))) by done. apply Hint. by rewrite take_ge. }
    apply dies_bind. eapply dies_Rename.
    { pose proof (proj2 Hint4 (end_file y)) as HE. by rewrite decide_True in HE. }
    { apply HRi. by eexists. }
    apply keeps_dies; [|apply HRf; cbn; apply (end_renamed f css idx i c (drop i (names f css)) (dir w) d4); [done..|]].
    + apply keeps_bind; [apply keeps_reopen_tail|intros _]. apply keeps_bind; [by intros w5|intros _].
      apply keeps_bind; [by intros w5|intros _]. apply keeps_bind; [by intros w5|intros _].
      apply keeps_bind; [apply keeps_clearCache|intros _]. apply keeps_loadSegmentEntries.
    + intros x _. case_bool_decide as Hin; [|done]. rewrite Hd4. by rewrite bool_decide_true.
Qed.

Lemma TruncateBack_dies k p f css w idx i c R :
  winv f css w → located f css idx i c →
  (∀ d, temp_differs (dir w) d → R d) →
  (∀ d, dead_back f css idx i c (dir w) d → R d) →
  (∀ d, disk_log f (back_chunks f css idx i c) d → R d) →
  dies (TruncateBack (killed k p) idx) w (λ _ w', R (dir w')) R.
Proof.
  intros Hw Hloc HRt HRi HRf. pose proof Hloc as [Hc Hs].
  destruct (winv_range f css w Hw) as (Hf & Hl & Hf1 & Hb).
  pose proof (start_mono f css 0 i ltac:(lia)) as Hm. rewrite start_0 in Hm.
  pose proof (start_S f css i c Hc) as HS. pose proof (start_le_total f css (S i)).
  assert (R (dir w)) as HR0 by (apply HRt; split; [apply Hw|done]).
  unfold TruncateBack. apply dies_bind, dies_runs. eapply check_open_runs; [done|].
  unfold truncateBack. apply dies_bind. unfold dies at 1, get.
  assert (out_of_range idx w = false) as ->.
  { unfold out_of_range. rewrite Hf, Hl.
    destruct (Z.eqb_spec idx 0), (Z.eqb_spec (f + lenZ (mjoin css) - 1) 0), (Z.ltb_spec idx f),
      (Z.ltb_spec (f + lenZ (mjoin css) - 1) idx); done || lia. }
  rewrite Hl. destruct (Z.eqb_spec idx (f + lenZ (mjoin css) - 1)) as [->|Hne]; [exact HR0|].
  apply dies_bind, dies_runs. eapply runs_intro; [by apply (findSegment_ok f css w idx i c)|].
  apply dies_bind, loadSegment_dies; [|exact HR0]. apply (loadSegment_runs f css w idx i c); [done..|].
  intros s sg w1 Hw1 Hfr Hls Hsg [Heb Hep] Hidx _. assert (dir w1 = dir w) as Hdir by apply Hfr.
  assert (segments w1 !! i = Some s) as Hls1 by (destruct Hfr as (_ & -> & _); done).
  apply dies_bind, dies_runs. eapply deref_runs; [done|]. rewrite Hidx, Hep, Heb.
  destruct (entry_lookup_in_chunk f css w idx i c Hw Hloc) as [Hu Hn].
  pose proof (winv_start_u64 f css w i Hw) as [Hui Hpi]. unfold in_u64 in Hu, Hui.
  rewrite u64_small by (unfold in_u64; lia).
  replace (Z.to_nat (idx - start f css i + 1)) with (S (Z.to_nat (idx - start f css i))) by lia.
  set (n := Z.to_nat (idx - start f css i)) in *.
  destruct (positions_front c n Hn) as [Hsl Hla].
  apply dies_bind, dies_runs. eapply runs_from_option; [exact Hsl|]. apply dies_bind, dies_runs. eapply runs_from_option; [exact Hla|].
  cbn [snd]. apply dies_bind, dies_runs. eapply runs_from_option; [by apply slice_encs_take|].
  apply write_temp_dies; [apply Hw1|by rewrite Hdir|]. intros t.
  apply dies_bind. eapply dies_Rename; [apply lookup_insert_eq| |].
  { apply HRt. split; cbn; [by rewrite lookup_insert_eq|]. intros x Hx. by rewrite lookup_insert_ne, Hdir by done. }
  apply dies_recovering. rewrite <- Hidx.
  apply (after_end_dies k p f css w1 idx i c s sg _ (S t)); [done..| |by rewrite Hdir|done].
  intros x. cbn. rewrite Hidx. fold (end_file (start f css i)). destruct (decide (x = end_file (start f css i))) as [->|Hx].
  - by rewrite lookup_insert_eq.
  - rewrite lookup_insert_ne by done. destruct (decide (x = "TEMP")) as [->|HxT].
    + by rewrite lookup_delete_eq.
    + by rewrite lookup_delete_ne, lookup_insert_ne by done.
Qed.
End back.

(** ** Any number of attempts *)

Section attempts.
Context {C : Type} `{LRU C}.
Implicit Types (f : Z) (css : list chunk) (d : disk).

(** the directory after attempts to open the log, each with its own failures or death *)
Fixpoint reopened (o : option Options) (t : nat) (tries : list (nat → option nat)) d : disk :=
  match tries with
  | [] => d
  | flt :: tries' => reopened o t tries' (dir (Create (C := C) flt o d t).2)
  end.

Lemma reopened_in (R : disk → Prop) o t tries d :
  (∀ flt d, R d → R (dir (Create (C := C) flt o d t).2)) → R d → R (reopened o t tries d).
Proof using. intros Hstep. revert d. induction tries as [|flt tries IH]; intros d Hd; [done|]. by apply IH, Hstep. Qed.

Lemma Create_keeps_log flt f css d o t : disk_log f css d → dir (Create (C := C) flt o d t).2 = d.
Proof.
  intros Hd. unfold Create. set (w := empty_wal _ d t). change (dir (load flt w).2 = dir w). unfold load.
  match goal with |- dir ((_ ≫= ?g) w).2 = _ => assert (∀ w1 : WAL C, dir w1 = dir w → dir (g tt w1).2 = dir w) as Hg end.
  - intros w1 Hw1. unfold mbind at 1, M_bind at 1, get at 1. rewrite Hw1. change (dir w) with d.
    rewrite scan_filter, (listing f css d Hd), <- (app_nil_r (segmentName <$> _)), scan_indexes.
    + cbn [scan app]. pose proof (dl_ne _ _ _ Hd) as Hne. destruct (seg_of_index <$> start_list f css) as [|s0 rest] eqn:Es.
      { apply (f_equal length) in Es. rewrite length_fmap, length_start_list in Es. by destruct css. }
      pose proof (keeps_open_segments flt (s0 :: rest) w1) as Hk. by rewrite Hw1 in Hk.
    + apply Forall_fmap, Forall_forall. intros j [_ Hj]%elem_of_seq. cbn.
      destruct (dl_start f css d j Hd). split_and!; [done..|].
      destruct (lookup_lt_is_Some_2 css j) as [c Hc]; [lia|]. by rewrite (dl_files _ _ _ Hd j c Hc).
  - unfold mbind at 1, M_bind at 1. pose proof (keeps_io_ok flt w) as Hk.
    destruct (io_ok flt w) as [[[]|e|] w1]; cbn in Hk; [by apply Hg|done..].
Qed.

(** a directory that opens as [css], whatever attempts came before *)
Definition opens_as o t f css d : Prop := ∀ tries, ∃ w' : WAL C,
  Create no_flt o (reopened o t tries d) t = (Ok tt, w') ∧ winv f css w'.

Lemma opens_as_log o t f css d : disk_log f css d → opens_as o t f css d.
Proof.
  intros Hd tries. assert (disk_log f css (reopened o t tries d)) as Hr.
  { apply reopened_in; [|done]. intros flt d' Hd'. by rewrite (Create_keeps_log flt f css). }
  destruct (Create_disk_log f css _ o t Hr) as (w' & E & Hw' & _). by exists w'.
Qed.

(** a decided truncation: [R] holds of the directory until an attempt completes it *)
Lemma opens_as_decided o t f css d (R : disk → Prop) :
  (∀ d', R d' → ∃ ns from to b, removal ns from to b f css R d' ∧
    ∀ flt (w : WAL C), dir w = d' → load flt w = finish_recovery flt ns from to f css w) →
  R d → opens_as o t f css d.
Proof.
  intros Hrec Hd tries. assert (R (reopened o t tries d) ∨ disk_log f css (reopened o t tries d)) as [Hr|Hr].
  { apply (reopened_in (λ d, R d ∨ disk_log f css d)); [|by left]. intros flt d' [HR|Hl].
    - destruct (Hrec d' HR) as (ns & from & to & b & Hrm & Hload). exact (failed_removal flt ns from to b f css R d' o t Hrm (Hload flt)).
    - right. by rewrite (Create_keeps_log flt f css). }
  - destruct (Hrec _ Hr) as (ns & from & to & b & Hrm & Hload).
    destruct (Create_removal ns from to b f css R _ o t Hrm (Hload _)) as (w' & E & Hw' & _). by exists w'.
  - by apply (opens_as_log o t f css _ Hr []).
Qed.

Lemma opens_as_front o t f css idx i c d0 d :
  disk_log f css d0 → located f css idx i c → dead_front f css idx i c d0 d →
  opens_as o t idx (front_chunks f css idx i c) d.
Proof.
  intros Hd0 Hloc. apply opens_as_decided. intros d' (m & Hm & Hint). eexists _, _, _, _. split; [by apply (front_removal f css idx i c m d0 d')|].
  intros flt w Hw. apply (load_front flt f css idx i c m d0 w); [done..|by rewrite Hw].
Qed.

Lemma opens_as_back o t f css idx i c d0 d :
  disk_log f css d0 → located f css idx i c → dead_back f css idx i c d0 d →
  opens_as o t f (back_chunks f css idx i c) d.
Proof.
  intros Hd0 Hloc. apply opens_as_decided. intros d' (gone & Hint). eexists _, _, _, _. split; [by apply (back_removal f css idx i c gone d0 d')|].
  intros flt w Hw. apply (load_back flt f css idx i c gone d0 w); [done..|by rewrite Hw].
Qed.
End attempts.
