(* ===== verification/WalSpec.v ===== *)
(** * What the write ahead log promises

    The abstract log is the index of the first entry and the list of entries.
    The refinement theorem says that the code behaves like it for every sequence
    of operations, restarts included; the other theorems are about crashes and
    failures, where the code keeps its promise or breaks it. *)

From S2P Require Import Prelude Bytes Wal WalCodec WalInv WalTrunc WalOpen WalCrash WalRecover.

(** ** An LRU cache that satisfies the laws *)

Definition list_lru : Type := nat * list (Z * nat).

Definition list_lru_push (k : Z) (v : nat) (c : list_lru) : list (Z * nat) :=
  (k, v) :: filter (λ e : Z * nat, e.1 ≠ k) (take c.1 c.2).

#[export] Program Instance list_lru_LRU : LRU list_lru := {|
  lru_new n := (n, []);
  lru_entries c := take c.1 c.2;
  lru_cap c := c.1;
  lru_set k v c := (snd <$> head (drop c.1 (list_lru_push k v c)), (c.1, take c.1 (list_lru_push k v c)));
|}.
Next Obligation. intros n. simpl. by destruct n. Qed.
Next Obligation. done. Qed.
Next Obligation. done. Qed.
Next Obligation. intros k v [n l] Hn. simpl. by rewrite take_take, Nat.min_id. Qed.
Next Obligation. done. Qed.
Next Obligation. intros [n l]. simpl. rewrite length_take. lia. Qed.

(** ** The abstract log *)

Record log := mkLog { lg_first : Z; lg_entries : list (list Z) }.

Definition lg_next (l : log) : Z := lg_first l + lenZ (lg_entries l).

Inductive wal_op :=
| WWrite (idx : Z) (d : list Z) | WRead (idx : Z) | WFirst | WLast | WAfter (idx : Z)
| WClear | WFront (idx : Z) | WBack (idx : Z) | WReopen (o : Options).

Inductive wal_obs :=
| ODone (r : result wal_error unit) | OData (r : result wal_error (list Z))
| OIndex (r : result wal_error Z) | OList (r : result wal_error (list (list Z))).

Module LogSpec.
Definition in_range (idx : Z) (l : log) : bool := (lg_first l <=? idx) && (idx <? lg_next l).

Definition step (o : wal_op) (l : log) : wal_obs * log :=
  match o with
  | WWrite idx d => (ODone (Ok tt), mkLog (lg_first l) (lg_entries l ++ [d]))
  | WRead idx =>
      (OData (if in_range idx l then of_option (lg_entries l !! Z.to_nat (idx - lg_first l)) Panic
              else Err ErrNotFound), l)
  | WFirst => (OIndex (Ok (if lg_next l =? 1 then 0 else lg_first l)), l)
  | WLast => (OIndex (Ok (lg_next l - 1)), l)
  | WAfter idx =>
      (OList (if lg_next l <=? idx then Ok []
              else if lg_first l <=? idx then Ok (drop (Z.to_nat (idx - lg_first l)) (lg_entries l))
              else Err ErrNotFound), l)
  | WClear => (ODone (Ok tt), l)
  | WFront idx =>
      if in_range idx l then (ODone (Ok tt), mkLog idx (drop (Z.to_nat (idx - lg_first l)) (lg_entries l)))
      else (ODone (Err ErrOutOfRange), l)
  | WBack idx =>
      if in_range idx l then (ODone (Ok tt), mkLog (lg_first l) (take (Z.to_nat (idx - lg_first l + 1)) (lg_entries l)))
      else (ODone (Err ErrOutOfRange), l)
  | WReopen _ => (ODone (Ok tt), l)
  end.

(** a client appends at the next index, below the largest one; anything else
    may be asked at any time *)
Definition allowed (o : wal_op) (l : log) : Prop :=
  match o with
  | WWrite idx d => idx = lg_next l ∧ in_u64 (lenZ d) ∧ lg_next l + 1 < 2 ^ 64
  | _ => True
  end.

Fixpoint run (ops : list wal_op) (l : log) : list wal_obs * log :=
  match ops with
  | [] => ([], l)
  | o :: ops' => let '(r, l1) := step o l in let '(rs, l2) := run ops' l1 in (r :: rs, l2)
  end.

Fixpoint allowed_run (ops : list wal_op) (l : log) : Prop :=
  match ops with [] => True | o :: ops' => allowed o l ∧ allowed_run ops' (step o l).2 end.

#[export] Instance allowed_dec o l : Decision (allowed o l).
Proof. destruct o; simpl; unfold in_u64; apply _. Defined.
#[export] Instance allowed_run_dec ops l : Decision (allowed_run ops l).
Proof. revert l. induction ops; intros l; simpl; apply _. Defined.
End LogSpec.

Section refinement.
Context {C : Type} `{LRU C}.
Implicit Types (w : WAL C) (f : Z) (css : list chunk).

Definition obs_of {A} (k : result wal_error A → wal_obs) (m : M (WAL C) wal_error A) (w : WAL C) : wal_obs * WAL C :=
  let '(r, w') := m w in (k r, w').

Definition reopen (o : Options) : M (WAL C) wal_error unit := λ w,
  match Close no_flt w with
  | (Ok _, w') => Create no_flt (Some o) (dir w') (ticks w')
  | r => r
  end.

Definition wal_step (o : wal_op) : WAL C → wal_obs * WAL C :=
  match o with
  | WWrite idx d => obs_of ODone (Write no_flt idx d)
  | WRead idx => obs_of OData (Read no_flt idx)
  | WFirst => obs_of OIndex FirstIndex
  | WLast => obs_of OIndex LastIndex
  | WAfter idx => obs_of OList (GetEntriesAfter no_flt idx)
  | WClear => obs_of ODone ClearCache
  | WFront idx => obs_of ODone (TruncateFront no_flt idx)
  | WBack idx => obs_of ODone (TruncateBack no_flt idx)
  | WReopen o => obs_of ODone (reopen o)
  end.

Fixpoint wal_run (ops : list wal_op) (w : WAL C) : list wal_obs * WAL C :=
  match ops with
  | [] => ([], w)
  | o :: ops' => let '(r, w1) := wal_step o w in let '(rs, w2) := wal_run ops' w1 in (r :: rs, w2)
  end.

(** the log [w] stands for *)
Definition stands_for (w : WAL C) (l : log) : Prop :=
  ∃ css, winv (lg_first l) css w ∧ mjoin css = lg_entries l.

Lemma obs_of_runs {A} (k : result wal_error A → wal_obs) m w a (P : WAL C → Prop) :
  runs m w (λ a' w', a' = a ∧ P w') → ∃ w', obs_of k m w = (k (Ok a), w') ∧ P w'.
Proof. intros (a' & w' & E & -> & HP)%runs_elim. exists w'. unfold obs_of. by rewrite E. Qed.

Lemma in_range_spec idx l : LogSpec.in_range idx l = true ↔ lg_first l ≤ idx < lg_first l + lenZ (lg_entries l).
Proof using. unfold LogSpec.in_range, lg_next. rewrite andb_true_iff, Z.leb_le, Z.ltb_lt. done. Qed.

Lemma truncate_out f css w idx (m : M (WAL C) wal_error unit) :
  winv f css w → ¬ (f ≤ idx < f + lenZ (mjoin css)) →
  m = TruncateFront no_flt idx ∨ m = TruncateBack no_flt idx →
  m w = (Err ErrOutOfRange, w).
Proof.
  intros Hw Hr Hm. destruct (winv_range f css w Hw) as (Hf & Hl & Hf1 & _).
  destruct (wi_open _ _ _ _ _ _ _ _ _ _ _ _ Hw) as [Hc Hco].
  assert (out_of_range idx w = true) as Ho.
  { unfold out_of_range. rewrite Hf, Hl.
    destruct (Z.eqb_spec idx 0), (Z.eqb_spec (f + lenZ (mjoin css) - 1) 0), (Z.ltb_spec idx f),
      (Z.ltb_spec (f + lenZ (mjoin css) - 1) idx); done || lia. }
  destruct Hm as [-> | ->]; unfold TruncateFront, TruncateBack, truncateFront, truncateBack, check_open;
    run_monad; rewrite Hco, Hc; cbn; by rewrite Ho.
Qed.

Lemma Z2Nat_nonpos x : x ≤ 0 → Z.to_nat x = 0%nat.
Proof using. lia. Qed.

Lemma GetEntriesAfter_runs f css w idx (Q : list (list Z) → WAL C → Prop) :
  winv f css w →
  runs (read_from no_flt (Z.to_nat (f + lenZ (mjoin css) - idx)) idx (f + lenZ (mjoin css) - 1)) w Q →
  runs (GetEntriesAfter no_flt idx) w Q.
Proof.
  intros Hw HQ. destruct (winv_range f css w Hw) as (_ & Hl & _).
  unfold GetEntriesAfter, LastIndex. apply runs_bind. step check_open_runs; [done|].
  unfold runs, gets. rewrite Hl.
  by replace (f + lenZ (mjoin css) - 1 + 1 - idx) with (f + lenZ (mjoin css) - idx) by lia.
Qed.

Lemma GetEntriesAfter_below f css w idx :
  winv f css w → idx < f → idx < f + lenZ (mjoin css) → GetEntriesAfter no_flt idx w = (Err ErrNotFound, w).
Proof.
  intros Hw Hlt Hlast. destruct (winv_range f css w Hw) as (_ & Hl & _).
  destruct (wi_open _ _ _ _ _ _ _ _ _ _ _ _ Hw) as [Hc Hco].
  unfold GetEntriesAfter, LastIndex, check_open. run_monad. rewrite Hco, Hc, Hl. cbn [mret].
  replace (Z.to_nat (f + lenZ (mjoin css) - 1 + 1 - idx)) with (S (Z.to_nat (f + lenZ (mjoin css) - 1 - idx))) by lia.
  cbn [read_from]. rewrite (proj2 (Z.leb_le _ _)) by lia.
  apply bind_err. apply (Read_out_of_range f css w idx Hw). lia.
Qed.

Lemma clear_step f css w :
  winv f css w → heap_step css (segments w) (heap w) (unload_all (lru_entries (scache w)) (heap w)).
Proof.
  intros Hw i v c sg Hv Hc Hsg. rewrite unload_all_lookup, Hsg. case_bool_decide as Hin.
  - apply list_elem_of_fmap in Hin as ([k v'] & E & Hin). cbn in E. subst v'.
    destruct (wi_cache _ _ _ _ _ _ _ _ _ _ _ _ Hw _ _ Hin) as (j & -> & Hj & Hv').
    assert (i = j) as -> by by eapply winv_loc_inj.
    destruct (wi_len _ _ _ _ _ _ _ _ _ _ _ _ Hw) as [Hlen _].
    exists (set_bufs [] [] sg). split_and!; [done..|]. right. split; [by split|lia].
  - destruct (winv_seg f css w i c Hw Hc) as (l' & sg' & Hl' & Hsg' & _ & _ & _ & Hb').
    assert (l' = v) as -> by congruence. assert (sg' = sg) as -> by congruence.
    exists sg. split_and!; [done..|]. destruct Hb' as [|Hun]; [by left|].
    destruct (decide (S i < length css)%nat); [by right|left]. pose proof (lookup_lt_Some _ _ _ Hc).
    destruct (winv_tail f css w Hw) as (l2 & c2 & sg2 & _ & _ & Hl2 & Hc2 & Hsg2 & Hld & _).
    assert (i = length css - 1)%nat as -> by lia. congruence.
Qed.

Lemma ClearCache_runs f css w (Q : unit → WAL C → Prop) :
  winv f css w → (∀ w', winv f css w' → Q tt w') → runs ClearCache w Q.
Proof.
  intros Hw HQ. unfold ClearCache. step check_open_runs; [done|].
  eapply runs_intro; [apply clearCache_eq|]. apply HQ.
  apply (winv_set_cache f css (set_heap (unload_all (lru_entries (scache w)) (heap w)) w)).
  - apply (winv_heap_step f css w); [done|]. by apply (clear_step f css w).
  - rewrite lru_new_cap. symmetry. apply Hw.
  - rewrite lru_new_entries. intros k v Hin. by inversion Hin.
Qed.

(** one operation *)
Lemma wal_step_refines o w l :
  stands_for w l → LogSpec.allowed o l →
  ∃ w', wal_step o w = ((LogSpec.step o l).1, w') ∧ stands_for w' (LogSpec.step o l).2.
Proof.
  intros (css & Hw & Hj) Ha. destruct l as [f es]; cbn [lg_first lg_entries] in *. subst es.
  pose proof (winv_range f css w Hw) as (Hf & Hl & Hf1 & Hb).
  destruct o as [idx d|idx| | |idx| |idx|idx|o]; cbn [wal_step LogSpec.step fst snd lg_first lg_entries].
  - destruct Ha as (-> & Hd & Hn). unfold lg_next in *. cbn [lg_first lg_entries] in *.
    apply (obs_of_runs _ _ _ tt). apply (Write_runs f css w d); [done..|].
    intros css' w' Hw' Hj' _. split; [done|]. by exists css'.
  - destruct (LogSpec.in_range idx _) eqn:Er.
    + apply in_range_spec in Er. cbn in Er.
      destruct (lookup_lt_is_Some_2 (mjoin css) (Z.to_nat (idx - f))) as [d Hd]; [lia|].
      rewrite Hd. cbn [of_option]. apply (obs_of_runs _ _ _ d). apply (Read_runs f css w idx); [done|done|].
      intros d' w' Hw' _ Hd'. split; [congruence|]. by exists css.
    + exists w. unfold obs_of. rewrite (Read_out_of_range f css w idx Hw); [split; [done|by exists css]|].
      intros Hr. pose proof (proj2 (in_range_spec idx (mkLog f (mjoin css))) Hr). congruence.
  - unfold lg_next. cbn. apply (obs_of_runs _ _ _ _). unfold FirstIndex.
    step check_open_runs; [done|]. step runs_get. apply runs_ret. rewrite Hl, Hf.
    split; [|by exists css]. destruct (Z.eqb_spec (f + lenZ (mjoin css) - 1) 0), (Z.eqb_spec (f + lenZ (mjoin css)) 1); done || lia.
  - unfold lg_next. cbn. apply (obs_of_runs _ _ _ _). unfold LastIndex.
    step check_open_runs; [done|]. unfold runs, gets. rewrite Hl. split; [done|by exists css].
  - unfold lg_next. cbn [lg_first lg_entries].
    destruct (Z.leb_spec (f + lenZ (mjoin css)) idx) as [Hge|Hlt]; [|destruct (Z.leb_spec f idx) as [Hge'|Hlt']].
    + apply (obs_of_runs _ _ _ []). apply (GetEntriesAfter_runs f css w idx); [done|].
      rewrite Z2Nat_nonpos by lia. apply runs_ret. split; [done|by exists css].
    + apply (obs_of_runs _ _ _ _). apply (GetEntriesAfter_runs f css w idx); [done|].
      apply (read_from_runs f css w); [done|lia|lia|]. intros w' Hw' _. split; [done|by exists css].
    + exists w. unfold obs_of. rewrite (GetEntriesAfter_below f css w idx Hw) by lia.
      split; [done|by exists css].
  - apply (obs_of_runs _ _ _ tt). apply (ClearCache_runs f css w); [done|]. intros w' Hw'.
    split; [done|by exists css].
  - destruct (LogSpec.in_range idx _) eqn:Er.
    + apply in_range_spec in Er. cbn in Er. apply (obs_of_runs _ _ _ tt).
      apply (TruncateFront_runs f css w idx); [done|done|]. intros css' w' Hw' Hj' _.
      split; [done|]. by exists css'.
    + exists w. unfold obs_of. rewrite (truncate_out f css w idx); [split; [done|by exists css]|done| |by left].
      intros Hr. pose proof (proj2 (in_range_spec idx (mkLog f (mjoin css))) Hr). congruence.
  - destruct (LogSpec.in_range idx _) eqn:Er.
    + apply in_range_spec in Er. cbn in Er. apply (obs_of_runs _ _ _ tt).
      apply (TruncateBack_runs f css w idx); [done|done|]. intros css' w' Hw' Hj' _.
      split; [done|]. by exists css'.
    + exists w. unfold obs_of. rewrite (truncate_out f css w idx); [split; [done|by exists css]|done| |by right].
      intros Hr. pose proof (proj2 (in_range_spec idx (mkLog f (mjoin css))) Hr). congruence.
  - destruct (Create_disk_log f css (dir w) (Some o) (S (S (ticks w))) (winv_disk_log f css w Hw))
      as (w' & E & Hw' & _). exists w'.
    assert (reopen o w = (Ok tt, w')) as Er by (unfold reopen; rewrite (Close_eq f css w Hw); exact E).
    unfold obs_of. rewrite Er. split; [done|by exists css].
Qed.

Lemma wal_run_refines ops w l :
  stands_for w l → LogSpec.allowed_run ops l →
  ∃ w', wal_run ops w = ((LogSpec.run ops l).1, w') ∧ stands_for w' (LogSpec.run ops l).2.
Proof.
  revert w l. induction ops as [|o ops IH]; intros w l Hw Ha; cbn [wal_run LogSpec.run]; [by exists w|].
  destruct Ha as [Ha Hr]. destruct (wal_step_refines o w l Hw Ha) as (w1 & -> & Hw1).
  destruct (IH w1 _ Hw1 Hr) as (w' & E & Hw'). rewrite E.
  destruct (LogSpec.step o l) as [r l1]. cbn in *. exists w'. destruct (LogSpec.run ops l1). done.
Qed.
End refinement.

(** ** One write and one read, exactly *)

Section exact.
Context {C : Type} `{LRU C}.
Context (flt : nat → option nat).
Implicit Types (w : WAL C).

(** the memory after an entry is appended to the tail segment [s] *)
Definition buffered (s : nat) (sg : segment) (idx : Z) (d : list Z) (w : WAL C) : WAL C :=
  set_heap (alter (set_bufs (ebuf sg ++ enc d) (epos sg ++ [(length (ebuf sg), length (ebuf sg) + length (enc d))%nat])) s (heap w))
    (set_wbatch (mkBatch [(idx, length d)] d) w).

(** [Write] to a tail segment with room, for any index and any failure *)
Lemma Write_room_eq w s sg n idx d :
  corrupt w = false → closed w = false → last (segments w) = Some s → heap w !! s = Some sg →
  sfile w = Some n → wf_entry d → lenZ (ebuf sg ++ enc d) < SegmentSize (opts w) →
  Write flt idx d w =
    let w1 := tick (buffered s sg idx d w) in
    match flt (ticks w) with
    | None => (Ok tt, set_wbatch (mkBatch [] []) (set_last idx (set_dir (alter (append_bytes (enc d)) n (dir w)) w1)))
    | Some k => (Err ErrIO, set_dir (alter (append_bytes (take k (enc d))) n (dir w)) w1)
    end.
Proof.
  intros Hco Hcl Hl Hsg Hsf Hd Hroom. pose proof (enc_nonempty d Hd) as Hne.
  rewrite length_app in Hroom.
  assert (slice d 0 (length d) = Some d) as Hsl.
  { unfold slice. rewrite bool_decide_true by lia. by rewrite drop_0, take_ge by lia. }
  assert (appendUvarint (ebuf sg) (lenZ d) ++ d = ebuf sg ++ enc d) as Happ.
  { unfold appendUvarint, enc. by rewrite <- app_assoc. }
  unfold Write, check_open, writeBatch, writeBatch_from, tail, deref, update. run_monad.
  rewrite Hco, Hcl. run_monad. rewrite Hl. run_monad. rewrite Hsg. run_monad.
  rewrite (proj2 (Z.ltb_ge _ _)) by lia. run_monad.
  repeat (rewrite ?Hsg, ?Hsl; run_monad). rewrite !Happ, length_app.
  rewrite (proj2 (Z.leb_gt _ _)) by lia. run_monad.
  rewrite lookup_alter_eq, Hsg. run_monad. rewrite length_app, bool_decide_true by lia.
  unfold sfile_Write, io. run_monad. rewrite Hsf, drop_app_length. unfold buffered, tick. rewrite <- !length_app.
  destruct (flt (ticks w)); run_monad; done.
Qed.

Lemma Read_tail_eq w s sg idx a b :
  corrupt w = false → closed w = false → last (segments w) = Some s → heap w !! s = Some sg →
  firstIndex w ≤ idx → 0 < idx → idx ≤ lastIndex w → index sg ≤ idx → in_u64 (idx - index sg) →
  epos sg !! Z.to_nat (idx - index sg) = Some (a, b) →
  Read flt idx w = (match slice (ebuf sg) a b with Some e => decode_entry e | None => Panic end, w).
Proof.
  intros Hco Hcl Hl Hsg Hf H0 Hla Hi Hu He.
  unfold Read, check_open. run_monad. rewrite Hco, Hcl. run_monad.
  rewrite (proj2 (Z.eqb_neq idx 0)), (proj2 (Z.ltb_ge idx _)), (proj2 (Z.ltb_ge _ idx)) by lia. cbn [orb].
  unfold loadSegment, tail, deref. run_monad. rewrite Hl. run_monad. rewrite Hsg. run_monad.
  rewrite (proj2 (Z.leb_le _ _)) by lia. run_monad. rewrite Hsg. run_monad.
  rewrite u64_small, He by done. cbn. by destruct (slice (ebuf sg) a b).
Qed.

Lemma Read_tail_panic w s sg idx :
  corrupt w = false → closed w = false → last (segments w) = Some s → heap w !! s = Some sg →
  firstIndex w ≤ idx → 0 < idx → idx ≤ lastIndex w → index sg ≤ idx → in_u64 (idx - index sg) →
  epos sg !! Z.to_nat (idx - index sg) = None →
  Read flt idx w = (Panic, w).
Proof.
  intros Hco Hcl Hl Hsg Hf H0 Hla Hi Hu He.
  unfold Read, check_open. run_monad. rewrite Hco, Hcl. run_monad.
  rewrite (proj2 (Z.eqb_neq idx 0)), (proj2 (Z.ltb_ge idx _)), (proj2 (Z.ltb_ge _ idx)) by lia. cbn [orb].
  unfold loadSegment, tail, deref. run_monad. rewrite Hl. run_monad. rewrite Hsg. run_monad.
  rewrite (proj2 (Z.leb_le _ _)) by lia. run_monad. rewrite Hsg. run_monad.
  by rewrite u64_small, He by done.
Qed.
End exact.

(** the tail segment has room for [n] more bytes *)
Definition tail_room {C} (n : nat) (w : WAL C) : Prop :=
  match last (segments w) ≫= (heap w !!.) with
  | Some sg => lenZ (ebuf sg) + Z.of_nat n < SegmentSize (opts w)
  | None => False
  end.
#[export] Instance tail_room_dec {C} n (w : WAL C) : Decision (tail_room n w).
Proof. unfold tail_room. destruct (_ ≫= _); apply _. Defined.

(** only the input/output operation number [t] fails, a write after [k] bytes *)
Definition once (t k : nat) : nat → option nat := λ t', if bool_decide (t' = t) then Some k else None.

Section faults.
Context {C : Type} `{LRU C}.
Implicit Types (w : WAL C).

Lemma tail_facts f css w n :
  winv f css w → tail_room n w →
  ∃ s c sg, last (segments w) = Some s ∧ last css = Some c ∧ heap w !! s = Some sg ∧
    ebuf sg = encs c ∧ epos sg = poss 0 c ∧ index sg = f + lenZ (mjoin css) - lenZ c ∧ f ≤ index sg ∧
    lenZ (encs c) + Z.of_nat n < SegmentSize (opts w) ∧
    sfile w = Some (segmentName (start f css (length css - 1))) ∧
    corrupt w = false ∧ closed w = false.
Proof.
  intros Hw Hroom. destruct (winv_tail f css w Hw) as (s & c & sg & Hl & Hc & Hls & Hcc & Hsg & [Heb Hep] & _ & Hix).
  exists s, c, sg. unfold tail_room in Hroom. rewrite Hl in Hroom. cbn in Hroom. rewrite Hsg, Heb in Hroom.
  destruct (wi_open _ _ _ _ _ _ _ _ _ _ _ _ Hw) as [Hcl Hco].
  pose proof (start_S f css _ c Hcc) as E. pose proof (lookup_lt_Some _ _ _ Hcc).
  replace (S (length css - 1)) with (length css) in E by lia. rewrite start_all in E.
  pose proof (start_mono f css 0 (length css - 1) ltac:(lia)) as Hm. rewrite start_0 in Hm.
  split_and!; [done..|lia|lia|done|apply Hw|done|done].
Qed.

(** a failed write stays in memory, and the retry at the same index is stored
    after it *)
Lemma retry_lemma f css w d1 d2 :
  winv f css w → wf_entry d1 → wf_entry d2 → f + lenZ (mjoin css) + 1 < 2 ^ 64 →
  tail_room (length (enc d1) + length (enc d2)) w →
  let flt := once (ticks w) 0 in
  let idx := f + lenZ (mjoin css) in
  ∃ w1 w2, Write flt idx d1 w = (Err ErrIO, w1) ∧ Write flt idx d2 w1 = (Ok tt, w2) ∧
    Read flt idx w2 = (Ok d1, w2) ∧
    disk_log f css (dir w1) ∧
    ∃ css', disk_log f css' (dir w2) ∧ mjoin css' = mjoin css ++ [d2].
Proof.
  intros Hw Hd1 Hd2 Hb Hroom flt idx.
  destruct (tail_facts f css w _ Hw Hroom) as (s & c & sg & Hl & Hc & Hsg & Heb & Hep & Hix & Hfx & Hr & Hsf & Hco & Hcl).
  destruct (winv_range f css w Hw) as (Hfi & Hla & Hf1 & _).
  set (n := segmentName (start f css (length css - 1))) in *.
  pose (sg1 := set_bufs (encs c ++ enc d1) (epos sg ++ [(length (encs c), length (encs c) + length (enc d1))%nat]) sg).
  pose (sg2 := set_bufs (ebuf sg1 ++ enc d2) (epos sg1 ++ [(length (ebuf sg1), length (ebuf sg1) + length (enc d2))%nat]) sg).
  assert (alter (append_bytes []) n (dir w) = dir w) as Hid.
  { apply alter_id. intros [b|] _; cbn; [by rewrite app_nil_r|done]. }
  assert (Write flt idx d1 w = (Err ErrIO, set_dir (dir w) (tick (buffered s sg idx d1 w)))) as E1.
  { rewrite (Write_room_eq flt w s sg n) by (done || (rewrite Heb, length_app; lia)).
    unfold flt, once at 1. rewrite bool_decide_true by done. cbn zeta. by rewrite take_0, Hid. }
  eexists. eexists. split; [exact E1|].
  assert (heap (set_dir (dir w) (tick (buffered s sg idx d1 w))) !! s = Some sg1) as Hs1.
  { cbn. rewrite lookup_alter_eq, Hsg, Heb. done. }
  split.
  - rewrite (Write_room_eq flt _ s sg1 n); try done.
    + unfold flt, once at 1. rewrite bool_decide_false by (cbn; lia). reflexivity.
    + change (lenZ ((encs c ++ enc d1) ++ enc d2) < SegmentSize (opts w)). rewrite !length_app. lia.
  - split; [|split].
    + rewrite (Read_tail_eq flt _ s sg2 idx (length (encs c)) (length (encs c) + length (enc d1))); try done.
      * assert (ebuf sg2 = encs c ++ enc d1 ++ enc d2) as -> by (unfold sg2, sg1; cbn [ebuf set_bufs]; by rewrite <- app_assoc).
        unfold slice. rewrite bool_decide_true by (rewrite !length_app; lia).
        rewrite drop_app_length, Nat.add_comm, Nat.add_sub, take_app_length.
        by rewrite (decode_enc d1 Hd1).
      * cbn [heap set_wbatch set_last set_range set_dir tick set_ticks buffered set_heap].
        rewrite lookup_alter_eq, lookup_alter_eq, Hsg, Heb. done.
      * cbn [firstIndex set_wbatch set_last set_range set_dir tick set_ticks buffered set_heap]. unfold idx. lia.
      * unfold idx. lia.
      * cbn [index sg2 set_bufs]. unfold idx. lia.
      * cbn [index sg2 set_bufs]. unfold idx, in_u64.
        lia.
      * cbn [index epos sg2 sg1 set_bufs]. rewrite Hix, Hep. unfold idx.
        replace (Z.to_nat _) with (length (poss 0 c)) by (rewrite length_poss; lia).
        rewrite <- app_assoc, lookup_app_r, Nat.sub_diag by done. done.
    + cbn. by apply winv_disk_log.
    + assert (runs (Write no_flt idx d2) w (λ _ w', ∃ css', winv f css' w' ∧ mjoin css' = mjoin css ++ [d2])) as Hrn.
      { apply (Write_runs f css w d2); [done..|]. intros css' w' Hw' Hj _. by exists css'. }
      destruct (runs_elim _ _ _ Hrn) as ([] & w' & E & css' & Hw' & Hj). exists css'. split; [|done].
      apply winv_disk_log in Hw'.
      rewrite (Write_room_eq no_flt w s sg n) in E by (done || (rewrite Heb, length_app; lia)).
      cbn zeta in E. injection E as <-. exact Hw'.
Qed.

Lemma gap_lemma f css w d idx :
  winv f css w → wf_entry d → f + lenZ (mjoin css) < idx < 2 ^ 64 → tail_room (length (enc d)) w →
  ∃ w', Write no_flt idx d w = (Ok tt, w') ∧ LastIndex w' = (Ok idx, w') ∧
    Read no_flt (f + lenZ (mjoin css)) w' = (Ok d, w') ∧ Read no_flt idx w' = (Panic, w').
Proof.
  intros Hw Hd Hidx Hroom.
  destruct (tail_facts f css w _ Hw Hroom) as (s & c & sg & Hl & Hc & Hsg & Heb & Hep & Hix & Hfx & Hr & Hsf & Hco & Hcl).
  destruct (winv_range f css w Hw) as (Hfi & Hla & Hf1 & _).
  set (n := segmentName (start f css (length css - 1))) in *.
  pose (sg1 := set_bufs (encs c ++ enc d) (poss 0 c ++ [(length (encs c), length (encs c) + length (enc d))%nat]) sg).
  eexists. split.
  { rewrite (Write_room_eq no_flt w s sg n) by (done || (rewrite Heb, length_app; lia)). reflexivity. }
  set (w' := set_wbatch _ _).
  assert (heap w' !! s = Some sg1) as Hs1.
  { unfold w'. cbn [heap set_wbatch set_last set_range set_dir tick set_ticks buffered set_heap].
    by rewrite lookup_alter_eq, Hsg, Heb, Hep. }
  split; [|split].
  - unfold LastIndex, check_open. run_monad. by rewrite Hco, Hcl.
  - rewrite (Read_tail_eq no_flt w' s sg1 _ (length (encs c)) (length (encs c) + length (enc d))); try done.
    + cbn [ebuf sg1 set_bufs]. unfold slice. rewrite bool_decide_true by (rewrite !length_app; lia).
      rewrite drop_app_length, Nat.add_comm, Nat.add_sub, firstn_all. by rewrite (decode_enc d Hd).
    + change (firstIndex w ≤ f + lenZ (mjoin css)). lia.
    + lia.
    + change (f + lenZ (mjoin css) ≤ idx). lia.
    + cbn [index sg1 set_bufs]. lia.
    + cbn [index sg1 set_bufs]. unfold in_u64. lia.
    + cbn [index epos sg1 set_bufs].
      replace (Z.to_nat _) with (length (poss 0 c)) by (rewrite length_poss; lia).
      by rewrite lookup_app_r, Nat.sub_diag by done.
  - apply (Read_tail_panic no_flt w' s sg1); try done.
    + change (firstIndex w ≤ idx). lia.
    + lia.
    + cbn [index sg1 set_bufs]. lia.
    + cbn [index sg1 set_bufs]. unfold in_u64. lia.
    + cbn [index epos sg1 set_bufs]. apply lookup_ge_None. rewrite length_app, length_poss. cbn [length]. lia.
Qed.

(** the last index may be written again: the new entry goes after the old one,
    and takes the place of the entry that is written next *)
Lemma rewrite_lemma f css w d d2 :
  winv f css w → wf_entry d → wf_entry d2 → mjoin css ≠ [] → f + lenZ (mjoin css) + 1 < 2 ^ 64 →
  tail_room (length (enc d) + length (enc d2)) w →
  let idx := f + lenZ (mjoin css) in
  ∃ w1 w2, Write no_flt (idx - 1) d w = (Ok tt, w1) ∧ LastIndex w1 = (Ok (idx - 1), w1) ∧
    Write no_flt idx d2 w1 = (Ok tt, w2) ∧ Read no_flt idx w2 = (Ok d, w2).
Proof.
  intros Hw Hd Hd2 Hne Hb Hroom idx.
  destruct (tail_facts f css w _ Hw Hroom) as (s & c & sg & Hl & Hc & Hsg & Heb & Hep & Hix & Hfx & Hr & Hsf & Hco & Hcl).
  destruct (winv_range f css w Hw) as (Hfi & Hla & Hf1 & _).
  assert (length (mjoin css) ≠ 0%nat) as Hlen by (by destruct (mjoin css)).
  set (n := segmentName (start f css (length css - 1))) in *.
  pose (sg1 := set_bufs (encs c ++ enc d) (poss 0 c ++ [(length (encs c), length (encs c) + length (enc d))%nat]) sg).
  pose (sg2 := set_bufs (ebuf sg1 ++ enc d2) (epos sg1 ++ [(length (ebuf sg1), length (ebuf sg1) + length (enc d2))%nat]) sg1).
  eexists. eexists. split.
  { rewrite (Write_room_eq no_flt w s sg n) by (done || (rewrite Heb, length_app; lia)). reflexivity. }
  set (w1 := set_wbatch _ _).
  assert (heap w1 !! s = Some sg1) as Hs1.
  { unfold w1. cbn [heap set_wbatch set_last set_range set_dir tick set_ticks buffered set_heap].
    by rewrite lookup_alter_eq, Hsg, Heb, Hep. }
  split; [|split].
  - unfold LastIndex, check_open. run_monad. by rewrite Hco, Hcl.
  - rewrite (Write_room_eq no_flt w1 s sg1 n); try done.
    change (lenZ ((encs c ++ enc d) ++ enc d2) < SegmentSize (opts w)). rewrite !length_app. lia.
  - set (w2 := set_wbatch _ _).
    rewrite (Read_tail_eq no_flt w2 s sg2 idx (length (encs c)) (length (encs c) + length (enc d))); try done.
    + assert (ebuf sg2 = encs c ++ enc d ++ enc d2) as -> by (unfold sg2, sg1; cbn [ebuf set_bufs]; by rewrite <- app_assoc).
      unfold slice. rewrite bool_decide_true by (rewrite !length_app; lia).
      rewrite drop_app_length, Nat.add_comm, Nat.add_sub, take_app_length. by rewrite (decode_enc d Hd).
    + change (alter (set_bufs (ebuf sg2) (epos sg2)) s (heap w1) !! s = Some sg2).
      by rewrite lookup_alter_eq, Hs1.
    + change (firstIndex w ≤ idx). unfold idx. lia.
    + unfold idx. lia.
    + change (index sg ≤ idx). unfold idx. lia.
    + change (in_u64 (idx - index sg)). unfold idx, in_u64. lia.
    + change (index sg2) with (index sg). cbn [epos sg2 sg1 set_bufs]. unfold idx. rewrite Hix.
      replace (Z.to_nat _) with (length (poss 0 c)) by (rewrite length_poss; lia).
      by rewrite <- app_assoc, lookup_app_r, Nat.sub_diag by done.
Qed.

Lemma torn_lemma f css w d k o t :
  winv f css w → wf_entry d → tail_room (length (enc d)) w → (0 < k < length (enc d))%nat →
  ∃ w1 (w2 : WAL C), Write (once (ticks w) k) (f + lenZ (mjoin css)) d w = (Err ErrIO, w1) ∧
    Create no_flt o (dir w1) t = (Err ErrCorrupt, w2).
Proof.
  intros Hw Hd Hroom Hk.
  destruct (tail_facts f css w _ Hw Hroom) as (s & c & sg & Hl & Hc & Hsg & Heb & Hep & Hix & Hfx & Hr & Hsf & Hco & Hcl).
  destruct (Create_torn f css (dir w) c d k o t (winv_disk_log _ _ _ Hw) Hc Hd Hk) as [w2 E2].
  eexists. exists w2. split.
  - rewrite (Write_room_eq (once (ticks w) k) w s sg (segmentName (start f css (length css - 1))))
      by (done || (rewrite Heb, length_app; lia)).
    unfold once. rewrite bool_decide_true by done. reflexivity.
  - exact E2.
Qed.
End faults.

(** ** A small log for the witnesses *)

(** three entries in two segments of more than two bytes *)
Definition small_opts : Options := mkOptions 4 1 false.
Definition small_ops : list wal_op := [WWrite 1 [1]; WWrite 2 [2]; WWrite 3 [3]].
Definition small_log : log := mkLog 1 [[1]; [2]; [3]].
Definition small_wal : WAL list_lru := (wal_run small_ops (Create no_flt (Some small_opts) ∅ 0).2).2.
(** the same three entries in one large segment *)
Definition roomy_wal : WAL list_lru := (wal_run small_ops (Create no_flt None ∅ 0).2).2.

Lemma small_stands_for : stands_for small_wal small_log ∧ stands_for roomy_wal small_log.
Proof.
  assert (∀ o, stands_for (wal_run small_ops (Create no_flt o ∅ 0 : _ * WAL list_lru).2).2 small_log) as Ho.
  { intros o. destruct (Create_empty (C := list_lru) ∅ o 0) as (w & E & Hw & _); [intros ? ? E; by rewrite lookup_empty in E|done|].
    rewrite E. destruct (wal_run_refines small_ops w (mkLog 1 [])) as (w' & E' & Hw').
    - by exists [[]].
    - apply (bool_decide_eq_true_1 (LogSpec.allowed_run _ _)). by vm_compute.
    - change (stands_for (wal_run small_ops w).2 small_log). by rewrite E'. }
  split; apply Ho.
Qed.

(** ** Properties *)

(** C6: a log opened on a directory without segment files answers
    every sequence of writes at the next index, reads, index queries, listings,
    cache clears, truncations at either end and restarts like the abstract log:
    the list of entries from the first index on, whatever the options, the cache
    and the other files of the directory. *)
Theorem wal_refines_log {C} `{LRU C} (D : disk) (o : option Options) (t : nat) (ops : list wal_op) :
  (∀ name nd, D !! name = Some nd → segish name = false) → D !! "TEMP" ≠ Some Dir →
  LogSpec.allowed_run ops (mkLog 1 []) →
  ∃ w w' : WAL C, Create no_flt o D t = (Ok tt, w) ∧
    wal_run ops w = ((LogSpec.run ops (mkLog 1 [])).1, w').
Proof.
  intros HD HT Ha. destruct (Create_empty D o t HD HT) as (w & E & Hw & _).
  destruct (wal_run_refines ops w (mkLog 1 [])) as (w' & E' & _); [by exists [[]]|done|].
  by exists w, w'.
Qed.

Lemma wal_refines_log_witness :
  ∃ w w' : WAL list_lru, Create no_flt (Some small_opts) {["lock" := File []]} 0 = (Ok tt, w) ∧
    wal_run (small_ops ++ [WRead 2; WFront 2; WRead 1; WReopen small_opts; WAfter 2; WBack 2; WLast; WRead 2]) w =
      ([ODone (Ok tt); ODone (Ok tt); ODone (Ok tt); OData (Ok [2]); ODone (Ok tt); OData (Err ErrNotFound);
        ODone (Ok tt); OList (Ok [[2]; [3]]); ODone (Ok tt); OIndex (Ok 2); OData (Ok [2])], w').
Proof.
  apply (wal_refines_log {["lock" := File []]} (Some small_opts) 0
    (small_ops ++ [WRead 2; WFront 2; WRead 1; WReopen small_opts; WAfter 2; WBack 2; WLast; WRead 2])).
  - intros name nd Hn. apply lookup_singleton_Some in Hn as [<- _]. by vm_compute.
  - by vm_compute.
  - apply (bool_decide_eq_true_1 (LogSpec.allowed_run _ _)). by vm_compute.
Defined.

(** the next [Create] finds the log [l] or the log [l'], whatever attempts to open it
    failed before *)
Definition comes_back {C} `{LRU C} (o : option Options) (t : nat) (l l' : log) (d : disk) : Prop :=
  ∀ tries, ∃ w' : WAL C, Create no_flt o (reopened (C := C) o t tries d) t = (Ok tt, w') ∧ (stands_for w' l ∨ stands_for w' l').

Section truncations.
Context {C : Type} `{LRU C}.
Implicit Types (w : WAL C) (l : log).

Lemma opens_as_comes_back o t l l' f css d :
  opens_as (C := C) o t f css d → (∀ w, winv f css w → stands_for w l ∨ stands_for w l') → comes_back (C := C) o t l l' d.
Proof. intros Ho Hs tries. destruct (Ho tries) as (w' & E & Hw'). exists w'. split; [exact E|by apply Hs]. Qed.

Lemma TruncateFront_comes_back k p t o w l idx : stands_for w l → LogSpec.in_range idx l = true →
  comes_back (C := C) o t l (LogSpec.step (WFront idx) l).2 (dir (TruncateFront (killed k p) idx w).2).
Proof.
  intros (css & Hw & Hj) Hr. pose proof Hr as Hr'. apply in_range_spec in Hr'. rewrite <- Hj in Hr'.
  destruct (located_exists _ css idx Hr') as (i & c & Hloc). pose proof (winv_disk_log _ _ _ Hw) as Hdl.
  set (l' := (LogSpec.step (WFront idx) l).2).
  assert (∀ w' : WAL C, winv idx (front_chunks (lg_first l) css idx i c) w' → stands_for w' l ∨ stands_for w' l') as Hnew.
  { intros w' Hw'. right. unfold l'. cbn [LogSpec.step]. rewrite Hr. eexists. split; [exact Hw'|].
    cbn [lg_entries snd]. rewrite <- Hj. by apply join_front. }
  set (R := comes_back (C := C) o t l l').
  assert (dies (TruncateFront (killed k p) idx) w (λ _ w', R (dir w')) R) as Hdies.
  { apply (TruncateFront_dies k p (lg_first l) css w idx i c R Hw Hloc).
    - intros d Hd. eapply opens_as_comes_back; [apply opens_as_log; by eapply disk_log_temp|]. intros w' Hw'. left. by exists css.
    - intros m d Hm Hd. eapply opens_as_comes_back; [|exact Hnew].
      apply (opens_as_front o t (lg_first l) css idx i c (dir w)); [done..|by exists m].
    - intros d Hd. eapply opens_as_comes_back; [by apply opens_as_log|exact Hnew]. }
  unfold dies in Hdies. by destruct (TruncateFront _ _ _) as [[[]|?|] w'].
Qed.

Lemma TruncateBack_comes_back k p t o w l idx : stands_for w l → LogSpec.in_range idx l = true →
  comes_back (C := C) o t l (LogSpec.step (WBack idx) l).2 (dir (TruncateBack (killed k p) idx w).2).
Proof.
  intros (css & Hw & Hj) Hr. pose proof Hr as Hr'. apply in_range_spec in Hr'. rewrite <- Hj in Hr'.
  destruct (located_exists _ css idx Hr') as (i & c & Hloc). pose proof (winv_disk_log _ _ _ Hw) as Hdl.
  set (l' := (LogSpec.step (WBack idx) l).2).
  assert (∀ w' : WAL C, winv (lg_first l) (back_chunks (lg_first l) css idx i c) w' → stands_for w' l ∨ stands_for w' l') as Hnew.
  { intros w' Hw'. right. unfold l'. cbn [LogSpec.step]. rewrite Hr. eexists. split; [exact Hw'|].
    cbn [lg_entries lg_first snd]. rewrite <- Hj. by apply join_back. }
  set (R := comes_back (C := C) o t l l').
  assert (dies (TruncateBack (killed k p) idx) w (λ _ w', R (dir w')) R) as Hdies.
  { apply (TruncateBack_dies k p (lg_first l) css w idx i c R Hw Hloc).
    - intros d Hd. eapply opens_as_comes_back; [apply opens_as_log; by eapply disk_log_temp|]. intros w' Hw'. left. by exists css.
    - intros d Hd. eapply opens_as_comes_back; [|exact Hnew]. by apply (opens_as_back o t (lg_first l) css idx i c (dir w)).
    - intros d Hd. eapply opens_as_comes_back; [by apply opens_as_log|exact Hnew]. }
  unfold dies in Hdies. by destruct (TruncateBack _ _ _) as [[[]|?|] w'].
Qed.
End truncations.

(** if the process dies at any input/output operation of a
    TruncateFront (a write cut short after any number of bytes), the next Create
    succeeds and finds the log as it was before the truncation or as it is after
    it, never anything in between. *)
Theorem truncate_front_crash_safe {C} `{LRU C} (k p t : nat) (o : option Options) (w : WAL C) (l : log) (idx : Z) :
  stands_for w l → LogSpec.in_range idx l = true →
  ∃ w' : WAL C, Create no_flt o (dir (TruncateFront (killed k p) idx w).2) t = (Ok tt, w') ∧
    (stands_for w' l ∨ stands_for w' (LogSpec.step (WFront idx) l).2).
Proof. intros Hw Hr. exact (TruncateFront_comes_back k p t o w l idx Hw Hr []). Qed.

(** C11: If the process dies at any input/output operation of a TruncateFront or a
    TruncateBack (a write cut short after any number of bytes), and any number of attempts
    to open the log then fail or die in turn, each wherever it likes, the next Create
    succeeds and finds the log as it was before the truncation or as it is after it,
    never anything in between. *)
Theorem truncations_survive_crashes {C} `{LRU C} (k p t : nat) (tries : list (nat → option nat)) (o : option Options)
    (w : WAL C) (l : log) (idx : Z) :
  stands_for w l → LogSpec.in_range idx l = true →
  (∃ w' : WAL C, Create no_flt o (reopened (C := C) o t tries (dir (TruncateFront (killed k p) idx w).2)) t = (Ok tt, w') ∧
    (stands_for w' l ∨ stands_for w' (LogSpec.step (WFront idx) l).2)) ∧
  (∃ w' : WAL C, Create no_flt o (reopened (C := C) o t tries (dir (TruncateBack (killed k p) idx w).2)) t = (Ok tt, w') ∧
    (stands_for w' l ∨ stands_for w' (LogSpec.step (WBack idx) l).2)).
Proof.
  intros Hw Hr. split; [exact (TruncateFront_comes_back k p t o w l idx Hw Hr tries)|exact (TruncateBack_comes_back k p t o w l idx Hw Hr tries)].
Qed.

(** the truncation dies after the rename, and two attempts to open the log die after
    one and after two operations *)
Lemma truncations_survive_crashes_witness :
  (∃ w' : WAL list_lru,
    Create no_flt None (reopened (C := list_lru) None 0 [killed 1 0; killed 2 0] (dir (TruncateFront (killed (ticks small_wal + 6) 0) 2 small_wal).2)) 0 = (Ok tt, w') ∧
    (stands_for w' small_log ∨ stands_for w' (mkLog 2 [[2]; [3]]))) ∧
  (∃ w' : WAL list_lru,
    Create no_flt None (reopened (C := list_lru) None 0 [killed 1 0; killed 2 0] (dir (TruncateBack (killed (ticks small_wal + 6) 0) 2 small_wal).2)) 0 = (Ok tt, w') ∧
    (stands_for w' small_log ∨ stands_for w' (mkLog 1 [[1]; [2]]))).
Proof.
  apply (truncations_survive_crashes (ticks small_wal + 6) 0 0 [killed 1 0; killed 2 0] None small_wal small_log 2).
  - apply small_stands_for.
  - by vm_compute.
Defined.

(** a write that fails keeps its data in the buffer of the tail
    segment.  The caller's retry at the same index succeeds, and the log then
    reads the data of the failed write, while the entry on disk, which the next
    Create finds, is the data of the retry. *)
Theorem failed_write_retry {C} `{LRU C} (w : WAL C) (l : log) (d1 d2 : list Z) (o : option Options) (t : nat) :
  stands_for w l → wf_entry d1 → wf_entry d2 → lg_next l + 1 < 2 ^ 64 →
  tail_room (length (enc d1) + length (enc d2)) w →
  ∃ w1 w2 w3 : WAL C,
    Write (once (ticks w) 0) (lg_next l) d1 w = (Err ErrIO, w1) ∧
    Write (once (ticks w) 0) (lg_next l) d2 w1 = (Ok tt, w2) ∧
    Read (once (ticks w) 0) (lg_next l) w2 = (Ok d1, w2) ∧
    Create no_flt o (dir w2) t = (Ok tt, w3) ∧ stands_for w3 (mkLog (lg_first l) (lg_entries l ++ [d2])).
Proof.
  intros (css & Hw & Hj) Hd1 Hd2 Hb Hroom. unfold lg_next in *. rewrite <- Hj in *.
  destruct (retry_lemma (lg_first l) css w d1 d2 Hw Hd1 Hd2 Hb Hroom) as (w1 & w2 & E1 & E2 & E3 & _ & css' & Hdl & Hj').
  destruct (Create_disk_log _ css' (dir w2) o t Hdl) as (w3 & E & Hw3 & _).
  exists w1, w2, w3. split_and!; try done. by exists css'.
Qed.

Lemma failed_write_retry_witness :
  ∃ w1 w2 w3 : WAL list_lru,
    Write (once (ticks roomy_wal) 0) 4 [7] roomy_wal = (Err ErrIO, w1) ∧
    Write (once (ticks roomy_wal) 0) 4 [8] w1 = (Ok tt, w2) ∧
    Read (once (ticks roomy_wal) 0) 4 w2 = (Ok [7], w2) ∧
    Create no_flt None (dir w2) 0 = (Ok tt, w3) ∧ stands_for w3 (mkLog 1 [[1]; [2]; [3]; [8]]).
Proof.
  apply (failed_write_retry roomy_wal small_log [7] [8] None 0).
  - apply small_stands_for.
  - split; by vm_compute.
  - split; by vm_compute.
  - by vm_compute.
  - apply (bool_decide_eq_true_1 (tail_room _ _)). by vm_compute.
Defined.

(** when a write of an entry reaches the disk in part (at least one of
    its bytes, not all of them), the write reports the failure, and from then on
    the directory cannot be opened: Create answers that the log is corrupt, and
    every entry written before is out of reach. *)
Theorem torn_write_unopenable {C} `{LRU C} (w : WAL C) (l : log) (d : list Z) (k : nat) (o : option Options) (t : nat) :
  stands_for w l → wf_entry d → tail_room (length (enc d)) w → (0 < k < length (enc d))%nat →
  ∃ w1 w2 : WAL C, Write (once (ticks w) k) (lg_next l) d w = (Err ErrIO, w1) ∧
    Create no_flt o (dir w1) t = (Err ErrCorrupt, w2).
Proof.
  intros (css & Hw & Hj) Hd Hroom Hk. unfold lg_next. rewrite <- Hj.
  exact (torn_lemma (lg_first l) css w d k o t Hw Hd Hroom Hk).
Qed.

Lemma torn_write_unopenable_witness :
  ∃ w1 w2 : WAL list_lru, Write (once (ticks roomy_wal) 2) 4 [7; 8] roomy_wal = (Err ErrIO, w1) ∧
    Create no_flt None (dir w1) 0 = (Err ErrCorrupt, w2).
Proof.
  apply (torn_write_unopenable roomy_wal small_log [7; 8] 2 None 0).
  - apply small_stands_for.
  - split; by vm_compute.
  - apply (bool_decide_eq_true_1 (tail_room _ _)). by vm_compute.
  - vm_compute. lia.
Defined.

(** Write accepts an index beyond the next one.  The last index
    becomes that index, but the entry is stored at the next position: reading the
    next index returns it, and reading the index it was written at panics. *)
Theorem gap_write_accepted {C} `{LRU C} (w : WAL C) (l : log) (d : list Z) (idx : Z) :
  stands_for w l → wf_entry d → lg_next l < idx < 2 ^ 64 → tail_room (length (enc d)) w →
  ∃ w' : WAL C, Write no_flt idx d w = (Ok tt, w') ∧ LastIndex w' = (Ok idx, w') ∧
    Read no_flt (lg_next l) w' = (Ok d, w') ∧ Read no_flt idx w' = (Panic, w').
Proof.
  intros (css & Hw & Hj) Hd Hi Hroom. unfold lg_next in *. rewrite <- Hj in *.
  exact (gap_lemma (lg_first l) css w d idx Hw Hd Hi Hroom).
Qed.

Lemma gap_write_accepted_witness :
  ∃ w' : WAL list_lru, Write no_flt 9 [7] roomy_wal = (Ok tt, w') ∧ LastIndex w' = (Ok 9, w') ∧
    Read no_flt 4 w' = (Ok [7], w') ∧ Read no_flt 9 w' = (Panic, w').
Proof.
  apply (gap_write_accepted roomy_wal small_log [7] 9).
  - apply small_stands_for.
  - split; by vm_compute.
  - split; by vm_compute.
  - apply (bool_decide_eq_true_1 (tail_room _ _)). by vm_compute.
Defined.

(** the file name of a segment is twenty characters wide, parses back
    to the index, differs for different indexes, and the order of the directory
    listing is the order of the indexes, for every 64-bit index. *)
Theorem segment_names_ordered (i j : Z) :
  in_u64 i → in_u64 j →
  String.length (segmentName i) = 20%nat ∧
  ParseUint (bytes_of_string (segmentName i)) = Some i ∧
  (segmentName i = segmentName j ↔ i = j) ∧
  (name_le (segmentName i) (segmentName j) ↔ i ≤ j).
Proof.
  intros Hi Hj. split_and!.
  - apply segmentName_length. unfold in_u64 in Hi. lia.
  - rewrite segmentName_bytes by (unfold in_u64 in Hi; lia). by apply ParseUint_digits.
  - split; [by apply segmentName_inj|by intros ->].
  - by apply segmentName_le.
Qed.

Lemma segment_names_ordered_witness :
  String.length (segmentName 9) = 20%nat ∧
  ParseUint (bytes_of_string (segmentName 9)) = Some 9 ∧
  (segmentName 9 = segmentName 10 ↔ 9 = 10) ∧
  (name_le (segmentName 9) (segmentName 10) ↔ 9 ≤ 10).
Proof. apply (segment_names_ordered 9 10); split; by vm_compute. Defined.

(** ** Two behaviours on concrete logs *)

(** the error of writing TEMP is overwritten: the truncation reports success and
    the first entries it should keep are gone *)
Example temp_error_hidden :
  let '(r, w1) := TruncateFront (once (ticks small_wal + 1) 0) 2 small_wal in
  r = Ok tt ∧ (Read no_flt 2 small_wal).1 = Ok [2] ∧ (Read no_flt 2 w1).1 = Panic.
Proof. by vm_compute. Qed.

(** the order in which [WriteBatch] visits its map shows in the log *)
Example batch_order_matters :
  let a := (WriteBatch no_flt [(4, [4]); (5, [5])] roomy_wal).2 in
  let b := (WriteBatch no_flt [(5, [5]); (4, [4])] roomy_wal).2 in
  (Read no_flt 4 a).1 = Ok [4] ∧ (LastIndex a).1 = Ok 5 ∧
  (Read no_flt 4 b).1 = Ok [5] ∧ (LastIndex b).1 = Ok 4.
Proof. by vm_compute. Qed.
