(* ===== verification/Journal.v ===== *)
(** * The journal interface

    What the registry cluster asks of its write ahead log, as a class of
    operations, and what it relies on, as a class of laws; the log of [Wal.v]
    satisfies them. *)

From S2P Require Import Prelude Bytes Wal WalCodec WalInv WalOpen WalSpec.

Abbreviation journal_error := wal_error.

(** [wal.Write], [wal.Read] and [wal.LastIndex] *)
Class Journal (J : Type) := {
  j_write : Z → list Z → J → result journal_error unit * J;
  j_read : Z → J → result journal_error (list Z) * J;
  j_last : J → result journal_error Z * J;
}.

(** [j_holds j l]: the journal holds the entries [l], the first one at index 1 *)
Class JournalLaws (J : Type) `{Journal J} := {
  j_holds : J → list (list Z) → Prop;
  j_write_next : ∀ j l d, j_holds j l → in_u64 (lenZ d) → lenZ l + 2 < 2 ^ 64 →
    ∃ j', j_write (lenZ l + 1) d j = (Ok tt, j') ∧ j_holds j' (l ++ [d]);
  j_read_at : ∀ j l (n : nat) d, j_holds j l → l !! n = Some d →
    ∃ j', j_read (Z.of_nat n + 1) j = (Ok d, j') ∧ j_holds j' l;
  j_last_len : ∀ j l, j_holds j l → ∃ j', j_last j = (Ok (lenZ l), j') ∧ j_holds j' l;
}.

(** the write ahead log as a journal, with the failures of [flt] *)
Definition wal_journal {C} `{LRU C} (flt : nat → option nat) : Journal (WAL C) :=
  {| j_write := Write flt; j_read := Read flt; j_last := LastIndex |}.

Section wal_journal.
Context {C : Type} `{LRU C}.

#[export] Instance wal_journal_ok : Journal (WAL C) := wal_journal no_flt.

Lemma obs_of_eq {A} (k : result wal_error A → wal_obs) (m : M (WAL C) wal_error A) w r w' :
  (∀ x y, k x = k y → x = y) → obs_of k m w = (k r, w') → m w = (r, w').
Proof. unfold obs_of. intros Hk. destruct (m w). intros [= ->%Hk ->]. done. Qed.

#[export] Program Instance wal_journal_laws : JournalLaws (WAL C) :=
  {| j_holds w l := stands_for w (mkLog 1 l) |}.
Next Obligation.
  intros w l d Hw Hd Hn. destruct (wal_step_refines (WWrite (lenZ l + 1) d) w (mkLog 1 l) Hw) as (w' & E & Hw').
  - unfold LogSpec.allowed, lg_next. cbn. split; [lia|]. split; [done|lia].
  - exists w'. split; [|exact Hw']. cbn [j_write wal_journal_ok wal_journal].
    apply (obs_of_eq ODone); [by intros ?? [=]|exact E].
Qed.
Next Obligation.
  intros w l n d Hw Hd. destruct (wal_step_refines (WRead (Z.of_nat n + 1)) w (mkLog 1 l) Hw I) as (w' & E & Hw').
  exists w'. split; [|exact Hw']. cbn [j_read wal_journal_ok wal_journal].
  apply (obs_of_eq OData); [by intros ?? [=]|]. etrans; [exact E|]. cbn [LogSpec.step fst].
  pose proof (lookup_lt_Some _ _ _ Hd).
  replace (LogSpec.in_range (Z.of_nat n + 1) (mkLog 1 l)) with true.
  - cbn [lg_first lg_entries]. replace (Z.to_nat (Z.of_nat n + 1 - 1)) with n by lia. by rewrite Hd.
  - symmetry. apply in_range_spec. cbn. lia.
Qed.
Next Obligation.
  intros w l Hw. destruct (wal_step_refines WLast w (mkLog 1 l) Hw I) as (w' & E & Hw').
  exists w'. split; [|exact Hw']. cbn [j_last wal_journal_ok wal_journal].
  apply (obs_of_eq OIndex); [by intros ?? [=]|]. etrans; [exact E|].
  cbn [LogSpec.step fst]. unfold lg_next. cbn [lg_first lg_entries]. do 3 f_equal. lia.
Qed.
End wal_journal.
