(* ===== verification/Cluster.v ===== *)
(** * The registry cluster: [registry/cluster]

    The node's own state ([cluster.go], [peer.go], [buffer.go] and the two fields
    of [ControlServer]) is one record; the methods are computations on it.  The
    journal is used through its interface, the registry's [entriesHandler] acts on
    an application state, and the other registries answer through [call] and [ask],
    functions on the rest of the world.  Each goroutine's loop body is one
    computation; how the loops interleave is up to who composes them. *)

From S2P Require Import Prelude Messages Journal.

Inductive cluster_error :=
| ErrShutdown | ErrPeerNotFound | ErrWriteTimeout | ErrCorrupt (* buffer.go *)
| ErrJournal (e : journal_error) | ErrAddPeer | ErrCall | ErrRecovering | ErrListen.

(** [lastActivity] is written and never read *)
Record Peer := mkPeer {
  info : RegistryInfo;
  buffer : list Entry;
  lastCommittedIndex : Z;
  recovering : bool;
}.

Record Cluster {J A : Type} := mkCluster {
  ID : string;
  peers : gmap string Peer;
  conns : gset string;          (* the keys of [service.conns] *)
  currentTerm : Z;
  lastLogIndex : Z;
  lastLogTerm : Z;
  state : State;
  shutdown : bool;
  appended : nat;               (* the tokens in [entriesAppendedC] *)
  pipeline : bool;              (* [WritePipeline] has not returned *)
  lastVotedTerm : Z;
  votedFor : string;
  wal : J;
  app : A;
}.
Arguments Cluster J A : clear implicits.

Definition appended_cap : nat := 50.

Section updates.
Context {J A : Type}.
Implicit Types (c : Cluster J A).

Definition set_peers (p : gmap string Peer) c : Cluster J A :=
  mkCluster J A (ID c) p (conns c) (currentTerm c) (lastLogIndex c) (lastLogTerm c) (state c) (shutdown c) (appended c) (pipeline c) (lastVotedTerm c) (votedFor c) (wal c) (app c).
Definition set_conns (s : gset string) c : Cluster J A :=
  mkCluster J A (ID c) (peers c) s (currentTerm c) (lastLogIndex c) (lastLogTerm c) (state c) (shutdown c) (appended c) (pipeline c) (lastVotedTerm c) (votedFor c) (wal c) (app c).
Definition SetCurrentTerm (t : Z) c : Cluster J A :=
  mkCluster J A (ID c) (peers c) (conns c) t (lastLogIndex c) (lastLogTerm c) (state c) (shutdown c) (appended c) (pipeline c) (lastVotedTerm c) (votedFor c) (wal c) (app c).
Definition SetLastLogIndex (i : Z) c : Cluster J A :=
  mkCluster J A (ID c) (peers c) (conns c) (currentTerm c) i (lastLogTerm c) (state c) (shutdown c) (appended c) (pipeline c) (lastVotedTerm c) (votedFor c) (wal c) (app c).
Definition SetLastLogTerm (t : Z) c : Cluster J A :=
  mkCluster J A (ID c) (peers c) (conns c) (currentTerm c) (lastLogIndex c) t (state c) (shutdown c) (appended c) (pipeline c) (lastVotedTerm c) (votedFor c) (wal c) (app c).
Definition set_state (s : State) c : Cluster J A :=
  mkCluster J A (ID c) (peers c) (conns c) (currentTerm c) (lastLogIndex c) (lastLogTerm c) s (shutdown c) (appended c) (pipeline c) (lastVotedTerm c) (votedFor c) (wal c) (app c).
Definition set_appended (n : nat) c : Cluster J A :=
  mkCluster J A (ID c) (peers c) (conns c) (currentTerm c) (lastLogIndex c) (lastLogTerm c) (state c) (shutdown c) n (pipeline c) (lastVotedTerm c) (votedFor c) (wal c) (app c).
Definition set_pipeline (b : bool) c : Cluster J A :=
  mkCluster J A (ID c) (peers c) (conns c) (currentTerm c) (lastLogIndex c) (lastLogTerm c) (state c) (shutdown c) (appended c) b (lastVotedTerm c) (votedFor c) (wal c) (app c).
Definition set_votedFor (v : string) c : Cluster J A :=
  mkCluster J A (ID c) (peers c) (conns c) (currentTerm c) (lastLogIndex c) (lastLogTerm c) (state c) (shutdown c) (appended c) (pipeline c) (lastVotedTerm c) v (wal c) (app c).
Definition set_lastVotedTerm (t : Z) c : Cluster J A :=
  mkCluster J A (ID c) (peers c) (conns c) (currentTerm c) (lastLogIndex c) (lastLogTerm c) (state c) (shutdown c) (appended c) (pipeline c) t (votedFor c) (wal c) (app c).
Definition set_wal (j : J) c : Cluster J A :=
  mkCluster J A (ID c) (peers c) (conns c) (currentTerm c) (lastLogIndex c) (lastLogTerm c) (state c) (shutdown c) (appended c) (pipeline c) (lastVotedTerm c) (votedFor c) j (app c).
Definition set_app (a : A) c : Cluster J A :=
  mkCluster J A (ID c) (peers c) (conns c) (currentTerm c) (lastLogIndex c) (lastLogTerm c) (state c) (shutdown c) (appended c) (pipeline c) (lastVotedTerm c) (votedFor c) (wal c) a.

Definition becomeFollower c : Cluster J A := set_state State_FOLLOWER c.
Definition becomeLeader c : Cluster J A := set_state State_LEADER c.
Definition becomeCandidate c : Cluster J A := set_state State_CANDIDATE c.
Definition isLeader c : bool := bool_decide (state c = State_LEADER).
Definition isCandidate c : bool := bool_decide (state c = State_CANDIDATE).
Definition isFollower c : bool := bool_decide (state c = State_FOLLOWER).

Definition Shutdown c : Cluster J A :=
  mkCluster J A (ID c) (peers c) (conns c) (currentTerm c) (lastLogIndex c) (lastLogTerm c) (state c) true (appended c) (pipeline c) (lastVotedTerm c) (votedFor c) (wal c) (app c).
End updates.

(** ** [entriesBuffer] *)

(** an empty buffer has no last element to look at *)
Definition buffer_Write (entry : Entry) (b : list Entry) : result cluster_error (list Entry) :=
  match last b with
  | None => Panic
  | Some l =>
      if Entry_Index entry <=? Entry_Index l then Err ErrCorrupt
      else if Entry_Term entry <? Entry_Term l then Ok b
      else Ok (b ++ [entry])
  end.

(** the entries before the one that fails stay in the buffer *)
Fixpoint buffer_WriteBatch (entries : list Entry) (b : list Entry) : result cluster_error unit * list Entry :=
  match entries with
  | [] => (Ok tt, b)
  | entry :: entries' =>
      match last b with
      | Some l =>
          if Entry_Index entry <=? Entry_Index l then (Err ErrCorrupt, b)
          else if Entry_Term entry <? Entry_Term l then buffer_WriteBatch entries' b
          else buffer_WriteBatch entries' (b ++ [entry])
      | None => buffer_WriteBatch entries' (b ++ [entry])
      end
  end.

Definition buffer_Read (b : list Entry) : list Entry * list Entry := (b, []).

Definition with_buffer (b : list Entry) (p : Peer) : Peer :=
  mkPeer (info p) b (lastCommittedIndex p) (recovering p).
Definition SetRecovering (r : bool) (p : Peer) : Peer :=
  mkPeer (info p) (buffer p) (lastCommittedIndex p) r.
Definition SetLastCommittedIndex (i : Z) (p : Peer) : Peer :=
  mkPeer (info p) (buffer p) i (recovering p).
Definition WriteToBuffer (entries : list Entry) (p : Peer) : result cluster_error unit * Peer :=
  let '(r, b) := buffer_WriteBatch entries (buffer p) in (r, with_buffer b p).

(** indexes grow from each entry to the next *)
Fixpoint validateEntriesSequence (entries : list Entry) : result cluster_error unit :=
  match entries with
  | e1 :: (e2 :: _) as rest => if Entry_Index e2 <=? Entry_Index e1 then Err ErrCorrupt else validateEntriesSequence rest
  | _ => Ok tt
  end.

(** what [AddPeer] meets: [grpc.Dial] fails (its connection is nil, and [Close] is
    called on it), the ping fails, or the peer is alive *)
Inductive dial := DialFailed | PingFailed | PeerAlive.

Section cluster.
Context {J A : Type} `{Journal J} `{Codec Entry}.
(** [entriesHandler], when it is set *)
Context (entriesHandler : option (list Entry → A → A)).
(** what a failed [Unmarshal] leaves in the entry *)
Context (garbled : list Z → Entry).
(** the order in which [range] visits the keys of a map *)
Context (order : gset string → list string).

Local Abbreviation C := (Cluster J A).
Local Abbreviation CM := (M C cluster_error).

Definition on_wal {B} (f : J → result journal_error B * J) : CM B := λ c,
  let '(r, j) := f (wal c) in
  (match r with Ok b => Ok b | Err e => Err (ErrJournal e) | Panic => Panic end, set_wal j c).

Definition unmarshal_entry (data : list Z) : Entry := default (garbled data) (Unmarshal_msg data).

(** ** Starting *)

(** an error of the journal is fatal: the process exits *)
Definition setInitialTermAndIndex : CM unit :=
  lastIndex ← on_wal j_last;
  if lastIndex =? 0 then
    _ ← modify (SetLastLogIndex 0); modify (SetCurrentTerm 0)
  else
    data ← on_wal (j_read lastIndex);
    let entry := unmarshal_entry data in
    _ ← modify (SetLastLogIndex (Entry_Index entry));
    _ ← modify (SetLastLogTerm (Entry_Term entry));
    modify (SetCurrentTerm (Entry_Term entry)).

Definition new_peer (i : RegistryInfo) : Peer := mkPeer i [] 0 false.

(** [NewControlService]: the registries that a dial and a ping reach have a connection *)
Definition NewControlService (alive : string → bool) (addresses : gmap string string) : gset string :=
  dom (filter (λ kv : string * string, alive kv.1 = true) addresses).

Definition sane_peers (id : string) (infos : gmap string RegistryInfo) (alive : string → bool) : gmap string RegistryInfo :=
  let addresses := Registry_Address <$> filter (λ kv : string * RegistryInfo, kv.1 ≠ id) infos in
  let sanePeers := NewControlService alive addresses in
  filter (λ kv : string * RegistryInfo, kv.1 ∈ sanePeers) infos.

(** the requests of [ControlServer] about the registry itself; three are left to do *)
Definition Alive : result cluster_error unit := Ok tt.
Definition ControlServer_Shutdown : result cluster_error unit := Panic.
Definition Online : result cluster_error unit := Panic.
Definition Offline : result cluster_error unit := Panic.

(** milliseconds; [Intn n] is the random integer below [n], for which [n] is positive *)
Definition getIntervalMs (Intn : Z → Z) (min max : Z) : result cluster_error Z :=
  if max - min <=? 0 then Panic else Ok (Intn (max - min) + min).

(** [NewCluster], with the outcome of [wal.Create] and of [net.Listen] *)
Definition NewCluster (id : string) (infos : gmap string RegistryInfo) (alive : string → bool)
    (journal : result journal_error J) (listening : bool) (a : A) : result cluster_error C :=
  match journal with
  | Err e => Err (ErrJournal e)
  | Panic => Panic
  | Ok j =>
      match setInitialTermAndIndex (mkCluster J A id ∅ ∅ 0 0 0 State_FOLLOWER false 0 true 0 "" j a) with
      | (Ok _, c) =>
          if listening then
            let sane := sane_peers id infos alive in
            let c := set_conns (dom sane) (set_peers (new_peer <$> sane) c) in
            Ok (if bool_decide (size (peers c) < 1)%nat then becomeLeader c else c)
          else Err ErrListen
      | (Err e, _) => Err e
      | (Panic, _) => Panic
      end
  end.

Definition AddPeer (uid : string) (d : dial) : CM unit :=
  match d with
  | DialFailed => panic
  | PingFailed => fail ErrAddPeer
  | PeerAlive => modify (λ c, set_conns ({[uid]} ∪ conns c) c)
  end.

Definition DiscoverOrUpdate (uid : string) (i : RegistryInfo) (d : dial) : CM unit :=
  c ← get;
  if shutdown c then fail ErrShutdown
  else match peers c !! uid with
       | Some _ => mret tt
       | None => _ ← AddPeer uid d; modify (λ c, set_peers (<[uid := new_peer i]> (peers c)) c)
       end.

(** [service.removePeer] does nothing *)
Definition RemovePeer (uid : string) : CM unit :=
  c ← get; if shutdown c then fail ErrShutdown else mret tt.

Definition MemberCount (c : C) : Z := Z.of_nat (size (peers c)) + 1.

(** ** Writing *)

Fixpoint buffer_all (uids : list string) (entries : list Entry) : CM unit :=
  match uids with
  | [] => mret tt
  | uid :: uids' =>
      c ← get;
      p ← from_option (peers c !! uid);
      let '(r, p') := WriteToBuffer entries p in
      _ ← modify (set_peers (<[uid := p']> (peers c)));
      _ ← lift r;
      buffer_all uids' entries
  end.

(** one request taken by [WritePipeline]; it returns for good after an error *)
Definition WritePipeline (entries : list Entry) : CM unit := λ c,
  match buffer_all (order (dom (peers c))) entries c with
  | (Err e, c') => (Err e, set_pipeline false c')
  | r => r
  end.

(** the send on [writeEntriesC]: the pipeline takes the request within 50 ms, or
    the writer gives up *)
Definition submit (taken : bool) (entries : list Entry) : CM unit :=
  c ← get; if taken && pipeline c then WritePipeline entries else fail ErrWriteTimeout.

(** the write to the journal, and the roll back of the index when it fails *)
Definition journal_entry (prev : Z) (entry : Entry) : CM unit := λ c,
  match on_wal (j_write (Entry_Index entry) (Marshal_msg entry)) c with
  | (Err e, c') => (Err e, SetLastLogIndex prev c')
  | r => r
  end.

Definition writeEntry (now : Z) (taken : bool) (typ : Entry_Type) (data : list Z) : CM unit :=
  c ← get;
  if shutdown c then fail ErrShutdown
  else
    let lastLogIndex := lastLogIndex c in
    let currentTerm := currentTerm c in
    let entry := mkEntry (u64 (lastLogIndex + 1)) currentTerm typ data now 0 in
    _ ← modify (SetLastLogIndex (u64 (lastLogIndex + 1)));
    _ ← modify (SetLastLogTerm currentTerm);
    _ ← journal_entry lastLogIndex entry;
    submit taken [entry].

Definition WriteEntry := writeEntry.

Definition writeEntries (taken : bool) (entries : list Entry) : CM unit :=
  c ← get; if shutdown c then fail ErrShutdown else submit taken entries.

Definition store_entry (entry : Entry) : CM unit :=
  _ ← on_wal (j_write (Entry_Index entry) (Marshal_msg entry));
  _ ← modify (SetLastLogIndex (Entry_Index entry));
  modify (SetLastLogTerm (Entry_Term entry)).

Definition run_handler (entries : list Entry) : CM unit :=
  match entriesHandler with
  | Some f => modify (λ c, set_app (f entries (app c)) c)
  | None => mret tt
  end.

Definition WriteEntriesFromLeader (entries : list Entry) : CM unit :=
  _ ← lift (validateEntriesSequence entries);
  _ ← run_handler entries;
  for_each entries store_entry.

(** ** [ControlServer] *)

Definition vote (c : C) (term : Z) (granted : bool) : RequestVoteResponse := mkVoteResp (ID c) term granted.

Definition RequestVote (req : RequestVoteRequest) (c : C) : RequestVoteResponse * C :=
  let term := currentTerm c in
  let c := if term <? VoteReq_Term req
           then set_votedFor "" (becomeFollower (SetCurrentTerm (VoteReq_Term req) c)) else c in
  let declined := vote c (currentTerm c) false in
  if VoteReq_Term req <? term then (declined, c)
  else if lastVotedTerm c =? VoteReq_Term req then (declined, c)
  else if VoteReq_LastLogIndex req <? lastLogIndex c then (declined, c)
  else if VoteReq_LastLogTerm req <? lastLogTerm c then (declined, c)
  else if (VoteReq_LastLogTerm req =? lastLogTerm c) && (VoteReq_LastLogIndex req <? lastLogIndex c) then (declined, c)
  else
    let c := set_lastVotedTerm (VoteReq_Term req) (SetCurrentTerm (VoteReq_Term req) c) in
    (vote c term true, c).

(** [None]: the send on [entriesAppendedC] waits, because its fifty tokens are
    there and no one reads *)
Definition AppendEntries (req : AppendEntriesRequest) (c : C) : option AppendEntriesResponse * C :=
  let term := currentTerm c in
  let last_index := lastLogIndex c in
  let ahead := match last (AppendReq_Entries req) with Some e => last_index <? Entry_Index e | None => false end in
  let c := if (term <? AppendReq_Term req) || ahead
           then set_votedFor "" (SetCurrentTerm (AppendReq_Term req) (becomeFollower c)) else c in
  if AppendReq_Term req <? term then
    (Some (mkAppendResp (ID c) (currentTerm c) false (lastLogIndex c) (lastLogIndex c)), c)
  else if bool_decide (appended_cap ≤ appended c)%nat then (None, c)
  else
    let c := set_appended (S (appended c)) c in
    if i64 last_index <? AppendReq_PrevLogIndex req then
      (Some (mkAppendResp (ID c) term false 0 last_index), c)
    else
      match WriteEntriesFromLeader (AppendReq_Entries req) c with
      | (Ok _, c) => (Some (mkAppendResp (ID c) (currentTerm c) true 0 (lastLogIndex c)), c)
      | (Err _, c) => (Some (mkAppendResp (ID c) (currentTerm c) false 0 (lastLogIndex c)), c)
      | (Panic, c) => (None, c)
      end.

(** [LoopReadEntries] takes a token *)
Definition receive_token (c : C) : C := set_appended (pred (appended c)) c.

(** ** Talking to the other registries *)

Section world.
Context {W : Type}.
Local Abbreviation WM := (M (C * W) cluster_error).

Definition on_cluster {B} (m : CM B) : WM B := λ '(c, w), let '(r, c') := m c in (r, (c', w)).

(** an [AppendEntries] call that arrives, or [None] *)
Context (call : string → AppendEntriesRequest → W → option AppendEntriesResponse * W).

Definition service_AppendEntries (uid : string) (req : AppendEntriesRequest) : WM AppendEntriesResponse := λ '(c, w),
  if bool_decide (uid ∈ conns c) then
    let '(r, w') := call uid req w in
    (of_option r (Err ErrCall), (c, w'))
  else (Err ErrPeerNotFound, (c, w)).

Definition update_peer (uid : string) (f : Peer → Peer) : WM unit :=
  on_cluster (modify (λ c, set_peers (alter f uid (peers c)) c)).

(** the loop of [startLogRecovering], over [n] indexes *)
Fixpoint recover_loop (n : nat) (uid : string) (index term : Z) : WM unit :=
  match n with
  | O => mret tt
  | S n' =>
      bytes ← on_cluster (on_wal (j_read index));
      let entry := unmarshal_entry bytes in
      c ← on_cluster get;
      res ← service_AppendEntries uid (mkAppendReq term (ID c) (i64 (index - 1)) 0 [entry] true);
      _ ← guard_err (negb (AppendResp_Success res)) ErrRecovering;
      _ ← update_peer uid (SetLastCommittedIndex index);
      recover_loop n' uid (index + 1) term
  end.

(** the deferred [SetRecovering(false)] runs whatever happens *)
Definition startLogRecovering (uid : string) (from : Z) : WM unit := λ '(c, w),
  match peers c !! uid with
  | None => (Err ErrPeerNotFound, (c, w))
  | Some _ =>
      let '(r, (c1, w1)) :=
        (_ ← update_peer uid (SetRecovering true);
         recover_loop (Z.to_nat (lastLogIndex c + 1 - u64 (from + 1))) uid (u64 (from + 1)) (currentTerm c)) (c, w) in
      let '(_, s) := update_peer uid (SetRecovering false) (c1, w1) in (r, s)
  end.

Definition send_entries (uid : string) (req : AppendEntriesRequest) : WM unit := λ s,
  match service_AppendEntries uid req s with
  | (Ok res, s') =>
      if AppendResp_Success res then (Ok tt, s')
      else ignore_err (startLogRecovering uid (AppendResp_LastCommittedIndex res)) s'
  | (Err _, s') => (Ok tt, s')
  | (Panic, s') => (Panic, s')
  end.

(** the goroutine of [dispatchEntries] for one peer *)
Definition dispatch_peer (uid : string) : WM unit :=
  c ← on_cluster get;
  p ← from_option (peers c !! uid);
  if recovering p then mret tt
  else
    let '(entries, b) := buffer_Read (buffer p) in
    _ ← update_peer uid (with_buffer b);
    send_entries uid (mkAppendReq (currentTerm c) (ID c) (i64 (lastLogIndex c) - 1) 0 entries true).

Definition dispatchEntries : WM unit :=
  c ← on_cluster get; for_each (order (dom (peers c))) dispatch_peer.

(** [LoopWriteEntries], one tick *)
Definition heartbeat : WM unit :=
  c ← on_cluster get; if isLeader c then dispatchEntries else mret tt.

(** a [RequestVote] call that is answered, or [None] *)
Context (ask : string → RequestVoteRequest → W → option RequestVoteResponse * W).

Definition vote_request (c : C) : RequestVoteRequest :=
  mkVoteReq (currentTerm c) (ID c) (lastLogIndex c) (currentTerm c).

Definition sendVoteRequest (uid : string) (c : C) (w : W) : option RequestVoteResponse * W :=
  if bool_decide (uid ∈ conns c) then ask uid (vote_request c) w else (None, w).

(** the answers of the peers: how many voted and how many responded *)
Fixpoint poll (uids : list string) (c : C) (w : W) : Z * Z * W :=
  match uids with
  | [] => (0, 0, w)
  | uid :: uids' =>
      let '(r, w) := sendVoteRequest uid c w in
      let '(voted, responded, w) := poll uids' c w in
      match r with
      | Some res => (voted + Z.b2z (VoteResp_VoteGranted res), responded + 1, w)
      | None => (voted, responded, w)
      end
  end.

Definition elected (voted responded : Z) : bool := (responded <? 1) || (responded / 2 <=? voted).

(** the two ends of [StartElection], the calls to the peers in between *)
Definition begin_election (c : C) : C :=
  let c := becomeCandidate c in SetCurrentTerm (u32 (currentTerm c + 1)) c.
Definition finish_election (voted responded : Z) (c : C) : C :=
  if elected voted responded then becomeLeader c else c.

Definition peer_ids (c : C) : list string :=
  omap (λ uid, (λ p, Registry_Id (info p)) <$> peers c !! uid) (order (dom (peers c))).

Definition StartElection (c : C) (w : W) : C * W :=
  let c := begin_election c in
  let '(voted, responded, w) := poll (peer_ids c) c w in
  (finish_election voted responded c, w).

(** [LoopReadEntries] when the election timeout fires *)
Definition election_timeout (c : C) (w : W) : C * W :=
  if isLeader c then (c, w) else StartElection c w.
End world.
End cluster.

(** ** The entries the registry writes *)

Section entries.
Context {J A : Type} `{Journal J} `{EntryCodecs}.
Context (order : gset string → list string) (now : Z) (taken : bool).
Local Abbreviation CM := (M (Cluster J A) cluster_error).

Definition WriteAssignFileEntry (file : FileInfo) : CM unit := λ c,
  writeEntry order now taken Entry_ASSIGN_FILE (Marshal_msg (mkAssignFile (ID c) file)) c.
Definition WriteDeleteFileEntry (file : FileInfo) : CM unit := λ c,
  writeEntry order now taken Entry_DELETE_FILE (Marshal_msg (mkDeleteFile (ID c) file)) c.
Definition WriteAssignBlocksEntry (blocks : list BlockInfo) : CM unit := λ c,
  writeEntry order now taken Entry_ASSIGN_BLOCKS (Marshal_msg (mkAssignBlocks (ID c) blocks "")) c.
Definition WriteDeleteBlocksEntry (blocks : list BlockInfo) : CM unit := λ c,
  writeEntry order now taken Entry_DELETE_BLOCKS (Marshal_msg (mkDeleteBlocks (ID c) blocks)) c.
Definition WriteCreatePolicyEntry (p : Policy) : CM unit := λ c,
  writeEntry order now taken Entry_CREATE_POLICY (Marshal_msg (mkCreatePolicy (ID c) p)) c.
Definition WriteDeletePolicyEntry (name : string) : CM unit := λ c,
  writeEntry order now taken Entry_DELETE_POLICY (Marshal_msg (mkDeletePolicy (ID c) name)) c.
Definition WriteCreateTokenEntry (t : Token) : CM unit := λ c,
  writeEntry order now taken Entry_CREATE_TOKEN (Marshal_msg (mkCreateToken (ID c) t)) c.
Definition WriteRevokeTokenEntry (accessor : string) : CM unit := λ c,
  writeEntry order now taken Entry_REVOKE_TOKEN (Marshal_msg (mkRevokeToken (ID c) accessor)) c.
End entries.
