(* ===== verification/ClusterSpec.v ===== *)
(** * What the registry cluster promises, and where it does not keep it

    Replication: a write reaches the journal and every peer's buffer, and one
    round of [dispatchEntries] over a working network brings a follower level with
    its leader.  Elections: what [RequestVote] grants, that a node votes once per
    term while its term does not fall, and how two nodes become leaders of the same
    term.  Failures: the pipeline that stops for good, the entry that is lost. *)

From S2P Require Import Prelude Messages Wal WalInv WalOpen WalSpec Journal Cluster.

(** ** Journals of entries *)

Section synced.
Context {J A : Type} `{JournalLaws J} `{Codec Entry}.
Implicit Types (c f : Cluster J A) (es : list Entry).

(** the entries are numbered from one *)
Definition numbered es : Prop := ∀ i e, es !! i = Some e → Entry_Index e = Z.of_nat i + 1.

(** the journal of [c] holds exactly the entries [es], and [c] knows it *)
Definition synced c es : Prop :=
  j_holds (wal c) (Marshal_msg <$> es) ∧ numbered es ∧ lastLogIndex c = lenZ es.

Definition short (e : Entry) : Prop := in_u64 (lenZ (Marshal_msg e)).

Lemma numbered_snoc es e : numbered es → Entry_Index e = lenZ es + 1 → numbered (es ++ [e]).
Proof using.
  intros Hn He i x [[_ Hx]|[-> <-]]%lookup_snoc_Some; [by apply Hn|done].
Qed.

Lemma numbered_take es k : numbered es → numbered (take k es).
Proof using. intros Hn i e [He _]%lookup_take_Some. by apply Hn. Qed.

Lemma run_wal_write c es e :
  synced c es → Entry_Index e = lenZ es + 1 → short e → lenZ es + 2 < 2 ^ 64 →
  ∃ j', on_wal (j_write (Entry_Index e) (Marshal_msg e)) c = (Ok tt, set_wal j' c) ∧
    j_holds j' (Marshal_msg <$> (es ++ [e])).
Proof.
  intros (Hj & Hn & Hl) He Hs Hb.
  destruct (j_write_next (wal c) (Marshal_msg <$> es) (Marshal_msg e) Hj Hs) as (j' & E & Hj').
  { by rewrite length_fmap. }
  exists j'. unfold on_wal. rewrite length_fmap in E. rewrite He, E. split; [done|].
  by rewrite fmap_app.
Qed.

Lemma run_wal_read c es (n : nat) e :
  synced c es → es !! n = Some e →
  ∃ j', on_wal (j_read (Z.of_nat n + 1)) c = (Ok (Marshal_msg e), set_wal j' c) ∧ j_holds j' (Marshal_msg <$> es).
Proof.
  intros (Hj & Hn & Hl) He.
  destruct (j_read_at (wal c) (Marshal_msg <$> es) n (Marshal_msg e) Hj) as (j' & E & Hj').
  { by rewrite list_lookup_fmap, He. }
  exists j'. unfold on_wal. by rewrite E.
Qed.

Lemma unmarshal_marshal garbled e : unmarshal_entry garbled (Marshal_msg e) = e.
Proof. unfold unmarshal_entry. by rewrite Unmarshal_Marshal_msg. Qed.
End synced.

(** ** Writing an entry *)

Section write.
Context {J A : Type} `{JournalLaws J} `{Codec Entry}.
Context (order : gset string → list string) (order_perm : ∀ s, order s ≡ₚ elements s).
Implicit Types (c : Cluster J A) (es : list Entry).

(** [e] comes after everything in the buffer *)
Definition after_buffer (e : Entry) (b : list Entry) : Prop :=
  ∀ l, last b = Some l → Entry_Index l < Entry_Index e ∧ Entry_Term l ≤ Entry_Term e.

Definition push (e : Entry) (p : Peer) : Peer := with_buffer (buffer p ++ [e]) p.

Lemma WriteToBuffer_after e p : after_buffer e (buffer p) → WriteToBuffer [e] p = (Ok tt, push e p).
Proof using.
  intros Ha. unfold WriteToBuffer, buffer_WriteBatch. destruct (last (buffer p)) as [l|] eqn:El; [|done].
  destruct (Ha l El). by rewrite (proj2 (Z.leb_gt _ _)), (proj2 (Z.ltb_ge _ _)) by lia.
Qed.

Lemma buffer_all_after uids e c :
  NoDup uids → (∀ uid, uid ∈ uids → ∃ p, peers c !! uid = Some p ∧ after_buffer e (buffer p)) →
  ∃ m, buffer_all uids [e] c = (Ok tt, set_peers m c) ∧
    ∀ uid, m !! uid = if bool_decide (uid ∈ uids) then push e <$> peers c !! uid else peers c !! uid.
Proof using.
  revert c. induction uids as [|u uids IH]; intros c Hnd Hp.
  - exists (peers c). split; [by destruct c|done].
  - apply NoDup_cons in Hnd as [Hu Hnd]. destruct (Hp u) as (p & Ep & Ha); [by constructor|].
    destruct (IH (set_peers (<[u := push e p]> (peers c)) c) Hnd) as (m & E & Hm).
    { intros v Hv. destruct (Hp v) as (q & Eq & Hq); [by constructor|]. exists q. cbn.
      rewrite lookup_insert_ne; [done|]. by intros ->. }
    exists m. split.
    + cbn [buffer_all]. etrans; [eapply bind_ok; reflexivity|]. unfold from_option. rewrite Ep.
      etrans; [eapply bind_ok; reflexivity|]. rewrite WriteToBuffer_after by done.
      etrans; [eapply bind_ok; reflexivity|]. etrans; [eapply bind_ok; reflexivity|]. exact E.
    + intros v. rewrite Hm. cbn. destruct (decide (v = u)) as [->|Hne].
      * rewrite lookup_insert_eq, bool_decide_false, bool_decide_true by (done || by constructor). by rewrite Ep.
      * rewrite lookup_insert_ne by done.
        rewrite (bool_decide_ext (v ∈ u :: uids) (v ∈ uids)); [done|]. rewrite elem_of_cons. intuition.
Qed.

Lemma WritePipeline_after e c :
  (∀ uid p, peers c !! uid = Some p → after_buffer e (buffer p)) →
  WritePipeline order [e] c = (Ok tt, set_peers (push e <$> peers c) c).
Proof using order_perm.
  intros Ha. destruct (buffer_all_after (order (dom (peers c))) e c) as (m & E & Hm).
  - rewrite order_perm. apply NoDup_elements.
  - intros uid Hu. rewrite order_perm, elem_of_elements, elem_of_dom in Hu. destruct Hu as [p Hp].
    exists p. split; [done|by eapply Ha].
  - unfold WritePipeline. rewrite E. do 2 f_equal. apply map_eq. intros uid. rewrite Hm, lookup_fmap.
    case_bool_decide as Hin; [done|]. rewrite order_perm, elem_of_elements, not_elem_of_dom in Hin. by rewrite Hin.
Qed.

Definition next_entry c (typ : Entry_Type) (data : list Z) (now : Z) : Entry :=
  mkEntry (u64 (lastLogIndex c + 1)) (currentTerm c) typ data now 0.

(** [writeEntry] up to the send on the channel *)
Lemma writeEntry_journaled now taken typ data c es :
  synced c es → shutdown c = false → lenZ es + 2 < 2 ^ 64 → short (next_entry c typ data now) →
  ∃ j', j_holds j' (Marshal_msg <$> (es ++ [next_entry c typ data now])) ∧
    Entry_Index (next_entry c typ data now) = lenZ es + 1 ∧
    writeEntry order now taken typ data c =
      submit order taken [next_entry c typ data now]
        (set_wal j' (SetLastLogTerm (currentTerm c) (SetLastLogIndex (lenZ es + 1) c))).
Proof using.
  intros Hs Hsh Hb Hshort. pose proof Hs as (Hj & Hn & Hl).
  assert (u64 (lastLogIndex c + 1) = lenZ es + 1) as Hu by (rewrite Hl; apply u64_small; unfold in_u64; lia).
  destruct (run_wal_write c es (next_entry c typ data now) Hs) as (j' & E & Hj'); [done..|].
  exists j'. split_and!; [done|done|]. unfold writeEntry, journal_entry.
  etrans; [eapply bind_ok; reflexivity|]. rewrite Hsh.
  etrans; [eapply bind_ok; reflexivity|]. etrans; [eapply bind_ok; reflexivity|].
  etrans; [eapply bind_ok|].
  - unfold on_wal in *. fold (next_entry c typ data now).
    change (wal (SetLastLogTerm (currentTerm c) (SetLastLogIndex (u64 (lastLogIndex c + 1)) c))) with (wal c).
    destruct (j_write _ _ (wal c)) as [r j1] eqn:Ew. injection E as E1 <-.
    destruct r; [|done..]. destruct a. reflexivity.
  - cbn beta. unfold next_entry. by rewrite !Hu.
Qed.

(** the whole of [writeEntry], when the pipeline takes the entry *)
Lemma writeEntry_ok now typ data c es :
  let e := mkEntry (lenZ es + 1) (currentTerm c) typ data now 0 in
  synced c es → shutdown c = false → pipeline c = true → lenZ es + 2 < 2 ^ 64 → short e →
  (∀ uid p, peers c !! uid = Some p → after_buffer e (buffer p)) →
  ∃ j', writeEntry order now true typ data c =
      (Ok tt, set_peers (push e <$> peers c) (set_wal j' (SetLastLogTerm (currentTerm c) (SetLastLogIndex (lenZ es + 1) c)))) ∧
    j_holds j' (Marshal_msg <$> (es ++ [e])).
Proof using order_perm.
  intros e Hs Hsh Hpl Hb Hshort Ha. pose proof Hs as (Hj & Hn & Hl).
  assert (next_entry c typ data now = e) as He.
  { unfold next_entry, e. rewrite Hl, u64_small by (unfold in_u64; lia). done. }
  destruct (writeEntry_journaled now true typ data c es) as (j' & Hj' & Hi & E); rewrite ?He in *; [done..|].
  exists j'. split; [|done].
  rewrite E. unfold submit. etrans; [eapply bind_ok; reflexivity|]. cbn [pipeline set_wal SetLastLogTerm SetLastLogIndex].
  rewrite Hpl. cbn [andb].
  exact (WritePipeline_after e (set_wal j' (SetLastLogTerm (currentTerm c) (SetLastLogIndex (lenZ es + 1) c))) Ha).
Qed.
End write.

(** ** One follower *)

Section follower.
Context {J A : Type} `{JournalLaws J} `{Codec Entry}.
(** the registry handles a list of entries one after the other *)
Context (apply_entry : A → Entry → A).
Implicit Types (f : Cluster J A) (es : list Entry).

Definition handler : option (list Entry → A → A) := Some (λ es a, foldl apply_entry a es).

(** a call that arrives, with [LoopReadEntries] taking the token it leaves *)
Definition serve (uid : string) (req : AppendEntriesRequest) f : option AppendEntriesResponse * Cluster J A :=
  let '(r, f') := AppendEntries handler req f in (r, receive_token f').

(** a follower level with [es], whose application has state [a], that a leader
    of term [t] can talk to *)
Definition level f es (a : A) (t : Z) : Prop :=
  synced f es ∧ app f = a ∧ currentTerm f ≤ t ∧ (appended f < appended_cap)%nat.

Lemma store_entry_ok f es e :
  synced f es → Entry_Index e = lenZ es + 1 → short e → lenZ es + 2 < 2 ^ 64 →
  ∃ j', store_entry e f = (Ok tt, SetLastLogTerm (Entry_Term e) (SetLastLogIndex (Entry_Index e) (set_wal j' f))) ∧
    j_holds j' (Marshal_msg <$> (es ++ [e])).
Proof.
  intros Hs He Hsh Hb. destruct (run_wal_write f es e Hs He Hsh Hb) as (j' & E & Hj').
  exists j'. split; [|done]. unfold store_entry. etrans; [eapply bind_ok, E|]. done.
Qed.

Lemma synced_snoc f es e j' :
  synced f es → Entry_Index e = lenZ es + 1 → j_holds j' (Marshal_msg <$> (es ++ [e])) →
  ∀ g : Cluster J A, wal g = j' → lastLogIndex g = Entry_Index e → synced g (es ++ [e]).
Proof using.
  intros (_ & Hn & _) He Hj g <- Hg. split; [done|]. split; [by apply numbered_snoc|].
  rewrite Hg, He, length_app. cbn. lia.
Qed.

(** the term and the token of a call from a leader of term [t] *)
Definition heard t f : Cluster J A :=
  set_appended (S (appended f)) (set_votedFor "" (SetCurrentTerm t (becomeFollower f))).

Lemma level_ltb f es a t : level f es a t → (t <? currentTerm f) = false.
Proof using. intros (_ & _ & Ht & _). apply Z.ltb_ge. lia. Qed.

Lemma level_cap f es a t (g : Cluster J A) :
  level f es a t → appended g = appended f → bool_decide (appended_cap ≤ appended g)%nat = false.
Proof using. intros (_ & _ & _ & Ha) ->. apply bool_decide_eq_false. lia. Qed.

Lemma level_i64 f es a t : level f es a t → lenZ es < 2 ^ 63 → i64 (lastLogIndex f) = lenZ es.
Proof using. intros ((_ & _ & Hl) & _) Hb. rewrite Hl. apply i64_small. lia. Qed.

Lemma serve_one uid f es a e t lid prev :
  level f es a t → Entry_Index e = lenZ es + 1 → short e → lenZ es + 2 < 2 ^ 63 → prev ≤ lenZ es →
  ∃ f' resp, serve uid (mkAppendReq t lid prev 0 [e] true) f = (Some resp, f') ∧
    AppendResp_Success resp = true ∧ level f' (es ++ [e]) (apply_entry a e) t.
Proof.
  intros Hlev He Hsh Hb Hp. pose proof Hlev as (Hs & Ha & Ht & Hc). pose proof Hs as (Hj & Hn & Hl).
  destruct (store_entry_ok (set_app (apply_entry a e) (heard t f)) es e) as (j' & E & Hj'); [done..|lia|].
  unfold serve, AppendEntries. cbn [AppendReq_Entries AppendReq_Term AppendReq_PrevLogIndex last].
  rewrite He, Hl, (proj2 (Z.ltb_lt (lenZ es) _)), orb_true_r, (level_ltb f es a t Hlev) by lia.
  rewrite (level_cap f es a t _ Hlev) by done.
  rewrite <- Hl, (level_i64 f es a t Hlev), (proj2 (Z.ltb_ge _ _)) by lia.
  match goal with |- context [WriteEntriesFromLeader handler [e] ?g] => change g with (heard t f) end.
  assert (WriteEntriesFromLeader handler [e] (heard t f) =
    (Ok tt, SetLastLogTerm (Entry_Term e) (SetLastLogIndex (Entry_Index e)
      (set_wal j' (set_app (apply_entry a e) (heard t f)))))) as ->.
  { unfold WriteEntriesFromLeader. etrans; [eapply bind_ok; reflexivity|].
    etrans; [eapply bind_ok; reflexivity|]. cbn [for_each foldl].
    change (app (heard t f)) with (app f). rewrite Ha.
    etrans; [eapply bind_ok, E|]. done. }
  eexists. eexists. split; [reflexivity|]. split; [done|].
  split; [by eapply (synced_snoc f es e)|]. cbn. split; [done|]. split; [lia|done].
Qed.

(** an empty request from a leader whose previous index is not ahead *)
Lemma serve_empty uid f es a t lid prev :
  level f es a t → lenZ es < 2 ^ 63 → prev ≤ lenZ es →
  ∃ f' resp, serve uid (mkAppendReq t lid prev 0 [] true) f = (Some resp, f') ∧
    AppendResp_Success resp = true ∧ level f' es a t.
Proof using.
  intros Hlev Hb Hp. pose proof Hlev as (Hs & Ha & Ht & Hc).
  unfold serve, AppendEntries. cbn [AppendReq_Entries AppendReq_Term AppendReq_PrevLogIndex last].
  rewrite orb_false_r, (level_ltb f es a t Hlev).
  destruct (Z.ltb_spec (currentTerm f) t); rewrite (level_cap f es a t _ Hlev) by done;
    rewrite (level_i64 f es a t Hlev), (proj2 (Z.ltb_ge _ _)) by lia; cbn;
    eexists; eexists; (split; [reflexivity|]); (split; [done|]); (split; [done|]); cbn; split_and!; done || lia.
Qed.

(** a request too far ahead is refused, with the index to recover from *)
Lemma serve_ahead uid f es a t lid prev entries :
  level f es a t → lenZ es < 2 ^ 63 → lenZ es < prev →
  ∃ f' resp, serve uid (mkAppendReq t lid prev 0 entries true) f = (Some resp, f') ∧
    AppendResp_Success resp = false ∧ AppendResp_LastCommittedIndex resp = lenZ es ∧ level f' es a t.
Proof using.
  intros Hlev Hb Hp. pose proof Hlev as (Hs & Ha & Ht & Hc). pose proof Hs as (Hj & Hn & Hl).
  unfold serve, AppendEntries. cbn [AppendReq_Entries AppendReq_Term AppendReq_PrevLogIndex].
  rewrite (level_ltb f es a t Hlev).
  destruct (_ || _); rewrite (level_cap f es a t _ Hlev) by done;
    rewrite (level_i64 f es a t Hlev), (proj2 (Z.ltb_lt _ _)) by lia; cbn;
    eexists; eexists; (split; [reflexivity|]); (split; [done|]); (split; [done|]); (split; [done|]); cbn; split_and!; done || lia.
Qed.
End follower.

(** ** Bringing a follower level *)

Section replication.
Context {J A : Type} `{JournalLaws J} `{Codec Entry}.
Context (garbled : list Z → Entry) (apply_entry : A → Entry → A).
Implicit Types (c f : Cluster J A) (es : list Entry).

Local Abbreviation serve' := (serve apply_entry).

(** what the leader keeps while it talks to the peer [uid] *)
Definition leads c uid (b : list Entry) es : Prop :=
  synced c es ∧ uid ∈ conns c ∧ ∃ p, peers c !! uid = Some p ∧ buffer p = b.

Lemma leads_set_wal c uid b es j' :
  leads c uid b es → j_holds j' (Marshal_msg <$> es) → leads (set_wal j' c) uid b es.
Proof using. intros ((_ & Hn & Hl) & Hc & Hp) Hj. by repeat split. Qed.

Lemma leads_alter c uid b b' es g :
  leads c uid b es → (∀ p, buffer p = b → buffer (g p) = b') →
  leads (set_peers (alter g uid (peers c)) c) uid b' es.
Proof using.
  intros (Hs & Hc & p & Hp & Hb) Hg. split; [done|]. split; [done|].
  exists (g p). cbn. rewrite lookup_alter_eq, Hp. split; [done|by apply Hg].
Qed.

Lemma call_serve c f uid req resp f' :
  uid ∈ conns c → serve' uid req f = (Some resp, f') →
  service_AppendEntries serve' uid req (c, f) = (Ok resp, (c, f')).
Proof using. intros Hc E. unfold service_AppendEntries. by rewrite bool_decide_true, E. Qed.

Lemma recover_loop_ok n k uid c f b es a t :
  leads c uid b es → Forall short es → lenZ es + 2 < 2 ^ 63 → (k + n = length es)%nat →
  level f (take k es) a t →
  ∃ c' f', recover_loop garbled serve' n uid (Z.of_nat k + 1) t (c, f) = (Ok tt, (c', f')) ∧
    leads c' uid b es ∧ level f' es (foldl apply_entry a (drop k es)) t.
Proof.
  intros Hc Hsh Hb. revert k c f a Hc. induction n as [|n IH]; intros k c f a Hc Hk Hf.
  - rewrite take_ge in Hf by lia. rewrite drop_ge by lia. exists c, f. done.
  - destruct (lookup_lt_is_Some_2 es k) as [e He]; [lia|].
    pose proof Hc as (Hs & Hconn & p & Hp & Hpb). pose proof Hs as (_ & Hn & _).
    destruct (run_wal_read c es k e Hs He) as (j1 & E1 & Hj1).
    assert (lenZ (take k es) = Z.of_nat k) as Hlk by (rewrite length_take; lia).
    destruct (serve_one apply_entry uid f (take k es) a e t (ID c) (i64 (Z.of_nat k + 1 - 1)))
      as (f1 & resp & E2 & Hok & Hf1); [done| | |rewrite Hlk; lia| |].
    { rewrite Hlk. by apply Hn. }
    { by eapply Forall_lookup_1. }
    { rewrite i64_small; lia. }
    rewrite <- (take_S_r _ _ _ He) in Hf1. rewrite (drop_S _ _ _ He). cbn [foldl].
    set (c1 := set_peers (alter (SetLastCommittedIndex (Z.of_nat k + 1)) uid (peers (set_wal j1 c))) (set_wal j1 c)).
    destruct (IH (S k) c1 f1 (apply_entry a e)) as (c' & f' & E & Hc' & Hf'); [|lia|done|].
    { apply leads_alter with b; [by apply leads_set_wal|done]. }
    exists c', f'. split; [|done]. cbn [recover_loop].
    etrans; [eapply bind_ok; unfold on_cluster; rewrite E1; reflexivity|]. rewrite unmarshal_marshal.
    etrans; [eapply bind_ok; reflexivity|].
    etrans; [eapply bind_ok, call_serve; [exact Hconn|exact E2]|]. rewrite Hok. cbn [negb guard_err].
    etrans; [eapply bind_ok; reflexivity|]. etrans; [eapply bind_ok; reflexivity|].
    replace (Z.of_nat k + 1 + 1) with (Z.of_nat (S k) + 1) by lia. exact E.
Qed.

Lemma startLogRecovering_ok uid c f b es k a :
  leads c uid b es → Forall short es → lenZ es + 2 < 2 ^ 63 → (k ≤ length es)%nat →
  level f (take k es) a (currentTerm c) →
  ∃ c' f', startLogRecovering garbled serve' uid (Z.of_nat k) (c, f) = (Ok tt, (c', f')) ∧
    leads c' uid b es ∧ level f' es (foldl apply_entry a (drop k es)) (currentTerm c) ∧
    recovering <$> peers c' !! uid = Some false.
Proof.
  intros Hc Hsh Hb Hk Hf. pose proof Hc as (Hs & Hconn & p & Hp & Hpb). pose proof Hs as (_ & _ & Hl).
  set (c1 := set_peers (alter (SetRecovering true) uid (peers c)) c).
  assert (leads c1 uid b es) as Hc1 by (apply leads_alter with b; done).
  destruct (recover_loop_ok (length es - k) k uid c1 f b es a (currentTerm c)) as (c2 & f2 & E & Hc2 & Hf2); [done..|lia|done|].
  set (c3 := set_peers (alter (SetRecovering false) uid (peers c2)) c2).
  exists c3, f2. split_and!; [|by apply leads_alter with b|done|].
  - unfold startLogRecovering. rewrite Hp.
    rewrite (u64_small (Z.of_nat k + 1)) by (unfold in_u64; lia).
    replace (Z.to_nat (lastLogIndex c + 1 - (Z.of_nat k + 1))) with (length es - k)%nat by lia.
    rewrite (bind_ok _ _ (c, f) tt (c1, f)), E by reflexivity. reflexivity.
  - destruct Hc2 as (_ & _ & p2 & Hp2 & _). cbn. by rewrite lookup_alter_eq, Hp2.
Qed.

(** one round of [dispatchEntries] for a peer whose follower is level with the
    first [k] entries, with the others in the buffer *)
Lemma dispatch_peer_ok uid c f es k a :
  leads c uid (drop k es) es → recovering <$> peers c !! uid = Some false →
  Forall short es → lenZ es + 2 < 2 ^ 63 → (k ≤ length es)%nat →
  level f (take k es) a (currentTerm c) →
  ∃ c' f', dispatch_peer garbled serve' uid (c, f) = (Ok tt, (c', f')) ∧
    leads c' uid [] es ∧ level f' es (foldl apply_entry a (drop k es)) (currentTerm c) ∧
    recovering <$> peers c' !! uid = Some false.
Proof.
  intros Hc Hrec Hsh Hb Hk Hf. pose proof Hc as (Hs & Hconn & p & Hp & Hpb). pose proof Hs as (_ & Hn & Hl).
  rewrite Hp in Hrec. injection Hrec as Hrec.
  set (c1 := set_peers (alter (with_buffer []) uid (peers c)) c).
  assert (leads c1 uid [] es) as Hc1 by (apply leads_alter with (drop k es); done).
  assert (recovering <$> peers c1 !! uid = Some false) as Hr1 by (cbn; rewrite lookup_alter_eq, Hp; cbn; by rewrite Hrec).
  assert (dispatch_peer garbled serve' uid (c, f) =
    send_entries garbled serve' uid (mkAppendReq (currentTerm c) (ID c) (lenZ es - 1) 0 (drop k es) true) (c1, f)) as ->.
  { unfold dispatch_peer. etrans; [eapply bind_ok; reflexivity|]. unfold from_option. rewrite Hp.
    etrans; [eapply bind_ok; reflexivity|]. rewrite Hrec. cbn [buffer_Read]. rewrite Hpb.
    etrans; [eapply bind_ok; reflexivity|]. rewrite Hl, i64_small by lia. done. }
  assert (lenZ (take k es) = Z.of_nat k) as Hlk by (rewrite length_take; lia).
  unfold send_entries. destruct (decide (Z.of_nat k < lenZ es - 1)) as [Hlt|Hge].
  - (* refused, then recovered from the journal *)
    destruct (serve_ahead apply_entry uid f (take k es) a (currentTerm c) (ID c) (lenZ es - 1) (drop k es))
      as (f1 & resp & E & Hno & Hlast & Hf1); [done|lia|lia|].
    rewrite (call_serve c1 f uid _ resp f1 Hconn E), Hno, Hlast, Hlk.
    destruct (startLogRecovering_ok uid c1 f1 [] es k a) as (c2 & f2 & E2 & Hc2 & Hf2 & Hr2); [done..|].
    unfold ignore_err. rewrite E2. exists c2, f2. done.
  - destruct (decide (k = length es)) as [->|Hne].
    + rewrite drop_all, firstn_all in *.
      destruct (serve_empty apply_entry uid f es a (currentTerm c) (ID c) (lenZ es - 1)) as (f1 & resp & E & Hok & Hf1); [done|lia|lia|].
      rewrite (call_serve c1 f uid _ resp f1 Hconn E), Hok. exists c1, f1. done.
    + destruct (lookup_lt_is_Some_2 es k) as [e He]; [lia|].
      assert (drop k es = [e]) as Hd by (rewrite (drop_S _ _ _ He), drop_ge by lia; done).
      assert (take k es ++ [e] = es) as Ht by (rewrite <- Hd; apply take_drop).
      rewrite Hd. destruct (serve_one apply_entry uid f (take k es) a e (currentTerm c) (ID c) (lenZ es - 1))
        as (f1 & resp & E & Hok & Hf1); [done| | |lia|lia|].
      { rewrite Hlk. by apply Hn. }
      { by eapply Forall_lookup_1. }
      rewrite (call_serve c1 f uid _ resp f1 Hconn E), Hok. rewrite Ht in Hf1. exists c1, f1. done.
Qed.
End replication.

(** ** Votes *)

Section votes.
Context {J A : Type}.
Implicit Types (c f : Cluster J A).

(** the terms a node granted its vote in, over a sequence of requests *)
Fixpoint granted_terms (reqs : list RequestVoteRequest) c : list Z :=
  match reqs with
  | [] => []
  | req :: reqs' =>
      let '(r, c') := RequestVote req c in
      if VoteResp_VoteGranted r then VoteReq_Term req :: granted_terms reqs' c' else granted_terms reqs' c'
  end.

(** when [RequestVote] grants *)
Definition grants c (req : RequestVoteRequest) : bool :=
  (currentTerm c <=? VoteReq_Term req) && negb (lastVotedTerm c =? VoteReq_Term req) &&
  (lastLogIndex c <=? VoteReq_LastLogIndex req) && (lastLogTerm c <=? VoteReq_LastLogTerm req).

Lemma RequestVote_grants req c : VoteResp_VoteGranted (RequestVote req c).1 = grants c req.
Proof.
  unfold RequestVote, grants.
  destruct (Z.ltb_spec (currentTerm c) (VoteReq_Term req)), (Z.ltb_spec (VoteReq_Term req) (currentTerm c)),
    (Z.leb_spec (currentTerm c) (VoteReq_Term req)); try lia; cbn; try done;
  (destruct (_ =? _); cbn; [done|]);
  destruct (Z.ltb_spec (VoteReq_LastLogIndex req) (lastLogIndex c)), (Z.leb_spec (lastLogIndex c) (VoteReq_LastLogIndex req)); try lia; cbn; try done;
  destruct (Z.ltb_spec (VoteReq_LastLogTerm req) (lastLogTerm c)), (Z.leb_spec (lastLogTerm c) (VoteReq_LastLogTerm req)); try lia; cbn; try done;
  by destruct (_ =? _).
Qed.

Lemma RequestVote_terms req c :
  currentTerm (RequestVote req c).2 = Z.max (currentTerm c) (VoteReq_Term req) ∧
  lastVotedTerm (RequestVote req c).2 = (if grants c req then VoteReq_Term req else lastVotedTerm c).
Proof.
  unfold RequestVote, grants.
  destruct (Z.ltb_spec (currentTerm c) (VoteReq_Term req)), (Z.ltb_spec (VoteReq_Term req) (currentTerm c)),
    (Z.leb_spec (currentTerm c) (VoteReq_Term req)); try lia; cbn; try (split; [lia|done]);
  (destruct (Z.eqb_spec (lastVotedTerm c) (VoteReq_Term req)); cbn; [split; [lia|done]|]);
  destruct (Z.ltb_spec (VoteReq_LastLogIndex req) (lastLogIndex c)), (Z.leb_spec (lastLogIndex c) (VoteReq_LastLogIndex req)); try lia; cbn; try (split; [lia|done]);
  destruct (Z.ltb_spec (VoteReq_LastLogTerm req) (lastLogTerm c)), (Z.leb_spec (lastLogTerm c) (VoteReq_LastLogTerm req)); try lia; cbn; try (split; [lia|done]);
  destruct (_ =? _); cbn; split; done || lia.
Qed.

Lemma granted_terms_sorted reqs c :
  lastVotedTerm c ≤ currentTerm c →
  StronglySorted Z.lt (granted_terms reqs c) ∧ Forall (λ t, lastVotedTerm c < t) (granted_terms reqs c).
Proof.
  revert c. induction reqs as [|req reqs IH]; intros c Hc; cbn [granted_terms]; [split; constructor|].
  pose proof (RequestVote_grants req c) as Hg. destruct (RequestVote_terms req c) as [Ht Hv].
  destruct (RequestVote req c) as [r c']; cbn [fst snd] in *.
  destruct (IH c') as [Hs Hf]; [destruct (grants c req); lia|]. rewrite Hg.
  destruct (grants c req) eqn:E; rewrite Hv in Hf; [|done].
  assert (lastVotedTerm c < VoteReq_Term req) as Hlt.
  { unfold grants in E. rewrite !andb_true_iff, negb_true_iff, Z.leb_le, Z.eqb_neq in E. lia. }
  split; constructor; [done| |done|].
  - exact Hf.
  - eapply Forall_impl; [exact Hf|]. intros t Hlt'. cbn in *. lia.
Qed.

Lemma finish_few responded voted c :
  0 ≤ voted → 0 ≤ responded ≤ 1 → isLeader (finish_election voted responded c) = true.
Proof.
  intros Hv Hr. unfold finish_election, elected.
  destruct (Z.ltb_spec responded 1); [done|]. assert (responded = 1) as -> by lia.
  change (1 / 2) with 0. rewrite (proj2 (Z.leb_le 0 voted)) by lia. done.
Qed.
End votes.

(** ** The pipeline that stops *)

Section pipeline.
Context {J A : Type} `{JournalLaws J} `{Codec Entry}.
Context (order : gset string → list string) (order_perm : ∀ s, order s ≡ₚ elements s).
Implicit Types (c : Cluster J A) (es : list Entry).

(** the last entry in the buffer is not older than [e] *)
Definition conflicts (e : Entry) (p : Peer) : Prop :=
  ∃ l, last (buffer p) = Some l ∧ Entry_Index e ≤ Entry_Index l.

Lemma WriteToBuffer_cases e p :
  (WriteToBuffer [e] p).1 = Ok tt ∧ ¬ conflicts e p ∨ (WriteToBuffer [e] p).1 = Err ErrCorrupt ∧ conflicts e p.
Proof using.
  unfold WriteToBuffer, buffer_WriteBatch, conflicts. destruct (last (buffer p)) as [l|]; [|left; cbn; split; [done|by intros (?&?&?)]].
  destruct (Z.leb_spec (Entry_Index e) (Entry_Index l)).
  - right. cbn. split; [done|]. by exists l.
  - left. destruct (_ <? _); cbn; (split; [done|]); intros (l' & [= <-] & ?); lia.
Qed.

Lemma buffer_all_conflict uids e c :
  NoDup uids → (∀ uid, uid ∈ uids → is_Some (peers c !! uid)) →
  (∃ uid p, uid ∈ uids ∧ peers c !! uid = Some p ∧ conflicts e p) →
  ∃ m, buffer_all uids [e] c = (Err ErrCorrupt, set_peers m c).
Proof using.
  revert c. induction uids as [|u uids IH]; intros c Hnd Hdom (uid & q & Hu & Hq & Hc); [by inversion Hu|].
  apply NoDup_cons in Hnd as [Hni Hnd]. destruct (Hdom u) as [p Hp]; [by constructor|].
  cbn [buffer_all]. rewrite (bind_ok _ _ c c c) by reflexivity. unfold from_option. rewrite Hp.
  rewrite (bind_ok _ _ c p c) by reflexivity.
  pose proof (WriteToBuffer_cases e p) as Hcase. destruct (WriteToBuffer [e] p) as [r p']; cbn [fst] in Hcase.
  set (c1 := set_peers (<[u := p']> (peers c)) c). rewrite (bind_ok _ _ c tt c1) by reflexivity.
  destruct Hcase as [[-> Hno]|[-> _]].
  - rewrite (bind_ok _ _ c1 tt c1) by reflexivity.
    apply elem_of_cons in Hu as [->|Hu]; [exfalso; apply Hno; congruence|].
    destruct (IH c1 Hnd) as [m E].
    + intros v Hv. cbn. rewrite lookup_insert_ne by (by intros ->). apply Hdom. by constructor.
    + exists uid, q. split; [done|]. split; [|done]. cbn. rewrite lookup_insert_ne; [done|]. by intros ->.
    + exists m. exact E.
  - exists (<[u := p']> (peers c)). by rewrite (bind_err _ _ c1 ErrCorrupt c1) by reflexivity.
Qed.

Lemma WritePipeline_conflict e c :
  (∃ uid p, peers c !! uid = Some p ∧ conflicts e p) →
  ∃ m, WritePipeline order [e] c = (Err ErrCorrupt, set_pipeline false (set_peers m c)).
Proof using order_perm.
  intros (uid & p & Hp & Hc). destruct (buffer_all_conflict (order (dom (peers c))) e c) as [m E].
  - rewrite order_perm. apply NoDup_elements.
  - intros v. by rewrite order_perm, elem_of_elements, elem_of_dom.
  - exists uid, p. rewrite order_perm, elem_of_elements, elem_of_dom. by rewrite Hp.
  - exists m. unfold WritePipeline. by rewrite E.
Qed.
End pipeline.

(** ** Starting again *)

Section restart.
Context {J A : Type} `{JournalLaws J} `{Codec Entry}.
Context (garbled : list Z → Entry).

Definition last_term (es : list Entry) : Z := default 0 (Entry_Term <$> last es).

Lemma setInitial_ok (c : Cluster J A) (es : list Entry) :
  j_holds (wal c) (Marshal_msg <$> es) → numbered es → lastLogTerm c = 0 →
  ∃ j', setInitialTermAndIndex garbled c =
      (Ok tt, SetCurrentTerm (last_term es) (SetLastLogTerm (last_term es) (SetLastLogIndex (lenZ es) (set_wal j' c)))) ∧
    j_holds j' (Marshal_msg <$> es).
Proof.
  intros Hj Hn Ht. destruct (j_last_len (wal c) _ Hj) as (j1 & E1 & Hj1). rewrite length_fmap in E1.
  unfold setInitialTermAndIndex, last_term. destruct es as [|e0 es0] eqn:Ees.
  - exists j1. split; [|done]. etrans; [eapply bind_ok; unfold on_wal; rewrite E1; reflexivity|].
    destruct c. cbn in *. by subst.
  - rewrite <- Ees in *. assert (es ≠ []) as Hne by (by rewrite Ees).
    destruct (last es) as [e|] eqn:El; [|by apply last_None in El].
    assert (es !! (length es - 1)%nat = Some e) as He.
    { rewrite last_lookup in El. rewrite <- El. f_equal. lia. }
    pose proof (lookup_lt_Some _ _ _ He) as Hlt.
    destruct (j_read_at j1 (Marshal_msg <$> es) (length es - 1) (Marshal_msg e) Hj1) as (j2 & E2 & Hj2).
    { by rewrite list_lookup_fmap, He. }
    replace (Z.of_nat (length es - 1) + 1) with (lenZ es) in E2 by lia.
    exists j2. split; [|done]. etrans; [eapply bind_ok; unfold on_wal; rewrite E1; reflexivity|].
    rewrite (proj2 (Z.eqb_neq _ _)) by lia.
    etrans; [eapply bind_ok; unfold on_wal; cbn [wal set_wal]; rewrite E2; reflexivity|].
    rewrite unmarshal_marshal, (Hn _ _ He). cbn. by replace (Z.of_nat (length es - 1) + 1) with (lenZ es) by lia.
Qed.
End restart.

(** ** A small cluster for the witnesses *)

Section small.
Local Existing Instance bit_codec.

Definition node_wal : Type := WAL list_lru.
Definition small_entry (i t : Z) : Entry := mkEntry i t Entry_DELETE_POLICY [i] 0 0.
Definition small_es : list Entry := [small_entry 1 1; small_entry 2 1; small_entry 3 2].
Definition wal_of (es : list Entry) : node_wal :=
  (wal_run ((λ e, WWrite (Entry_Index e) (Marshal_msg e)) <$> es) (Create no_flt None ∅ 0).2).2.
Definition small_info (id : string) : RegistryInfo := mkRegistryInfo id id "addr".
Definition small_node (id other : string) (term : Z) (es b : list Entry) : Cluster node_wal (list Entry) :=
  mkCluster _ _ id {[other := mkPeer (small_info other) b 0 false]} {[other]} term (lenZ es) (last_term es)
    State_FOLLOWER false 0 true 0 "" (wal_of es) es.

Lemma small_holds k : (k ≤ 3)%nat → j_holds (wal_of (take k small_es)) (Marshal_msg <$> take k small_es).
Proof.
  intros Hk. destruct (Create_empty (C := list_lru) ∅ None 0) as (w & E & Hw & _); [intros ? ? E; by rewrite lookup_empty in E|done|].
  unfold wal_of. rewrite E.
  destruct (wal_run_refines ((λ e, WWrite (Entry_Index e) (Marshal_msg e)) <$> take k small_es) w (mkLog 1 []))
    as (w' & E' & Hw').
  - by exists [[]].
  - destruct k as [|[|[|[|k]]]]; [..|lia]; apply (bool_decide_eq_true_1 (LogSpec.allowed_run _ _)); by vm_compute.
  - cbn [snd]. rewrite E'. cbn [snd].
    assert ((LogSpec.run ((λ e, WWrite (Entry_Index e) (Marshal_msg e)) <$> take k small_es) (mkLog 1 [])).2 =
      mkLog 1 (Marshal_msg <$> take k small_es)) as Er by (by destruct k as [|[|[|[|k]]]]; [..|lia]).
    rewrite Er in Hw'. exact Hw'.
Qed.
End small.

(** ** Properties *)

Section properties.
Context {J A : Type} `{JournalLaws J} `{Codec Entry}.
Context (garbled : list Z → Entry) (apply_entry : A → Entry → A) (order : gset string → list string).
Implicit Types (c f : Cluster J A) (es : list Entry).

(** C29: when the journal holds the entries the cluster knows of and no
  peer's buffer is ahead, writing an entry succeeds: the journal ends with the new
  entry at the next index and in the current term, and the entry is the last one in
  the buffer of every peer, whatever the order the peers are visited in. *)
Theorem write_entry_replicated c es (typ : Entry_Type) (data : list Z) (now : Z) :
  (∀ s, order s ≡ₚ elements s) → synced c es → shutdown c = false → pipeline c = true → lenZ es + 2 < 2 ^ 64 →
  let e := mkEntry (lenZ es + 1) (currentTerm c) typ data now 0 in
  short e → (∀ uid p, peers c !! uid = Some p → after_buffer e (buffer p)) →
  ∃ c', writeEntry order now true typ data c = (Ok tt, c') ∧ synced c' (es ++ [e]) ∧
    lastLogTerm c' = currentTerm c ∧ peers c' = push e <$> peers c.
Proof.
  intros Ho Hs Hsh Hpl Hb e Hshort Ha.
  destruct (writeEntry_ok order Ho now typ data c es) as (j' & E & Hj'); [done..|].
  eexists. split; [exact E|]. split; [by apply (synced_snoc c es e j' Hs)|done].
Qed.

(** one round of dispatchEntries for a peer, over a working network,
  brings the follower level with the leader: if the follower's journal holds the
  first k entries of the leader's and the peer's buffer holds the others, then
  afterwards both journals hold the same entries, the follower's application has
  been given exactly the missing ones in order, and the buffer is empty.  This
  covers the three cases: nothing new, one new entry, and a follower too far behind,
  which refuses the request and is recovered from the journal one entry at a time. *)
Theorem dispatch_catches_up (uid : string) c f es (k : nat) (a : A) :
  leads c uid (drop k es) es → recovering <$> peers c !! uid = Some false →
  Forall short es → lenZ es + 2 < 2 ^ 63 → (k ≤ length es)%nat → level f (take k es) a (currentTerm c) →
  ∃ c' f', dispatch_peer garbled (serve apply_entry) uid (c, f) = (Ok tt, (c', f')) ∧
    synced c' es ∧ synced f' es ∧ app f' = foldl apply_entry a (drop k es) ∧
    buffer <$> peers c' !! uid = Some [] ∧ recovering <$> peers c' !! uid = Some false.
Proof.
  intros Hc Hr Hsh Hb Hk Hf.
  destruct (dispatch_peer_ok garbled apply_entry uid c f es k a Hc Hr Hsh Hb Hk Hf) as (c' & f' & E & Hc' & Hf' & Hr').
  exists c', f'. destruct Hc' as (Hs & _ & p & Hp & Hpb), Hf' as (Hsf & Ha & _).
  split_and!; try done. rewrite Hp. cbn. by rewrite Hpb.
Qed.

(** an entry is lost from the follower's point of view when the call
  that carries it fails: the buffer was emptied before the call.  The following
  heartbeats find the follower only one entry behind, which its check of the
  previous index accepts, and report success without sending the entry. *)
Theorem lost_entry_unnoticed (uid : string) c f es (e : Entry) (a : A) :
  leads c uid [e] (es ++ [e]) → recovering <$> peers c !! uid = Some false →
  lenZ es + 3 < 2 ^ 63 → level f es a (currentTerm c) →
  ∃ c1 c2 f2,
    dispatch_peer garbled (λ _ _ w, (None, w)) uid (c, f) = (Ok tt, (c1, f)) ∧
    dispatch_peer garbled (serve apply_entry) uid (c1, f) = (Ok tt, (c2, f2)) ∧
    synced c2 (es ++ [e]) ∧ synced f2 es ∧ app f2 = a ∧ buffer <$> peers c2 !! uid = Some [] .
Proof.
  intros Hc Hrec Hb Hf. pose proof Hc as (Hs & Hconn & p & Hp & Hpb). pose proof Hs as (_ & _ & Hl).
  assert (lenZ (es ++ [e]) = lenZ es + 1) as Hlen by (rewrite length_app; cbn; lia).
  rewrite Hp in Hrec. injection Hrec as Hrec.
  set (c1 := set_peers (alter (with_buffer []) uid (peers c)) c).
  assert (leads c1 uid [] (es ++ [e])) as Hc1 by (apply leads_alter with [e]; done).
  destruct (serve_empty apply_entry uid f es a (currentTerm c) (ID c) (i64 (lastLogIndex c) - 1))
    as (f2 & resp & E & Hok & Hf2); [done|lia|rewrite Hl, i64_small; lia|].
  exists c1, (set_peers (alter (with_buffer []) uid (peers c1)) c1), f2. split_and!.
  - unfold dispatch_peer. etrans; [eapply bind_ok; reflexivity|]. unfold Prelude.from_option. rewrite Hp.
    etrans; [eapply bind_ok; reflexivity|]. rewrite Hrec. cbn [buffer_Read]. rewrite Hpb.
    etrans; [eapply bind_ok; reflexivity|]. unfold send_entries, service_AppendEntries.
    rewrite bool_decide_true by exact Hconn. done.
  - unfold dispatch_peer. etrans; [eapply bind_ok; reflexivity|]. unfold Prelude.from_option.
    cbn [peers c1 set_peers]. rewrite lookup_alter_eq, Hp. cbn [fmap option_fmap option_map of_option].
    etrans; [eapply bind_ok; reflexivity|]. cbn [recovering with_buffer]. rewrite Hrec. cbn [buffer_Read].
    etrans; [eapply bind_ok; reflexivity|]. unfold send_entries.
    erewrite (call_serve apply_entry (set_peers (alter (with_buffer []) uid (peers c1)) c1)); [|exact Hconn|exact E].
    by rewrite Hok.
  - apply Hs.
  - apply Hf2.
  - apply Hf2.
  - cbn. by rewrite !lookup_alter_eq, Hp.
Qed.


(** when the journal refuses the entry, the write reports the error,
  puts the last index back and touches no buffer; but the term of the last entry
  stays the current term, although no entry of that term was written. *)
Theorem failed_write_keeps_term c (typ : Entry_Type) (data : list Z) (now : Z) (taken : bool) (er : journal_error) (j' : J) :
  shutdown c = false →
  j_write (u64 (lastLogIndex c + 1)) (Marshal_msg (next_entry c typ data now)) (wal c) = (Err er, j') →
  ∃ c', writeEntry order now taken typ data c = (Err (ErrJournal er), c') ∧
    lastLogIndex c' = lastLogIndex c ∧ lastLogTerm c' = currentTerm c ∧ peers c' = peers c ∧ wal c' = j'.
Proof.
  intros Hsh E. eexists. split.
  - unfold writeEntry, journal_entry. etrans; [eapply bind_ok; reflexivity|]. rewrite Hsh.
    etrans; [eapply bind_ok; reflexivity|]. etrans; [eapply bind_ok; reflexivity|].
    eapply bind_err. unfold on_wal. cbn [Entry_Index]. fold (next_entry c typ data now).
    change (wal (SetLastLogTerm (currentTerm c) (SetLastLogIndex (u64 (lastLogIndex c + 1)) c))) with (wal c).
    rewrite E. reflexivity.
  - done.
Qed.

Lemma sane_peers_spec (id uid : string) (infos : gmap string RegistryInfo) (alive : string → bool) :
  is_Some (sane_peers id infos alive !! uid) ↔ uid ≠ id ∧ alive uid = true ∧ is_Some (infos !! uid).
Proof.
  assert (uid ∈ NewControlService alive (Registry_Address <$> filter (λ kv : string * RegistryInfo, kv.1 ≠ id) infos) ↔
    uid ≠ id ∧ alive uid = true ∧ is_Some (infos !! uid)) as Hin.
  { unfold NewControlService. rewrite elem_of_dom. unfold is_Some. setoid_rewrite map_lookup_filter_Some.
    setoid_rewrite lookup_fmap_Some. setoid_rewrite map_lookup_filter_Some. cbn. split.
    - by intros (a & (i & _ & ? & ?) & ?); eauto.
    - intros (? & ? & i & ?). by eauto 10. }
  split.
  - intros [i [_ Hi]%map_lookup_filter_Some]. by apply Hin.
  - intros Hr. pose proof (proj2 Hin Hr) as Hc. destruct Hr as (_ & _ & [i Hi]). exists i. by apply map_lookup_filter_Some.
Qed.

(** the start of a registry *)
Lemma NewCluster_ok (id : string) (infos : gmap string RegistryInfo) (alive : string → bool) (j : J) (a : A) es :
  j_holds j (Marshal_msg <$> es) → numbered es →
  ∃ c, NewCluster garbled id infos alive (Ok j) true a = Ok c ∧ synced c es ∧
    currentTerm c = last_term es ∧ lastLogTerm c = last_term es ∧
    (∀ uid, is_Some (peers c !! uid) ↔ uid ≠ id ∧ alive uid = true ∧ is_Some (infos !! uid)) ∧
    (isLeader c = true ↔ peers c = ∅) ∧ lastVotedTerm c = 0 ∧ ID c = id ∧ app c = a ∧ shutdown c = false.
Proof.
  intros Hj Hn. unfold NewCluster.
  destruct (setInitial_ok garbled (mkCluster J A id ∅ ∅ 0 0 0 State_FOLLOWER false 0 true 0 "" j a) es Hj Hn eq_refl) as (j' & -> & Hj').
  eexists. split; [reflexivity|].
  assert (∀ uid, is_Some ((new_peer <$> sane_peers id infos alive) !! uid) ↔ uid ≠ id ∧ alive uid = true ∧ is_Some (infos !! uid)) as Hp.
  { intros uid. rewrite lookup_fmap, fmap_is_Some. apply sane_peers_spec. }
  case_bool_decide as Hsz; cbn; cbn in Hsz.
  - split; [by repeat split|]. split; [done|]. split; [done|]. split; [exact Hp|]. split; [|done].
    unfold isLeader. cbn. rewrite bool_decide_true by done. split; [|done]. intros _. apply map_size_empty_inv. lia.
  - split; [by repeat split|]. split; [done|]. split; [done|]. split; [exact Hp|]. split; [|done].
    unfold isLeader. cbn. split; [done|]. intros E. rewrite E, map_size_empty in Hsz. lia.
Qed.

(** a registry that starts on a journal takes its last index, and its
  last and current terms, from the last entry (zero for an empty journal), and is
  the leader exactly when none of the other registries answers. *)
Theorem cluster_restart (id : string) (infos : gmap string RegistryInfo) (alive : string → bool) (j : J) (a : A) es :
  j_holds j (Marshal_msg <$> es) → numbered es →
  ∃ c, NewCluster garbled id infos alive (Ok j) true a = Ok c ∧ synced c es ∧
    currentTerm c = last_term es ∧ lastLogTerm c = last_term es ∧
    (∀ uid, is_Some (peers c !! uid) ↔ uid ≠ id ∧ alive uid = true ∧ is_Some (infos !! uid)) ∧
    (isLeader c = true ↔ peers c = ∅) ∧ lastVotedTerm c = 0.
Proof.
  intros Hj Hn. destruct (NewCluster_ok id infos alive j a es Hj Hn) as (c & E & Hs & Ht & Hl & Hp & Hlead & Hv & _).
  exists c. by split_and!.
Qed.

(** a batch from the leader whose indexes do not grow is refused
  before anything happens; the check passes exactly the strictly growing batches. *)
Theorem batch_sequence_checked c (entries : list Entry) :
  (validateEntriesSequence entries = Ok tt ↔ StronglySorted (λ e1 e2, Entry_Index e1 < Entry_Index e2) entries) ∧
  (¬ StronglySorted (λ e1 e2, Entry_Index e1 < Entry_Index e2) entries →
    WriteEntriesFromLeader (handler apply_entry) entries c = (Err ErrCorrupt, c)).
Proof.
  assert (∀ l, validateEntriesSequence l = Ok tt ∨ validateEntriesSequence l = Err ErrCorrupt) as Hcases.
  { intros l. induction l as [|e1 [|e2 l] IH]; [by left..|]. cbn. destruct (_ <=? _); [by right|done]. }
  assert (∀ l, validateEntriesSequence l = Ok tt ↔ StronglySorted (λ e1 e2, Entry_Index e1 < Entry_Index e2) l) as Hs.
  { intros l. induction l as [|e1 [|e2 l] IH]; [by repeat constructor|by repeat constructor|].
    cbn [validateEntriesSequence]. destruct (Z.leb_spec (Entry_Index e2) (Entry_Index e1)) as [Hle|Hlt].
    - split; [done|]. intros HS. apply StronglySorted_inv in HS as [_ HS].
      apply Forall_cons in HS as [HS _]. lia.
    - rewrite IH. split; [|by intros [HS _]%StronglySorted_inv].
      intros HS. constructor; [done|]. apply StronglySorted_inv in HS as [_ HS]. constructor; [done|].
      eapply Forall_impl; [exact HS|]. intros x Hx. cbn in *. lia. }
  split; [apply Hs|]. intros Hns. unfold WriteEntriesFromLeader.
  destruct (Hcases entries) as [E|E]; [by apply Hs in E|]. rewrite E. done.
Qed.
End properties.

Section vote_properties.
Context {J A : Type} `{Journal J} `{Codec Entry}.
Context (garbled : list Z → Entry) (apply_entry : A → Entry → A) (order : gset string → list string).
Implicit Types (a b c f : Cluster J A).

(** C28: over any sequence of vote requests the terms a node grants its
  vote in grow strictly, so it votes at most once per term, as long as nothing
  else lowers its term; each answer is a grant exactly when the request is of a
  term not below the node's, in which it has not voted last, from a log not shorter
  and not of a lower term. *)
Theorem vote_once_per_term c (reqs : list RequestVoteRequest) :
  lastVotedTerm c ≤ currentTerm c →
  StronglySorted Z.lt (granted_terms reqs c) ∧
  ∀ req, VoteResp_VoteGranted (RequestVote req c).1 = true ↔
    currentTerm c ≤ VoteReq_Term req ∧ lastVotedTerm c ≠ VoteReq_Term req ∧
    lastLogIndex c ≤ VoteReq_LastLogIndex req ∧ lastLogTerm c ≤ VoteReq_LastLogTerm req.
Proof.
  intros Hc. split; [by apply granted_terms_sorted|]. intros req. rewrite RequestVote_grants.
  unfold grants. rewrite !andb_true_iff, negb_true_iff, !Z.leb_le, Z.eqb_neq. tauto.
Qed.

(** a candidate's request carries its current term as the term of
  its last entry, so a voter whose own last term is not above its current term
  never refuses a candidate for an older log: it grants its vote to any candidate
  of a term not below its own and an index not below its own, whatever the term of
  the candidate's last entry. *)
Theorem log_term_never_refuses c f :
  lastLogTerm f ≤ currentTerm f →
  ∀ t, VoteResp_VoteGranted (RequestVote (vote_request (SetLastLogTerm t c)) f).1 = true ↔
    currentTerm f ≤ currentTerm c ∧ lastVotedTerm f ≠ currentTerm c ∧ lastLogIndex f ≤ lastLogIndex c.
Proof.
  intros Hf t. rewrite RequestVote_grants. unfold grants, vote_request. cbn.
  rewrite !andb_true_iff, negb_true_iff, !Z.leb_le, Z.eqb_neq. intuition lia.
Qed.

(** a request to append an entry beyond the log lowers the term of
  the node that refuses it for its lower term.  The node then votes in that lower
  term, and after that again in the term it had voted in before. *)
Theorem lowered_term_votes_twice f (req : AppendEntriesRequest) (e : Entry) (v1 v2 : RequestVoteRequest) :
  last (AppendReq_Entries req) = Some e → lastLogIndex f < Entry_Index e →
  AppendReq_Term req < currentTerm f → lastVotedTerm f = currentTerm f →
  VoteReq_Term v1 = AppendReq_Term req → VoteReq_Term v2 = currentTerm f →
  lastLogIndex f ≤ VoteReq_LastLogIndex v1 → lastLogTerm f ≤ VoteReq_LastLogTerm v1 →
  lastLogIndex f ≤ VoteReq_LastLogIndex v2 → lastLogTerm f ≤ VoteReq_LastLogTerm v2 →
  ∃ f1 resp, AppendEntries (handler apply_entry) req f = (Some resp, f1) ∧ AppendResp_Success resp = false ∧
    currentTerm f1 = AppendReq_Term req ∧ isFollower f1 = true ∧
    VoteResp_VoteGranted (RequestVote v1 f1).1 = true ∧
    VoteResp_VoteGranted (RequestVote v2 (RequestVote v1 f1).2).1 = true.
Proof.
  intros He Hi Ht Hv H1 H2 Hi1 Ht1 Hi2 Ht2.
  unfold AppendEntries. rewrite He, (proj2 (Z.ltb_lt _ (Entry_Index e))), orb_true_r by done.
  rewrite (proj2 (Z.ltb_lt _ _)) by done. eexists. eexists. split; [reflexivity|].
  split; [done|]. split; [done|]. split; [done|].
  set (f1 := set_votedFor "" (SetCurrentTerm (AppendReq_Term req) (becomeFollower f))).
  assert (grants f1 v1 = true) as Hg1.
  { unfold grants. cbn. rewrite !andb_true_iff, negb_true_iff, !Z.leb_le, Z.eqb_neq. lia. }
  assert (currentTerm (RequestVote v1 f1).2 = AppendReq_Term req ∧ lastVotedTerm (RequestVote v1 f1).2 = AppendReq_Term req ∧
    lastLogIndex (RequestVote v1 f1).2 = lastLogIndex f ∧ lastLogTerm (RequestVote v1 f1).2 = lastLogTerm f) as (E1 & E2 & E3 & E4).
  { destruct (RequestVote_terms v1 f1) as [-> ->]. rewrite Hg1. cbn. split; [lia|]. split; [done|].
    unfold RequestVote. destruct (_ <? _); cbn; repeat (destruct (_ <? _); cbn; [done|]);
      repeat (destruct (_ =? _); cbn; try done); by repeat (destruct (_ <? _); cbn; try done). }
  split; rewrite RequestVote_grants; [exact Hg1|]. unfold grants. rewrite E1, E2, E3, E4.
  rewrite !andb_true_iff, negb_true_iff, !Z.leb_le, Z.eqb_neq. lia.
Qed.

(** C19: in a cluster of two, when both nodes time out in the same term
  before either hears from the other, both become leaders of the next term, whatever
  they answer each other: one answer is enough to be elected, a refusal included. *)
Theorem two_leaders_one_term a b :
  currentTerm a = currentTerm b → in_u32 (currentTerm a + 1) →
  let a1 := begin_election a in
  let b1 := begin_election b in
  let '(rb, b2) := RequestVote (vote_request a1) b1 in
  let '(ra, a2) := RequestVote (vote_request b1) a1 in
  let a3 := finish_election (Z.b2z (VoteResp_VoteGranted rb)) 1 a2 in
  let b3 := finish_election (Z.b2z (VoteResp_VoteGranted ra)) 1 b2 in
  isLeader a3 = true ∧ isLeader b3 = true ∧ currentTerm a3 = currentTerm a + 1 ∧ currentTerm b3 = currentTerm a + 1.
Proof.
  intros Hab Hu a1 b1.
  destruct (RequestVote_terms (vote_request a1) b1) as [Hb _]. destruct (RequestVote_terms (vote_request b1) a1) as [Ha _].
  destruct (RequestVote (vote_request a1) b1) as [rb b2], (RequestVote (vote_request b1) a1) as [ra a2]; cbn [snd] in *.
  assert (∀ (g : Cluster J A) v, currentTerm (finish_election v 1 g) = currentTerm g) as Hfin.
  { intros g v. unfold finish_election. by destruct (elected v 1). }
  cbn zeta. rewrite !Hfin, Ha, Hb. unfold a1, b1, begin_election. cbn. rewrite <- Hab, u32_small, Z.max_id by done.
  split; [|split; [|done]]; apply finish_few; try lia; match goal with |- context [Z.b2z ?v] => by destruct v end.
Qed.
End vote_properties.

(** ** The properties on small clusters *)

Section witnesses.
Local Existing Instance bit_codec.

Definition note (a : list Entry) (e : Entry) : list Entry := a ++ [e].
Definition no_entry (_ : list Z) : Entry := mkEntry 0 0 Entry_ASSIGN_FILE [] 0 0.
Definition by_name : gset string → list string := elements.

Lemma by_name_perm s : by_name s ≡ₚ elements s.
Proof. done. Qed.

Lemma small_numbered k : numbered (take k small_es).
Proof. apply numbered_take. intros i e. destruct i as [|[|[|i]]]; by intros [= <-]. Qed.

Lemma small_short : Forall short small_es.
Proof. repeat constructor; by vm_compute. Qed.

Lemma small_synced id other t k b : (k ≤ 3)%nat → synced (small_node id other t (take k small_es) b) (take k small_es).
Proof. intros Hk. split; [by apply small_holds|]. split; [apply small_numbered|done]. Qed.

Lemma write_entry_replicated_witness :
  let c := small_node "a" "b" 2 (take 2 small_es) [] in
  let e := mkEntry 3 2 Entry_DELETE_POLICY [9] 0 0 in
  ∃ c', writeEntry by_name 0 true Entry_DELETE_POLICY [9] c = (Ok tt, c') ∧ synced c' (take 2 small_es ++ [e]) ∧
    lastLogTerm c' = 2 ∧ peers c' = push e <$> peers c.
Proof.
  intros c e. apply (write_entry_replicated by_name c (take 2 small_es) Entry_DELETE_POLICY [9] 0).
  - exact by_name_perm.
  - apply (small_synced "a" "b" 2 2). lia.
  - done.
  - done.
  - by vm_compute.
  - split; by vm_compute.
  - intros uid p Hp. unfold c in Hp. cbn in Hp. apply lookup_singleton_Some in Hp as [_ <-]. by intros l [=].
Defined.

Lemma dispatch_catches_up_witness :
  let c := small_node "a" "b" 2 (take 3 small_es) (drop 1 small_es) in
  let f := small_node "b" "a" 1 (take 1 small_es) [] in
  ∃ c' f', dispatch_peer no_entry (serve note) "b" (c, f) = (Ok tt, (c', f')) ∧
    synced c' (take 3 small_es) ∧ synced f' (take 3 small_es) ∧ app f' = foldl note (take 1 small_es) (drop 1 small_es) ∧
    buffer <$> peers c' !! "b" = Some [] ∧ recovering <$> peers c' !! "b" = Some false.
Proof.
  intros c f. apply (dispatch_catches_up no_entry note "b" c f (take 3 small_es) 1 (take 1 small_es)).
  - split; [apply (small_synced "a" "b" 2 3); lia|]. split; [set_solver|]. eexists. split; [apply lookup_singleton_eq|done].
  - done.
  - exact small_short.
  - by vm_compute.
  - vm_compute. lia.
  - split; [apply (small_synced "b" "a" 1 1); lia|]. split; [done|]. split; [by vm_compute|vm_compute; lia].
Defined.

Lemma lost_entry_unnoticed_witness :
  let c := small_node "a" "b" 2 (take 3 small_es) [small_entry 3 2] in
  let f := small_node "b" "a" 1 (take 2 small_es) [] in
  ∃ c1 c2 f2,
    dispatch_peer no_entry (λ _ _ w, (None, w)) "b" (c, f) = (Ok tt, (c1, f)) ∧
    dispatch_peer no_entry (serve note) "b" (c1, f) = (Ok tt, (c2, f2)) ∧
    synced c2 (take 2 small_es ++ [small_entry 3 2]) ∧ synced f2 (take 2 small_es) ∧ app f2 = take 2 small_es ∧
    buffer <$> peers c2 !! "b" = Some [].
Proof.
  intros c f. apply (lost_entry_unnoticed no_entry note "b" c f (take 2 small_es) (small_entry 3 2) (take 2 small_es)).
  - split; [apply (small_synced "a" "b" 2 3); lia|]. split; [set_solver|]. eexists. split; [apply lookup_singleton_eq|done].
  - done.
  - by vm_compute.
  - split; [apply (small_synced "b" "a" 1 2); lia|]. split; [done|]. split; [by vm_compute|vm_compute; lia].
Defined.


Lemma cluster_restart_witness :
  ∃ c, NewCluster no_entry "a" {["a" := small_info "a"; "b" := small_info "b"]} (λ _, true) (Ok (wal_of (take 3 small_es))) true (take 3 small_es) = Ok c ∧
    synced c (take 3 small_es) ∧ currentTerm c = 2 ∧ lastLogTerm c = 2 ∧
    (∀ uid, is_Some (peers c !! uid) ↔ uid ≠ "a" ∧ true = true ∧ is_Some (({["a" := small_info "a"; "b" := small_info "b"]} : gmap string RegistryInfo) !! uid)) ∧
    (isLeader c = true ↔ peers c = ∅) ∧ lastVotedTerm c = 0.
Proof.
  apply (cluster_restart no_entry "a" _ (λ _, true) (wal_of (take 3 small_es)) (take 3 small_es) (take 3 small_es)).
  - apply small_holds. lia.
  - apply small_numbered.
Defined.

Lemma batch_sequence_checked_witness :
  (validateEntriesSequence small_es = Ok tt ↔ StronglySorted (λ e1 e2, Entry_Index e1 < Entry_Index e2) small_es) ∧
  (¬ StronglySorted (λ e1 e2, Entry_Index e1 < Entry_Index e2) small_es →
    WriteEntriesFromLeader (handler note) small_es (small_node "a" "b" 2 [] []) = (Err ErrCorrupt, small_node "a" "b" 2 [] [])).
Proof. apply (batch_sequence_checked note (small_node "a" "b" 2 [] []) small_es). Defined.

Lemma vote_once_per_term_witness :
  let c := small_node "a" "b" 2 (take 2 small_es) [] in
  StronglySorted Z.lt (granted_terms [mkVoteReq 3 "b" 2 3; mkVoteReq 3 "d" 5 3; mkVoteReq 4 "d" 5 3] c) ∧
  ∀ req, VoteResp_VoteGranted (RequestVote req c).1 = true ↔
    2 ≤ VoteReq_Term req ∧ 0 ≠ VoteReq_Term req ∧ 2 ≤ VoteReq_LastLogIndex req ∧ 1 ≤ VoteReq_LastLogTerm req.
Proof.
  intros c. apply (vote_once_per_term c [mkVoteReq 3 "b" 2 3; mkVoteReq 3 "d" 5 3; mkVoteReq 4 "d" 5 3]). by vm_compute.
Defined.

Lemma log_term_never_refuses_witness :
  let c := small_node "a" "b" 5 (take 2 small_es) [] in
  let f := small_node "b" "a" 2 (take 2 small_es) [] in
  VoteResp_VoteGranted (RequestVote (vote_request (SetLastLogTerm 0 c)) f).1 = true ↔ 2 ≤ 5 ∧ 0 ≠ 5 ∧ 2 ≤ 2.
Proof.
  intros c f. apply (log_term_never_refuses c f). by vm_compute.
Defined.

Lemma lowered_term_votes_twice_witness :
  let f := set_lastVotedTerm 5 (small_node "b" "a" 5 (take 2 small_es) []) in
  ∃ f1 resp, AppendEntries (handler note) (mkAppendReq 3 "a" 2 0 [small_entry 3 3] true) f = (Some resp, f1) ∧
    AppendResp_Success resp = false ∧ currentTerm f1 = 3 ∧ isFollower f1 = true ∧
    VoteResp_VoteGranted (RequestVote (mkVoteReq 3 "a" 3 3) f1).1 = true ∧
    VoteResp_VoteGranted (RequestVote (mkVoteReq 5 "d" 2 5) (RequestVote (mkVoteReq 3 "a" 3 3) f1).2).1 = true.
Proof.
  intros f. apply (lowered_term_votes_twice note f (mkAppendReq 3 "a" 2 0 [small_entry 3 3] true) (small_entry 3 3)
    (mkVoteReq 3 "a" 3 3) (mkVoteReq 5 "d" 2 5)); by vm_compute.
Defined.

Lemma two_leaders_one_term_witness :
  let a1 := begin_election (small_node "a" "b" 2 (take 2 small_es) []) in
  let b1 := begin_election (small_node "b" "a" 2 (take 2 small_es) []) in
  let '(rb, b2) := RequestVote (vote_request a1) b1 in
  let '(ra, a2) := RequestVote (vote_request b1) a1 in
  let a3 := finish_election (Z.b2z (VoteResp_VoteGranted rb)) 1 a2 in
  let b3 := finish_election (Z.b2z (VoteResp_VoteGranted ra)) 1 b2 in
  isLeader a3 = true ∧ isLeader b3 = true ∧ currentTerm a3 = 3 ∧ currentTerm b3 = 3.
Proof.
  apply (two_leaders_one_term (small_node "a" "b" 2 (take 2 small_es) []) (small_node "b" "a" 2 (take 2 small_es) [])).
  - done.
  - split; by vm_compute.
Defined.

(** a journal whose next input/output operation fails *)
Definition broken_journal : Journal node_wal := wal_journal (once (ticks (wal_of (take 2 small_es))) 0).

Lemma failed_write_keeps_term_witness :
  let c := small_node "a" "b" 7 (take 2 small_es) [] in
  ∃ j' c', @writeEntry _ _ broken_journal _ by_name 0 true Entry_DELETE_POLICY [9] c = (Err (ErrJournal ErrIO), c') ∧
    lastLogIndex c' = lastLogIndex c ∧ lastLogTerm c' = 7 ∧ peers c' = peers c ∧ wal c' = j'.
Proof.
  intros c.
  assert ((@j_write _ broken_journal (u64 (lastLogIndex c + 1)) (Marshal_msg (next_entry c Entry_DELETE_POLICY [9] 0)) (wal c)).1
    = Err ErrIO) as E by (by vm_compute).
  destruct (@j_write _ broken_journal _ _ (wal c)) as [r j'] eqn:Ej. exists j'. cbn [fst] in E. rewrite E in Ej.
  exact (@failed_write_keeps_term _ _ broken_journal _ by_name c Entry_DELETE_POLICY [9] 0 true ErrIO j' eq_refl Ej).
Defined.
End witnesses.
