(* ===== verification/Network.v ===== *)
(** * A leader and its followers over a network that loses messages

    The cluster of [Cluster] as one transition system: the leader writes entries
    and runs rounds of [dispatchEntries], every call is delivered, or its request
    or its response is lost, and followers restart from their journals.  Entries
    are lost on the way, and a peer's buffer misses those that timed out; still
    each follower holds a prefix of the leader's journal, and a round that is
    delivered brings it level, except for one case that the last theorem shows. *)

From stdpp Require Import relations.
From S2P Require Import Prelude Messages Wal WalCodec WalInv WalOpen WalSpec Journal Cluster ClusterSpec.

(** what becomes of a call *)
Inductive fate := Delivered | RequestLost | ResponseLost.

(** the followers, and the fates of the calls to come; the later ones are delivered *)
Record net {J A : Type} := mkNet {
  followers : gmap string (Cluster J A);
  fates : list fate;
}.
Arguments net J A : clear implicits.

Section network.
Context {J A : Type} `{JournalLaws J} `{Codec Entry}.
Context (garbled : list Z → Entry) (apply_entry : A → Entry → A) (order : gset string → list string).
(** what the application starts with *)
Context (a0 : A).
Local Abbreviation C := (Cluster J A).
Implicit Types (c f : C) (w : net J A) (es : list Entry).

Definition next_fate w : fate := match fates w with [] => Delivered | x :: _ => x end.

Definition lossy (uid : string) (req : AppendEntriesRequest) (w : net J A) : option AppendEntriesResponse * net J A :=
  match followers w !! uid with
  | None => (None, mkNet J A (followers w) (drop 1 (fates w)))
  | Some f =>
      match next_fate w with
      | RequestLost => (None, mkNet J A (followers w) (drop 1 (fates w)))
      | x =>
          let '(r, f') := serve (J := J) apply_entry uid req f in
          (if x is Delivered then r else None, mkNet J A (<[uid := f']> (followers w)) (drop 1 (fates w)))
      end
  end.

(** the steps of the system; a write may time out ([taken]), a round meets any
    losses, and a registry that starts again finds its journal and its storage *)
Inductive net_step : C * net J A → C * net J A → Prop :=
| net_write now taken typ data r c c' w :
    short (next_entry c typ data now) → lastLogIndex c + 3 < 2 ^ 63 →
    writeEntry order now taken typ data c = (r, c') →
    net_step (c, w) (c', w)
| net_dispatch uid lost r c c' w w' : is_Some (followers w !! uid) →
    dispatch_peer garbled lossy uid (c, mkNet J A (followers w) lost) = (r, (c', w')) →
    net_step (c, w) (c', w')
| net_restart uid infos alive f f' c w : followers w !! uid = Some f →
    NewCluster garbled uid infos alive (Ok (wal f)) true (app f) = Ok f' →
    net_step (c, w) (c, mkNet J A (<[uid := f']> (followers w)) (fates w)).

(** ** The invariant *)

Definition replayed (es : list Entry) : A := foldl apply_entry a0 es.

(** the follower [f] holds the first [k] entries, and what the leader buffers for
    it are some of the others, in their order *)
Record held c f (uid : string) es (k : nat) : Prop := {
  held_level : level f (take k es) (replayed (take k es)) (currentTerm c);
  held_le : (k ≤ length es)%nat;
  held_conn : uid ∈ conns c;
  held_peer : ∃ p, peers c !! uid = Some p ∧ recovering p = false ∧ buffer p `sublist_of` drop k es;
}.

Record net_inv c w es : Prop := {
  inv_synced : synced c es;
  inv_short : Forall short es;
  inv_room : lenZ es + 2 < 2 ^ 63;
  inv_terms : Forall (λ e, Entry_Term e ≤ currentTerm c) es;
  inv_peers : ∀ uid, is_Some (peers c !! uid) → is_Some (followers w !! uid);
  inv_held : ∀ uid f, followers w !! uid = Some f → ∃ k, held c f uid es k;
}.

(** what a call to [uid] leaves as it is *)
Record kept (uid : string) c c' : Prop := {
  kept_conns : conns c' = conns c;
  kept_term : currentTerm c' = currentTerm c;
  kept_ID : ID c' = ID c;
  kept_app : app c' = app c;
  kept_on : shutdown c' = shutdown c;
  kept_pipeline : pipeline c' = pipeline c;
  kept_peers : ∀ v, v ≠ uid → peers c' !! v = peers c !! v;
}.

Lemma kept_refl uid c : kept uid c c.
Proof using. by split. Qed.
Lemma kept_trans uid c1 c2 c3 : kept uid c1 c2 → kept uid c2 c3 → kept uid c1 c3.
Proof using.
  intros [c12 t12 i12 a12 s12 l12 p12] [c23 t23 i23 a23 s23 l23 p23]. split; [congruence..|]. intros v Hv. by rewrite p23, p12.
Qed.
Lemma kept_wal uid j c : kept uid c (set_wal j c).
Proof using. by split. Qed.
Lemma kept_alter uid g c : kept uid c (set_peers (alter g uid (peers c)) c).
Proof using. split; [done..|]. intros v Hv. cbn. by rewrite lookup_alter_ne. Qed.

(** ** Calls *)

(** [serve] answers with [resp] and leaves the first [k'] entries *)
Lemma lossy_serve uid req w f resp f' :
  followers w !! uid = Some f → serve apply_entry uid req f = (Some resp, f') →
  ∃ r f1, lossy uid req w = (r, mkNet J A (<[uid := f1]> (followers w)) (drop 1 (fates w))) ∧
    (f1 = f ∧ r = None ∨ f1 = f' ∧ (r = Some resp ∨ r = None)) ∧
    (fates w = [] → r = Some resp ∧ f1 = f').
Proof using.
  intros Hf E. unfold lossy, next_fate. rewrite Hf, E. destruct (fates w) as [|[]]; cbn [drop].
  - exists (Some resp), f'. split_and!; auto.
  - exists (Some resp), f'. split_and!; auto; done.
  - exists None, f. rewrite insert_id by done. split_and!; auto; done.
  - exists None, f'. split_and!; auto; done.
Qed.

Lemma length_take_le k es : (k ≤ length es)%nat → lenZ (take k es) = Z.of_nat k.
Proof using. intros Hk. rewrite length_take. lia. Qed.

Lemma serve_next uid f es k e t lid :
  level f (take k es) (replayed (take k es)) t → numbered es → Forall short es → lenZ es + 2 < 2 ^ 63 →
  es !! k = Some e → ∀ prev, prev ≤ Z.of_nat k →
  ∃ f' resp, serve apply_entry uid (mkAppendReq t lid prev 0 [e] true) f = (Some resp, f') ∧
    AppendResp_Success resp = true ∧ level f' (take (S k) es) (replayed (take (S k) es)) t.
Proof.
  intros Hf Hn Hsh Hb He prev Hprev. pose proof (lookup_lt_Some _ _ _ He) as Hlt.
  pose proof (length_take_le k es ltac:(lia)) as Hlk.
  destruct (serve_one apply_entry uid f (take k es) (replayed (take k es)) e t lid prev) as (f' & resp & E & Hok & Hf'); [done| | |lia|lia|].
  - rewrite Hlk. by apply Hn.
  - by eapply Forall_lookup_1.
  - exists f', resp. split; [done|]. split; [done|]. rewrite (take_S_r _ _ _ He).
    unfold replayed in *. by rewrite foldl_app.
Qed.

(** a follower one entry behind, or level, can only be sent what it misses *)
Lemma sublist_last b es k : b `sublist_of` drop k es → (length es ≤ S k)%nat → b ≠ [] →
  ∃ e, b = [e] ∧ es !! k = Some e ∧ length es = S k.
Proof using.
  intros Hb Hk Hne. pose proof (sublist_length _ _ Hb) as Hl. rewrite length_drop in Hl.
  destruct b as [|e b]; [done|]. cbn in Hl.
  destruct (lookup_lt_is_Some_2 es k) as [e' He]; [lia|]. rewrite (drop_S _ _ _ He), drop_ge in Hb by lia.
  apply sublist_cons_r in Hb as [Hb%sublist_nil_r|(l & [= -> ->] & ->%sublist_nil_r)]; [done|].
  exists e'. split_and!; [done..|lia].
Qed.

(** the request of a round: it is refused by a follower that is more than one
    entry behind, and otherwise brings it level, unless there is nothing in it *)
Lemma serve_round uid f es k b t lid :
  level f (take k es) (replayed (take k es)) t → numbered es → Forall short es → lenZ es + 2 < 2 ^ 63 →
  (k ≤ length es)%nat → b `sublist_of` drop k es →
  ∃ f' resp k', serve apply_entry uid (mkAppendReq t lid (lenZ es - 1) 0 b true) f = (Some resp, f') ∧
    level f' (take k' es) (replayed (take k' es)) t ∧ (k ≤ k' ≤ length es)%nat ∧
    if AppendResp_Success resp then k' = length es ∨ k' = k ∧ length es = S k ∧ b = []
    else k' = k ∧ AppendResp_LastCommittedIndex resp = Z.of_nat k.
Proof.
  intros Hf Hn Hsh Hroom Hk Hb. pose proof (length_take_le k es Hk) as Hlk.
  destruct (decide (S k < length es)%nat) as [Hfar|Hnear].
  - destruct (serve_ahead apply_entry uid f (take k es) _ t lid (lenZ es - 1) b Hf) as (f' & resp & E & Hno & Hlast & Hf'); [lia|lia|].
    exists f', resp, k. rewrite Hno, Hlast. split_and!; try done; lia.
  - destruct (decide (b = [])) as [->|Hne].
    + destruct (serve_empty apply_entry uid f (take k es) _ t lid (lenZ es - 1) Hf) as (f' & resp & E & Hok & Hf'); [lia|lia|].
      exists f', resp, k. rewrite Hok. split_and!; try done; try lia.
      destruct (decide (k = length es)); [by left|right; split_and!; [done|lia|done]].
    + destruct (sublist_last b es k Hb ltac:(lia) Hne) as (e & -> & He & Hlen).
      destruct (serve_next uid f es k e t lid Hf Hn Hsh Hroom He (lenZ es - 1) ltac:(lia)) as (f' & resp & E & Hok & Hf').
      exists f', resp, (S k). rewrite Hok. split_and!; try done; lia.
Qed.

(** the service with the network below it *)
Lemma service_lossy uid req c w f resp f' :
  uid ∈ conns c → followers w !! uid = Some f → serve apply_entry uid req f = (Some resp, f') →
  ∃ r f1, service_AppendEntries lossy uid req (c, w) =
      (of_option r (Err ErrCall), (c, mkNet J A (<[uid := f1]> (followers w)) (drop 1 (fates w)))) ∧
    (f1 = f ∧ r = None ∨ f1 = f' ∧ (r = Some resp ∨ r = None)) ∧
    (fates w = [] → r = Some resp ∧ f1 = f').
Proof using.
  intros Hc Hf E. destruct (lossy_serve uid req w f resp f' Hf E) as (r & f1 & El & Hr). exists r, f1. split; [|exact Hr].
  unfold service_AppendEntries. by rewrite bool_decide_true, El by exact Hc.
Qed.

Lemma recover_lossy n uid b es t : numbered es → Forall short es → lenZ es + 2 < 2 ^ 63 → ∀ k c w f,
  (k + n = length es)%nat → leads c uid b es → followers w !! uid = Some f →
  level f (take k es) (replayed (take k es)) t →
  ∃ r c' w' f' k', recover_loop garbled lossy n uid (Z.of_nat k + 1) t (c, w) = (r, (c', w')) ∧
    followers w' = <[uid := f']> (followers w) ∧ leads c' uid b es ∧ kept uid c c' ∧
    level f' (take k' es) (replayed (take k' es)) t ∧ (k ≤ k' ≤ length es)%nat ∧
    r ≠ Panic ∧ (fates w = [] → r = Ok tt ∧ k' = length es).
Proof.
  intros Hn Hsh Hroom. induction n as [|n IH]; intros k c w f Hk Hc Hfo Hf.
  { exists (Ok tt), c, w, f, k. rewrite insert_id by done. split_and!; try done; try lia. intros _. split; [done|lia]. }
  destruct (lookup_lt_is_Some_2 es k) as [e He]; [lia|].
  pose proof Hc as (Hs & Hconn & _).
  destruct (run_wal_read c es k e Hs He) as (j1 & E1 & Hj1).
  destruct (serve_next uid f es k e t (ID c) Hf Hn Hsh Hroom He (i64 (Z.of_nat k + 1 - 1))) as (f1 & resp & E2 & Hok & Hf1).
  { rewrite i64_small; lia. }
  destruct (service_lossy uid _ (set_wal j1 c) w f resp f1 Hconn Hfo E2) as (r & f2 & E3 & Hcase & Hdel).
  pose proof (leads_set_wal c uid b es j1 Hc Hj1) as Hc1.
  set (w1 := mkNet J A _ _) in E3.
  assert (∃ k2, level f2 (take k2 es) (replayed (take k2 es)) t ∧ (k ≤ k2 ≤ length es)%nat ∧ (r = Some resp → k2 = S k)) as (k2 & Hf2 & Hk2 & Hr2).
  { destruct Hcase as [[-> ->]|[-> _]]; [exists k|exists (S k)]; (split; [done|]); (split; [lia|done]). }
  cbn [recover_loop]. rewrite (bind_ok _ _ (c, w) (Marshal_msg e) (set_wal j1 c, w)) by (unfold on_cluster; by rewrite E1).
  cbv zeta. rewrite unmarshal_marshal, (bind_ok _ _ (set_wal j1 c, w) (set_wal j1 c) (set_wal j1 c, w)) by done.
  destruct r as [resp'|].
  - assert (resp' = resp) as -> by (destruct Hcase as [[_ Hr]|[_ [[= ->]|[=]]]]; done).
    rewrite (bind_ok _ _ _ _ _ E3), Hok. cbn [negb guard_err]. rewrite (Hr2 eq_refl) in *.
    rewrite (bind_ok _ _ (set_wal j1 c, w1) tt (set_wal j1 c, w1)) by done.
    set (c1 := set_peers (alter (SetLastCommittedIndex (Z.of_nat k + 1)) uid (peers (set_wal j1 c))) (set_wal j1 c)).
    rewrite (bind_ok _ _ (set_wal j1 c, w1) tt (c1, w1)) by done.
    destruct (IH (S k) c1 w1 f2) as (r' & c' & w' & f' & k' & E & Hfo' & Hc' & Hkc & Hf' & Hk' & Hnp & Hdel'); [lia| | |done|].
    { by apply leads_alter with b. }
    { cbn. apply lookup_insert_eq. }
    exists r', c', w', f', k'. split_and!; try done; try lia.
    + rewrite <- E. f_equal. lia.
    + rewrite Hfo'. cbn. apply insert_insert_eq.
    + eapply kept_trans; [|exact Hkc]. apply kept_trans with (set_wal j1 c); [apply kept_wal|apply kept_alter].
    + intros Hw. apply Hdel'. cbn. by rewrite Hw.
  - rewrite (bind_err _ _ _ _ _ E3). exists (Err ErrCall), (set_wal j1 c), w1, f2, k2. split_and!; try done; try lia. intros Hw. by destruct (Hdel Hw).
Qed.

(** ** The steps keep the invariant *)

Lemma recovering_lossy uid c w f b es k :
  leads c uid b es → followers w !! uid = Some f → Forall short es → lenZ es + 2 < 2 ^ 63 → (k ≤ length es)%nat →
  level f (take k es) (replayed (take k es)) (currentTerm c) →
  ∃ r c' w' f' k', startLogRecovering garbled lossy uid (Z.of_nat k) (c, w) = (r, (c', w')) ∧
    followers w' = <[uid := f']> (followers w) ∧ leads c' uid b es ∧ kept uid c c' ∧
    recovering <$> peers c' !! uid = Some false ∧
    level f' (take k' es) (replayed (take k' es)) (currentTerm c) ∧ (k ≤ k' ≤ length es)%nat ∧
    r ≠ Panic ∧ (fates w = [] → r = Ok tt ∧ k' = length es).
Proof.
  intros Hc Hfo Hsh Hroom Hk Hf. pose proof Hc as ((_ & Hn & Hl) & _ & p & Hp & _).
  set (c1 := set_peers (alter (SetRecovering true) uid (peers c)) c).
  assert (leads c1 uid b es) as Hc1 by (apply leads_alter with b; done).
  destruct (recover_lossy (length es - k) uid b es (currentTerm c) Hn Hsh Hroom k c1 w f)
    as (r & c2 & w2 & f2 & k2 & E & Hfo2 & Hc2 & Hkc & Hf2 & Hk2 & Hnp & Hdel); [lia|done..|].
  set (c3 := set_peers (alter (SetRecovering false) uid (peers c2)) c2).
  exists r, c3, w2, f2, k2. split_and!; [|done| | | |done|lia|lia|done|done].
  - unfold startLogRecovering. rewrite Hp, (u64_small (Z.of_nat k + 1)) by (unfold in_u64; lia).
    replace (Z.to_nat (lastLogIndex c + 1 - (Z.of_nat k + 1))) with (length es - k)%nat by lia.
    rewrite (bind_ok _ _ (c, w) tt (c1, w)), E by done. done.
  - by apply leads_alter with b.
  - eapply kept_trans; [|apply kept_alter]. eapply kept_trans; [apply kept_alter|exact Hkc].
  - destruct Hc2 as (_ & _ & p2 & Hp2 & _). unfold c3. cbn. by rewrite lookup_alter_eq, Hp2.
Qed.

Lemma dispatch_lossy uid c w f es k : synced c es → Forall short es → lenZ es + 2 < 2 ^ 63 →
  followers w !! uid = Some f → held c f uid es k →
  ∃ c' w' f' k', dispatch_peer garbled lossy uid (c, w) = (Ok tt, (c', w')) ∧
    followers w' = <[uid := f']> (followers w) ∧ synced c' es ∧ kept uid c c' ∧ held c' f' uid es k' ∧ (k ≤ k')%nat ∧
    (fates w = [] → k' = length es ∨ k' = k ∧ length es = S k ∧ buffer <$> peers c !! uid = Some []).
Proof.
  intros Hs Hsh Hroom Hfo [Hf Hk Hconn (p & Hp & Hrec & Hb)]. pose proof Hs as (_ & Hn & Hl).
  set (c1 := set_peers (alter (with_buffer []) uid (peers c)) c).
  assert (leads c1 uid [] es) as Hc1.
  { apply leads_alter with (buffer p); [|done]. split; [done|]. split; [done|]. by exists p. }
  assert (recovering <$> peers c1 !! uid = Some false) as Hr1.
  { unfold c1. cbn. rewrite lookup_alter_eq, Hp. cbn. by rewrite Hrec. }
  assert (dispatch_peer garbled lossy uid (c, w) =
    send_entries garbled lossy uid (mkAppendReq (currentTerm c) (ID c) (lenZ es - 1) 0 (buffer p) true) (c1, w)) as ->.
  { unfold dispatch_peer. rewrite (bind_ok _ _ (c, w) c (c, w)) by done. unfold Prelude.from_option. rewrite Hp.
    rewrite (bind_ok _ _ (c, w) p (c, w)), Hrec by done. cbn [buffer_Read].
    rewrite (bind_ok _ _ (c, w) tt (c1, w)) by done. by rewrite Hl, i64_small by lia. }
  destruct (serve_round uid f es k (buffer p) (currentTerm c) (ID c) Hf Hn Hsh Hroom Hk Hb) as (f1 & resp & k1 & E1 & Hf1 & Hk1 & Hans).
  destruct (service_lossy uid _ c1 w f resp f1 Hconn Hfo E1) as (r & f2 & E2 & Hcase & Hdel).
  assert (∃ k2, level f2 (take k2 es) (replayed (take k2 es)) (currentTerm c) ∧ (k ≤ k2 ≤ length es)%nat ∧
    (r = None ∨ r = Some resp ∧ k2 = k1)) as (k2 & Hf2 & Hk2 & Hr2).
  { destruct Hcase as [[-> ->]|[-> Hr]]; [exists k|exists k1]; (split; [done|]); (split; [lia|]); [by left|].
    destruct Hr as [->| ->]; [by right|by left]. }
  assert (∀ c' f' k', leads c' uid [] es → kept uid c1 c' → recovering <$> peers c' !! uid = Some false → (k' ≤ length es)%nat →
    level f' (take k' es) (replayed (take k' es)) (currentTerm c) → kept uid c c' ∧ held c' f' uid es k') as Hend.
  { intros c' f' k' (_ & Hconn' & p' & Hp' & Hb') Hkc Hrec' Hk' Hf'. split; [eapply kept_trans; [apply kept_alter|exact Hkc]|].
    split; [by rewrite (kept_term _ _ _ Hkc)|done|done|]. exists p'. rewrite Hp' in Hrec'. injection Hrec' as Hrec'.
    split; [done|]. split; [done|]. rewrite Hb'. apply sublist_nil_l. }
  unfold send_entries. rewrite E2. destruct Hr2 as [->|[-> ->]]; cbn [of_option].
  - destruct (Hend c1 f2 k2) as [Hkc Hheld]; [done|done|done|lia|done|].
    eexists c1, _, f2, k2. split_and!; [done..|apply Hc1|done|done|lia|]. intros Hw. by destruct (Hdel Hw).
  - assert (f2 = f1) as ->.
    { destruct Hcase as [[_ [=]]|[-> _]]; done. }
    set (w1 := mkNet J A _ _). destruct (AppendResp_Success resp).
    + destruct (Hend c1 f1 k1) as [Hkc Hheld]; [done|done|done|lia|done|].
      exists c1, w1, f1, k1. split_and!; [done..|apply Hc1|done|done|lia|]. intros _.
      rewrite Hp. cbn. destruct Hans as [?|(-> & ? & ->)]; auto.
    + destruct Hans as [-> ->].
      destruct (recovering_lossy uid c1 w1 f1 [] es k) as (r & c2 & w2 & f3 & k3 & E3 & Hfo3 & Hc2 & Hkc & Hrec2 & Hf3 & Hk3 & Hnp & Hdel3); [done| |done..|].
      { cbn. apply lookup_insert_eq. }
      destruct (Hend c2 f3 k3) as [Hkc' Hheld]; [done|done|done|lia|done|].
      exists c2, w2, f3, k3. split_and!; [|by rewrite Hfo3; cbn; rewrite insert_insert_eq|apply Hc2|done|done|lia|].
      * unfold ignore_err. rewrite E3. by destruct r as [[]|e|].
      * intros Hw. left. apply Hdel3. cbn. by rewrite Hw.
Qed.

(** the entry of a write, and what buffers it *)
Lemma held_after_buffer c uid f es k e p : numbered es → Forall (λ e, Entry_Term e ≤ currentTerm c) es →
  held c f uid es k → peers c !! uid = Some p → Entry_Index e = lenZ es + 1 → Entry_Term e = currentTerm c →
  after_buffer e (buffer p).
Proof using.
  intros Hn Ht [_ _ _ (p' & Hp' & _ & Hb)] Hp Hi Hterm l Hl. assert (p' = p) as -> by congruence.
  assert (l ∈ drop k es) as Hin.
  { apply (sublist_subseteq _ _ Hb). apply last_Some in Hl as [b' ->]. apply elem_of_app. right. by apply list_elem_of_here. }
  assert (l ∈ es) as Hin' by (apply (sublist_subseteq _ _ (sublist_drop es k)); exact Hin).
  apply list_elem_of_lookup in Hin' as [i Hli]. pose proof (Hn i l Hli). pose proof (lookup_lt_Some _ _ _ Hli).
  rewrite Forall_lookup in Ht. pose proof (Ht i l Hli) as Hterm'. cbn in Hterm'. lia.
Qed.

(** the leader's log grows, and each buffer by nothing or by the new entry *)
Lemma grow_held c c' f uid es e k : held c f uid es k → currentTerm c' = currentTerm c → conns c' = conns c →
  (peers c' !! uid = peers c !! uid ∨ peers c' !! uid = push e <$> peers c !! uid) →
  held c' f uid (es ++ [e]) k.
Proof using.
  intros [Hf Hk Hconn (p & Hp & Hrec & Hb)] Ht Hc Hpe. split.
  - by rewrite Ht, take_app_le.
  - rewrite length_app. lia.
  - by rewrite Hc.
  - rewrite drop_app_le by done. rewrite Hp in Hpe. destruct Hpe as [->| ->].
    + exists p. split_and!; [done..|]. etrans; [exact Hb|]. apply sublist_inserts_r. done.
    + exists (push e p). split_and!; [done..|]. cbn. by apply sublist_app.
Qed.

Lemma write_inv (order_perm : ∀ s, order s ≡ₚ elements s) now taken typ data r c c' w es :
  net_inv c w es → short (next_entry c typ data now) → lastLogIndex c + 3 < 2 ^ 63 →
  writeEntry order now taken typ data c = (r, c') →
  (∃ new, net_inv c' w (es ++ new)) ∧ currentTerm c' = currentTerm c.
Proof.
  intros [Hs Hsh Hroom Ht Hpe Hheld] Hshort Hlen E. pose proof Hs as (_ & Hn & Hl).
  destruct (shutdown c) eqn:Hdown.
  { unfold writeEntry in E. rewrite (bind_ok _ _ c c c), Hdown in E by done. injection E as <- <-.
    split; [|done]. exists []. rewrite app_nil_r. by split. }
  destruct (writeEntry_journaled order now taken typ data c es Hs Hdown ltac:(lia) Hshort) as (j' & Hj' & Hi & Ew).
  rewrite Ew in E. clear Ew. set (e := next_entry c typ data now) in *.
  set (c1 := set_wal j' _) in E.
  assert (∃ m, (m = peers c ∨ m = push e <$> peers c) ∧ c' = set_peers m c1) as (m & Hm & ->).
  { unfold submit in E. rewrite (bind_ok _ _ c1 c1 c1) in E by done. destruct (taken && pipeline c1).
    - rewrite (WritePipeline_after order order_perm e c1) in E.
      + injection E as <- <-. eexists. split; [by right|done].
      + intros uid p Hp. destruct (Hpe uid) as [f Hf]; [by eexists|]. destruct (Hheld uid f Hf) as [k Hk].
        by eapply (held_after_buffer c).
    - injection E as <- <-. exists (peers c). split; [by left|]. by destruct c. }
  split; [|done]. exists [e]. split.
  - by apply (synced_snoc c es e j').
  - by apply Forall_app, conj, Forall_singleton.
  - rewrite length_app. cbn. lia.
  - apply Forall_app, conj, Forall_singleton; [done|]. cbn. lia.
  - intros uid [p Hp]. apply Hpe. cbn in Hp. destruct Hm as [->| ->]; [by exists p|].
    rewrite lookup_fmap in Hp. destruct (peers c !! uid); [by eexists|done].
  - intros uid f Hf. destruct (Hheld uid f Hf) as [k Hk]. exists k. apply (grow_held c); [done..|].
    cbn. destruct Hm as [->| ->]; [by left|right]. by rewrite lookup_fmap.
Qed.

Lemma held_kept c c' f uid v es k : kept uid c c' → v ≠ uid → held c f v es k → held c' f v es k.
Proof using. intros [Hc Ht _ _ _ _ Hp] Hv [Hf Hk Hconn Hpe]. split; [by rewrite Ht|done|by rewrite Hc|by rewrite Hp]. Qed.

Lemma dispatch_inv uid lost r c c' w w' es : net_inv c w es → is_Some (followers w !! uid) →
  dispatch_peer garbled lossy uid (c, mkNet J A (followers w) lost) = (r, (c', w')) →
  net_inv c' w' es ∧ kept uid c c' ∧ ∃ f f', followers w !! uid = Some f ∧
    followers w' = <[uid := f']> (followers w) ∧ lastLogIndex f ≤ lastLogIndex f'.
Proof.
  intros [Hs Hsh Hroom Ht Hpe Hheld] [f Hf] E. destruct (Hheld uid f Hf) as [k Hk].
  destruct (dispatch_lossy uid c (mkNet J A (followers w) lost) f es k) as (c1 & w1 & f1 & k1 & E1 & Hfo & Hs1 & Hkc & Hk1 & Hle & _); [done..|].
  rewrite E1 in E. injection E as <- <- <-. cbn in Hfo. split_and!; [split; try done|done|].
  - by rewrite (kept_term _ _ _ Hkc).
  - intros v Hv. rewrite Hfo. destruct (decide (v = uid)) as [->|Hne]; [by rewrite lookup_insert_eq|].
    rewrite lookup_insert_ne by done. apply Hpe. by rewrite (kept_peers _ _ _ Hkc) in Hv.
  - intros v g Hg. rewrite Hfo in Hg. destruct (decide (v = uid)) as [->|Hne].
    + rewrite lookup_insert_eq in Hg. injection Hg as <-. by exists k1.
    + rewrite lookup_insert_ne in Hg by done. destruct (Hheld v g Hg) as [k2 Hk2]. exists k2. by eapply held_kept.
  - exists f, f1. split_and!; [done..|].
    destruct (held_level _ _ _ _ _ Hk) as ((_ & _ & ->) & _), (held_level _ _ _ _ _ Hk1) as ((_ & _ & ->) & _).
    rewrite !length_take_le by (by apply (held_le _ _ _ _ _ Hk) || by apply (held_le _ _ _ _ _ Hk1)). lia.
Qed.

Lemma last_term_le t es k : Forall (λ e, Entry_Term e ≤ t) es → 0 ≤ t → last_term (take k es) ≤ t.
Proof using.
  intros Hes Ht. unfold last_term. destruct (last (take k es)) as [e|] eqn:E; [|done]. cbn.
  rewrite Forall_forall in Hes. apply Hes. apply (sublist_subseteq _ _ (sublist_take es k)).
  apply last_Some in E as [l' ->]. apply elem_of_app. right. apply list_elem_of_here.
Qed.

(** a follower that starts again stands where it stood *)
Lemma restart_level uid infos alive f f' es a t : 0 ≤ t → level f es a t → last_term es ≤ t →
  NewCluster garbled uid infos alive (Ok (wal f)) true (app f) = Ok f' → level f' es a t.
Proof.
  intros Ht0 (Hs & Ha & Ht & Hap) Hlast E. pose proof Hs as (Hj & Hn & Hl). unfold NewCluster in E.
  destruct (setInitial_ok garbled (mkCluster J A uid ∅ ∅ 0 0 0 State_FOLLOWER false 0 true 0 "" (wal f) (app f)) es Hj Hn eq_refl) as (j' & E' & Hj').
  rewrite E' in E. injection E as <-.
  assert (appended_cap = 50%nat) as Hcap by done.
  case_bool_decide; (split; [by repeat split|]); (split; [exact Ha|]); (split; [exact Hlast|]); cbn; lia.
Qed.

Lemma restart_inv uid infos alive f f' c w es : 0 ≤ currentTerm c → net_inv c w es → followers w !! uid = Some f →
  NewCluster garbled uid infos alive (Ok (wal f)) true (app f) = Ok f' →
  net_inv c (mkNet J A (<[uid := f']> (followers w)) (fates w)) es ∧ lastLogIndex f' = lastLogIndex f.
Proof.
  intros Hpos [Hs Hsh Hroom Ht Hpe Hheld] Hf E. destruct (Hheld uid f Hf) as [k Hk]. destruct (Hk) as [Hlv Hle Hconn Hp].
  pose proof (restart_level uid infos alive f f' _ _ _ Hpos Hlv (last_term_le _ _ k Ht Hpos) E) as Hlv'. split.
  - split; try done; cbn.
    + intros v Hv. destruct (decide (v = uid)) as [->|]; [by rewrite lookup_insert_eq|].
      rewrite lookup_insert_ne by done. by apply Hpe.
    + intros v g Hg. destruct (decide (v = uid)) as [->|].
      * rewrite lookup_insert_eq in Hg. injection Hg as <-. by exists k.
      * rewrite lookup_insert_ne in Hg by done. by apply Hheld.
  - by destruct Hlv as ((_ & _ & ->) & _), Hlv' as ((_ & _ & ->) & _).
Qed.

(** no follower loses what it has *)
Definition forward w w' : Prop := ∀ uid f, followers w !! uid = Some f →
  ∃ f', followers w' !! uid = Some f' ∧ lastLogIndex f ≤ lastLogIndex f'.

#[export] Instance forward_preorder : PreOrder forward.
Proof using.
  split; [intros w uid f Hf; by exists f|]. intros w1 w2 w3 H12 H23 uid f Hf.
  destruct (H12 uid f Hf) as (f2 & Hf2 & ?), (H23 uid f2 Hf2) as (f3 & Hf3 & ?). exists f3. split; [done|lia].
Qed.

Lemma forward_insert w uid f f' x : followers w !! uid = Some f → lastLogIndex f ≤ lastLogIndex f' →
  forward w (mkNet J A (<[uid := f']> (followers w)) x).
Proof using.
  intros Hf Hle v g Hg. cbn. destruct (decide (v = uid)) as [->|]; [|rewrite lookup_insert_ne by done; by exists g].
  rewrite lookup_insert_eq. exists f'. split; [done|]. by replace g with f by congruence.
Qed.

Lemma step_inv (order_perm : ∀ s, order s ≡ₚ elements s) c w c' w' es :
  net_inv c w es → 0 ≤ currentTerm c → net_step (c, w) (c', w') →
  (∃ new, net_inv c' w' (es ++ new)) ∧ currentTerm c' = currentTerm c ∧ forward w w'.
Proof.
  intros Hinv Hpos Hstep. inversion Hstep; subst; clear Hstep.
  - destruct (write_inv order_perm now taken typ data r c c' w' es) as [Hnew Ht]; [done..|]. by split_and!.
  - destruct (dispatch_inv uid lost r c c' w w' es) as (Hinv' & Hkc & f & f' & Hf & Hfo & Hle); [done..|]. split_and!; [|by apply (kept_term uid)|].
    + exists []. by rewrite app_nil_r.
    + intros v g Hg. rewrite Hfo. by apply (forward_insert w uid f f' [] Hf Hle).
  - destruct (restart_inv uid infos alive f f' c' w es) as [Hinv' Hl]; [done..|]. split_and!; [|done|].
    + exists []. by rewrite app_nil_r.
    + apply (forward_insert w uid f); [done|lia].
Qed.

Lemma reach_inv (order_perm : ∀ s, order s ≡ₚ elements s) s s' es : rtc net_step s s' →
  net_inv s.1 s.2 es → 0 ≤ currentTerm s.1 → (∃ new, net_inv s'.1 s'.2 (es ++ new)) ∧ forward s.2 s'.2.
Proof.
  intros Hr. revert es. induction Hr as [[c w]|[c w] [c1 w1] [c2 w2] Hstep _ IH]; intros es Hinv Hpos.
  - split; [|done]. exists []. by rewrite app_nil_r.
  - destruct (step_inv order_perm c w c1 w1 es Hinv Hpos Hstep) as ((new & Hinv1) & Ht & Hf).
    destruct (IH _ Hinv1) as [[new' Hinv2] Hf2]; [cbn in *; lia|]. split; [|by etrans].
    exists (new ++ new'). by rewrite app_assoc.
Qed.

(** ** Properties *)


(** C12: In every state that such losses lead to, one round whose calls are delivered
    brings a follower level with the leader, in its journal and in its application,
    except when it is exactly one entry behind and that entry is not in its buffer
    any more; then nothing happens. *)
Theorem delivered_round_catches_up c0 w0 es0 c w uid f :
  (∀ s, order s ≡ₚ elements s) → 0 ≤ currentTerm c0 → net_inv c0 w0 es0 → rtc net_step (c0, w0) (c, w) →
  followers w !! uid = Some f →
  ∃ es c' w' f', dispatch_peer garbled lossy uid (c, mkNet J A (followers w) []) = (Ok tt, (c', w')) ∧
    synced c' es ∧ followers w' = <[uid := f']> (followers w) ∧
    (synced f' es ∧ app f' = replayed es ∨
     ∃ e, es = take (length es - 1) es ++ [e] ∧ buffer <$> peers c !! uid = Some [] ∧
       synced f (take (length es - 1) es) ∧ synced f' (take (length es - 1) es) ∧ app f' = app f).
Proof.
  intros Ho Hpos Hinv Hr Hf. destruct (reach_inv Ho _ _ es0 Hr Hinv Hpos) as [[new [Hs Hsh Hroom _ _ Hheld]] _].
  set (es := es0 ++ new) in *. destruct (Hheld uid f Hf) as [k Hk]. cbn [fst snd] in *.
  destruct (dispatch_lossy uid c (mkNet J A (followers w) []) f es k) as (c1 & w1 & f1 & k1 & E & Hfo & Hs1 & _ & Hk1 & _ & Hdel); [done..|].
  exists es, c1, w1, f1. split_and!; [done..|]. destruct Hk as [(Hsf & Ha & _) _ _ _], Hk1 as [(Hsf1 & Ha1 & _) _ _ _].
  destruct (Hdel eq_refl) as [->|(-> & Hlen & Hb)].
  - left. rewrite firstn_all in *. done.
  - right. destruct (lookup_lt_is_Some_2 es k) as [e He]; [lia|]. exists e.
    replace (length es - 1)%nat with k by lia. split_and!; try done.
    + rewrite <- (take_S_r _ _ _ He), take_ge; [done|lia].
    + by rewrite Ha, Ha1.
Qed.
End network.

(** ** A write that meets a recovery *)

Section twice.
Context {C A : Type} `{LRU C} `{Codec Entry}.
Context (garbled : list Z → Entry) (apply_entry : A → Entry → A) (order : gset string → list string) (a0 : A).
Implicit Types (c f : Cluster (WAL C) A) (es : list Entry).

(** a request with the entry that the follower has last *)
Lemma serve_again uid f es e a t lid d : level f (es ++ [e]) a t → Entry_Index e = lenZ es + 1 → short e → wf_entry d →
  lenZ es + 3 < 2 ^ 63 → tail_room (length (enc (Marshal_msg e)) + length (enc d)) (wal f) →
  ∃ f' resp w, serve apply_entry uid (mkAppendReq t lid (lenZ es) 0 [e] true) f = (Some resp, f') ∧
    AppendResp_Success resp = true ∧ app f' = apply_entry a e ∧ LastIndex (wal f') = (Ok (lenZ es + 1), wal f') ∧
    Write no_flt (lenZ es + 2) d (wal f') = (Ok tt, w) ∧ Read no_flt (lenZ es + 2) w = (Ok (Marshal_msg e), w).
Proof.
  intros Hlev He Hsh Hd Hb Hroom. pose proof Hlev as (Hs & Ha & Ht & Hc). pose proof Hs as ((css & Hw & Hj) & _ & Hl).
  cbn [lg_first lg_entries] in *.
  assert (lenZ (es ++ [e]) = lenZ es + 1) as Hlen by (rewrite length_app; cbn; lia).
  assert (lenZ (mjoin css) = lenZ es + 1) as Hcss by (rewrite Hj, length_fmap; exact Hlen).
  destruct (rewrite_lemma 1 css (wal f) (Marshal_msg e) d Hw Hsh Hd) as (w1 & w2 & E1 & El & E2 & Er); [|lia|done|].
  { intros En. rewrite En in Hcss. cbn in Hcss. lia. }
  rewrite Hcss in *. replace (1 + (lenZ es + 1) - 1) with (lenZ es + 1) in * by lia.
  replace (1 + (lenZ es + 1)) with (lenZ es + 2) in * by lia.
  unfold serve, AppendEntries. cbn [AppendReq_Entries AppendReq_Term AppendReq_PrevLogIndex last].
  rewrite (level_ltb f _ a t Hlev), He, Hl, Hlen, Z.ltb_irrefl, orb_false_r.
  set (g := if _ <? _ then _ else f). assert (app g = a ∧ wal g = wal f ∧ appended g = appended f ∧ lastLogIndex g = lenZ es + 1) as (Hga & Hgw & Hgc & Hgl).
  { unfold g. destruct (_ <? _); cbn; rewrite Hl, Hlen; done. }
  rewrite (level_cap f _ a t g Hlev Hgc), i64_small, (proj2 (Z.ltb_ge _ _)) by lia.
  assert (∃ f1, WriteEntriesFromLeader (handler apply_entry) [e] (set_appended (S (appended g)) g) = (Ok tt, f1) ∧
    app f1 = apply_entry a e ∧ wal f1 = w1) as (f1 & -> & Ha1 & Hw1).
  { eexists. split.
    - unfold WriteEntriesFromLeader. etrans; [eapply bind_ok; reflexivity|].
      etrans; [eapply bind_ok; reflexivity|]. cbn [for_each foldl]. unfold store_entry, on_wal.
      etrans; [eapply bind_ok|reflexivity].
      etrans; [eapply bind_ok; cbn [wal set_app set_appended j_write wal_journal_ok wal_journal]; rewrite Hgw, He, E1; reflexivity|].
      reflexivity.
    - cbn. by rewrite Hga. }
  eexists _, _, w2. split; [reflexivity|]. cbn [receive_token set_appended app wal]. by rewrite Ha1, Hw1.
Qed.

(** C35: An entry that is written after a follower refused a request and before the
    recovery reads the last index is sent by the recovery, and once more from the
    buffer.  The follower accepts it again: its application handles the entry twice,
    and its journal, whose last index does not move, has it twice, so that reading
    the entry that is written next gives the old one. *)
Theorem entry_stored_twice uid c (w : net (WAL C) A) f es typ data now d :
  (∀ s, order s ≡ₚ elements s) → net_inv apply_entry a0 c w es → lenZ es + 3 < 2 ^ 63 →
  followers w !! uid = Some f → buffer <$> peers c !! uid = Some [] → shutdown c = false → pipeline c = true →
  let e := mkEntry (lenZ es + 1) (currentTerm c) typ data now 0 in
  short e → wf_entry d →
  ∃ c1 c2 w2 f2, writeEntry order now true typ data c = (Ok tt, c1) ∧
    startLogRecovering garbled (lossy apply_entry) uid (lastLogIndex f) (c1, mkNet _ _ (followers w) []) = (Ok tt, (c2, w2)) ∧
    followers w2 !! uid = Some f2 ∧ synced f2 (es ++ [e]) ∧ buffer <$> peers c2 !! uid = Some [e] ∧
    (tail_room (length (enc (Marshal_msg e)) + length (enc d)) (wal f2) →
     ∃ c3 w3 f3 j, dispatch_peer garbled (lossy apply_entry) uid (c2, mkNet _ _ (followers w2) []) = (Ok tt, (c3, w3)) ∧
       followers w3 !! uid = Some f3 ∧ app f3 = replayed apply_entry a0 (es ++ [e; e]) ∧
       LastIndex (wal f3) = (Ok (lenZ es + 1), wal f3) ∧
       Write no_flt (lenZ es + 2) d (wal f3) = (Ok tt, j) ∧ Read no_flt (lenZ es + 2) j = (Ok (Marshal_msg e), j)).
Proof.
  intros Ho [Hs Hsh _ Ht Hpe Hheld] Hb Hfo Hbuf Hdown Hpl e Hshe Hd. pose proof Hs as (_ & Hn & Hl).
  destruct (Hheld uid f Hfo) as [k Hk]. destruct (Hk) as [Hf Hle Hconn (p & Hp & Hrec & _)]. rewrite Hp in Hbuf. injection Hbuf as Hpb.
  assert (lenZ (es ++ [e]) = lenZ es + 1) as Hlen by (rewrite length_app; cbn; lia).
  assert (lastLogIndex f = Z.of_nat k) as Hlf.
  { destruct Hf as ((_ & _ & ->) & _). by apply length_take_le. }
  destruct (writeEntry_ok order Ho now typ data c es Hs Hdown Hpl ltac:(lia) Hshe) as (j' & E1 & Hj').
  { intros v q Hq. destruct (Hpe v) as [g Hg]; [by eexists|]. destruct (Hheld v g Hg) as [kv Hkv]. by eapply (held_after_buffer apply_entry a0 c). }
  fold e in E1. set (c1 := set_peers _ _) in E1.
  assert (leads c1 uid [e] (es ++ [e])) as Hc1.
  { split; [by apply (synced_snoc c es e j')|]. split; [done|]. exists (push e p). cbn. rewrite lookup_fmap, Hp. cbn. by rewrite Hpb. }
  assert (Forall short (es ++ [e])) as Hsh1 by (by apply Forall_app, conj, Forall_singleton).
  destruct (recovering_lossy garbled apply_entry a0 uid c1 (mkNet _ _ (followers w) []) f [e] (es ++ [e]) k)
    as (r & c2 & w2 & f2 & k2 & E2 & Hfo2 & Hc2 & Hkc & Hrec2 & Hf2 & Hk2 & _ & Hdel); [done|done|done|lia|rewrite length_app; cbn; lia|by rewrite take_app_le|].
  destruct (Hdel eq_refl) as [-> ->]. rewrite firstn_all in Hf2.
  destruct Hc2 as (Hs2 & Hconn2 & p2 & Hp2 & Hpb2). rewrite Hp2 in Hrec2. injection Hrec2 as Hrec2.
  assert (followers w2 !! uid = Some f2) as Hfo2' by (rewrite Hfo2; apply lookup_insert_eq).
  exists c1, c2, w2, f2. rewrite Hlf. split_and!; [done..|apply Hf2|rewrite Hp2; cbn; by rewrite Hpb2|]. intros Hroom.
  destruct (serve_again uid f2 es e _ (currentTerm c1) (ID c2) d Hf2) as (f3 & resp & j & E3 & Hok & Ha3 & Hl3 & Hw3 & Hr3); [done..|].
  rewrite <- (kept_term _ _ _ Hkc) in E3.
  set (c3 := set_peers (alter (with_buffer []) uid (peers c2)) c2).
  destruct (service_lossy apply_entry uid _ c3 (mkNet _ _ (followers w2) []) f2 resp f3 Hconn2 Hfo2' E3) as (r & f4 & E4 & _ & Hdel4).
  destruct (Hdel4 eq_refl) as [-> ->].
  exists c3, (mkNet _ _ (<[uid := f3]> (followers w2)) []), f3, j. split_and!; [|apply lookup_insert_eq| |done..].
  - unfold dispatch_peer. rewrite (bind_ok _ _ (c2, _) c2 (c2, mkNet _ _ (followers w2) [])) by done.
    unfold Prelude.from_option. rewrite Hp2, (bind_ok _ _ (c2, _) p2 (c2, mkNet _ _ (followers w2) [])), Hrec2 by done.
    cbn [buffer_Read]. rewrite (bind_ok _ _ (c2, _) tt (c3, mkNet _ _ (followers w2) [])) by done.
    destruct Hs2 as (_ & _ & ->). rewrite Hlen, i64_small, Hpb2 by lia. replace (lenZ es + 1 - 1) with (lenZ es) by lia.
    unfold send_entries. rewrite E4. cbn [of_option]. by rewrite Hok.
  - rewrite Ha3. unfold replayed. by rewrite !foldl_app.
Qed.
End twice.

(** ** The properties on a leader with two followers *)

Section witnesses.
Local Existing Instance bit_codec.

Definition two_peers (b d : list Entry) : gmap string Peer :=
  {["b" := mkPeer (small_info "b") b 0 false; "d" := mkPeer (small_info "d") d 0 false]}.
Definition lead (es b d : list Entry) : Cluster node_wal (list Entry) :=
  set_conns {["b"; "d"]} (set_peers (two_peers b d) (small_node "a" "" 2 es [])).
Definition lagging (b d : list Entry) : net node_wal (list Entry) :=
  mkNet _ _ {["b" := small_node "b" "a" 1 b []; "d" := small_node "d" "a" 1 d []]} [].

Lemma small_terms : Forall (λ e, Entry_Term e ≤ 2) small_es.
Proof. by apply (bool_decide_eq_true_1 _). Qed.

Lemma note_replayed l : replayed note [] l = l.
Proof. induction l as [|e l IH] using rev_ind; [done|]. unfold replayed, note in *. rewrite foldl_app. cbn. by rewrite IH. Qed.

Lemma small_held (n k : nat) uid c b : (k ≤ n ≤ 3)%nat → uid ∈ conns c → currentTerm c = 2 →
  peers c !! uid = Some (mkPeer (small_info uid) b 0 false) → b `sublist_of` drop k (take n small_es) →
  held note [] c (small_node uid "a" 1 (take k small_es) []) uid (take n small_es) k.
Proof.
  intros Hk Hc Ht Hp Hb. assert (take k (take n small_es) = take k small_es) as E by (rewrite take_take; f_equal; lia). split.
  - rewrite E, note_replayed. split; [apply small_synced; lia|]. split; [done|]. rewrite Ht. split; [done|].
    change (0 < 50)%nat. lia.
  - rewrite length_take. change (length small_es) with 3%nat. lia.
  - done.
  - eexists. split; [exact Hp|]. done.
Qed.

Lemma two_inv (n i j : nat) b d : (i ≤ n ≤ 3)%nat → (j ≤ n)%nat →
  b `sublist_of` drop i (take n small_es) → d `sublist_of` drop j (take n small_es) →
  net_inv note [] (lead (take n small_es) b d) (lagging (take i small_es) (take j small_es)) (take n small_es).
Proof.
  intros Hi Hj Hb Hd. split.
  - apply (small_synced "a" "" 2 n []). lia.
  - apply Forall_take, small_short.
  - rewrite length_take. change (length small_es) with 3%nat. lia.
  - apply Forall_take, small_terms.
  - intros uid Hp. cbn [peers lead set_conns set_peers] in Hp. unfold two_peers in Hp. cbn [followers lagging].
    destruct (decide (uid = "b")) as [->|]; [by eexists|]. destruct (decide (uid = "d")) as [->|]; [by eexists|].
    rewrite lookup_insert_ne, lookup_singleton_ne in Hp by done. by destruct Hp.
  - intros uid f Hf. cbn [followers lagging] in Hf.
    destruct (decide (uid = "b")) as [->|]; [injection Hf as <-; exists i; eapply small_held; [lia|set_solver|done|by cbn|exact Hb]|].
    destruct (decide (uid = "d")) as [->|]; [injection Hf as <-; exists j; eapply small_held; [lia|set_solver|done|by cbn|exact Hd]|].
    by rewrite lookup_insert_ne, lookup_singleton_ne in Hf by done.
Qed.

(** a round of the leader for one peer, and a write *)
Definition round (uid : string) (lost : list fate) (s : Cluster node_wal (list Entry) * net node_wal (list Entry)) :=
  (dispatch_peer no_entry (lossy note) uid (s.1, mkNet _ _ (followers s.2) lost)).2.
Definition write_nine (taken : bool) (s : Cluster node_wal (list Entry) * net node_wal (list Entry)) :=
  ((writeEntry by_name 0 taken Entry_DELETE_POLICY [9] s.1).2, s.2).

Lemma round_step uid lost s : is_Some (followers s.2 !! uid) → net_step no_entry note by_name s (round uid lost s).
Proof.
  intros Hu. destruct s as [c w]. unfold round. cbn [fst snd] in *. destruct (dispatch_peer _ _ _ _) as [r [c' w']] eqn:E.
  by apply (net_dispatch no_entry note by_name uid lost r c c' w w').
Qed.

Lemma write_step taken s : short (next_entry s.1 Entry_DELETE_POLICY [9] 0) → lastLogIndex s.1 + 3 < 2 ^ 63 →
  net_step no_entry note by_name s (write_nine taken s).
Proof.
  intros Hs Hl. destruct s as [c w]. unfold write_nine. cbn [fst snd] in *. destruct (writeEntry _ _ _ _ _ _) as [r c'] eqn:E.
  by apply (net_write no_entry note by_name 0 taken Entry_DELETE_POLICY [9] r c c' w).
Qed.

(** one follower misses an entry, the other three; requests and an answer are lost *)
Definition small_net : Cluster node_wal (list Entry) * net node_wal (list Entry) :=
  (lead small_es (drop 2 small_es) [], lagging (take 2 small_es) []).
Definition some_losses := round "d" [Delivered; ResponseLost] (round "b" [RequestLost] small_net).
Definition after_losses := write_nine true (write_nine false some_losses).

Lemma after_losses_reached : rtc (net_step no_entry note by_name) small_net after_losses.
Proof.
  apply (rtc_l _ _ (round "b" [RequestLost] small_net)); [by apply round_step; eexists|].
  apply (rtc_l _ _ some_losses); [apply round_step; apply (bool_decide_eq_true_1 _); by vm_compute|].
  apply (rtc_l _ _ (write_nine false some_losses)); [apply write_step; [split|]; by vm_compute|].
  apply rtc_once, write_step; [split|]; by vm_compute.
Qed.

Lemma small_net_inv : net_inv note [] small_net.1 small_net.2 small_es.
Proof. apply (two_inv 3 2 0); [lia..| |]; [done|apply sublist_nil_l]. Qed.


Lemma delivered_round_catches_up_witness : ∃ f, followers after_losses.2 !! "d" = Some f ∧
  ∃ es c' w' f', dispatch_peer no_entry (lossy note) "d" (after_losses.1, mkNet _ _ (followers after_losses.2) []) = (Ok tt, (c', w')) ∧
    synced c' es ∧ followers w' = <["d" := f']> (followers after_losses.2) ∧
    (synced f' es ∧ app f' = replayed note [] es ∨
     ∃ e, es = take (length es - 1) es ++ [e] ∧ buffer <$> peers after_losses.1 !! "d" = Some [] ∧
       synced f (take (length es - 1) es) ∧ synced f' (take (length es - 1) es) ∧ app f' = app f).
Proof.
  assert (is_Some (followers after_losses.2 !! "d")) as [f Hf].
  { apply (bool_decide_eq_true_1 _). by vm_compute. }
  exists f. split; [exact Hf|].
  apply (delivered_round_catches_up no_entry note by_name [] small_net.1 small_net.2 small_es after_losses.1 after_losses.2 "d" f).
  - exact by_name_perm.
  - done.
  - exact small_net_inv.
  - pose proof after_losses_reached as Hr. by destruct after_losses.
  - exact Hf.
Defined.

Lemma entry_stored_twice_witness :
  let c := lead small_es (drop 2 small_es) [] in
  let w := lagging (take 2 small_es) [] in
  let e := mkEntry 4 2 Entry_DELETE_POLICY [9] 0 0 in
  ∃ c1 c2 w2 f2, writeEntry by_name 0 true Entry_DELETE_POLICY [9] c = (Ok tt, c1) ∧
    startLogRecovering no_entry (lossy note) "d" 0 (c1, mkNet _ _ (followers w) []) = (Ok tt, (c2, w2)) ∧
    followers w2 !! "d" = Some f2 ∧ synced f2 (small_es ++ [e]) ∧ buffer <$> peers c2 !! "d" = Some [e] ∧
    ∃ c3 w3 f3 j, dispatch_peer no_entry (lossy note) "d" (c2, mkNet _ _ (followers w2) []) = (Ok tt, (c3, w3)) ∧
      followers w3 !! "d" = Some f3 ∧ app f3 = replayed note [] (small_es ++ [e; e]) ∧
      LastIndex (wal f3) = (Ok 4, wal f3) ∧
      Write no_flt 5 [5] (wal f3) = (Ok tt, j) ∧ Read no_flt 5 j = (Ok (Marshal_msg e), j).
Proof.
  intros c w e.
  edestruct (entry_stored_twice no_entry note by_name [] "d" c w (small_node "d" "a" 1 [] []) small_es Entry_DELETE_POLICY [9] 0 [5])
    as (c1 & c2 & w2 & f2 & E1 & E2 & Hfo & Hs & Hb & Hrest); [..|exists c1, c2, w2, f2; split_and!; [done..|apply Hrest]].
  - exact by_name_perm.
  - exact small_net_inv.
  - by vm_compute.
  - done.
  - done.
  - done.
  - done.
  - split; by vm_compute.
  - split; by vm_compute.
  - assert (bool_decide (tail_room (length (enc (Marshal_msg e)) + length (enc [5])) (wal (default f2 (followers
      (startLogRecovering no_entry (lossy note) "d" 0 ((writeEntry by_name 0 true Entry_DELETE_POLICY [9] c).2, mkNet _ _ (followers w) [])).2.2 !! "d")))) = true) as Hroom by (by vm_compute).
    apply bool_decide_eq_true_1 in Hroom. change node_wal with (WAL list_lru) in *. rewrite E1 in Hroom. cbn [snd] in Hroom.
    change (lastLogIndex (small_node "d" "a" 1 [] [])) with 0 in E2. rewrite E2 in Hroom. cbn [snd] in Hroom. by rewrite Hfo in Hroom.
Defined.
End witnesses.
