(* ===== verification/Loops.v ===== *)
(** * The loops of a registry: [Run], [LoopWriteEntries], [LoopReadEntries]

    Two goroutines run beside the requests of the other registries: one sends the
    entries every 750 ms while the registry leads, the other waits for the leader, and
    starts an election when it hears nothing for 1.5 to 2 seconds
    ([registry/cluster/cluster.go]).  Time is a clock that moves between their turns; a
    timer that is due can be taken at any time after. *)

From S2P Require Import Prelude Messages Wal WalSpec Journal Cluster ClusterSpec.

(** where the goroutines are: before the check of [shutdown], or waiting for a timer *)
Inductive loop_position := AtTop | Waits (due : Z) | Ended.

Inductive loop_event :=
| Passes (ms : Z)
| ReaderTurn (random : Z) | ReaderHears | ReaderTimeout
| WriterTurn | WriterFires
| Receives (req : AppendEntriesRequest) | Stops.

Definition heartbeat_ms : Z := 750.
Definition timeout_min : Z := 1500.
Definition timeout_max : Z := 2000.

Section loops.
Context {J A W : Type} `{Journal J} `{Codec Entry}.
Context (entriesHandler : option (list Entry → A → A)) (garbled : list Z → Entry) (order : gset string → list string).
Context (call : string → AppendEntriesRequest → W → option AppendEntriesResponse * W).
Context (ask : string → RequestVoteRequest → W → option RequestVoteResponse * W).
Local Abbreviation C := (Cluster J A).

Record loops := mkLoops {
  lp_cluster : C;
  lp_world : W;
  lp_now : Z;
  lp_reader : loop_position;
  lp_writer : loop_position;
  lp_elections : nat;   (* started so far *)
  lp_crashed : bool;
}.

(** [Run]: both loops are started *)
Definition Run (c : C) (w : W) (now : Z) : loops := mkLoops c w now AtTop AtTop 0 false.

Definition crashed (s : loops) : loops :=
  mkLoops (lp_cluster s) (lp_world s) (lp_now s) (lp_reader s) (lp_writer s) (lp_elections s) true.
Definition with_reader (p : loop_position) (s : loops) : loops :=
  mkLoops (lp_cluster s) (lp_world s) (lp_now s) p (lp_writer s) (lp_elections s) (lp_crashed s).
Definition with_writer (p : loop_position) (s : loops) : loops :=
  mkLoops (lp_cluster s) (lp_world s) (lp_now s) (lp_reader s) p (lp_elections s) (lp_crashed s).
Definition with_cluster (c : C) (w : W) (s : loops) : loops :=
  mkLoops c w (lp_now s) (lp_reader s) (lp_writer s) (lp_elections s) (lp_crashed s).
Definition count_election (s : loops) : loops :=
  mkLoops (lp_cluster s) (lp_world s) (lp_now s) (lp_reader s) (lp_writer s) (S (lp_elections s)) (lp_crashed s).

(** [LoopReadEntries] *)
Definition reader_top (random : Z) (s : loops) : loops :=
  if shutdown (lp_cluster s) then with_reader Ended s
  else match getIntervalMs (λ n, random mod n) timeout_min timeout_max with
       | Ok d => with_reader (Waits (lp_now s + d)) s
       | _ => crashed s
       end.
Definition reader_hears (s : loops) : option loops :=
  match appended (lp_cluster s) with
  | O => None
  | S _ => Some (with_reader AtTop (with_cluster (receive_token (lp_cluster s)) (lp_world s) s))
  end.
Definition reader_timeout (s : loops) : loops :=
  let '(c, w) := election_timeout order ask (lp_cluster s) (lp_world s) in
  let s := if isLeader (lp_cluster s) then s else count_election s in
  with_reader AtTop (with_cluster c w s).

(** [LoopWriteEntries] *)
Definition writer_top (s : loops) : loops :=
  with_writer (if shutdown (lp_cluster s) then Ended else Waits (lp_now s + heartbeat_ms)) s.
Definition writer_fires (s : loops) : loops :=
  match heartbeat garbled order call (lp_cluster s, lp_world s) with
  | (Panic, (c, w)) => crashed (with_cluster c w s)
  | (_, (c, w)) => with_writer AtTop (with_cluster c w s)
  end.

(** [None]: the event cannot happen now *)
Definition loop_step (e : loop_event) (s : loops) : option loops :=
  if lp_crashed s then None
  else match e, lp_reader s, lp_writer s with
  | Passes ms, _, _ =>
      if 0 <=? ms then Some (mkLoops (lp_cluster s) (lp_world s) (lp_now s + ms) (lp_reader s) (lp_writer s) (lp_elections s) false)
      else None
  | ReaderTurn random, AtTop, _ => Some (reader_top random s)
  | ReaderHears, Waits _, _ => reader_hears s
  | ReaderTimeout, Waits due, _ => if due <=? lp_now s then Some (reader_timeout s) else None
  | WriterTurn, _, AtTop => Some (writer_top s)
  | WriterFires, _, Waits due => if due <=? lp_now s then Some (writer_fires s) else None
  | Receives req, _, _ => Some (with_cluster (AppendEntries entriesHandler req (lp_cluster s)).2 (lp_world s) s)
  | Stops, _, _ => if shutdown (lp_cluster s) then Some (crashed s) else Some (with_cluster (Shutdown (lp_cluster s)) (lp_world s) s)
  | _, _, _ => None
  end.

Fixpoint loop_run (sched : list loop_event) (s : loops) : option loops :=
  match sched with
  | [] => Some s
  | e :: sched' => s' ← loop_step e s; loop_run sched' s'
  end.
End loops.
Arguments loops J A W : clear implicits.

(** ** What the requests and the timers leave alone *)

Section facts.
Context {J A W : Type} `{Journal J} `{Codec Entry}.
Context (entriesHandler : option (list Entry → A → A)) (garbled : list Z → Entry) (order : gset string → list string).
Context (call : string → AppendEntriesRequest → W → option AppendEntriesResponse * W).
Context (ask : string → RequestVoteRequest → W → option RequestVoteResponse * W).
Local Abbreviation C := (Cluster J A).
Local Abbreviation WM := (M (C * W) cluster_error).
Local Abbreviation step := (loop_step entriesHandler garbled order call ask).
Local Abbreviation run := (loop_run entriesHandler garbled order call ask).
Implicit Types (c : C) (s : loops J A W).

(** the same flag and the same tokens *)
Definition same_flags c c' : Prop := shutdown c' = shutdown c ∧ appended c' = appended c.
Definition calm {B} (m : WM B) : Prop := ∀ c w, same_flags c (m (c, w)).2.1.
Definition calm_c {B} (m : M C cluster_error B) : Prop := ∀ c, same_flags c (m c).2.

Lemma same_flags_trans c1 c2 c3 : same_flags c1 c2 → same_flags c2 c3 → same_flags c1 c3.
Proof using. intros [? ?] [? ?]. split; congruence. Qed.

Lemma calm_bind {B D} (m : WM B) (k : B → WM D) : calm m → (∀ b, calm (k b)) → calm (m ≫= k).
Proof using.
  intros Hm Hk c w. specialize (Hm c w). unfold mbind, M_bind. destruct (m (c, w)) as [[b|e|] [c1 w1]]; cbn in *; [|done..].
  eapply same_flags_trans; [exact Hm|apply Hk].
Qed.
Lemma calm_c_bind {B D} (m : M C cluster_error B) (k : B → M C cluster_error D) : calm_c m → (∀ b, calm_c (k b)) → calm_c (m ≫= k).
Proof using.
  intros Hm Hk c. specialize (Hm c). unfold mbind, M_bind. destruct (m c) as [[b|e|] c1]; cbn in *; [|done..].
  eapply same_flags_trans; [exact Hm|apply Hk].
Qed.
Lemma calm_ret {B} (b : B) : calm (mret b).
Proof using. done. Qed.
Lemma calm_guard b e : calm (guard_err b e).
Proof using. intros c w. by destruct b. Qed.
Lemma calm_on_cluster {B} (m : M C cluster_error B) : calm_c m → calm (on_cluster m).
Proof using. intros Hm c w. specialize (Hm c). unfold on_cluster. by destruct (m c). Qed.
Lemma calm_on_wal {B} (f : J → result journal_error B * J) : calm_c (on_wal f).
Proof using. intros c. unfold on_wal. by destruct (f (wal c)). Qed.
Lemma calm_update uid f : calm (update_peer uid f).
Proof using. by apply calm_on_cluster. Qed.
Lemma calm_service uid req : calm (service_AppendEntries call uid req).
Proof using. intros c w. unfold service_AppendEntries. case_bool_decide; [|done]. by destruct (call uid req w). Qed.

Lemma calm_recover n uid index term : calm (recover_loop garbled call n uid index term).
Proof using.
  revert index. induction n as [|n IH]; intros index; [apply calm_ret|]. cbn [recover_loop].
  apply calm_bind; [apply calm_on_cluster, calm_on_wal|]. intros bytes. cbv zeta.
  apply calm_bind; [by apply calm_on_cluster|]. intros c0. apply calm_bind; [apply calm_service|]. intros res.
  apply calm_bind; [apply calm_guard|]. intros _. apply calm_bind; [apply calm_update|]. intros _. apply IH.
Qed.

Lemma calm_recovering uid from : calm (startLogRecovering garbled call uid from).
Proof using.
  intros c w. unfold startLogRecovering. destruct (peers c !! uid); [|done]. set (m := mbind _ _).
  assert (calm m) as Hm by (apply calm_bind; [apply calm_update|intros _; apply calm_recover]).
  specialize (Hm c w). destruct (m (c, w)) as [r [c1 w1]]. cbn in Hm |- *. exact Hm.
Qed.

Lemma calm_send uid req : calm (send_entries garbled call uid req).
Proof using.
  intros c w. unfold send_entries. pose proof (calm_service uid req c w) as Hs.
  destruct (service_AppendEntries call uid req (c, w)) as [[res|e|] [c1 w1]]; cbn in Hs; [|done..].
  destruct (AppendResp_Success res); [done|]. unfold ignore_err.
  pose proof (calm_recovering uid (AppendResp_LastCommittedIndex res) c1 w1) as Hr.
  destruct (startLogRecovering garbled call uid _ (c1, w1)) as [[[]|e|] [c2 w2]]; cbn in Hr |- *; by eapply same_flags_trans.
Qed.

Lemma calm_heartbeat : calm (heartbeat garbled order call).
Proof using.
  apply calm_bind; [by apply calm_on_cluster|]. intros c0. destruct (isLeader c0); [|apply calm_ret].
  apply calm_bind; [by apply calm_on_cluster|]. intros c1. induction (order (dom (peers c1))) as [|uid l IH]; [apply calm_ret|].
  cbn [for_each]. apply calm_bind; [|intros _; exact IH]. unfold dispatch_peer.
  apply calm_bind; [by apply calm_on_cluster|]. intros c2. apply calm_bind; [intros c w; by destruct (peers c2 !! uid)|]. intros p.
  destruct (recovering p); [apply calm_ret|]. cbn. apply calm_bind; [apply calm_update|]. intros _. apply calm_send.
Qed.

Lemma election_flags c w : same_flags c (election_timeout order ask c w).1.
Proof using.
  unfold election_timeout. destruct (isLeader c); [done|]. unfold StartElection.
  destruct (poll ask _ _ w) as [[voted responded] w']. unfold finish_election. by destruct (elected voted responded).
Qed.

Lemma calm_stored entries : calm_c (WriteEntriesFromLeader entriesHandler entries).
Proof using.
  apply calm_c_bind; [done|]. intros _. apply calm_c_bind; [unfold run_handler; by destruct entriesHandler|]. intros _.
  induction entries as [|e entries IH]; [done|]. cbn [for_each]. apply calm_c_bind; [|intros _; exact IH].
  unfold store_entry. apply calm_c_bind; [apply calm_on_wal|done].
Qed.

(** a request leaves the flag, and adds a token at most *)
Lemma AppendEntries_flags req c : let c' := (AppendEntries entriesHandler req c).2 in
  shutdown c' = shutdown c ∧ (appended c' = appended c ∨ appended c' = S (appended c)).
Proof using.
  unfold AppendEntries. cbv zeta. set (c1 := if _ || _ then _ else c).
  assert (same_flags c c1) as [Hs Ha] by (unfold c1; by destruct (_ || _)).
  destruct (AppendReq_Term req <? currentTerm c); [cbn; auto|]. case_bool_decide; [cbn; auto|].
  destruct (i64 (lastLogIndex c) <? AppendReq_PrevLogIndex req); [cbn; rewrite Ha; auto|].
  pose proof (calm_stored (AppendReq_Entries req) (set_appended (S (appended c1)) c1)) as [Hs2 Ha2].
  destruct (WriteEntriesFromLeader entriesHandler _ _) as [[[]|e|] c2]; cbn in *; rewrite Hs2, Ha2, Ha; auto.
Qed.

(** the term after an election *)
Lemma election_term c w : isLeader c = false → currentTerm (election_timeout order ask c w).1 = u32 (currentTerm c + 1).
Proof using.
  intros Hl. unfold election_timeout. rewrite Hl. unfold StartElection.
  destruct (poll ask _ _ w) as [[voted responded] w']. unfold finish_election. by destruct (elected voted responded).
Qed.

Lemma interval_ok random : ∃ d, getIntervalMs (λ n, random mod n) timeout_min timeout_max = Ok d ∧ timeout_min ≤ d < timeout_max.
Proof using.
  unfold getIntervalMs, timeout_min, timeout_max. cbn. eexists. split; [reflexivity|].
  change (2000 - 1500) with 500. pose proof (Z.mod_pos_bound random 500 ltac:(lia)). lia.
Qed.

(** ** While the leader is heard *)

(** a request of the leader was accepted: a token came *)
Definition heard s s' : bool := bool_decide (appended (lp_cluster s') = S (appended (lp_cluster s))).

(** less than the shortest timeout passes from one accepted request to the next, and
    the reader takes its turns at once *)
Fixpoint undisturbed (last : Z) (sched : list loop_event) s : Prop :=
  match sched with
  | [] => True
  | e :: sched' =>
      match e with
      | Passes ms => lp_now s + ms < last + timeout_min ∧ (0 < ms → lp_reader s ≠ AtTop ∧ appended (lp_cluster s) = 0%nat)
      | _ => True
      end ∧
      match step e s with
      | Some s' => undisturbed (if heard s s' then lp_now s else last) sched' s'
      | None => False
      end
  end.

Record in_time (last : Z) s : Prop := {
  it_now : last ≤ lp_now s < last + timeout_min;
  it_due : ∀ due, lp_reader s = Waits due → lp_now s < due ∧ (appended (lp_cluster s) = 0%nat → last + timeout_min ≤ due);
}.

(** what happens beside the reader, the clock standing still *)
Lemma in_time_beside last s s' : in_time last s → lp_now s' = lp_now s → lp_reader s' = lp_reader s →
  (appended (lp_cluster s') = appended (lp_cluster s) ∨ appended (lp_cluster s') = S (appended (lp_cluster s))) →
  in_time (if heard s s' then lp_now s else last) s'.
Proof using.
  intros [Hnow Hdue] En Er Ha. unfold heard. split; rewrite En.
  - case_bool_decide; unfold timeout_min in *; lia.
  - intros due. rewrite Er. intros [Hlt Hd]%Hdue. split; [done|]. intros Hz. destruct Ha as [Ha|Ha]; [|lia].
    rewrite bool_decide_false by lia. apply Hd. lia.
Qed.

Lemma in_time_step last e s s' : in_time last s →
  match e with
  | Passes ms => lp_now s + ms < last + timeout_min ∧ (0 < ms → lp_reader s ≠ AtTop ∧ appended (lp_cluster s) = 0%nat)
  | _ => True
  end → step e s = Some s' →
  in_time (if heard s s' then lp_now s else last) s' ∧ e ≠ ReaderTimeout ∧ lp_elections s' = lp_elections s.
Proof using.
  intros Hin Hcalm. unfold timeout_min in Hcalm. unfold loop_step. destruct (lp_crashed s) eqn:Ecr; [done|].
  assert (∀ due, lp_reader s = Waits due → (due <=? lp_now s) = false) as Hnot.
  { intros due Hd. apply Z.leb_gt. by apply (it_due _ _ Hin). }
  destruct e as [ms|random| | | | |req|].
  - destruct (Z.leb_spec 0 ms) as [Hms|]; [|done]. intros [= <-]. unfold heard. cbn. rewrite bool_decide_false by lia.
    split; [|done]. destruct Hcalm as [Hlt Hidle]. destruct Hin as [Hnow Hdue]. split; cbn; unfold timeout_min in *; [lia|]. intros due Hd.
    destruct (Hdue due Hd) as [Hd1 Hd2]. split; [|done]. destruct (Z.eq_dec ms 0) as [->|]; [lia|].
    destruct Hidle as [_ Hz]; [lia|]. specialize (Hd2 Hz). lia.
  - destruct (lp_reader s) eqn:Er; try done. intros [= <-]. unfold reader_top. destruct (shutdown (lp_cluster s)).
    + split; [|done]. unfold heard. cbn. rewrite bool_decide_false by lia. split; [apply Hin|done].
    + destruct (interval_ok random) as (d & -> & Hd). split; [|done]. unfold heard. cbn. rewrite bool_decide_false by lia.
      pose proof (it_now _ _ Hin). split; [done|]. cbn. intros due [= <-]. unfold timeout_min in *. lia.
  - destruct (lp_reader s) eqn:Er; try done. unfold reader_hears. destruct (appended (lp_cluster s)) as [|n] eqn:Ea; [done|].
    intros [= <-]. split; [|done]. unfold heard. cbn. rewrite Ea, bool_decide_false by lia. split; [apply Hin|done].
  - destruct (lp_reader s) as [|due|] eqn:Er; try done. by rewrite (Hnot due).
  - destruct (lp_writer s) eqn:Ew, (lp_reader s) eqn:Er; try done; intros [= <-];
      (split; [apply in_time_beside; [done|done|done|by left]|done]).
  - destruct (lp_writer s) as [|due|] eqn:Ew, (lp_reader s) eqn:Er; try done; (case_match; [|done]); intros [= <-]; unfold writer_fires;
      pose proof (calm_heartbeat (lp_cluster s) (lp_world s)) as [_ Ha];
      destruct (heartbeat garbled order call _) as [[[]|e|] [c w]]; cbn in Ha;
      (split; [apply in_time_beside; [done|done|done|left; exact Ha]|done]).
  - intros Hst. assert (s' = with_cluster (AppendEntries entriesHandler req (lp_cluster s)).2 (lp_world s) s) as ->
      by (destruct (lp_writer s), (lp_reader s); by injection Hst as <-).
    split; [|done]. apply in_time_beside; [done|done|done|]. apply AppendEntries_flags.
  - intros Hst. assert (s' = if shutdown (lp_cluster s) then crashed s else with_cluster (Shutdown (lp_cluster s)) (lp_world s) s) as ->
      by (destruct (lp_writer s), (lp_reader s), (shutdown (lp_cluster s)); by injection Hst as <-).
    destruct (shutdown (lp_cluster s)); (split; [apply in_time_beside; [done|done|done|by left]|done]).
Qed.

Lemma undisturbed_run last sched s : in_time last s → undisturbed last sched s →
  ∃ s', run sched s = Some s' ∧ lp_elections s' = lp_elections s ∧ (ReaderTimeout ∉ sched).
Proof using.
  revert last s. induction sched as [|e sched IH]; intros last s Hin Hu.
  { exists s. split; [done|]. split; [done|]. apply not_elem_of_nil. }
  cbn [undisturbed loop_run] in *. destruct Hu as [He Hu]. destruct (step e s) as [s1|] eqn:Es; [|done].
  destruct (in_time_step last e s s1 Hin He Es) as (Hin1 & Hne & Hel). destruct (IH _ _ Hin1 Hu) as (s' & E & Hel' & Hni).
  exists s'. split; [exact E|]. split; [congruence|]. intros [Heq|Hin']%elem_of_cons; [by rewrite Heq in Hne|done].
Qed.

(** C26: A registry that accepts a request of its leader less than 1.5 seconds after the
    one before never starts an election, in any order of its goroutines in which the
    reader takes its turns at once, whatever intervals are drawn; one that does not lead
    and hears nothing starts its election, in the next term, as soon as the interval is
    over, which was drawn below 2 seconds. *)
Theorem elections_only_in_silence (sched : list loop_event) c w now : 
  (undisturbed now sched (Run c w now) → ∃ s', run sched (Run c w now) = Some s' ∧ lp_elections s' = 0%nat ∧ (ReaderTimeout ∉ sched)) ∧
  ∀ random s, lp_crashed s = false → lp_reader s = AtTop → shutdown (lp_cluster s) = false → isLeader (lp_cluster s) = false →
    appended (lp_cluster s) = 0%nat → ∃ d s1, timeout_min ≤ d < timeout_max ∧
    run [ReaderTurn random] s = Some s1 ∧ (∀ ms, 0 ≤ ms < d → run [Passes ms; ReaderTimeout] s1 = None) ∧
    ∃ s2, run [Passes d; ReaderTimeout] s1 = Some s2 ∧ lp_elections s2 = S (lp_elections s) ∧
      currentTerm (lp_cluster s2) = u32 (currentTerm (lp_cluster s) + 1).
Proof using.
  split.
  - intros Hu. apply (undisturbed_run now sched (Run c w now)) in Hu; [exact Hu|]. split; [cbn; unfold timeout_min; lia|done].
  - intros random s Hcr Hr Hsh Hl Ha. destruct (interval_ok random) as (d & E & Hd).
    exists d, (with_reader (Waits (lp_now s + d)) s). split; [exact Hd|]. split.
    { cbn. unfold loop_step, reader_top. by rewrite Hcr, Hr, Hsh, E. }
    assert (∀ ms, 0 ≤ ms → run [Passes ms; ReaderTimeout] (with_reader (Waits (lp_now s + d)) s) =
      if lp_now s + d <=? lp_now s + ms
      then Some (reader_timeout order ask (mkLoops (lp_cluster s) (lp_world s) (lp_now s + ms) (Waits (lp_now s + d)) (lp_writer s) (lp_elections s) false))
      else None) as Erun.
    { intros ms Hms. cbn [loop_run]. unfold loop_step. cbn [with_reader lp_crashed lp_reader lp_now lp_cluster lp_world lp_writer lp_elections].
      rewrite Hcr, (proj2 (Z.leb_le 0 ms) Hms). cbn [mbind option_bind lp_crashed lp_reader lp_now].
      by destruct (lp_now s + d <=? lp_now s + ms). }
    split; [intros ms Hms; rewrite Erun, (proj2 (Z.leb_gt _ _)) by lia; done|].
    unfold timeout_min in *. eexists. rewrite Erun, (proj2 (Z.leb_le _ _)) by lia. split; [reflexivity|].
    pose proof (election_term (lp_cluster s) (lp_world s) Hl) as Et. unfold reader_timeout. cbn [lp_cluster lp_world]. rewrite Hl.
    by destruct (election_timeout order ask (lp_cluster s) (lp_world s)) as [c1 w1].
Qed.

(** ** After the shutdown *)

Definition rank (p : loop_position) : nat := match p with Waits _ => 2 | AtTop => 1 | Ended => 0 end.
Definition turns_left s : nat := rank (lp_reader s) + rank (lp_writer s).
Definition is_turn (e : loop_event) : bool := match e with Passes _ | Receives _ | Stops => false | _ => true end.
Definition turns (sched : list loop_event) : nat := length (filter is_turn sched).
(** the reader may be about to start an election *)
Definition elections_left s : nat := match lp_reader s with Waits _ => 1 | _ => 0 end.

Lemma down_step e s s' : shutdown (lp_cluster s) = true → step e s = Some s' →
  shutdown (lp_cluster s') = true ∧ (lp_elections s' + elections_left s' ≤ lp_elections s + elections_left s)%nat ∧
  (turns_left s' + Nat.b2n (is_turn e) ≤ turns_left s)%nat ∨
  lp_crashed s' = true ∧ lp_elections s' = lp_elections s ∧ (Nat.b2n (is_turn e) ≤ turns_left s)%nat.
Proof using.
  intros Hd. unfold loop_step, turns_left, elections_left. destruct (lp_crashed s) eqn:Ecr; [done|].
  destruct e as [ms|random| | | | |req|].
  - case_match; [|done]. intros [= <-]. left. cbn. repeat split; [done|lia..].
  - destruct (lp_reader s) eqn:Er; try done. intros [= <-]. unfold reader_top. rewrite Hd. left. cbn. repeat split; [done|lia..].
  - destruct (lp_reader s) eqn:Er; try done. unfold reader_hears. destruct (appended (lp_cluster s)); [done|].
    intros [= <-]. left. cbn. repeat split; [done|lia..].
  - destruct (lp_reader s) as [|due|] eqn:Er; try done. case_match; [|done]. intros [= <-]. left. unfold reader_timeout.
    pose proof (election_flags (lp_cluster s) (lp_world s)) as [Hsd _].
    destruct (election_timeout order ask _ _) as [c w]. cbn in Hsd |- *. rewrite Hsd. split; [done|].
    destruct (isLeader (lp_cluster s)); cbn; lia.
  - destruct (lp_writer s) eqn:Ew, (lp_reader s) eqn:Er; try done; intros [= <-]; left; unfold writer_top; rewrite Hd; cbn; rewrite ?Er; cbn; split; [done|lia|done|lia|done|lia].
  - destruct (lp_writer s) as [|due|] eqn:Ew, (lp_reader s) eqn:Er; try done; (case_match; [|done]); intros [= <-]; unfold writer_fires;
      pose proof (calm_heartbeat (lp_cluster s) (lp_world s)) as [Hsd _];
      destruct (heartbeat garbled order call _) as [[[]|e|] [c w]]; cbn in Hsd |- *;
      rewrite ?Er, ?Ew, ?Hsd; cbn; try (left; split; [done|lia]); right; (split; [done|lia]).
  - intros Hst. assert (s' = with_cluster (AppendEntries entriesHandler req (lp_cluster s)).2 (lp_world s) s) as ->
      by (destruct (lp_writer s), (lp_reader s); by injection Hst as <-).
    left. cbn. destruct (AppendEntries_flags req (lp_cluster s)) as [-> _]. split; [done|]. split; lia.
  - intros Hst. assert (s' = crashed s) as -> by (destruct (lp_writer s), (lp_reader s); rewrite Hd in Hst; by injection Hst as <-).
    right. cbn. split; [done|]. split; [done|lia].
Qed.

Lemma down_run sched s s' : shutdown (lp_cluster s) = true → run sched s = Some s' →
  (turns sched ≤ turns_left s)%nat ∧ (lp_elections s' ≤ lp_elections s + elections_left s)%nat.
Proof using.
  revert s. induction sched as [|e sched IH]; intros s Hd Hr; cbn [loop_run] in Hr.
  { injection Hr as <-. unfold turns. cbn. lia. }
  destruct (step e s) as [s1|] eqn:Es; [|done]. cbn in Hr. assert (turns (e :: sched) = Nat.b2n (is_turn e) + turns sched)%nat as ->.
  { unfold turns. rewrite filter_cons. destruct (is_turn e); cbn; [done|]. done. }
  destruct (down_step e s s1 Hd Es) as [(Hd1 & Hel & Ht)|(Hc & Hel & Ht)].
  - destruct (IH s1 Hd1 Hr) as [H1' H2']. lia.
  - destruct sched as [|e2 sched]; cbn [loop_run] in Hr; [injection Hr as <-; unfold turns; cbn; lia|].
    unfold loop_step in Hr. by rewrite Hc in Hr.
Qed.

Definition all_ended s : Prop := lp_reader s = Ended ∧ lp_writer s = Ended.

(** a turn that can be taken, after some time *)
Lemma next_turn s : lp_crashed s = false → (¬ all_ended s) → ∃ ms e s1 s2, step (Passes ms) s = Some s1 ∧ step e s1 = Some s2 ∧ is_turn e = true.
Proof using.
  intros Hc Hn.
  assert (∀ ms, 0 ≤ ms → step (Passes ms) s =
    Some (mkLoops (lp_cluster s) (lp_world s) (lp_now s + ms) (lp_reader s) (lp_writer s) (lp_elections s) false)) as Hpass.
  { intros ms Hms. unfold loop_step. by rewrite Hc, (proj2 (Z.leb_le 0 ms) Hms). }
  destruct (lp_reader s) as [|due|] eqn:Er; [exists 0, (ReaderTurn 0)|exists (Z.max 0 (due - lp_now s)), ReaderTimeout|].
  - rewrite Hpass by lia. eexists _, _. split; [done|]. by split.
  - rewrite Hpass by lia. eexists _, _. split; [done|]. split; [|done]. cbn. by rewrite (proj2 (Z.leb_le _ _)) by lia.
  - destruct (lp_writer s) as [|due|] eqn:Ew; [exists 0, WriterTurn|exists (Z.max 0 (due - lp_now s)), WriterFires|by destruct Hn].
    + rewrite Hpass by lia. eexists _, _. split; [done|]. by split.
    + rewrite Hpass by lia. eexists _, _. split; [done|]. split; [|done]. cbn. by rewrite (proj2 (Z.leb_le _ _)) by lia.
Qed.

Lemma down_ends s : shutdown (lp_cluster s) = true → lp_crashed s = false →
  ∃ sched s', run sched s = Some s' ∧ (lp_crashed s' = true ∨ all_ended s').
Proof using.
  remember (turns_left s) as n eqn:En. revert s En. induction (lt_wf n) as [n _ IH]. intros s -> Hd Hc.
  destruct (decide (turns_left s = 0%nat)) as [H0'|Hn0].
  { exists [], s. split; [done|]. right. unfold turns_left in H0'. unfold all_ended. by destruct (lp_reader s), (lp_writer s). }
  destruct (next_turn s Hc) as (ms & e & s1 & s2 & E1 & E2 & Ht).
  { intros [Hr Hw]. unfold turns_left in Hn0. by rewrite Hr, Hw in Hn0. }
  assert (∀ sched, run (Passes ms :: e :: sched) s = run sched s2) as Hrun by (intros sched; cbn [loop_run]; rewrite E1; cbn; by rewrite E2).
  destruct (lp_crashed s2) eqn:Hc2; [exists [Passes ms; e], s2; rewrite Hrun; by split; [|left]|].
  destruct (down_step _ _ _ Hd E1) as [(Hd1 & _ & Ht1)|(Hc1 & _)]; [|unfold loop_step in E2; by rewrite Hc1 in E2].
  destruct (down_step _ _ _ Hd1 E2) as [(Hd2 & _ & Ht2)|(Hc2' & _)]; [|congruence].
  rewrite Ht in Ht2. cbn in Ht1, Ht2. destruct (IH (turns_left s2) ltac:(lia) s2 eq_refl Hd2 Hc2) as (sched & s' & E & Hs').
  exists (Passes ms :: e :: sched), s'. by rewrite Hrun.
Qed.

(** C27: After its shutdown a registry ends both loops: whatever requests still come and
    however time passes they take four turns at most, and some schedule ends them.  But
    neither timer is stopped: a reader that waits may start one more election, and then
    the registry that was shut down has raised its term and asked its peers for votes. *)
Theorem loops_end_after_shutdown s : shutdown (lp_cluster s) = true → lp_crashed s = false →
  (∀ sched s', run sched s = Some s' → (turns sched ≤ 4)%nat ∧ (lp_elections s' ≤ lp_elections s + 1)%nat) ∧
  (∃ sched s', run sched s = Some s' ∧ (lp_crashed s' = true ∨ all_ended s')) ∧
  (∀ due, lp_reader s = Waits due → isLeader (lp_cluster s) = false →
    ∃ ms s', run [Passes ms; ReaderTimeout] s = Some s' ∧ lp_elections s' = S (lp_elections s) ∧
      shutdown (lp_cluster s') = true ∧ currentTerm (lp_cluster s') = u32 (currentTerm (lp_cluster s) + 1)).
Proof using.
  intros Hd Hc. split; [|split; [by apply down_ends|]].
  - intros sched s' Hr. destruct (down_run sched s s' Hd Hr) as [Ht He].
    assert (turns_left s ≤ 4 ∧ elections_left s ≤ 1)%nat by (unfold turns_left, elections_left; destruct (lp_reader s), (lp_writer s); cbn; lia). lia.
  - intros due Hr Hl. exists (Z.max 0 (due - lp_now s)). eexists. cbn [loop_run]. unfold loop_step.
    cbn [lp_crashed lp_reader lp_now]. rewrite Hc, (proj2 (Z.leb_le 0 _)) by lia. cbn [mbind option_bind lp_crashed lp_reader lp_now].
    rewrite Hr, (proj2 (Z.leb_le due _)) by lia. split; [reflexivity|]. unfold reader_timeout. cbn [lp_cluster lp_world]. rewrite Hl.
    pose proof (election_term (lp_cluster s) (lp_world s) Hl) as Et. pose proof (election_flags (lp_cluster s) (lp_world s)) as [Hs _].
    destruct (election_timeout order ask (lp_cluster s) (lp_world s)) as [c1 w1]. cbn in Et, Hs |- *. by rewrite Hs.
Qed.
End facts.

(** ** Witnesses *)

Section witnesses.
#[local] Existing Instance bit_codecs.
Local Abbreviation quiet := (λ _ _ w, (None, w)).
Local Abbreviation step1 := (loop_run (W := unit) (Some (λ l a, foldl note a l)) no_entry by_name quiet quiet).

(** a follower that hears its leader once a second *)
Definition one_a_second : list loop_event :=
  let req := mkAppendReq 1 "a" 0 0 [] true in
  [ReaderTurn 7; Passes 1000; Receives req; ReaderHears; ReaderTurn 499; WriterTurn; Passes 1000; WriterFires; Receives req; ReaderHears].

Lemma elections_only_in_silence_witness :
  let f := small_node "b" "a" 1 (take 1 small_es) [] in
  (∃ s', step1 one_a_second (Run f tt 0) = Some s' ∧ lp_elections s' = 0%nat ∧ (ReaderTimeout ∉ one_a_second)) ∧
  ∃ d s1, timeout_min ≤ d < timeout_max ∧ step1 [ReaderTurn 7] (Run f tt 0) = Some s1 ∧
    (∀ ms, 0 ≤ ms < d → step1 [Passes ms; ReaderTimeout] s1 = None) ∧
    ∃ s2, step1 [Passes d; ReaderTimeout] s1 = Some s2 ∧ lp_elections s2 = 1%nat ∧ currentTerm (lp_cluster s2) = 2.
Proof.
  intros f. destruct (elections_only_in_silence (W := unit) (Some (λ l a, foldl note a l)) no_entry by_name quiet quiet one_a_second f tt 0) as [Hheard Hsilent]. split.
  - apply Hheard. vm_compute. repeat split; discriminate || done.
  - exact (Hsilent 7 (Run f tt 0) eq_refl eq_refl eq_refl eq_refl eq_refl).
Defined.

Lemma loops_end_after_shutdown_witness :
  let s := with_reader (Waits 1600) (Run (Cluster.Shutdown (small_node "b" "a" 1 (take 1 small_es) [])) tt 0) in
  (∀ sched s', step1 sched s = Some s' → (turns sched ≤ 4)%nat ∧ (lp_elections s' ≤ 1)%nat) ∧
  (∃ sched s', step1 sched s = Some s' ∧ (lp_crashed s' = true ∨ all_ended s')) ∧
  ∃ ms s', step1 [Passes ms; ReaderTimeout] s = Some s' ∧ lp_elections s' = 1%nat ∧ shutdown (lp_cluster s') = true ∧
    currentTerm (lp_cluster s') = 2.
Proof.
  intros s. destruct (loops_end_after_shutdown (W := unit) (Some (λ l a, foldl note a l)) no_entry by_name quiet quiet s eq_refl eq_refl) as (H1 & H2 & H3).
  split; [exact H1|]. split; [exact H2|]. exact (H3 1600 eq_refl eq_refl).
Defined.
End witnesses.
