(* ===== verification/MemDB.v ===== *)
(** * The in-memory database

    The registry's storage keeps its records in hashicorp's go-memdb, a library
    outside the repository: tables of records with string indexes, whose
    transactions see a snapshot.  [MemDB] is the interface the code uses, one
    function per method; [MemDBLaws] states its documentation.  [map_table] is a
    finite map that satisfies the laws. *)

From S2P Require Import Prelude.

Inductive storage_error :=
| ErrWriteTimeout | ErrShutdown                       (* storage.go *)
| ErrMissingIndex | ErrRowNotFound | ErrInvalidIndex  (* of the in-memory database *)
| ErrBolt | ErrSetup.

#[export] Instance storage_error_eq_dec : EqDecision storage_error.
Proof. solve_decision. Defined.

(** [memdb.IndexSchema] with a [StringFieldIndex] *)
Record IndexSchema {R : Type} := mkIndex { ix_AllowMissing : bool; ix_Unique : bool; ix_Field : R → string }.
Arguments IndexSchema R : clear implicits.
Arguments mkIndex {R}.

(** [memdb.TableSchema]: the indexes by name *)
Abbreviation TableSchema R := (list (string * IndexSchema R)).

Definition find_index {R} (name : string) (sch : TableSchema R) : option (IndexSchema R) :=
  (λ e, e.2.2) <$> list_find (λ e : string * IndexSchema R, e.1 = name) sch.

(** the value of the primary index *)
Definition primary {R} (sch : TableSchema R) (r : R) : string :=
  match find_index "id" sch with Some ix => ix_Field ix r | None => "" end.

(** no index that may not miss is empty *)
Definition complete {R} (sch : TableSchema R) (r : R) : Prop :=
  Forall (λ e : string * IndexSchema R, ix_AllowMissing e.2 = false → ix_Field e.2 r ≠ ""%string) sch.

#[export] Instance complete_dec {R} (sch : TableSchema R) (r : R) : Decision (complete sch r).
Proof. unfold complete. apply _. Defined.

(** two rows never share the value of a unique index *)
Definition distinct {R} (ix : IndexSchema R) (m : gmap string R) : Prop :=
  ix_Unique ix = true → ∀ i j r r', m !! i = Some r → m !! j = Some r' → ix_Field ix r = ix_Field ix r' → i = j.

(** the rows with a value of an index *)
Definition having {R} (ix : IndexSchema R) (k : string) (m : gmap string R) : list R :=
  filter (λ r, ix_Field ix r = k) ((map_to_list m).*2).

Class MemDB (T : Type → Type) := {
  t_new : ∀ {R}, TableSchema R → T R;
  t_insert : ∀ {R}, R → T R → result storage_error (T R);
  t_delete : ∀ {R}, R → T R → result storage_error (T R);
  t_first : ∀ {R}, string → string → T R → result storage_error (option R);
  t_get : ∀ {R}, string → string → T R → result storage_error (list R);
  t_list : ∀ {R}, string → T R → result storage_error (list R);
}.

(** what the documentation of go-memdb says: a row is found by its primary index,
    an insertion adds or replaces it and refuses a record without a value for an
    index that may not miss it, a deletion wants the row to exist, and a query
    returns the rows of an index in some order *)
Class MemDBLaws (T : Type → Type) `{MemDB T} := {
  schema : ∀ {R}, T R → TableSchema R;
  rows : ∀ {R}, T R → gmap string R;
  t_new_rows : ∀ R (sch : TableSchema R), rows (t_new sch) = ∅ ∧ schema (t_new sch) = sch;
  t_insert_ok : ∀ R (r : R) t, complete (schema t) r →
    ∃ t', t_insert r t = Ok t' ∧ rows t' = <[primary (schema t) r := r]> (rows t) ∧ schema t' = schema t;
  t_insert_missing : ∀ R (r : R) t, ¬ complete (schema t) r → ∃ e, t_insert r t = Err e;
  t_delete_ok : ∀ R (r : R) t, is_Some (rows t !! primary (schema t) r) →
    ∃ t', t_delete r t = Ok t' ∧ rows t' = delete (primary (schema t) r) (rows t) ∧ schema t' = schema t;
  t_delete_missing : ∀ R (r : R) t, rows t !! primary (schema t) r = None → ∃ e, t_delete r t = Err e;
  t_get_ok : ∀ R name k (t : T R) ix, find_index name (schema t) = Some ix → distinct ix (rows t) →
    ∃ l, t_get name k t = Ok l ∧ l ≡ₚ having ix k (rows t);
  t_first_ok : ∀ R name k (t : T R) l, t_get name k t = Ok l → t_first name k t = Ok (head l);
  t_list_ok : ∀ R name (t : T R) ix, find_index name (schema t) = Some ix → distinct ix (rows t) →
    ∃ l, t_list name t = Ok l ∧ l ≡ₚ (map_to_list (rows t)).*2;
  t_get_invalid : ∀ R name k (t : T R), find_index name (schema t) = None → ∃ e, t_get name k t = Err e;
}.

(** ** A finite map as a table *)

Record map_table (R : Type) := mkTable { mt_schema : TableSchema R; mt_rows : gmap string R }.
Arguments mkTable {R}.
Arguments mt_schema {R}.
Arguments mt_rows {R}.

#[export] Instance map_memdb : MemDB map_table := {|
  t_new R sch := mkTable sch ∅;
  t_insert R r t :=
    if decide (complete (mt_schema t) r) then Ok (mkTable (mt_schema t) (<[primary (mt_schema t) r := r]> (mt_rows t)))
    else Err ErrMissingIndex;
  t_delete R r t :=
    match mt_rows t !! primary (mt_schema t) r with
    | Some _ => Ok (mkTable (mt_schema t) (delete (primary (mt_schema t) r) (mt_rows t)))
    | None => Err ErrRowNotFound
    end;
  t_first R name k t :=
    match find_index name (mt_schema t) with
    | Some ix => Ok (head (having ix k (mt_rows t)))
    | None => Err ErrInvalidIndex
    end;
  t_get R name k t :=
    match find_index name (mt_schema t) with
    | Some ix => Ok (having ix k (mt_rows t))
    | None => Err ErrInvalidIndex
    end;
  t_list R name t :=
    match find_index name (mt_schema t) with
    | Some _ => Ok ((map_to_list (mt_rows t)).*2)
    | None => Err ErrInvalidIndex
    end;
|}.

#[export] Program Instance map_memdb_laws : MemDBLaws map_table := {| schema R := mt_schema; rows R := mt_rows |}.
Next Obligation. done. Qed.
Next Obligation. intros R r t Hc. cbn. rewrite decide_True by done. by eexists. Qed.
Next Obligation. intros R r t Hc. cbn. rewrite decide_False by done. by eexists. Qed.
Next Obligation. intros R r t [x Hx]. cbn. rewrite Hx. by eexists. Qed.
Next Obligation. intros R r t Hx. cbn. rewrite Hx. by eexists. Qed.
Next Obligation. intros R name k t ix Hix _. cbn. rewrite Hix. by eexists. Qed.
Next Obligation. intros R name k t l. cbn. by destruct (find_index name (mt_schema t)) as [ix|]; intros [= <-]. Qed.
Next Obligation. intros R name t ix Hix _. cbn. rewrite Hix. by eexists. Qed.
Next Obligation. intros R name k t Hix. cbn. rewrite Hix. by eexists. Qed.

(** ** Queries on rows *)

Lemma elem_of_having {R} (ix : IndexSchema R) k m r :
  r ∈ having ix k m ↔ (∃ i, m !! i = Some r) ∧ ix_Field ix r = k.
Proof.
  unfold having. rewrite list_elem_of_filter, list_elem_of_fmap. split.
  - intros [Hf ([i r'] & -> & Hi)]. apply elem_of_map_to_list in Hi. eauto.
  - intros [[i Hi] Hf]. split; [done|]. exists (i, r). split; [done|]. by apply elem_of_map_to_list.
Qed.

(** on a unique index there is at most one answer *)
Lemma having_unique {R} (ix : IndexSchema R) k m l :
  ix_Unique ix = true → distinct ix m → l ≡ₚ having ix k m →
  head l = None ∧ (∀ i r, m !! i = Some r → ix_Field ix r ≠ k) ∨
  ∃ i r, head l = Some r ∧ m !! i = Some r ∧ ix_Field ix r = k.
Proof.
  intros Hu Hd Hl. destruct l as [|r l].
  - left. split; [done|]. intros i r Hi Hk. symmetry in Hl. apply Permutation_nil_r in Hl.
    assert (r ∈ having ix k m) as Hr by (apply elem_of_having; eauto). rewrite Hl in Hr. by apply elem_of_nil in Hr.
  - right. assert (r ∈ having ix k m) as [[i Hi] Hk]%elem_of_having by (rewrite <- Hl; set_solver). eauto.
Qed.
