(* ===== verification/Backend.v ===== *)
(** * The storage backend: [registry/storage/backend.go] and [backend_file.go]

    [Backend] is the interface of the same name, [BackendLaws] what the storage
    relies on.  [FileStorageBackend] implements it on a bbolt database, a library
    outside the repository whose interface and documentation are the classes
    [Bolt] and [BoltLaws]; [map_bolt] is a finite map that satisfies them. *)

From S2P Require Import Prelude MemDB.

Abbreviation EntryType := string.

(** [Entry] of the package [storage] *)
Record BackendEntry := mkBackendEntry { Key : string; Value : list Z }.

(** what a database of buckets holds *)
Abbreviation buckets := (gmap EntryType (gmap string (list Z))).

(** a bucket takes keys of 1 to 32768 bytes, and values shorter than two gigabytes *)
Definition storable (e : BackendEntry) : Prop :=
  Key e ≠ ""%string ∧ lenZ (bytes_of_string (Key e)) ≤ 32768 ∧ lenZ (Value e) ≤ 2 ^ 31 - 2.

#[export] Instance storable_dec e : Decision (storable e).
Proof. unfold storable. apply _. Defined.

Definition put_all (es : list BackendEntry) (m : gmap string (list Z)) : gmap string (list Z) :=
  foldl (λ m e, <[Key e := Value e]> m) m es.
Definition delete_all {B} (ks : list string) (m : gmap string B) : gmap string B :=
  foldl (λ m k, delete k m) m ks.

(** ** The interface *)

Class Backend (B : Type) := {
  b_Put : EntryType → list BackendEntry → B → result storage_error unit * B;
  b_Get : EntryType → list string → B → result storage_error (list (string * option (list Z))) * B;
  b_Delete : EntryType → list string → B → result storage_error unit * B;
  b_List : EntryType → B → result storage_error (list BackendEntry) * B;
}.

(** [sound b]: the backend is open and its writes reach the disk *)
Class BackendLaws (B : Type) `{Backend B} := {
  b_data : B → buckets;
  sound : B → Prop;
  b_Put_ok : ∀ t es b, sound b → t ≠ ""%string → Forall storable es →
    ∃ b', b_Put t es b = (Ok tt, b') ∧ sound b' ∧
      b_data b' = <[t := put_all es (default ∅ (b_data b !! t))]> (b_data b);
  b_Delete_ok : ∀ t ks b m, sound b → b_data b !! t = Some m →
    ∃ b', b_Delete t ks b = (Ok tt, b') ∧ sound b' ∧ b_data b' = <[t := delete_all ks m]> (b_data b);
  b_List_ok : ∀ t b, sound b → t ≠ ""%string →
    let m := default ∅ (b_data b !! t) in
    ∃ l b', b_List t b = (Ok l, b') ∧ sound b' ∧ b_data b' = <[t := m]> (b_data b) ∧
      (λ e, (Key e, Value e)) <$> l ≡ₚ map_to_list m;
}.

(** ** bbolt

    The functions of a transaction act on the database as the transaction sees
    it; [db_batch] runs one and commits it. *)

Class Bolt (D : Type) := {
  tx_CreateBucketIfNotExists : string → D → result storage_error D;
  tx_Bucket : string → D → bool;               (* the bucket is not nil *)
  tx_Put : string → string → list Z → D → result storage_error D;
  tx_Get : string → string → D → option (list Z);
  tx_Delete : string → string → D → result storage_error D;
  tx_ForEach : string → D → list (string * list Z);
  db_Batch : (D → result storage_error D) → D → result storage_error unit * D;
  db_Close : D → result storage_error unit * D;
}.

(** [commits d]: the file of the database can be written *)
Class BoltLaws (D : Type) `{Bolt D} := {
  bolt_data : D → buckets;
  commits : D → Prop;
  tx_create_ok : ∀ t d, t ≠ ""%string →
    ∃ d', tx_CreateBucketIfNotExists t d = Ok d' ∧
      bolt_data d' = <[t := default ∅ (bolt_data d !! t)]> (bolt_data d);
  tx_Bucket_spec : ∀ t d, tx_Bucket t d = bool_decide (is_Some (bolt_data d !! t));
  tx_Put_ok : ∀ t d m e, bolt_data d !! t = Some m → storable e →
    ∃ d', tx_Put t (Key e) (Value e) d = Ok d' ∧ bolt_data d' = <[t := <[Key e := Value e]> m]> (bolt_data d);
  tx_Put_empty : ∀ t v d, ∃ e, tx_Put t "" v d = Err e;
  tx_Get_spec : ∀ t d m k, bolt_data d !! t = Some m → tx_Get t k d = m !! k;
  tx_Delete_ok : ∀ t d m k, bolt_data d !! t = Some m →
    ∃ d', tx_Delete t k d = Ok d' ∧ bolt_data d' = <[t := delete k m]> (bolt_data d);
  tx_ForEach_spec : ∀ t d m, bolt_data d !! t = Some m → tx_ForEach t d ≡ₚ map_to_list m;
  db_Batch_ok : ∀ f d d', commits d → f d = Ok d' →
    ∃ d'', db_Batch f d = (Ok tt, d'') ∧ bolt_data d'' = bolt_data d' ∧ commits d'';
  db_Batch_panic : ∀ f d, f d = Panic → (db_Batch f d).1 = Panic;
  db_Batch_fails : ∀ f d d', ¬ commits d → f d = Ok d' →
    ∃ e d'', db_Batch f d = (Err e, d'') ∧ bolt_data d'' = bolt_data d ∧ ¬ commits d'';
}.

(** ** [FileStorageBackend] *)

Section file_backend.
Context {D : Type} `{Bolt D}.

Record FileStorageBackend := mkFileBackend { fb_db : D; fb_closed : bool }.

(** [NewFileStorageBackend]: [dir] is the outcome of [os.Mkdir], where an existing
    directory is no error, and [opened] that of [bolt.Open] *)
Definition NewFileStorageBackend (dir : bool) (opened : result storage_error D)
    : result storage_error FileStorageBackend :=
  if dir then d ← opened; Ok (mkFileBackend d false) else Err ErrSetup.

(** [Close] leaves [closed] as it is *)
Definition Close (s : FileStorageBackend) : result storage_error unit * FileStorageBackend :=
  if fb_closed s then (Ok tt, s)
  else let '(r, d) := db_Close (fb_db s) in (r, mkFileBackend d (fb_closed s)).

(** an error of one entry is logged *)
Definition put_entry (t : EntryType) (d : D) (e : BackendEntry) : D :=
  match tx_Put t (Key e) (Value e) d with Ok d' => d' | _ => d end.

Definition Put (t : EntryType) (entries : list BackendEntry) (s : FileStorageBackend)
    : result storage_error unit * FileStorageBackend :=
  if fb_closed s then (Err ErrShutdown, s)
  else
    let '(r, d) := db_Batch (λ d, d ← tx_CreateBucketIfNotExists t d; Ok (foldl (put_entry t) d entries)) (fb_db s) in
    (r, mkFileBackend d (fb_closed s)).

(** a bucket that does not exist is nil, and reading from it panics *)
Definition Get (t : EntryType) (keys : list string) (s : FileStorageBackend)
    : result storage_error (list (string * option (list Z))) * FileStorageBackend :=
  if fb_closed s then (Err ErrShutdown, s)
  else if bool_decide (keys ≠ []) && negb (tx_Bucket t (fb_db s)) then (Panic, s)
  else (Ok ((λ k, (k, tx_Get t k (fb_db s))) <$> keys), s).

Definition delete_key (t : EntryType) (d : D) (k : string) : D :=
  match tx_Delete t k d with Ok d' => d' | _ => d end.

(** the error of the transaction is dropped *)
Definition Delete (t : EntryType) (keys : list string) (s : FileStorageBackend)
    : result storage_error unit * FileStorageBackend :=
  if fb_closed s then (Err ErrShutdown, s)
  else
    let '(r, d) := db_Batch (λ d,
        if bool_decide (keys ≠ []) && negb (tx_Bucket t d) then Panic
        else Ok (foldl (delete_key t) d keys)) (fb_db s) in
    (match r with Panic => Panic | _ => Ok tt end, mkFileBackend d (fb_closed s)).

(** the entries are collected while the transaction runs *)
Definition List (t : EntryType) (s : FileStorageBackend)
    : result storage_error (list BackendEntry) * FileStorageBackend :=
  if fb_closed s then (Err ErrShutdown, s)
  else
    let create := tx_CreateBucketIfNotExists t in
    let entries := match create (fb_db s) with
                   | Ok d => (λ e, mkBackendEntry e.1 e.2) <$> tx_ForEach t d
                   | _ => []
                   end in
    let '(r, d) := db_Batch create (fb_db s) in
    (match r with Ok _ => Ok entries | Err e => Err e | Panic => Panic end, mkFileBackend d (fb_closed s)).

#[export] Instance file_backend : Backend FileStorageBackend :=
  {| b_Put := Put; b_Get := Get; b_Delete := Delete; b_List := List |}.
End file_backend.
Arguments FileStorageBackend D : clear implicits.

Section file_backend_laws.
Context {D : Type} `{BoltLaws D}.

Lemma put_entries_ok t es d m : bolt_data d !! t = Some m → Forall storable es →
  bolt_data (foldl (put_entry t) d es) = <[t := put_all es m]> (bolt_data d).
Proof.
  revert d m. induction es as [|e es IH]; intros d m Hm Hes; cbn.
  { by rewrite insert_id. }
  apply Forall_cons in Hes as [He Hes]. destruct (tx_Put_ok t d m e Hm He) as (d' & E & Hd').
  unfold put_entry at 2. rewrite E. rewrite (IH d' (<[Key e := Value e]> m)); [|by rewrite Hd', lookup_insert_eq|done].
  by rewrite Hd', insert_insert_eq.
Qed.

Lemma delete_keys_ok t ks d m : bolt_data d !! t = Some m →
  bolt_data (foldl (delete_key t) d ks) = <[t := delete_all ks m]> (bolt_data d).
Proof.
  revert d m. induction ks as [|k ks IH]; intros d m Hm; cbn.
  { by rewrite insert_id. }
  destruct (tx_Delete_ok t d m k Hm) as (d' & E & Hd').
  unfold delete_key at 2. rewrite E. rewrite (IH d' (delete k m)); [|by rewrite Hd', lookup_insert_eq].
  by rewrite Hd', insert_insert_eq.
Qed.

Lemma Put_batch t es d : t ≠ ""%string → Forall storable es →
  ∃ d', (d ← tx_CreateBucketIfNotExists t d; Ok (foldl (put_entry t) d es)) = Ok d' ∧
    bolt_data d' = <[t := put_all es (default ∅ (bolt_data d !! t))]> (bolt_data d).
Proof.
  intros Ht Hes. destruct (tx_create_ok t d Ht) as (d1 & -> & Hd1). cbn. eexists. split; [done|].
  erewrite put_entries_ok; [|by rewrite Hd1, lookup_insert_eq|done]. by rewrite Hd1, insert_insert_eq.
Qed.

#[export] Program Instance file_backend_laws : BackendLaws (FileStorageBackend D) :=
  {| b_data s := bolt_data (fb_db s); sound s := fb_closed s = false ∧ commits (fb_db s) |}.
Next Obligation.
  intros t es [d cl] [Hcl Hc] Ht Hes. cbn in *. subst cl.
  destruct (Put_batch t es d) as (d' & E & Hd'); [done..|].
  destruct (db_Batch_ok (λ d, d ← tx_CreateBucketIfNotExists t d; Ok (foldl (put_entry t) d es)) d d' Hc E) as (d'' & E' & Hd'' & Hc').
  unfold Put. cbn [fb_closed fb_db]. rewrite E'. eexists. split; [done|]. cbn. split; [done|]. by rewrite Hd''.
Qed.
Next Obligation.
  intros t ks [d cl] m [Hcl Hc] Hm. cbn in *. subst cl. unfold Delete. cbn [fb_closed fb_db].
  match goal with |- context [db_Batch ?f d] => set (g := f) end.
  destruct (db_Batch_ok g d (foldl (delete_key t) d ks) Hc) as (d'' & E' & Hd'' & Hc').
  { unfold g. rewrite tx_Bucket_spec, Hm, (bool_decide_true (is_Some (Some m))) by done.
    cbn [negb]. by rewrite andb_false_r. }
  rewrite E'. eexists. split; [done|]. cbn. rewrite Hd''. split; [done|]. by apply delete_keys_ok.
Qed.
Next Obligation.
  intros t [d cl] [Hcl Hc] Ht m. cbn in *. subst cl. unfold List. cbn [fb_closed fb_db].
  destruct (tx_create_ok t d Ht) as (d1 & E & Hd1). rewrite E.
  destruct (db_Batch_ok (tx_CreateBucketIfNotExists t) d d1 Hc E) as (d'' & E' & Hd'' & Hc'). rewrite E'.
  eexists _, _. split; [done|]. cbn. rewrite Hd'', Hd1. split_and!; [done..|].
  rewrite <- list_fmap_compose. cbn. rewrite (list_fmap_ext _ id) by (by intros ? []). rewrite list_fmap_id.
  apply tx_ForEach_spec. by rewrite Hd1, lookup_insert_eq.
Qed.
End file_backend_laws.

(** ** A finite map as a database *)

Record map_bolt := mkMapBolt { mb_data : buckets; mb_commits : bool }.

#[export] Instance map_bolt_ops : Bolt map_bolt := {|
  tx_CreateBucketIfNotExists t d :=
    if decide (t = ""%string) then Err ErrBolt
    else Ok (mkMapBolt (<[t := default ∅ (mb_data d !! t)]> (mb_data d)) (mb_commits d));
  tx_Bucket t d := bool_decide (is_Some (mb_data d !! t));
  tx_Put t k v d :=
    match mb_data d !! t with
    | Some m => if decide (storable (mkBackendEntry k v)) then Ok (mkMapBolt (<[t := <[k := v]> m]> (mb_data d)) (mb_commits d))
                else Err ErrBolt
    | None => Err ErrBolt
    end;
  tx_Get t k d := mb_data d !! t ≫= λ m, m !! k;
  tx_Delete t k d :=
    match mb_data d !! t with
    | Some m => Ok (mkMapBolt (<[t := delete k m]> (mb_data d)) (mb_commits d))
    | None => Err ErrBolt
    end;
  tx_ForEach t d := map_to_list (default ∅ (mb_data d !! t));
  db_Batch f d :=
    match f d with
    | Ok d' => if mb_commits d then (Ok tt, mkMapBolt (mb_data d') true) else (Err ErrBolt, d)
    | Err e => (Err e, d)
    | Panic => (Panic, d)
    end;
  db_Close d := (Ok tt, d);
|}.

#[export] Program Instance map_bolt_laws : BoltLaws map_bolt :=
  {| bolt_data := mb_data; commits d := mb_commits d = true |}.
Next Obligation. intros t d Ht. cbn. rewrite decide_False by done. by eexists. Qed.
Next Obligation. done. Qed.
Next Obligation. intros t d m [k v] Hm Hs. cbn. rewrite Hm, decide_True by done. by eexists. Qed.
Next Obligation.
  intros t v d. cbn. destruct (mb_data d !! t); [|by eexists]. rewrite decide_False; [by eexists|]. by intros [Hk _].
Qed.
Next Obligation. intros t d m k Hm. cbn. by rewrite Hm. Qed.
Next Obligation. intros t d m k Hm. cbn. rewrite Hm. by eexists. Qed.
Next Obligation. intros t d m Hm. cbn. by rewrite Hm. Qed.
Next Obligation. intros f d d' Hc E. cbn. rewrite E, Hc. by eexists. Qed.
Next Obligation. intros f d E. cbn. by rewrite E. Qed.
Next Obligation.
  intros f d d' Hc%not_true_iff_false E. cbn. rewrite E, Hc. eexists _, _. split_and!; [done..|]. by rewrite Hc.
Qed.
