(* ===== verification/Storage.v ===== *)
(** * The registry's storage: [registry/storage]

    Every record is kept twice: in the in-memory database and, marshalled, in the
    backend.  A method changes the memory in a transaction that is committed or
    aborted as a whole, and then the backend.  The five tables and their indexes
    are those of [setupMemDB]. *)

From S2P Require Import Prelude GoSort Messages MemDB Backend.

(** ** Schemas *)

Definition defaultFilesTableName : string := "__files".
Definition defaultBlocksTableName : string := "__blocks".
Definition defaultRolesTableName : string := "__roles".
Definition defaultTokensTableName : string := "__tokens".
Definition defaultPoliciesTableName : string := "__policies".

Definition EntryTypeFile : EntryType := "file".
Definition EntryTypeBlock : EntryType := "block".
Definition EntryTypeRole : EntryType := "role".
Definition EntryTypeToken : EntryType := "token".
Definition EntryTypePolicy : EntryType := "policy".

Definition files_schema : TableSchema FileInfo :=
  [("id"%string, mkIndex false true File_Id); ("path"%string, mkIndex false true File_Path);
   ("parent_id"%string, mkIndex false false File_ParentID)].
Definition blocks_schema : TableSchema BlockInfo :=
  [("id"%string, mkIndex false true Block_Id); ("file_id"%string, mkIndex false false Block_FileID)].
Definition roles_schema : TableSchema Role :=
  [("id"%string, mkIndex false true Role_ID); ("name"%string, mkIndex false true Role_Name)].
Definition tokens_schema : TableSchema Token :=
  [("id"%string, mkIndex false true Token_Id); ("accessor"%string, mkIndex false true Token_Accessor)].
Definition policies_schema : TableSchema Policy :=
  [("id"%string, mkIndex false true Policy_Id); ("name"%string, mkIndex false true Policy_Name)].

(** the tables of the database, one field for each *)
Record DB {T : Type → Type} := mkDB {
  t_files : T FileInfo; t_blocks : T BlockInfo; t_roles : T Role; t_tokens : T Token; t_policies : T Policy;
}.
Arguments DB T : clear implicits.

Record Storage {T : Type → Type} {B : Type} := mkStorage { db : DB T; backend : B; closed : bool }.
Arguments Storage T B : clear implicits.

Section storage.
Context {T : Type → Type} `{MemDB T} {B : Type} `{Backend B} `{RecordCodecs}.
Local Abbreviation S := (Storage T B).
Local Abbreviation SM := (M S storage_error).

Definition with_files (t : T FileInfo) (d : DB T) : DB T := mkDB T t (t_blocks d) (t_roles d) (t_tokens d) (t_policies d).
Definition with_blocks (t : T BlockInfo) (d : DB T) : DB T := mkDB T (t_files d) t (t_roles d) (t_tokens d) (t_policies d).
Definition with_roles (t : T Role) (d : DB T) : DB T := mkDB T (t_files d) (t_blocks d) t (t_tokens d) (t_policies d).
Definition with_tokens (t : T Token) (d : DB T) : DB T := mkDB T (t_files d) (t_blocks d) (t_roles d) t (t_policies d).
Definition with_policies (t : T Policy) (d : DB T) : DB T := mkDB T (t_files d) (t_blocks d) (t_roles d) (t_tokens d) t.

Definition setupMemDB : DB T :=
  mkDB T (t_new files_schema) (t_new blocks_schema) (t_new roles_schema) (t_new tokens_schema) (t_new policies_schema).

(** [SetBackend] *)
Definition SetBackend (b : B) (s : S) : S := if closed s then s else mkStorage T B (db s) b (closed s).

(** a write transaction: commit, or abort on an error *)
Definition txn {A} (f : DB T → result storage_error (A * DB T)) : SM A := λ s,
  match f (db s) with
  | Ok (a, d) => (Ok a, mkStorage T B d (backend s) (closed s))
  | Err e => (Err e, s)
  | Panic => (Panic, s)
  end.

(** a read transaction *)
Definition query {A} (f : DB T → result storage_error A) : SM A := λ s, (f (db s), s).

Definition on_backend {A} (f : B → result storage_error A * B) : SM A := λ s,
  let '(r, b) := f (backend s) in (r, mkStorage T B (db s) b (closed s)).

(** the loop of insertions or deletions of a transaction on one table *)
Fixpoint each {R} (f : R → T R → result storage_error (T R)) (l : list R) (t : T R) : result storage_error (T R) :=
  match l with [] => Ok t | r :: l' => t ← f r t; each f l' t end.

(** ** Files and blocks: [storage_files.go] *)

Definition storeFileInMemory (file : FileInfo) : SM unit :=
  txn (λ d, t ← t_insert file (t_files d); Ok (tt, with_files t d)).

Definition StoreFile (file : FileInfo) : SM unit :=
  _ ← storeFileInMemory file;
  on_backend (b_Put EntryTypeFile [mkBackendEntry (File_Path file) (Marshal_msg file)]).

Definition GetFile (fileID : string) : SM (option FileInfo) := query (λ d, t_first "id" fileID (t_files d)).
Definition GetFileByPath (path : string) : SM (option FileInfo) := query (λ d, t_first "path" path (t_files d)).
Definition GetFilesByParentId (id : string) : SM (list FileInfo) := query (λ d, t_get "parent_id" id (t_files d)).

Definition PutBlocks (blocks : list BlockInfo) : SM unit :=
  _ ← txn (λ d, t ← each t_insert blocks (t_blocks d); Ok (tt, with_blocks t d));
  on_backend (b_Put EntryTypeBlock ((λ b, mkBackendEntry (Block_Id b) (Marshal_msg b)) <$> blocks)).

Definition storeBlockInMemory (block : BlockInfo) : SM unit :=
  txn (λ d, t ← t_insert block (t_blocks d); Ok (tt, with_blocks t d)).

(** an error of the query gives no files *)
Definition GetAllFiles : SM (list FileInfo) := λ s,
  match t_list "id" (t_files (db s)) with
  | Ok l => (Ok l, s)
  | Err _ => (Ok [], s)
  | Panic => (Panic, s)
  end.

Definition GetBlocks (fileID : string) : SM (list BlockInfo) :=
  query (λ d, l ← t_get "file_id" fileID (t_blocks d); sort_by Block_Index l).

Definition DeleteFileWithBlocks (file : FileInfo) : SM unit :=
  blocks ← txn (λ d,
    l ← t_get "file_id" (File_Id file) (t_blocks d);
    tb ← each t_delete l (t_blocks d);
    tf ← t_delete file (t_files d);
    Ok (l, with_files tf (with_blocks tb d)));
  _ ← on_backend (b_Delete EntryTypeFile [File_Path file]);
  on_backend (b_Delete EntryTypeBlock (Block_Id <$> blocks)).

Definition DeleteFile (file : FileInfo) : SM unit :=
  _ ← txn (λ d, t ← t_delete file (t_files d); Ok (tt, with_files t d));
  on_backend (b_Delete EntryTypeFile [File_Path file]).

Definition DeleteBlocks (blocks : list BlockInfo) : SM unit :=
  _ ← txn (λ d, t ← each t_delete blocks (t_blocks d); Ok (tt, with_blocks t d));
  on_backend (b_Delete EntryTypeBlock (Block_Id <$> blocks)).

(** ** Policies: [storage_policy.go] *)

Definition storePolicyInMemory (p : Policy) : SM unit :=
  txn (λ d, t ← t_insert p (t_policies d); Ok (tt, with_policies t d)).
Definition StorePolicy (p : Policy) : SM unit :=
  _ ← storePolicyInMemory p; on_backend (b_Put EntryTypePolicy [mkBackendEntry (Policy_Name p) (Marshal_msg p)]).
Definition GetPolicy (name : string) : SM (option Policy) := query (λ d, t_first "name" name (t_policies d)).
Definition ListPolicies : SM (list Policy) := query (λ d, t_list "name" (t_policies d)).
Definition DeletePolicy (p : Policy) : SM unit :=
  _ ← txn (λ d, t ← t_delete p (t_policies d); Ok (tt, with_policies t d));
  on_backend (b_Delete EntryTypePolicy [Policy_Name p]).

(** ** Roles and tokens: [storage_auth.go] *)

Definition storeRoleInMemory (role : Role) : SM unit :=
  txn (λ d, t ← t_insert role (t_roles d); Ok (tt, with_roles t d)).
Definition StoreRole (role : Role) : SM unit :=
  _ ← storeRoleInMemory role; on_backend (b_Put EntryTypeRole [mkBackendEntry (Role_ID role) (Marshal_msg role)]).
Definition GetRole (name : string) : SM (option Role) := query (λ d, t_first "name" name (t_roles d)).
Definition GetRoleByID (roleID : string) : SM (option Role) := query (λ d, t_first "id" roleID (t_roles d)).
Definition DeleteRole (role : Role) : SM unit :=
  _ ← txn (λ d, t ← t_delete role (t_roles d); Ok (tt, with_roles t d));
  on_backend (b_Delete EntryTypeRole [Role_ID role]).

Definition storeTokenInMemory (token : Token) : SM unit :=
  txn (λ d, t ← t_insert token (t_tokens d); Ok (tt, with_tokens t d)).
Definition StoreToken (token : Token) : SM unit :=
  _ ← storeTokenInMemory token; on_backend (b_Put EntryTypeToken [mkBackendEntry (Token_Id token) (Marshal_msg token)]).
(** the accessor is looked up in the index of the identifiers *)
Definition GetToken (accessor : string) : SM (option Token) := query (λ d, t_first "id" accessor (t_tokens d)).
Definition GetAllRoleTokens (roleID : string) : SM (list Token) := query (λ d, t_get "role_id" roleID (t_tokens d)).
Definition ListTokens : SM (list Token) := query (λ d, t_list "id" (t_tokens d)).
Definition RevokeToken (token : Token) : SM unit :=
  _ ← txn (λ d, t ← t_delete token (t_tokens d); Ok (tt, with_tokens t d));
  on_backend (b_Delete EntryTypeToken [Token_Id token]).

(** ** Starting: [storage.go] *)

(** one loop of [loadFromBackend]: an entry that does not unmarshal, or that the
    memory refuses, is skipped *)
Definition load_entries {R} `{Codec R} (t : EntryType) (store : R → SM unit) : SM unit :=
  entries ← on_backend (b_List t);
  for_each entries (λ e, match Unmarshal_msg (Value e) with
                         | Some r => ignore_err (store r)
                         | None => mret tt
                         end).

Definition loadFromBackend : SM unit :=
  _ ← load_entries EntryTypeFile storeFileInMemory;
  _ ← load_entries EntryTypeBlock storeBlockInMemory;
  _ ← load_entries EntryTypeRole storeRoleInMemory;
  _ ← load_entries EntryTypeToken storeTokenInMemory;
  load_entries EntryTypePolicy storePolicyInMemory.

(** [NewStorage], with the outcome of [NewFileStorageBackend] *)
Definition NewStorage (opened : result storage_error B) : result storage_error S :=
  match opened with
  | Ok b => match loadFromBackend (mkStorage T B setupMemDB b false) with
            | (Ok _, s) => Ok s
            | (Err e, _) => Err e
            | (Panic, _) => Panic
            end
  | Err e => Err e
  | Panic => Panic
  end.
End storage.
