(* ===== verification/StorageSpec.v ===== *)
(** * The storage against its specification

    Five finite maps, one for each table, are what the storage promises to keep.
    [stands] relates the storage to them: the in-memory tables have exactly these
    rows, and the bucket of a table in the backend is the image of its rows under
    the key and the marshalling the code writes.  Every operation keeps the
    relation, and a restart, which rebuilds the memory from the backend, finds it
    again. *)

From S2P Require Import Prelude GoSort Messages MemDB Backend Storage.

(** ** The tables as one family *)

Inductive kind := KFile | KBlock | KRole | KToken | KPolicy.

#[export] Instance kind_eq_dec : EqDecision kind.
Proof. solve_decision. Defined.

Definition rec (k : kind) : Type :=
  match k with KFile => FileInfo | KBlock => BlockInfo | KRole => Role | KToken => Token | KPolicy => Policy end.

Definition sch (k : kind) : TableSchema (rec k) :=
  match k with
  | KFile => files_schema | KBlock => blocks_schema | KRole => roles_schema
  | KToken => tokens_schema | KPolicy => policies_schema
  end.
Definition typ (k : kind) : EntryType :=
  match k with
  | KFile => EntryTypeFile | KBlock => EntryTypeBlock | KRole => EntryTypeRole
  | KToken => EntryTypeToken | KPolicy => EntryTypePolicy
  end.
(** the key of a record in its bucket *)
Definition key (k : kind) : rec k → string :=
  match k with
  | KFile => File_Path | KBlock => Block_Id | KRole => Role_ID | KToken => Token_Id | KPolicy => Policy_Name
  end.

Lemma typ_inj k k' : typ k = typ k' → k = k'.
Proof. by destruct k, k'. Qed.
Lemma typ_nonempty k : typ k ≠ ""%string.
Proof. by destruct k. Qed.

(** the abstract state *)
Record meta := mkMeta {
  m_files : gmap string FileInfo; m_blocks : gmap string BlockInfo; m_roles : gmap string Role;
  m_tokens : gmap string Token; m_policies : gmap string Policy;
}.
Definition no_meta : meta := mkMeta ∅ ∅ ∅ ∅ ∅.

Definition mget (k : kind) : meta → gmap string (rec k) :=
  match k with
  | KFile => m_files | KBlock => m_blocks | KRole => m_roles | KToken => m_tokens | KPolicy => m_policies
  end.
Definition mset (k : kind) : gmap string (rec k) → meta → meta :=
  match k with
  | KFile => λ m μ, mkMeta m (m_blocks μ) (m_roles μ) (m_tokens μ) (m_policies μ)
  | KBlock => λ m μ, mkMeta (m_files μ) m (m_roles μ) (m_tokens μ) (m_policies μ)
  | KRole => λ m μ, mkMeta (m_files μ) (m_blocks μ) m (m_tokens μ) (m_policies μ)
  | KToken => λ m μ, mkMeta (m_files μ) (m_blocks μ) (m_roles μ) m (m_policies μ)
  | KPolicy => λ m μ, mkMeta (m_files μ) (m_blocks μ) (m_roles μ) (m_tokens μ) m
  end.

Lemma mget_mset k m μ : mget k (mset k m μ) = m.
Proof. by destruct k. Qed.
Lemma mget_mset_ne k k' m μ : k ≠ k' → mget k' (mset k m μ) = mget k' μ.
Proof. by destruct k, k'. Qed.

Section tables.
Context {T : Type → Type}.

Definition table (k : kind) : DB T → T (rec k) :=
  match k with
  | KFile => t_files | KBlock => t_blocks | KRole => t_roles | KToken => t_tokens | KPolicy => t_policies
  end.
Definition with_table (k : kind) : T (rec k) → DB T → DB T :=
  match k with
  | KFile => with_files | KBlock => with_blocks | KRole => with_roles
  | KToken => with_tokens | KPolicy => with_policies
  end.

Lemma table_with k t d : table k (with_table k t d) = t.
Proof. by destruct k. Qed.
Lemma table_with_ne k k' t d : k ≠ k' → table k' (with_table k t d) = table k' d.
Proof. by destruct k, k'. Qed.
Lemma with_table_twice k t t' d : with_table k t (with_table k t' d) = with_table k t d.
Proof. by destruct k. Qed.
End tables.

(** ** Rows and their bucket *)

Section rows.
Context `{RecordCodecs}.

Definition codec (k : kind) : Codec (rec k) :=
  match k with
  | KFile => codec_File | KBlock => codec_Block | KRole => codec_Role
  | KToken => codec_Token | KPolicy => codec_Policy
  end.
#[local] Existing Instance codec.

Definition entry (k : kind) (r : rec k) : BackendEntry := mkBackendEntry (key k r) (Marshal_msg r).
Definition pid (k : kind) (r : rec k) : string := primary (sch k) r.

(** what is true of the rows of a table *)
Record wf_rows (k : kind) (m : gmap string (rec k)) : Prop := {
  wf_pid : ∀ i r, m !! i = Some r → pid k r = i;
  wf_complete : ∀ i r, m !! i = Some r → complete (sch k) r;
  wf_storable : ∀ i r, m !! i = Some r → storable (entry k r);
  wf_distinct : Forall (λ e : string * IndexSchema (rec k), distinct e.2 m) (sch k);
}.

(** a record that the table can take: it is complete, no other row has its value of
    a unique index, and the row it replaces has the same key *)
Definition admissible (k : kind) (m : gmap string (rec k)) (r : rec k) : Prop :=
  complete (sch k) r ∧ storable (entry k r) ∧
  Forall (λ e : string * IndexSchema (rec k), ix_Unique e.2 = true →
    map_Forall (λ i r', ix_Field e.2 r' = ix_Field e.2 r → i = pid k r) m) (sch k) ∧
  (∀ r', m !! pid k r = Some r' → key k r' = key k r).

Definition bucket_of (k : kind) (m : gmap string (rec k)) : gmap string (list Z) :=
  list_to_map ((λ r, (key k r, Marshal_msg r)) <$> (map_to_list m).*2).

(** the key is the value of a unique index *)
Lemma key_index k : ∃ name ix, (name, ix) ∈ sch k ∧ ix_Unique ix = true ∧ ix_Field ix = key k.
Proof.
  destruct k;
    [exists "path"%string, (mkIndex false true File_Path)|exists "id"%string, (mkIndex false true Block_Id)
    |exists "id"%string, (mkIndex false true Role_ID)|exists "id"%string, (mkIndex false true Token_Id)
    |exists "name"%string, (mkIndex false true Policy_Name)];
    (split; [in_schema|done]).
Qed.

Lemma key_inj k m i j r r' : wf_rows k m → m !! i = Some r → m !! j = Some r' → key k r = key k r' → i = j.
Proof.
  intros Hw Hi Hj Hk. destruct (key_index k) as (name & ix & Hin & Hu & Hf).
  pose proof (wf_distinct _ _ Hw) as Hd. rewrite Forall_forall in Hd.
  eapply (Hd (name, ix) Hin Hu); [done..|]. cbn. by rewrite Hf.
Qed.

Lemma bucket_keys_nodup k m : wf_rows k m → NoDup ((λ r, (key k r, Marshal_msg r)) <$> (map_to_list m).*2).*1.
Proof.
  intros Hw. rewrite <- !list_fmap_compose. cbn.
  apply NoDup_fmap_2_strong; [|apply NoDup_map_to_list].
  intros [i r] [j r'] Hi%elem_of_map_to_list Hj%elem_of_map_to_list Hk. cbn in *.
  assert (i = j) as <- by (eapply key_inj; eauto). congruence.
Qed.

Lemma lookup_bucket_of k m key' v : wf_rows k m →
  bucket_of k m !! key' = Some v ↔ ∃ i r, m !! i = Some r ∧ key k r = key' ∧ Marshal_msg r = v.
Proof.
  intros Hw. unfold bucket_of. rewrite <- elem_of_list_to_map by by apply bucket_keys_nodup.
  rewrite list_elem_of_fmap. split.
  - intros (r & [= -> ->] & ([i r'] & -> & Hi)%list_elem_of_fmap). apply elem_of_map_to_list in Hi. eauto.
  - intros (i & r & Hi & <- & <-). exists r. split; [done|]. apply list_elem_of_fmap. exists (i, r).
    split; [done|]. by apply elem_of_map_to_list.
Qed.

Lemma wf_rows_insert k m r : wf_rows k m → admissible k m r → wf_rows k (<[pid k r := r]> m).
Proof.
  intros Hw (Hc & Hs & Hu & _). split.
  - intros i r' [[<- <-]|[_ Hi]]%lookup_insert_Some; [done|]. by apply (wf_pid _ _ Hw).
  - intros i r' [[<- <-]|[_ Hi]]%lookup_insert_Some; [done|]. by apply (wf_complete _ _ Hw i).
  - intros i r' [[<- <-]|[_ Hi]]%lookup_insert_Some; [done|]. by apply (wf_storable _ _ Hw i).
  - pose proof (wf_distinct _ _ Hw) as Hd. rewrite Forall_forall in Hd, Hu |- *.
    intros e He Hun i j r1 r2 Hi Hj Hf. specialize (Hu e He Hun).
    apply lookup_insert_Some in Hi as [[<- <-]|[Hi1 Hi]], Hj as [[<- <-]|[Hj1 Hj]]; [done| | |].
    + symmetry. eapply Hu; [exact Hj|done].
    + eapply Hu; [exact Hi|done].
    + by eapply (Hd e He Hun).
Qed.

Lemma wf_rows_delete k m i : wf_rows k m → wf_rows k (delete i m).
Proof.
  intros Hw. split.
  - intros j r [_ Hj]%lookup_delete_Some. by apply (wf_pid _ _ Hw).
  - intros j r [_ Hj]%lookup_delete_Some. by apply (wf_complete _ _ Hw j).
  - intros j r [_ Hj]%lookup_delete_Some. by apply (wf_storable _ _ Hw j).
  - pose proof (wf_distinct _ _ Hw) as Hd. rewrite Forall_forall in Hd |- *.
    intros e He Hun j1 j2 r1 r2 [_ H1]%lookup_delete_Some [_ H2]%lookup_delete_Some.
    by apply (Hd e He Hun).
Qed.

Lemma bucket_insert k m r : wf_rows k m → admissible k m r →
  <[key k r := Marshal_msg r]> (bucket_of k m) = bucket_of k (<[pid k r := r]> m).
Proof.
  intros Hw Ha. pose proof (wf_rows_insert k m r Hw Ha) as Hw'. destruct Ha as (_ & _ & Hu & Hr).
  apply map_eq. intros k'. apply option_eq. intros v.
  rewrite (lookup_bucket_of k _ k' v Hw'), lookup_insert_Some, (lookup_bucket_of k _ k' v Hw). split.
  - intros [[<- <-]|[Hne (i & r' & Hi & <- & <-)]].
    + exists (pid k r), r. by rewrite lookup_insert_eq.
    + exists i, r'. split; [|done]. rewrite lookup_insert_ne; [done|]. intros <-. by rewrite (Hr r' Hi) in Hne.
  - intros (i & r' & [[<- <-]|[Hne Hi]]%lookup_insert_Some & <- & <-); [by left|].
    right. split; [|eauto]. intros Hk. destruct (key_index k) as (name & ix & Hin & Hun & Hf).
    rewrite Forall_forall in Hu. apply Hne. symmetry. eapply (Hu (name, ix) Hin Hun i r' Hi). cbn. by rewrite Hf.
Qed.

Lemma bucket_delete k m r : wf_rows k m → m !! pid k r = Some r →
  delete (key k r) (bucket_of k m) = bucket_of k (delete (pid k r) m).
Proof.
  intros Hw Hr. apply map_eq. intros k'. apply option_eq. intros v.
  rewrite (lookup_bucket_of k _ k' v (wf_rows_delete k m (pid k r) Hw)), lookup_delete_Some, (lookup_bucket_of k _ k' v Hw). split.
  - intros [Hne (i & r' & Hi & <- & <-)]. exists i, r'. split; [|done]. rewrite lookup_delete_ne; [done|].
    intros <-. rewrite Hr in Hi. by injection Hi as <-.
  - intros (i & r' & [Hne Hi]%lookup_delete_Some & <- & <-). split; [|eauto].
    intros Hk. apply Hne. by eapply key_inj.
Qed.

(** entries that make up a bucket are the entries of its rows *)
Lemma bucket_entries k m l : wf_rows k m → (λ e, (Key e, Value e)) <$> l ≡ₚ map_to_list (bucket_of k m) →
  ∃ rs, l = entry k <$> rs ∧ rs ≡ₚ (map_to_list m).*2.
Proof.
  intros Hw Hl. unfold bucket_of in Hl. rewrite map_to_list_to_map in Hl by by apply bucket_keys_nodup.
  apply Permutation_map_inv in Hl as (rs & Hl & Hp). exists rs. split; [|done].
  apply (list_fmap_eq_inj (λ e, (Key e, Value e))).
  { intros [] []. cbn. congruence. }
  rewrite <- list_fmap_compose. exact Hl.
Qed.
End rows.

(** ** The specification *)

Inductive st_op :=
| OStoreFile (f : FileInfo) | OGetFile (id : string) | OGetFileByPath (path : string)
| OGetFilesByParentId (id : string) | OGetAllFiles | OPutBlocks (l : list BlockInfo) | OGetBlocks (fileID : string)
| ODeleteFileWithBlocks (f : FileInfo) | ODeleteFile (f : FileInfo) | ODeleteBlocks (l : list BlockInfo)
| OStorePolicy (p : Policy) | OGetPolicy (name : string) | OListPolicies | ODeletePolicy (p : Policy)
| OStoreRole (r : Role) | OGetRole (name : string) | OGetRoleByID (id : string) | ODeleteRole (r : Role)
| OStoreToken (t : Token) | OGetToken (accessor : string) | OListTokens | ORevokeToken (t : Token)
| ORestart.

Inductive st_obs :=
| SDone
| SOne (k : kind) (o : option (rec k))
| SMany (k : kind) (l : list (rec k))
| SFailed (e : storage_error)
| SPanic.

Section spec.
Context `{RecordCodecs}.

(** what an operation asks of the records it is given *)
Definition allowed (o : st_op) (μ : meta) : Prop :=
  match o with
  | OStoreFile f => admissible KFile (m_files μ) f
  | OPutBlocks l => Forall (λ b, complete blocks_schema b ∧ storable (entry KBlock b)) l
  | ODeleteFileWithBlocks f | ODeleteFile f => m_files μ !! File_Id f = Some f
  | ODeleteBlocks l => NoDup (Block_Id <$> l) ∧ Forall (λ b, m_blocks μ !! Block_Id b = Some b) l
  | OStorePolicy p => admissible KPolicy (m_policies μ) p
  | ODeletePolicy p => m_policies μ !! Policy_Id p = Some p
  | OStoreRole r => admissible KRole (m_roles μ) r
  | ODeleteRole r => m_roles μ !! Role_ID r = Some r
  | OStoreToken t => admissible KToken (m_tokens μ) t
  | ORevokeToken t => m_tokens μ !! Token_Id t = Some t
  | _ => True
  end.

(** the one row with a value of a unique index, or none *)
Definition answers_one {R} (ix : R → string) (k : string) (m : gmap string R) (o : option R) : Prop :=
  match o with
  | Some r => (∃ i, m !! i = Some r) ∧ ix r = k
  | None => ∀ i r, m !! i = Some r → ix r ≠ k
  end.

Definition add_rows (k : kind) (l : list (rec k)) (m : gmap string (rec k)) : gmap string (rec k) :=
  foldl (λ m r, <[pid k r := r]> m) m l.
Definition drop_rows (k : kind) (l : list (rec k)) (m : gmap string (rec k)) : gmap string (rec k) :=
  foldl (λ m r, delete (pid k r) m) m l.

(** the blocks of a file, in some order *)
Definition blocks_of (fileID : string) (μ : meta) : list BlockInfo :=
  filter (λ b, Block_FileID b = fileID) ((map_to_list (m_blocks μ)).*2).

(** [answers o μ r]: the observation [r] is right for the operation in the state [μ] *)
Definition answers (o : st_op) (μ : meta) (r : st_obs) : Prop :=
  match o with
  | OGetFile id => r = SOne KFile (m_files μ !! id)
  | OGetFileByPath path => ∃ f, r = SOne KFile f ∧ answers_one File_Path path (m_files μ) f
  | OGetFilesByParentId id => ∃ l, r = SMany KFile l ∧ l ≡ₚ filter (λ f, File_ParentID f = id) ((map_to_list (m_files μ)).*2)
  | OGetAllFiles => ∃ l, r = SMany KFile l ∧ l ≡ₚ (map_to_list (m_files μ)).*2
  | OGetBlocks fileID => ∃ l, r = SMany KBlock l ∧ l ≡ₚ blocks_of fileID μ ∧ StronglySorted (key_le Block_Index) l
  | OGetPolicy name => ∃ p, r = SOne KPolicy p ∧ answers_one Policy_Name name (m_policies μ) p
  | OListPolicies => ∃ l, r = SMany KPolicy l ∧ l ≡ₚ (map_to_list (m_policies μ)).*2
  | OGetRole name => ∃ f, r = SOne KRole f ∧ answers_one Role_Name name (m_roles μ) f
  | OGetRoleByID id => r = SOne KRole (m_roles μ !! id)
  | OGetToken accessor => r = SOne KToken (m_tokens μ !! accessor)
  | OListTokens => ∃ l, r = SMany KToken l ∧ l ≡ₚ (map_to_list (m_tokens μ)).*2
  | _ => r = SDone
  end.

(** the state after an operation *)
Definition effect (o : st_op) (μ : meta) : meta :=
  match o with
  | OStoreFile f => mset KFile (<[File_Id f := f]> (m_files μ)) μ
  | OPutBlocks l => mset KBlock (add_rows KBlock l (m_blocks μ)) μ
  | ODeleteFileWithBlocks f =>
      mset KFile (delete (File_Id f) (m_files μ))
        (mset KBlock (filter (λ kv : string * BlockInfo, Block_FileID kv.2 ≠ File_Id f) (m_blocks μ)) μ)
  | ODeleteFile f => mset KFile (delete (File_Id f) (m_files μ)) μ
  | ODeleteBlocks l => mset KBlock (drop_rows KBlock l (m_blocks μ)) μ
  | OStorePolicy p => mset KPolicy (<[Policy_Id p := p]> (m_policies μ)) μ
  | ODeletePolicy p => mset KPolicy (delete (Policy_Id p) (m_policies μ)) μ
  | OStoreRole r => mset KRole (<[Role_ID r := r]> (m_roles μ)) μ
  | ODeleteRole r => mset KRole (delete (Role_ID r) (m_roles μ)) μ
  | OStoreToken t => mset KToken (<[Token_Id t := t]> (m_tokens μ)) μ
  | ORevokeToken t => mset KToken (delete (Token_Id t) (m_tokens μ)) μ
  | _ => μ
  end.

(** a run of the specification: each observation is right in the state reached *)
Fixpoint spec_run (ops : list st_op) (obs : list st_obs) (μ μ' : meta) : Prop :=
  match ops, obs with
  | [], [] => μ' = μ
  | o :: ops', r :: obs' => answers o μ r ∧ spec_run ops' obs' (effect o μ) μ'
  | _, _ => False
  end.

Fixpoint allowed_run (ops : list st_op) (μ : meta) : Prop :=
  match ops with [] => True | o :: ops' => allowed o μ ∧ allowed_run ops' (effect o μ) end.
End spec.

(** ** The code's operations *)

Section code.
Context {T : Type → Type} `{MemDB T} {B : Type} `{Backend B} `{RecordCodecs}.
Local Abbreviation S := (Storage T B).

Definition observe {A} (f : A → st_obs) (m : M S storage_error A) (s : S) : st_obs * S :=
  match m s with (Ok a, s') => (f a, s') | (Err e, s') => (SFailed e, s') | (Panic, s') => (SPanic, s') end.

(** [NewStorage] on the backend a process leaves behind *)
Definition restart (s : S) : st_obs * S :=
  match NewStorage (Ok (backend s)) with Ok s' => (SDone, s') | Err e => (SFailed e, s) | Panic => (SPanic, s) end.

Definition st_step (o : st_op) (s : S) : st_obs * S :=
  let done := λ _ : unit, SDone in
  match o with
  | OStoreFile f => observe done (StoreFile f) s
  | OGetFile id => observe (SOne KFile) (GetFile id) s
  | OGetFileByPath p => observe (SOne KFile) (GetFileByPath p) s
  | OGetFilesByParentId id => observe (SMany KFile) (GetFilesByParentId id) s
  | OGetAllFiles => observe (SMany KFile) GetAllFiles s
  | OPutBlocks l => observe done (PutBlocks l) s
  | OGetBlocks id => observe (SMany KBlock) (GetBlocks id) s
  | ODeleteFileWithBlocks f => observe done (DeleteFileWithBlocks f) s
  | ODeleteFile f => observe done (DeleteFile f) s
  | ODeleteBlocks l => observe done (DeleteBlocks l) s
  | OStorePolicy p => observe done (StorePolicy p) s
  | OGetPolicy n => observe (SOne KPolicy) (GetPolicy n) s
  | OListPolicies => observe (SMany KPolicy) ListPolicies s
  | ODeletePolicy p => observe done (DeletePolicy p) s
  | OStoreRole r => observe done (StoreRole r) s
  | OGetRole n => observe (SOne KRole) (GetRole n) s
  | OGetRoleByID id => observe (SOne KRole) (GetRoleByID id) s
  | ODeleteRole r => observe done (DeleteRole r) s
  | OStoreToken t => observe done (StoreToken t) s
  | OGetToken a => observe (SOne KToken) (GetToken a) s
  | OListTokens => observe (SMany KToken) ListTokens s
  | ORevokeToken t => observe done (RevokeToken t) s
  | ORestart => restart s
  end.

Fixpoint st_run (ops : list st_op) (s : S) : list st_obs * S :=
  match ops with
  | [] => ([], s)
  | o :: ops' => let '(r, s1) := st_step o s in let '(rs, s2) := st_run ops' s1 in (r :: rs, s2)
  end.
End code.

(** ** Lists of rows *)

Section row_lists.
Context `{RecordCodecs}.
#[local] Existing Instance codec.

Lemma add_rows_wf k l m : wf_rows k m →
  (∀ m', wf_rows k m' → Forall (admissible k m') l) →
  wf_rows k (add_rows k l m) ∧ put_all (entry k <$> l) (bucket_of k m) = bucket_of k (add_rows k l m).
Proof.
  revert m. induction l as [|r l IH]; intros m Hw Ha; [done|]. cbn.
  pose proof (Ha m Hw) as [Hr _]%Forall_cons. rewrite bucket_insert by done.
  apply (IH (<[pid k r := r]> m)); [by apply wf_rows_insert|].
  intros m' Hw'. by apply Ha, Forall_cons in Hw' as [_ ?].
Qed.

Lemma drop_rows_lookup k l m i : drop_rows k l m !! i = if decide (i ∈ pid k <$> l) then None else m !! i.
Proof.
  revert m. induction l as [|r l IH]; intros m; cbn.
  { by rewrite decide_False by apply not_elem_of_nil. }
  fold (drop_rows k l (delete (pid k r) m)). rewrite IH.
  destruct (decide (i ∈ pid k <$> l)) as [Hi|Hi].
  { by rewrite decide_True by by apply list_elem_of_further. }
  destruct (decide (i = pid k r)) as [->|Hne].
  - rewrite decide_True by apply list_elem_of_here. by rewrite lookup_delete_eq.
  - rewrite decide_False by (intros [?|?]%elem_of_cons; done). by rewrite lookup_delete_ne.
Qed.

Lemma drop_rows_wf k l m : wf_rows k m → NoDup (pid k <$> l) → Forall (λ r, m !! pid k r = Some r) l →
  wf_rows k (drop_rows k l m) ∧ delete_all (key k <$> l) (bucket_of k m) = bucket_of k (drop_rows k l m).
Proof.
  revert m. induction l as [|r l IH]; intros m Hw Hnd Hl; [done|].
  apply NoDup_cons in Hnd as [Hni Hnd]. apply Forall_cons in Hl as [Hr Hl]. cbn. rewrite bucket_delete by done. apply (IH (delete (pid k r) m)); [by apply wf_rows_delete|done|].
  rewrite Forall_forall in Hl |- *. intros r' Hr'. rewrite lookup_delete_ne; [by apply Hl|].
  intros E. apply Hni. rewrite E. by apply list_elem_of_fmap_2.
Qed.

(** removing the rows with a value of an index is a filter *)
Lemma drop_having k (ix : IndexSchema (rec k)) v l m : wf_rows k m → l ≡ₚ having ix v m →
  NoDup (pid k <$> l) ∧ Forall (λ r, m !! pid k r = Some r) l ∧
  drop_rows k l m = filter (λ kv : string * rec k, ix_Field ix kv.2 ≠ v) m.
Proof.
  intros Hw Hl. split_and!.
  - rewrite Hl. unfold having.
    assert (NoDup (pid k <$> (map_to_list m).*2)) as Hnd.
    { rewrite <- list_fmap_compose. rewrite (list_fmap_ext _ fst).
      - apply NoDup_fst_map_to_list.
      - intros n [i r] Hn. cbn. apply (wf_pid _ _ Hw). apply elem_of_map_to_list. by eapply list_elem_of_lookup_2. }
    fold (having ix v m). apply NoDup_fmap_2_strong; [|by apply NoDup_filter, (NoDup_fmap_1 (pid k))].
    intros r r' [[i Hi] _]%elem_of_having [[j Hj] _]%elem_of_having E.
    rewrite (wf_pid _ _ Hw i r Hi), (wf_pid _ _ Hw j r' Hj) in E. congruence.
  - rewrite Hl. apply Forall_forall. intros r [[i Hi] _]%elem_of_having. by rewrite (wf_pid _ _ Hw i r Hi).
  - apply map_eq. intros i. rewrite drop_rows_lookup. apply option_eq. intros r.
    rewrite map_lookup_filter_Some. cbn. case_decide as Hi.
    + split; [done|]. intros [Hm Hv]. exfalso. apply list_elem_of_fmap in Hi as (r' & -> & Hr'). rewrite Hl in Hr'.
      apply elem_of_having in Hr' as [[j Hj] Hv']. rewrite (wf_pid _ _ Hw j r' Hj) in Hm. congruence.
    + split; [|tauto]. intros Hm. split; [done|]. intros Hv. apply Hi. apply list_elem_of_fmap.
      exists r. split; [by rewrite (wf_pid _ _ Hw i r Hm)|]. rewrite Hl. apply elem_of_having. eauto.
Qed.

Lemma no_meta_wf k : wf_rows k (mget k no_meta).
Proof.
  assert (mget k no_meta = ∅) as -> by by destruct k.
  split; try (intros i r Hi; by rewrite lookup_empty in Hi).
  apply Forall_forall. intros e _ _ i j r r' Hi. by rewrite lookup_empty in Hi.
Qed.

Lemma empty_admissible k r : complete (sch k) r → storable (entry k r) → admissible k ∅ r.
Proof.
  intros Hc Hs. split_and!; [done..| |].
  - apply Forall_forall. intros e _ _ i r' Hi. by rewrite lookup_empty in Hi.
  - intros r' Hr'. by rewrite lookup_empty in Hr'.
Qed.

Lemma block_admissible m b : wf_rows KBlock m → complete blocks_schema b → storable (entry KBlock b) →
  admissible KBlock m b.
Proof.
  intros Hw Hc Hs. split_and!; [done..| |].
  - repeat constructor; cbn; [|done]. intros _ i r Hi Hf. cbn in Hf. rewrite <- (wf_pid _ _ Hw i r Hi). exact Hf.
  - intros r' Hr'. exact (wf_pid _ _ Hw _ _ Hr').
Qed.
End row_lists.

(** ** The relation, and that every operation keeps it *)

Section refinement.
Context {T : Type → Type} `{MemDBLaws T} {B : Type} `{BackendLaws B} `{RecordCodecs}.
Local Abbreviation S := (Storage T B).
#[local] Existing Instance codec.

Lemma on_backend_eq {A} (f : B → result storage_error A * B) (s : S) r b :
  f (backend s) = (r, b) → on_backend f s = (r, mkStorage T B (db s) b (closed s)).
Proof using. unfold on_backend. by intros ->. Qed.

Record table_stands (k : kind) (t : T (rec k)) (b : B) (m : gmap string (rec k)) : Prop := {
  ts_schema : schema t = sch k;
  ts_rows : rows t = m;
  ts_wf : wf_rows k m;
  ts_bucket : b_data b !! typ k = Some (bucket_of k m);
}.

Definition stands (s : S) (μ : meta) : Prop :=
  sound (backend s) ∧ ∀ k, table_stands k (table k (db s)) (backend s) (mget k μ).

Lemma stands_update k t m b s μ :
  stands s μ → schema t = sch k → rows t = m → wf_rows k m → sound b →
  b_data b = <[typ k := bucket_of k m]> (b_data (backend s)) →
  stands (mkStorage T B (with_table k t (db s)) b (closed s)) (mset k m μ).
Proof.
  intros [_ Hs] Hsch Hr Hw Hb Hd. split; [done|]. intros k'. cbn [db backend].
  destruct (decide (k = k')) as [<-|Hne].
  - rewrite table_with, mget_mset. split; [done..|]. by rewrite Hd, lookup_insert_eq.
  - rewrite table_with_ne, mget_mset_ne by done. destruct (Hs k'). split; [done..|].
    rewrite Hd, lookup_insert_ne; [done|]. by intros ->%typ_inj.
Qed.

(** *** Insertion *)

Definition put_rows (k : kind) (rs : list (rec k)) : M S storage_error unit :=
  _ ← txn (λ d, t ← each t_insert rs (table k d); Ok (tt, with_table k t d));
  on_backend (b_Put (typ k) (entry k <$> rs)).

Lemma each_insert k rs t m : schema t = sch k → rows t = m → Forall (complete (sch k)) rs →
  ∃ t', each t_insert rs t = Ok t' ∧ schema t' = sch k ∧ rows t' = add_rows k rs m.
Proof.
  revert t m. induction rs as [|r rs IH]; intros t m Hsch Hr Hc; [by exists t|].
  apply Forall_cons in Hc as [Hc Hcs]. rewrite <- Hsch in Hc.
  destruct (t_insert_ok _ r t Hc) as (t1 & E & Hr1 & Hs1). cbn. rewrite E. cbn.
  apply IH; [by rewrite Hs1|by rewrite Hr1, Hr, Hsch|done].
Qed.

Lemma put_rows_ok k rs s μ : stands s μ → Forall (complete (sch k)) rs → Forall storable (entry k <$> rs) →
  (∀ m, wf_rows k m → Forall (admissible k m) rs) ∨ (∃ r, rs = [r] ∧ admissible k (mget k μ) r) →
  ∃ s', put_rows k rs s = (Ok tt, s') ∧ stands s' (mset k (add_rows k rs (mget k μ)) μ).
Proof.
  intros Hs Hc Hst Ha. pose proof Hs as [Hsd Hk]. destruct (Hk k) as [Hsch Hr Hw Hb].
  assert (wf_rows k (add_rows k rs (mget k μ)) ∧
    put_all (entry k <$> rs) (bucket_of k (mget k μ)) = bucket_of k (add_rows k rs (mget k μ))) as [Hw' Hp].
  { destruct Ha as [Ha|(r & -> & Ha)]; [by apply add_rows_wf|].
    split; [by apply wf_rows_insert|]. by apply bucket_insert. }
  destruct (each_insert k rs _ _ Hsch Hr Hc) as (t' & E & Hsch' & Hr').
  destruct (b_Put_ok (typ k) (entry k <$> rs) (backend s) Hsd (typ_nonempty k) Hst) as (b' & Eb & Hsd' & Hd).
  eexists. split.
  - unfold put_rows. erewrite bind_ok by (unfold txn; by rewrite E). unfold on_backend. cbn [backend].
    rewrite Eb. reflexivity.
  - apply (stands_update k t' _ b' s μ); try done. by rewrite Hd, Hb, <- Hp.
Qed.

(** one record *)
Definition put_row (k : kind) (r : rec k) : M S storage_error unit :=
  _ ← txn (λ d, t ← t_insert r (table k d); Ok (tt, with_table k t d));
  on_backend (b_Put (typ k) [entry k r]).

Lemma put_row_rows k r s : put_row k r s = put_rows k [r] s.
Proof.
  unfold put_row, put_rows. unfold mbind, M_bind, txn. cbn.
  by destruct (t_insert r (table k (db s))).
Qed.

Lemma put_row_ok k r s μ : stands s μ → admissible k (mget k μ) r →
  ∃ s', put_row k r s = (Ok tt, s') ∧ stands s' (mset k (<[pid k r := r]> (mget k μ)) μ).
Proof.
  intros Hs Ha. rewrite put_row_rows. apply (put_rows_ok k [r] s μ Hs).
  - constructor; [apply Ha|done].
  - constructor; [apply Ha|done].
  - right. eauto.
Qed.

(** *** Deletion *)

Lemma each_delete k rs t m : schema t = sch k → rows t = m → NoDup (pid k <$> rs) →
  Forall (λ r, m !! pid k r = Some r) rs →
  ∃ t', each t_delete rs t = Ok t' ∧ schema t' = sch k ∧ rows t' = drop_rows k rs m.
Proof.
  revert t m. induction rs as [|r rs IH]; intros t m Hsch Hr Hnd Hf; [by exists t|].
  apply NoDup_cons in Hnd as [Hni Hnd]. apply Forall_cons in Hf as [Hf Hfs].
  destruct (t_delete_ok _ r t) as (t1 & E & Hr1 & Hs1).
  { rewrite Hsch, Hr. fold (pid k r). rewrite Hf. by eexists. }
  cbn. rewrite E. cbn. apply IH; [by rewrite Hs1|by rewrite Hr1, Hr, Hsch|done|].
  rewrite Forall_forall in Hfs |- *. intros r' Hr'. rewrite lookup_delete_ne; [by apply Hfs|].
  intros E'. apply Hni. rewrite E'. by apply list_elem_of_fmap_2.
Qed.

Definition delete_rows (k : kind) (rs : list (rec k)) : M S storage_error unit :=
  _ ← txn (λ d, t ← each t_delete rs (table k d); Ok (tt, with_table k t d));
  on_backend (b_Delete (typ k) (key k <$> rs)).

Lemma delete_rows_ok k rs s μ : stands s μ → NoDup (pid k <$> rs) →
  Forall (λ r, mget k μ !! pid k r = Some r) rs →
  ∃ s', delete_rows k rs s = (Ok tt, s') ∧ stands s' (mset k (drop_rows k rs (mget k μ)) μ).
Proof.
  intros Hs Hnd Hf. pose proof Hs as [Hsd Hk]. destruct (Hk k) as [Hsch Hr Hw Hb].
  destruct (drop_rows_wf k rs _ Hw Hnd Hf) as [Hw' Hp].
  destruct (each_delete k rs _ _ Hsch Hr Hnd Hf) as (t' & E & Hsch' & Hr').
  destruct (b_Delete_ok (typ k) (key k <$> rs) (backend s) _ Hsd Hb) as (b' & Eb & Hsd' & Hd).
  eexists. split.
  - unfold delete_rows. erewrite bind_ok by (unfold txn; by rewrite E). unfold on_backend. cbn [backend].
    rewrite Eb. reflexivity.
  - apply (stands_update k t' _ b' s μ); try done. by rewrite Hd, <- Hp.
Qed.

Definition delete_row (k : kind) (r : rec k) : M S storage_error unit :=
  _ ← txn (λ d, t ← t_delete r (table k d); Ok (tt, with_table k t d));
  on_backend (b_Delete (typ k) [key k r]).

Lemma delete_row_ok k r s μ : stands s μ → mget k μ !! pid k r = Some r →
  ∃ s', delete_row k r s = (Ok tt, s') ∧ stands s' (mset k (delete (pid k r) (mget k μ)) μ).
Proof.
  intros Hs Hr. assert (delete_row k r s = delete_rows k [r] s) as ->.
  { unfold delete_row, delete_rows. unfold mbind, M_bind, txn. cbn. by destruct (t_delete r (table k (db s))). }
  apply (delete_rows_ok k [r] s μ Hs); [apply NoDup_singleton|by constructor].
Qed.
(** *** Queries *)

Lemma get_rows k name ix v t m : schema t = sch k → rows t = m → wf_rows k m →
  find_index name (sch k) = Some ix → (name, ix) ∈ sch k →
  ∃ l, t_get name v t = Ok l ∧ l ≡ₚ having ix v m.
Proof.
  intros Hsch Hr Hw Hf Hin. destruct (t_get_ok _ name v t ix) as (l & E & Hl).
  - by rewrite Hsch.
  - rewrite Hr. pose proof (wf_distinct _ _ Hw) as Hd. rewrite Forall_forall in Hd. by apply (Hd (name, ix)).
  - exists l. by rewrite <- Hr.
Qed.

Lemma list_rows k name ix t m : schema t = sch k → rows t = m → wf_rows k m →
  find_index name (sch k) = Some ix → (name, ix) ∈ sch k →
  ∃ l, t_list name t = Ok l ∧ l ≡ₚ (map_to_list m).*2.
Proof.
  intros Hsch Hr Hw Hf Hin. destruct (t_list_ok _ name t ix) as (l & E & Hl).
  - by rewrite Hsch.
  - rewrite Hr. pose proof (wf_distinct _ _ Hw) as Hd. rewrite Forall_forall in Hd. by apply (Hd (name, ix)).
  - exists l. by rewrite <- Hr.
Qed.

Lemma first_rows k name ix v t m : schema t = sch k → rows t = m → wf_rows k m →
  find_index name (sch k) = Some ix → (name, ix) ∈ sch k → ix_Unique ix = true →
  ∃ o, t_first name v t = Ok o ∧ answers_one (ix_Field ix) v m o.
Proof.
  intros Hsch Hr Hw Hf Hin Hu. destruct (get_rows k name ix v t m) as (l & E & Hl); [done..|].
  exists (head l). split; [by eapply t_first_ok|].
  pose proof (wf_distinct _ _ Hw) as Hd. rewrite Forall_forall in Hd.
  destruct (having_unique ix v m l Hu (Hd _ Hin) Hl) as [[-> Hn]|(i & r & -> & Hi & Hv)]; cbn; eauto.
Qed.

(** looking a record up by its primary index *)
Lemma answers_pid k v m o : wf_rows k m → answers_one (pid k) v m o → o = m !! v.
Proof.
  intros Hw. destruct o as [r|]; cbn.
  - intros [[i Hi] <-]. by rewrite (wf_pid _ _ Hw i r Hi).
  - intros Hn. destruct (m !! v) as [r|] eqn:Hv; [|done]. by pose proof (Hn v r Hv (wf_pid _ _ Hw v r Hv)).
Qed.

(** *** Loading *)

Lemma add_rows_fresh k rs m i : i ∉ pid k <$> rs → add_rows k rs m !! i = m !! i.
Proof.
  revert m. induction rs as [|r rs IH]; intros m Hi; [done|]. cbn. apply not_elem_of_cons in Hi as [Hne Hi].
  fold (add_rows k rs (<[pid k r := r]> m)). rewrite IH by done. by rewrite lookup_insert_ne.
Qed.

Lemma add_rows_elem k rs m r : NoDup (pid k <$> rs) → r ∈ rs → add_rows k rs m !! pid k r = Some r.
Proof.
  revert m. induction rs as [|r' rs IH]; intros m Hnd Hr; [by apply elem_of_nil in Hr|].
  apply NoDup_cons in Hnd as [Hni Hnd]. apply elem_of_cons in Hr as [->|Hr]; cbn.
  - fold (add_rows k rs (<[pid k r' := r']> m)). rewrite add_rows_fresh by done. by rewrite lookup_insert_eq.
  - by apply IH.
Qed.

Lemma add_rows_all k rs m : wf_rows k m → rs ≡ₚ (map_to_list m).*2 → add_rows k rs ∅ = m.
Proof.
  intros Hw Hp. assert (NoDup (pid k <$> rs)) as Hnd.
  { rewrite Hp, <- list_fmap_compose, (list_fmap_ext _ fst).
    - apply NoDup_fst_map_to_list.
    - intros n [i r] Hn. cbn. apply (wf_pid _ _ Hw), elem_of_map_to_list. by eapply list_elem_of_lookup_2. }
  apply map_eq. intros i. destruct (m !! i) as [r|] eqn:Hi.
  - rewrite <- (wf_pid _ _ Hw i r Hi). apply add_rows_elem; [done|]. rewrite Hp. apply list_elem_of_fmap.
    exists (i, r). split; [done|]. by apply elem_of_map_to_list.
  - rewrite add_rows_fresh; [by rewrite lookup_empty|]. intros (r & -> & Hr)%list_elem_of_fmap.
    rewrite Hp in Hr. apply list_elem_of_fmap in Hr as ([j r'] & -> & Hj%elem_of_map_to_list). cbn in Hi.
    by rewrite (wf_pid _ _ Hw j r' Hj), Hj in Hi.
Qed.

Definition store_row (k : kind) (r : rec k) : M S storage_error unit :=
  txn (λ d, t ← t_insert r (table k d); Ok (tt, with_table k t d)).

Lemma load_rows k rs s m : schema (table k (db s)) = sch k → rows (table k (db s)) = m →
  Forall (complete (sch k)) rs →
  ∃ t, for_each (entry k <$> rs) (λ e, match Unmarshal_msg (Value e) with
      | Some r => ignore_err (store_row k r) | None => mret tt end) s =
    (Ok tt, mkStorage T B (with_table k t (db s)) (backend s) (closed s)) ∧
    schema t = sch k ∧ rows t = add_rows k rs m.
Proof.
  revert s m. induction rs as [|r rs IH]; intros s m Hsch Hr Hc.
  { exists (table k (db s)). split; [|done]. destruct s as [d b c]. cbn. do 2 f_equal. by destruct k, d. }
  apply Forall_cons in Hc as [Hc Hcs]. rewrite <- Hsch in Hc.
  destruct (t_insert_ok _ r (table k (db s)) Hc) as (t1 & E & Hr1 & Hs1).
  set (s1 := mkStorage T B (with_table k t1 (db s)) (backend s) (closed s)).
  destruct (IH s1 (<[pid k r := r]> m)) as (t & E' & Ht); [..|done|].
  { cbn. by rewrite table_with, Hs1. }
  { cbn. rewrite table_with, Hr1, Hr, Hsch. done. }
  exists t. split; [|done]. cbn [fmap list_fmap for_each]. cbn [Value entry].
  pose proof (Unmarshal_Marshal_msg r) as ->.
  erewrite bind_ok; [|unfold ignore_err, store_row, txn; rewrite E; reflexivity].
  etrans; [exact E'|]. unfold s1. cbn [db backend closed]. by rewrite with_table_twice.
Qed.

(** the state while [loadFromBackend] runs: the tables in [done] are loaded *)
Definition partly_loaded (done : list kind) (s : S) (μ : meta) : Prop :=
  sound (backend s) ∧ ∀ k, schema (table k (db s)) = sch k ∧ wf_rows k (mget k μ) ∧
    default ∅ (b_data (backend s) !! typ k) = bucket_of k (mget k μ) ∧
    (k ∈ done → is_Some (b_data (backend s) !! typ k)) ∧
    rows (table k (db s)) = if decide (k ∈ done) then mget k μ else ∅.

Lemma load_entries_ok k done s μ : partly_loaded done s μ → k ∉ done →
  ∃ s', load_entries (typ k) (store_row k) s = (Ok tt, s') ∧ partly_loaded (k :: done) s' μ.
Proof.
  intros [Hsd Hs] Hnk. destruct (Hs k) as (Hsch & Hw & Hb & _ & Hr). rewrite decide_False in Hr by done.
  destruct (b_List_ok (typ k) (backend s) Hsd (typ_nonempty k)) as (l & b' & E & Hsd' & Hd & Hl).
  rewrite Hb in Hl, Hd.
  destruct (bucket_entries k _ l Hw Hl) as (rs & -> & Hp).
  destruct (load_rows k rs (mkStorage T B (db s) b' (closed s)) ∅ Hsch Hr) as (t & E' & Hst & Hrt).
  { rewrite Hp. apply Forall_forall. intros r ([i r'] & -> & Hi%elem_of_map_to_list)%list_elem_of_fmap.
    by apply (wf_complete _ _ Hw i). }
  eexists. split.
  - unfold load_entries. erewrite bind_ok by (unfold on_backend; rewrite E; reflexivity). exact E'.
  - split; [done|]. intros k'. cbn [db backend]. destruct (Hs k') as (Hsch' & Hw' & Hb' & Hd' & Hr').
    rewrite Hd. destruct (decide (k = k')) as [<-|Hne].
    + rewrite table_with, lookup_insert_eq, (decide_True (P := k ∈ k :: done)) by apply list_elem_of_here.
      split_and!; try done. rewrite Hrt. by apply add_rows_all.
    + rewrite table_with_ne, lookup_insert_ne by (done || by intros ->%typ_inj). split_and!; try done.
      * intros [->|?]%elem_of_cons; [done|]. by apply Hd'.
      * rewrite Hr'. apply decide_ext. rewrite elem_of_cons. split; [by right|]. by intros [->|?].
Qed.

Lemma NewStorage_ok b μ : sound b → (∀ k, wf_rows k (mget k μ) ∧ default ∅ (b_data b !! typ k) = bucket_of k (mget k μ)) →
  ∃ s, NewStorage (Ok b) = Ok s ∧ stands s μ.
Proof.
  intros Hsd Hb. assert (partly_loaded [] (mkStorage T B setupMemDB b false) μ) as H0'.
  { split; [done|]. intros k. destruct (Hb k). split_and!; try done.
    - destruct k; apply t_new_rows.
    - by intros ?%elem_of_nil.
    - rewrite decide_False by apply not_elem_of_nil. destruct k; apply t_new_rows. }
  destruct (load_entries_ok KFile _ _ _ H0') as (s1 & E1 & H1'); [by apply (bool_decide_unpack _)|].
  destruct (load_entries_ok KBlock _ _ _ H1') as (s2 & E2 & H2'); [by apply (bool_decide_unpack _)|].
  destruct (load_entries_ok KRole _ _ _ H2') as (s3 & E3 & H3'); [by apply (bool_decide_unpack _)|].
  destruct (load_entries_ok KToken _ _ _ H3') as (s4 & E4 & H4'); [by apply (bool_decide_unpack _)|].
  destruct (load_entries_ok KPolicy _ _ _ H4') as (s5 & E5 & [Hs5 Hk5]); [by apply (bool_decide_unpack _)|].
  exists s5. split.
  - unfold NewStorage. assert (loadFromBackend (mkStorage T B setupMemDB b false) = (Ok tt, s5)) as ->; [|done].
    unfold loadFromBackend.
    etrans; [eapply bind_ok; exact E1|]. etrans; [eapply bind_ok; exact E2|].
    etrans; [eapply bind_ok; exact E3|]. etrans; [eapply bind_ok; exact E4|]. exact E5.
  - split; [done|]. intros k. destruct (Hk5 k) as (Hsch & Hw & Hbk & Hsome & Hr).
    assert (k ∈ [KPolicy; KToken; KRole; KBlock; KFile]) as Hin by by destruct k; apply (bool_decide_unpack _).
    split; [done| |done|]; [by rewrite Hr, decide_True by exact Hin|].
    destruct (Hsome Hin) as [m Hm]. rewrite Hm in Hbk |- *. cbn in Hbk. by rewrite Hbk.
Qed.
(** *** One step, and runs *)

Lemma stands_wf k s μ : stands s μ → wf_rows k (mget k μ).
Proof. intros [_ Hk]. apply (Hk k). Qed.

Lemma observe_ok {A} (f : A → st_obs) (m : M S storage_error A) s a s' :
  m s = (Ok a, s') → observe f m s = (f a, s').
Proof. unfold observe. by intros ->. Qed.

Lemma get_ok k name ix v s μ : stands s μ → find_index name (sch k) = Some ix → (name, ix) ∈ sch k →
  ∃ l, t_get name v (table k (db s)) = Ok l ∧ l ≡ₚ having ix v (mget k μ).
Proof. intros [_ Hk] Hf Hin. destruct (Hk k). by apply get_rows. Qed.

Lemma list_ok k name ix s μ : stands s μ → find_index name (sch k) = Some ix → (name, ix) ∈ sch k →
  ∃ l, t_list name (table k (db s)) = Ok l ∧ l ≡ₚ (map_to_list (mget k μ)).*2.
Proof. intros [_ Hk] Hf Hin. destruct (Hk k). by apply (list_rows k name ix). Qed.

(** a file and its blocks go in one transaction *)
Lemma DeleteFileWithBlocks_ok f s μ : stands s μ → m_files μ !! File_Id f = Some f →
  ∃ s', DeleteFileWithBlocks f s = (Ok tt, s') ∧ stands s' (effect (ODeleteFileWithBlocks f) μ).
Proof.
  intros Hs Hf. pose proof Hs as [Hsd Hk].
  destruct (get_ok KBlock "file_id" (mkIndex false false Block_FileID) (File_Id f) s μ Hs) as (l & El & Hl);
    [done|by apply list_elem_of_further, list_elem_of_here|].
  destruct (Hk KBlock) as [Hbsch Hbr Hbw Hbb]. destruct (Hk KFile) as [Hfsch Hfr Hfw Hfb].
  destruct (drop_having KBlock _ _ l _ Hbw Hl) as (Hnd & Hall & Hdrop).
  destruct (each_delete KBlock l _ _ Hbsch Hbr Hnd Hall) as (tb & Eb & Hsb & Hrb).
  destruct (drop_rows_wf KBlock l _ Hbw Hnd Hall) as [Hwb Hpb].
  destruct (t_delete_ok (rec KFile) f (table KFile (db s))) as (tf & Ef & Hrf & Hsf).
  { rewrite Hfsch, Hfr. exists f. exact Hf. }
  destruct (b_Delete_ok (typ KFile) [File_Path f] (backend s) _ Hsd Hfb) as (b1 & E1 & Hsd1 & Hd1).
  destruct (b_Delete_ok (typ KBlock) (Block_Id <$> l) b1 (bucket_of KBlock (mget KBlock μ)) Hsd1) as (b2 & E2 & Hsd2 & Hd2).
  { by rewrite Hd1, lookup_insert_ne. }
  eexists. split.
  - unfold DeleteFileWithBlocks. erewrite bind_ok; [|unfold txn; cbn in El, Eb |- *; rewrite El; cbn; rewrite Eb; cbn; cbn in Ef; rewrite Ef; reflexivity].
    etrans; [eapply bind_ok; unfold on_backend; cbn [backend]; cbn in E1; rewrite E1; reflexivity|].
    unfold on_backend. cbn [backend]. cbn in E2. rewrite E2. reflexivity.
  - rewrite Hd1 in Hd2. split; [done|]. intros k. cbn [db backend effect].
    destruct k; cbn [table mget with_files with_blocks mset m_files m_blocks m_roles m_tokens m_policies t_files t_blocks t_roles t_tokens t_policies].
    + split; [exact (eq_trans Hsf Hfsch)| |by apply (wf_rows_delete KFile)|].
      * etrans; [exact Hrf|]. by rewrite Hfsch, Hfr.
      * rewrite Hd2, lookup_insert_ne by done. rewrite lookup_insert_eq. f_equal. by apply (bucket_delete KFile).
    + cbn in Hdrop. rewrite <- Hdrop. split; [done..|]. rewrite Hd2, lookup_insert_eq. f_equal. exact Hpb.
    + destruct (Hk KRole). split; try done. by rewrite Hd2, !lookup_insert_ne.
    + destruct (Hk KToken). split; try done. by rewrite Hd2, !lookup_insert_ne.
    + destruct (Hk KPolicy). split; try done. by rewrite Hd2, !lookup_insert_ne.
Qed.

(** a file that is not there aborts the transaction *)
Lemma DeleteFileWithBlocks_gone f s μ : stands s μ → m_files μ !! File_Id f = None →
  ∃ e, DeleteFileWithBlocks f s = (Err e, s).
Proof.
  intros Hs Hf. pose proof Hs as [Hsd Hk].
  destruct (get_ok KBlock "file_id" (mkIndex false false Block_FileID) (File_Id f) s μ Hs) as (l & El & Hl);
    [done|by apply list_elem_of_further, list_elem_of_here|].
  destruct (Hk KBlock) as [Hbsch Hbr Hbw _]. destruct (Hk KFile) as [Hfsch Hfr _ _].
  destruct (drop_having KBlock _ _ l _ Hbw Hl) as (Hnd & Hall & _).
  destruct (each_delete KBlock l _ _ Hbsch Hbr Hnd Hall) as (tb & Eb & _).
  destruct (t_delete_missing (rec KFile) f (table KFile (db s))) as (e & Ef); [by rewrite Hfsch, Hfr|].
  exists e. unfold DeleteFileWithBlocks. apply bind_err. unfold txn. cbn in El, Eb, Ef |- *. rewrite El. cbn. rewrite Eb. cbn. by rewrite Ef.
Qed.

Lemma GetBlocks_ok fileID s μ : stands s μ →
  ∃ l, GetBlocks fileID s = (Ok l, s) ∧ l ≡ₚ blocks_of fileID μ ∧ StronglySorted (key_le Block_Index) l.
Proof.
  intros Hs. destruct (get_ok KBlock "file_id" (mkIndex false false Block_FileID) fileID s μ Hs) as (l & El & Hl);
    [done|by apply list_elem_of_further, list_elem_of_here|].
  destruct (sort_by_ok (E:=storage_error) Block_Index l) as (l' & E & Hp & Hsorted).
  exists l'. split; [|split; [by rewrite Hp, Hl|done]].
  unfold GetBlocks, query. cbn in El. rewrite El. cbn. by rewrite E.
Qed.

Definition id_index (k : kind) : IndexSchema (rec k) :=
  mkIndex false true (match k return rec k → string with
                      | KFile => File_Id | KBlock => Block_Id | KRole => Role_ID | KToken => Token_Id | KPolicy => Policy_Id
                      end).

Lemma id_index_ok k : find_index "id" (sch k) = Some (id_index k) ∧ ("id"%string, id_index k) ∈ sch k ∧
  ix_Field (id_index k) = pid k.
Proof. destruct k; (split_and!; [done|apply list_elem_of_here|done]). Qed.

(** reads by the primary index, by another unique index, and of a whole table *)
Lemma first_id k v t m : schema t = sch k → rows t = m → wf_rows k m → t_first "id" v t = Ok (m !! v).
Proof.
  intros Hsch Hr Hw. destruct (id_index_ok k) as (Hf & Hin & Hp).
  destruct (first_rows k "id" _ v t m Hsch Hr Hw Hf Hin) as (o & E & Ha); [by destruct k|].
  rewrite Hp in Ha. apply answers_pid in Ha; [|done]. by rewrite <- Ha.
Qed.
Lemma GetFile_rows id (s : S) m : schema (t_files (db s)) = files_schema → rows (t_files (db s)) = m →
  wf_rows KFile m → GetFile id s = (Ok (m !! id), s).
Proof using H0. intros Hsch Hr Hw. unfold GetFile, query. f_equal. exact (first_id KFile id _ m Hsch Hr Hw). Qed.

Lemma read_id k v s μ : stands s μ →
  observe (SOne k) (query (λ d, t_first "id" v (table k d))) s = (SOne k (mget k μ !! v), s).
Proof.
  intros [_ Hk]. apply observe_ok. unfold query. destruct (Hk k). by rewrite (first_id k v (table k (db s)) (mget k μ)).
Qed.

Lemma read_one k name ix v s μ : stands s μ → find_index name (sch k) = Some ix → (name, ix) ∈ sch k →
  ix_Unique ix = true →
  ∃ o, observe (SOne k) (query (λ d, t_first name v (table k d))) s = (SOne k o, s) ∧
    answers_one (ix_Field ix) v (mget k μ) o.
Proof.
  intros [_ Hk] Hf Hin Hu. destruct (Hk k).
  destruct (first_rows k name ix v (table k (db s)) (mget k μ)) as (o & E & Ha); [done..|].
  exists o. split; [|done]. apply observe_ok. unfold query. by rewrite E.
Qed.

Lemma read_all k name ix s μ : stands s μ → find_index name (sch k) = Some ix → (name, ix) ∈ sch k →
  ∃ l, observe (SMany k) (query (λ d, t_list name (table k d))) s = (SMany k l, s) ∧ l ≡ₚ (map_to_list (mget k μ)).*2.
Proof.
  intros Hs Hf Hin. destruct (list_ok k name ix s μ Hs Hf Hin) as (l & E & Hl).
  exists l. split; [|done]. apply observe_ok. unfold query. by rewrite E.
Qed.

(** a write with its effect, and a read without one *)
Ltac by_write L :=
  let s' := fresh in let E := fresh in let Hs' := fresh in
  destruct L as (s' & E & Hs'); [..|eexists _, s'; split; [apply observe_ok; exact E|split; [done|exact Hs']]].

Lemma st_step_refines o s μ : stands s μ → allowed o μ →
  ∃ r s', st_step o s = (r, s') ∧ answers o μ r ∧ stands s' (effect o μ).
Proof.
  intros Hs Ha. destruct o; cbn [st_step answers effect allowed] in *.
  - by_write (put_row_ok KFile f _ _ Hs Ha).
  - eexists _, s. split; [exact (read_id KFile id s μ Hs)|done].
  - destruct (read_one KFile "path" (mkIndex false true File_Path) path s μ Hs) as (a & E & Hr); [done|in_schema|done|].
    exists (SOne KFile a), s. split; [exact E|eauto].
  - destruct (get_ok KFile "parent_id" (mkIndex false false File_ParentID) id s μ Hs) as (l & E & Hl); [done|in_schema|].
    exists (SMany KFile l), s. split; [apply observe_ok; unfold GetFilesByParentId, query; cbn in E; by rewrite E|eauto].
  - destruct (list_ok KFile "id" (mkIndex false true File_Id) s μ Hs) as (l & E & Hl); [done|in_schema|].
    exists (SMany KFile l), s. split; [apply observe_ok; unfold GetAllFiles; cbn in E; by rewrite E|eauto].
  - by_write (put_rows_ok KBlock l s μ Hs).
    + eapply Forall_impl; [exact Ha|]. by intros ? [? _].
    + apply Forall_fmap. eapply Forall_impl; [exact Ha|]. by intros ? [_ ?].
    + left. intros m Hw. eapply Forall_impl; [exact Ha|]. intros b [? ?]. by apply block_admissible.
  - destruct (GetBlocks_ok fileID s μ Hs) as (l & E & Hl). exists (SMany KBlock l), s.
    split; [by apply observe_ok|eauto].
  - by_write (DeleteFileWithBlocks_ok f _ _ Hs Ha).
  - by_write (delete_row_ok KFile f _ _ Hs Ha).
  - destruct Ha as [Hnd Ha]. by_write (delete_rows_ok KBlock l s μ Hs Hnd Ha).
  - by_write (put_row_ok KPolicy p _ _ Hs Ha).
  - destruct (read_one KPolicy "name" (mkIndex false true Policy_Name) name s μ Hs) as (a & E & Hr); [done|in_schema|done|].
    exists (SOne KPolicy a), s. split; [exact E|eauto].
  - destruct (read_all KPolicy "name" (mkIndex false true Policy_Name) s μ Hs) as (l & E & Hl); [done|in_schema|].
    exists (SMany KPolicy l), s. split; [exact E|eauto].
  - by_write (delete_row_ok KPolicy p _ _ Hs Ha).
  - by_write (put_row_ok KRole r _ _ Hs Ha).
  - destruct (read_one KRole "name" (mkIndex false true Role_Name) name s μ Hs) as (a & E & Hr); [done|in_schema|done|].
    exists (SOne KRole a), s. split; [exact E|eauto].
  - eexists _, s. split; [exact (read_id KRole id s μ Hs)|done].
  - by_write (delete_row_ok KRole r _ _ Hs Ha).
  - by_write (put_row_ok KToken t _ _ Hs Ha).
  - eexists _, s. split; [exact (read_id KToken accessor s μ Hs)|done].
  - destruct (read_all KToken "id" (mkIndex false true Token_Id) s μ Hs) as (l & E & Hl); [done|in_schema|].
    exists (SMany KToken l), s. split; [exact E|eauto].
  - by_write (delete_row_ok KToken t _ _ Hs Ha).
  - destruct (NewStorage_ok (backend s) μ (proj1 Hs)) as (s' & E & Hs'); [intros k; destruct (proj2 Hs k) as [_ _ ? ->]; done|].
    exists SDone, s'. split; [unfold restart; by rewrite E|done].
Qed.
Lemma st_run_refines ops s μ : stands s μ → allowed_run ops μ →
  ∃ μ', spec_run ops (st_run ops s).1 μ μ' ∧ stands (st_run ops s).2 μ'.
Proof.
  revert s μ. induction ops as [|o ops IH]; intros s μ Hs Ha; [by exists μ|].
  destruct Ha as [Ha Hal]. destruct (st_step_refines o s μ Hs Ha) as (r & s1 & E & Hr & Hs1).
  destruct (IH s1 _ Hs1 Hal) as (μ' & Hsp & Hst). exists μ'. cbn. rewrite E.
  by destruct (st_run ops s1) as [rs s2].
Qed.

(** a storage that is opened again *)
Lemma NewStorage_again s μ : stands s μ → ∃ s', NewStorage (T:=T) (Ok (backend s)) = Ok s' ∧ stands s' μ.
Proof. intros [Hsd Hk]. apply NewStorage_ok; [exact Hsd|]. intros k. by destruct (Hk k) as [_ _ ? ->]. Qed.

(** a database without buckets starts empty *)
Lemma NewStorage_fresh b : sound b → b_data b = ∅ → ∃ s, NewStorage (Ok b) = Ok s ∧ stands s no_meta.
Proof.
  intros Hb Hd. apply NewStorage_ok; [done|]. intros k. rewrite Hd, lookup_empty.
  split; [apply no_meta_wf|by destruct k].
Qed.
(** C7: the storage is a write-through cache that survives restarts: over every
  sequence of operations whose records are admissible, [NewStorage] on the backend
  included, each answer is right for five finite maps, and at the end the memory
  holds exactly their rows and the backend exactly their marshalled images. *)
Theorem storage_refines_tables (ops : list st_op) (s : S) (μ : meta) :
  stands s μ → allowed_run ops μ →
  ∃ μ', spec_run ops (st_run ops s).1 μ μ' ∧ stands (st_run ops s).2 μ'.
Proof. apply st_run_refines. Qed.

(** creating a policy under a name that exists, which is how policies are
  updated, adds a second policy: the memory holds both, and after a restart only
  the new one is left. *)
Theorem updated_policy_kept_twice (p1 p2 : Policy) (s : S) (μ : meta) :
  stands s μ → m_policies μ !! Policy_Id p1 = Some p1 → m_policies μ !! Policy_Id p2 = None →
  Policy_Name p2 = Policy_Name p1 → complete policies_schema p2 → storable (entry KPolicy p2) →
  ∃ s', StorePolicy p2 s = (Ok tt, s') ∧
    rows (t_policies (db s')) = <[Policy_Id p2 := p2]> (m_policies μ) ∧
    ∃ s2, NewStorage (T:=T) (Ok (backend s')) = Ok s2 ∧
      stands s2 (mset KPolicy (<[Policy_Id p2 := p2]> (delete (Policy_Id p1) (m_policies μ))) μ).
Proof.
  intros Hs H1' H2' Hn Hc Hst. pose proof Hs as [Hsd Hk]. destruct (Hk KPolicy) as [Hsch Hr Hw Hb].
  destruct (t_insert_ok (rec KPolicy) p2 (table KPolicy (db s))) as (t & E & Hrt & Htsch); [by rewrite Hsch|].
  destruct (b_Put_ok EntryTypePolicy [entry KPolicy p2] (backend s) Hsd) as (b' & Eb & Hsd' & Hd); [done|by constructor|].
  exists (mkStorage T _ (with_policies t (db s)) b' (closed s)). split_and!.
  - unfold StorePolicy, storePolicyInMemory. etrans; [eapply bind_ok; unfold txn; cbn in E; rewrite E; reflexivity|].
    cbv beta. refine (on_backend_eq _ (mkStorage T _ _ _ _) _ _ _). exact Eb.
  - etrans; [exact Hrt|]. by rewrite Hsch, Hr.
  - apply NewStorage_ok; [done|]. intros k. cbn [backend]. rewrite Hd.
    destruct (decide (k = KPolicy)) as [->|Hne].
    + rewrite mget_mset, lookup_insert_eq. change (typ KPolicy) with EntryTypePolicy in *. rewrite Hb. cbn [default put_all foldl Key Value entry].
      set (m' := delete (Policy_Id p1) (m_policies μ)).
      assert (wf_rows KPolicy m') as Hw' by by apply (wf_rows_delete KPolicy).
      assert (admissible KPolicy m' p2) as Ha'.
      { split_and!; [done..| |].
        - repeat constructor; cbn; intros _ i r [Hne Hi]%lookup_delete_Some Hf.
          + rewrite <- (wf_pid KPolicy _ Hw i r Hi). exact Hf.
          + exfalso. apply Hne. eapply (key_inj KPolicy); [exact Hw|exact H1'|exact Hi|]. cbn. congruence.
        - intros r' [_ Hi]%lookup_delete_Some. by pose proof (eq_trans (eq_sym H2') Hi). }
      split; [by apply (wf_rows_insert KPolicy)|].
      etrans; [|exact (bucket_insert KPolicy m' p2 Hw' Ha')].
      etrans; [|exact (f_equal (insert _ _) (bucket_delete KPolicy _ p1 Hw H1'))].
      change (key KPolicy p1) with (Policy_Name p1). rewrite <- Hn. symmetry. apply insert_delete_eq.
    + rewrite mget_mset_ne by done. destruct (Hk k) as [_ _ Hwk Hbk]. split; [done|].
      rewrite lookup_insert_ne; [by rewrite Hbk|]. intros ?%(typ_inj KPolicy). by apply Hne.
Qed.
End refinement.

(** ** Failures *)

Section failures.
Context {T : Type → Type} `{MemDBLaws T} {D : Type} `{BoltLaws D} `{RecordCodecs}.
Local Abbreviation S := (Storage T (FileStorageBackend D)).
#[local] Existing Instance codec.

(** the memory of a storage, whatever the backend does *)
Definition in_memory (s : S) (μ : meta) : Prop :=
  ∀ k, schema (table k (db s)) = sch k ∧ rows (table k (db s)) = mget k μ ∧ wf_rows k (mget k μ).

Lemma txn_insert_memory k r s μ : in_memory s μ → admissible k (mget k μ) r →
  ∃ t, txn (λ d, t ← t_insert r (table k d); Ok (tt, with_table k t d)) s =
    (Ok tt, mkStorage T _ (with_table k t (db s)) (backend s) (closed s)) ∧
    schema t = sch k ∧ rows t = <[pid k r := r]> (mget k μ) ∧ wf_rows k (<[pid k r := r]> (mget k μ)).
Proof.
  intros Hs Ha. destruct (Hs k) as (Hsch & Hr & Hw).
  destruct (t_insert_ok _ r (table k (db s))) as (t & E & Hrt & Hst); [rewrite Hsch; apply Ha|].
  exists t. unfold txn. rewrite E. cbn. rewrite Hst, Hrt, Hsch, Hr. split_and!; try done.
  by apply wf_rows_insert.
Qed.

Lemma Put_fails t es (b : FileStorageBackend D) : fb_closed b = false → ¬ commits (fb_db b) →
  t ≠ ""%string → Forall storable es →
  ∃ e b', Put t es b = (Err e, b') ∧ bolt_data (fb_db b') = bolt_data (fb_db b) ∧ fb_closed b' = false.
Proof.
  intros Hcl Hc Ht Hes. destruct (Put_batch t es (fb_db b) Ht Hes) as (d' & E & _).
  destruct (db_Batch_fails (λ d, d ← tx_CreateBucketIfNotExists t d; Ok (foldl (put_entry t) d es)) _ d' Hc E)
    as (e & d'' & E' & Hd & _).
  exists e, (mkFileBackend d'' (fb_closed b)). unfold Put. rewrite Hcl, E'. done.
Qed.

Lemma Delete_fails t ks (b : FileStorageBackend D) m : fb_closed b = false → ¬ commits (fb_db b) →
  bolt_data (fb_db b) !! t = Some m →
  ∃ b', Delete t ks b = (Ok tt, b') ∧ bolt_data (fb_db b') = bolt_data (fb_db b) ∧ fb_closed b' = false.
Proof.
  intros Hcl Hc Hm.
  destruct (db_Batch_fails (λ d, if bool_decide (ks ≠ []) && negb (tx_Bucket t d) then Panic
        else Ok (foldl (delete_key t) d ks)) (fb_db b) (foldl (delete_key t) (fb_db b) ks) Hc) as (e & d'' & E' & Hd & _).
  { rewrite tx_Bucket_spec, Hm, (bool_decide_true (is_Some (Some m))) by done. cbn [negb]. by rewrite andb_false_r. }
  exists (mkFileBackend d'' (fb_closed b)). unfold Delete. rewrite Hcl, E'. done.
Qed.
(** when the database cannot be written, storing a file reports the error but
  the file stays in memory: it is found until the process ends, and the database
  never has it. *)
Theorem failed_store_stays_in_memory (f : FileInfo) (s : S) (μ : meta) :
  in_memory s μ → fb_closed (backend s) = false → ¬ commits (fb_db (backend s)) → admissible KFile (m_files μ) f →
  ∃ e s', StoreFile f s = (Err e, s') ∧ GetFile (File_Id f) s' = (Ok (Some f), s') ∧
    bolt_data (fb_db (backend s')) = bolt_data (fb_db (backend s)).
Proof.
  intros Hs Hcl Hc Ha. destruct (txn_insert_memory KFile f s μ Hs Ha) as (t & E & Hst & Hrt & Hw).
  destruct (Put_fails EntryTypeFile [entry KFile f] (backend s) Hcl Hc) as (e & b' & Eb & Hd & _);
    [done|by constructor; [apply Ha|]|].
  exists e, (mkStorage T _ (with_files t (db s)) b' (closed s)). split_and!; [| |exact Hd].
  - unfold StoreFile. etrans; [eapply bind_ok; exact E|]. cbv beta. refine (on_backend_eq _ (mkStorage T _ _ _ _) _ _ _). exact Eb.
  - etrans; [exact (GetFile_rows (File_Id f) (mkStorage T _ (with_files t (db s)) b' (closed s)) _ Hst Hrt Hw)|].
    by rewrite lookup_insert_eq.
Qed.

(** when the database cannot be written, deleting a file reports success; the
  memory forgets the file and the database keeps all its buckets, so that the next
  start finds it again. *)
Theorem failed_delete_reports_success (f : FileInfo) (s : S) (μ : meta) :
  (∀ k, table_stands k (table k (db s)) (backend s) (mget k μ)) → fb_closed (backend s) = false →
  ¬ commits (fb_db (backend s)) → m_files μ !! File_Id f = Some f →
  ∃ s', DeleteFile f s = (Ok tt, s') ∧ GetFile (File_Id f) s' = (Ok None, s') ∧
    ∀ b, sound b → bolt_data (fb_db b) = bolt_data (fb_db (backend s')) →
      ∃ s2, NewStorage (T:=T) (Ok b) = Ok s2 ∧ stands s2 μ.
Proof.
  intros Hs Hcl Hc Hf. destruct (Hs KFile) as [Hsch Hr Hw Hb].
  destruct (t_delete_ok (rec KFile) f (table KFile (db s))) as (t & Et & Hrt & Hst).
  { rewrite Hsch, Hr. exists f. exact Hf. }
  destruct (Delete_fails EntryTypeFile [File_Path f] (backend s) _ Hcl Hc Hb) as (b' & Eb & Hd & _).
  exists (mkStorage T _ (with_files t (db s)) b' (closed s)). split_and!.
  - unfold DeleteFile. etrans; [eapply bind_ok; unfold txn; cbn in Et; rewrite Et; reflexivity|].
    cbv beta. refine (on_backend_eq _ (mkStorage T _ _ _ _) _ _ _). exact Eb.
  - rewrite (GetFile_rows _ _ (delete (File_Id f) (m_files μ))).
    + by rewrite lookup_delete_eq.
    + etrans; [exact Hst|exact Hsch].
    + etrans; [exact Hrt|]. by rewrite Hsch, Hr.
    + by apply (wf_rows_delete KFile).
  - intros b Hsd Hbd. apply NewStorage_ok; [done|]. intros k. destruct (Hs k) as [_ _ Hwk Hbk].
    split; [done|]. cbn [b_data file_backend_laws]. rewrite Hbd. cbn [backend]. rewrite Hd.
    cbn in Hbk. by rewrite Hbk.
Qed.

End failures.

(** ** Witnesses: a storage on finite maps *)

Section witnesses.
#[local] Existing Instance bit_records.
#[local] Existing Instance codec.

Definition file_a : FileInfo := mkFileInfo "1" "root" FileInfo_FILE "a" "a" 3 493 "" "" "" 2.
Definition block_a : BlockInfo := mkBlockInfo "b" 1 0 "1" [mkPlacement "n" "p"].
Definition policy_old : Policy := mkPolicy "1" "p" [].
Definition policy_new : Policy := mkPolicy "2" "p" [mkPathRules "a" "p" 0 ["read"%string]].

(** an open database, which can be written or not *)
Definition small_backend (d : buckets) (ok : bool) : FileStorageBackend map_bolt := mkFileBackend (mkMapBolt d ok) false.

Definition small_ops : list st_op :=
  [OStoreFile file_a; OPutBlocks [block_a]; ORestart; OGetFileByPath "a"; OGetBlocks "1";
   ODeleteFileWithBlocks file_a; ORestart; OGetFile "1"].

Lemma file_a_admissible : admissible KFile ∅ file_a.
Proof. apply empty_admissible; apply (bool_decide_eq_true_1 _); by vm_compute. Qed.

Lemma policy_admissible p : p = policy_old ∨ p = policy_new → complete policies_schema p ∧ storable (entry KPolicy p).
Proof. intros [->| ->]; (split; apply (bool_decide_eq_true_1 _); by vm_compute). Qed.

Lemma small_fresh : ∃ s : Storage map_table _, NewStorage (Ok (small_backend ∅ true)) = Ok s ∧ stands s no_meta.
Proof. apply NewStorage_fresh; [by vm_compute|done]. Qed.

Lemma small_allowed : allowed_run small_ops no_meta.
Proof.
  cbn [allowed_run small_ops allowed]. split_and!; try done.
  - apply file_a_admissible.
  - constructor; [|done]. split; apply (bool_decide_eq_true_1 _); by vm_compute.
Qed.

Lemma storage_refines_tables_witness :
  ∃ (s : Storage map_table (FileStorageBackend map_bolt)) μ',
    NewStorage (Ok (small_backend ∅ true)) = Ok s ∧ spec_run small_ops (st_run small_ops s).1 no_meta μ'.
Proof.
  destruct small_fresh as (s & E & Hs).
  destruct (storage_refines_tables small_ops s no_meta Hs small_allowed) as (μ' & Hr & _).
  by exists s, μ'.
Defined.

Definition policy_meta : meta := mkMeta ∅ ∅ ∅ ∅ {["1" := policy_old]}.

Lemma policy_stored : ∃ s : Storage map_table (FileStorageBackend map_bolt), stands s policy_meta.
Proof.
  destruct small_fresh as (s & _ & Hs).
  destruct (put_row_ok KPolicy policy_old s no_meta Hs) as (s' & _ & Hs'); [|by exists s'].
  destruct (policy_admissible policy_old) as [Hc Hst]; [by left|]. by apply (empty_admissible KPolicy).
Qed.

Lemma updated_policy_kept_twice_witness :
  ∃ (s s' : Storage map_table (FileStorageBackend map_bolt)), StorePolicy policy_new s = (Ok tt, s') ∧
    rows (t_policies (db s')) = {["2" := policy_new; "1" := policy_old]} ∧
    ∃ s2, NewStorage (T:=map_table) (Ok (backend s')) = Ok s2 ∧
      stands s2 (mset KPolicy (<["2" := policy_new]> (delete "1" (m_policies policy_meta))) policy_meta).
Proof.
  destruct policy_stored as [s Hs]. destruct (policy_admissible policy_new) as [Hc Hst]; [by right|].
  destruct (updated_policy_kept_twice policy_old policy_new s policy_meta Hs) as (s' & E & Hr & H2); [..|by exists s, s'].
  - by apply lookup_singleton_eq.
  - by apply lookup_singleton_ne.
  - done.
  - exact Hc.
  - exact Hst.
Defined.

Definition broken_storage (d : buckets) : Storage map_table (FileStorageBackend map_bolt) :=
  mkStorage map_table _ setupMemDB (small_backend d false) false.

Lemma failed_store_stays_in_memory_witness :
  ∃ e s', StoreFile file_a (broken_storage ∅) = (Err e, s') ∧ GetFile (File_Id file_a) s' = (Ok (Some file_a), s') ∧
    bolt_data (fb_db (backend s')) = bolt_data (fb_db (backend (broken_storage ∅))).
Proof.
  apply (failed_store_stays_in_memory file_a (broken_storage ∅) no_meta); [|done|by vm_compute|exact file_a_admissible].
  intros k. split; [by destruct k|]. split; [by destruct k|]. apply no_meta_wf.
Defined.

(** the same storage on a disk that refuses writes *)
Definition break (s : Storage map_table (FileStorageBackend map_bolt)) : Storage map_table (FileStorageBackend map_bolt) :=
  mkStorage map_table _ (db s) (small_backend (mb_data (fb_db (backend s))) false) (closed s).

Definition file_meta : meta := mkMeta {["1" := file_a]} ∅ ∅ ∅ ∅.

Lemma file_stored : ∃ s : Storage map_table (FileStorageBackend map_bolt), stands s file_meta.
Proof.
  destruct small_fresh as (s & _ & Hs).
  destruct (put_row_ok KFile file_a s no_meta Hs file_a_admissible) as (s' & _ & Hs'). by exists s'.
Qed.

Lemma failed_delete_reports_success_witness :
  ∃ (s s' : Storage map_table (FileStorageBackend map_bolt)), DeleteFile file_a s = (Ok tt, s') ∧
    GetFile "1" s' = (Ok None, s') ∧
    ∀ b, sound b → bolt_data (fb_db b) = bolt_data (fb_db (backend s')) →
      ∃ s2, NewStorage (T:=map_table) (Ok b) = Ok s2 ∧ stands s2 file_meta.
Proof.
  destruct file_stored as (s & [_ Hs]).
  destruct (failed_delete_reports_success file_a (break s) file_meta) as (s' & H1 & H2 & H3);
    [|done|by vm_compute|by apply lookup_singleton_eq|by exists (break s), s'].
  intros k. by destruct (Hs k).
Defined.
End witnesses.
