(* ===== verification/NodesMap.v ===== *)
(** * The registry's view of the data nodes: [registry/nodes_map.go] and [transport.go]

    A registry keeps one [Node] for every data node it knows.  The connection of a
    node is the address it was dialed at; what the data nodes answer is the class
    [DataNodes], over a state [W] of all of them.  A goroutine that talks to one
    node is one computation. *)

From S2P Require Import Prelude GoSort Messages.

Inductive nodes_error := ErrNotFound | ErrDial | ErrCall.

#[export] Instance nodes_error_eq_dec : EqDecision nodes_error.
Proof. solve_decision. Defined.

(** [lastActivity] is written and never read *)
Record Node := mkNode {
  node_info : NodeInfo;
  metrics : option NodeMetrics;     (* nil before the first ping *)
  latency : Z;
  conn : string;
  pingRetries : Z;
  node_recovering : bool;
  unavailable : bool;
}.

(** [shutdownC] is closed when [tr_shutdown] is set *)
Record Transport := mkTransport { tr_conns : gmap string string; tr_shutdown : bool }.

Record NodesMap := mkNodesMap { nodes : gmap string Node; transport : Transport }.

Definition maxPingRetries : Z := 3.

(** the calls of [TransportServiceClient] at an address; [None] is an error of the
    call.  A heartbeat may come without metrics.  The blocks of [dn_GetBlocks] are
    what [Recv] returns until the end of the stream, [None] an error in between. *)
Class DataNodes (W : Type) := {
  dn_Dial : string → bool;
  dn_Heartbeat : string → W → option (option NodeMetrics) * W;
  dn_AssignBlocks : string → list FsBlock → W → option (list BlockPlacementInfo) * W;
  dn_GetBlocks : string → list BlockPlacementInfo → W → option (list (option FsBlock)) * W;
  dn_RemoveBlocks : string → list BlockPlacementInfo → W → option (bool * string) * W;
}.

Section transport.

(** the calls of [NewTransport] that pinged the connection *)
Definition NewTransport (conns : gmap string string) (pinged : string → bool) : Transport :=
  mkTransport (filter (λ kv : string * string, pinged kv.1 = true) conns) false.

Definition AddConn (id c : string) (t : Transport) : Transport :=
  if tr_shutdown t then t
  else match tr_conns t !! id with
       | Some _ => t
       | None => mkTransport (<[id := c]> (tr_conns t)) (tr_shutdown t)
       end.

Definition RemoveConn (id : string) (t : Transport) : Transport :=
  if tr_shutdown t then t
  else match tr_conns t !! id with
       | None => t
       | Some _ => mkTransport (delete id (tr_conns t)) (tr_shutdown t)
       end.

(** closing the channel a second time panics *)
Definition Transport_Shutdown (t : Transport) : result nodes_error Transport :=
  if tr_shutdown t then Panic else Ok (mkTransport (tr_conns t) true).
End transport.

Section nodes_map.
Context {W : Type} `{DataNodes W}.
(** the order in which [range] visits the keys of a map *)
Context (order : gset string → list string).

Local Abbreviation NM := (M (NodesMap * W) nodes_error).

Definition in_world {A} (f : W → A * W) : NM A := λ '(m, w), let '(a, w') := f w in (Ok a, (m, w')).
Definition nodes_get : NM (gmap string Node) := λ s, (Ok (nodes s.1), s).
Definition set_nodes (f : gmap string Node → gmap string Node) : NM unit := λ '(m, w),
  (Ok tt, (mkNodesMap (f (nodes m)) (transport m), w)).

Definition new_node (info : NodeInfo) : Node := mkNode info None 0 (Node_Address info) 0 false false.

(** one round of [NewNodesMap]: a node that cannot be dialed or pinged is left out *)
Definition add_existing (id : string) (info : NodeInfo) : NM unit :=
  if dn_Dial (Node_Address info) then
    res ← in_world (dn_Heartbeat (Node_Address info));
    match res with Some _ => set_nodes (insert id (new_node info)) | None => mret tt end
  else mret tt.

Definition NewNodesMap (infos : gmap string NodeInfo) (pinged : string → bool) (w : W) : result nodes_error (NodesMap * W) :=
  match for_each (order (dom infos)) (λ id, match infos !! id with Some i => add_existing id i | None => mret tt end)
          (mkNodesMap ∅ (NewTransport ∅ pinged), w) with
  | (Ok _, (m, w)) => Ok (mkNodesMap (nodes m) (NewTransport (conn <$> nodes m) pinged), w)
  | (Err e, _) => Err e
  | (Panic, _) => Panic
  end.

Definition AddNode (name : string) (info : NodeInfo) : NM unit :=
  if dn_Dial (Node_Address info) then
    res ← in_world (dn_Heartbeat (Node_Address info));
    match res with Some _ => set_nodes (insert name (new_node info)) | None => fail ErrCall end
  else fail ErrDial.

Definition RemoveNode (id : string) : NM unit := set_nodes (delete id).

(** the connection stays the one to the old address *)
Definition with_info (info : NodeInfo) (n : Node) : Node :=
  mkNode info (metrics n) (latency n) (conn n) (pingRetries n) (node_recovering n) (unavailable n).
Definition UpdateNodeInfo (id : string) (info : NodeInfo) : NM unit := set_nodes (alter (with_info info) id).

Definition NodeExists (name : string) (m : NodesMap) : bool := bool_decide (is_Some (nodes m !! name)).

Definition with_metrics (ms : option NodeMetrics) (lat : Z) (n : Node) : Node :=
  mkNode (node_info n) ms lat (conn n) (pingRetries n) (node_recovering n) (unavailable n).
Definition set_unavailable (n : Node) : Node :=
  mkNode (node_info n) (metrics n) (latency n) (conn n) (pingRetries n) (node_recovering n) true.
Definition count_retry (n : Node) : Node :=
  mkNode (node_info n) (metrics n) (latency n) (conn n) (i64 (pingRetries n + 1)) (node_recovering n) (unavailable n).

(** the goroutine of [WatchNodes] for a node of the snapshot: [m.nodes[id]] is nil
    when the node was removed in the meantime *)
Definition ping (lat : Z) (id : string) (node : Node) : NM unit :=
  res ← in_world (dn_Heartbeat (conn node));
  match res with
  | None =>
      ns ← nodes_get;
      n ← from_option (ns !! id);
      _ ← (if maxPingRetries <=? pingRetries n then set_nodes (alter set_unavailable id) else mret tt);
      set_nodes (alter count_retry id)
  | Some ms => set_nodes (alter (with_metrics ms lat) id)
  end.

(** one tick of [WatchNodes] *)
Definition watch_nodes_tick (lat : string → Z) : NM unit :=
  ns ← nodes_get;
  for_each (order (dom ns)) (λ id, match ns !! id with Some n => ping (lat id) id n | None => mret tt end).

Definition GetNode (id : string) : NM (option Node) := ns ← nodes_get; mret (ns !! id).

Definition nodes_GetBlocks (nodeID : string) (blocks : list BlockPlacementInfo) : NM (list FsBlock) :=
  node ← GetNode nodeID;
  match node with
  | None => fail ErrNotFound
  | Some n =>
      res ← in_world (dn_GetBlocks (conn n) blocks);
      match res with Some l => mret (omap id l) | None => fail ErrCall end
  end.

Definition nodes_AssignBlocks (nodeID : string) (blocks : list FsBlock) : NM (list BlockPlacementInfo) :=
  node ← GetNode nodeID;
  match node with
  | None => fail ErrNotFound
  | Some n =>
      res ← in_world (dn_AssignBlocks (conn n) blocks);
      match res with Some l => mret l | None => fail ErrCall end
  end.

(** [nodes[i].metrics.BlocksUsed < nodes[j].metrics.BlocksUsed] *)
Definition less_used (a b : Node) : result nodes_error bool :=
  ma ← of_option (metrics a) Panic; mb ← of_option (metrics b) Panic;
  Ok (Metrics_BlocksUsed ma <? Metrics_BlocksUsed mb).

Definition node_list (m : NodesMap) : list Node := omap (λ id, nodes m !! id) (order (dom (nodes m))).

Definition GetNodesWithLeastBlocks (n : Z) (m : NodesMap) : result nodes_error (list Node) :=
  l ← sort_slice less_used (node_list m);
  if lenZ l <? n then Ok l
  else if n <? 0 then Panic else Ok (take (Z.to_nat n) l).
End nodes_map.

(** ** The choice of nodes *)

(** a node that was pinged, with its number of used blocks *)
Definition used (n : Node) : Z := match metrics n with Some ms => Metrics_BlocksUsed ms | None => 0 end.
Definition pinged (m : NodesMap) : Prop := map_Forall (λ _ n, is_Some (metrics n)) (nodes m).

Section choice.
Context (order : gset string → list string) (order_perm : ∀ s, order s ≡ₚ elements s).

Lemma node_list_perm m : node_list order m ≡ₚ (map_to_list (nodes m)).*2.
Proof using order_perm.
  unfold node_list. rewrite order_perm. rewrite <- (list_fmap_id ((map_to_list (nodes m)).*2)).
  assert (elements (dom (nodes m)) ≡ₚ (map_to_list (nodes m)).*1) as ->.
  { apply NoDup_Permutation; [apply NoDup_elements|apply NoDup_fst_map_to_list|].
    intros x. rewrite elem_of_elements, elem_of_dom, list_elem_of_fmap. split.
    - intros [n Hn]. exists (x, n). split; [done|]. by apply elem_of_map_to_list.
    - intros ([y n] & -> & Hn%elem_of_map_to_list). by exists n. }
  rewrite list_fmap_id. apply reflexive_eq.
  assert (∀ l, (∀ kv, kv ∈ l → nodes m !! kv.1 = Some kv.2) → omap (λ id, nodes m !! id) l.*1 = l.*2) as Hl.
  { induction l as [|[k n] l IH]; intros Hl; [done|]. cbn.
    pose proof (Hl (k, n) (list_elem_of_here _ _)) as E. cbn in E. rewrite E. f_equal. apply IH. intros kv Hkv. by apply Hl, list_elem_of_further. }
  apply Hl. intros [k n] Hkn. by apply elem_of_map_to_list.
Qed.

(** when every node was pinged, the comparison is that of the numbers *)
Lemma sort_pinged l : Forall (λ n, is_Some (metrics n)) l → sort_slice less_used l = sort_by used l.
Proof using.
  apply sort_slice_ext. intros n n' [a Ha] [b Hb]. unfold less_used, less_by, used. by rewrite Ha, Hb.
Qed.

(** the nodes chosen are the [n] with the least blocks used *)
Lemma GetNodesWithLeastBlocks_ok n m : pinged m → 0 ≤ n →
  ∃ l, GetNodesWithLeastBlocks order n m = Ok (take (Z.to_nat n) l) ∧
    l ≡ₚ (map_to_list (nodes m)).*2 ∧ StronglySorted (key_le used) l.
Proof using order_perm.
  intros Hp Hn. destruct (sort_by_ok (E:=nodes_error) used (node_list order m)) as (l & E & Hl & Hs).
  exists l. split_and!; [|by rewrite Hl, node_list_perm|done]. unfold GetNodesWithLeastBlocks.
  rewrite sort_pinged.
  - rewrite E. cbn. destruct (Z.ltb_spec (lenZ l) n).
    + by rewrite take_ge by lia.
    + by rewrite (proj2 (Z.ltb_ge n 0)) by lia.
  - rewrite node_list_perm. apply Forall_forall. intros x ([k x'] & -> & Hk%elem_of_map_to_list)%list_elem_of_fmap.
    exact (Hp k x' Hk).
Qed.
End choice.
