(* ===== verification/NodesSpec.v ===== *)
(** * What the registry relies on from its data nodes

    [DataNodesLaws] is the contract behind the calls of [DataNodes]: blocks that a
    node takes are stored, and once its sinks have flushed, reading a placement
    gives the bytes that were sent.  The nodes of [Node], one at each address, satisfy
    it.  Their heartbeats report the blocks that they hold, and the registry chooses
    its nodes by them. *)

From S2P Require Import Prelude Uuid Messages RandFile IdxFile Partition Manager Node GoSort NodesMap.

(** a block as a data node sends it back *)
Definition fetched (id : string) (data : list Z) : FsBlock := mkFsBlock id 0 "" 0 (lenZ data) data [].

Abbreviation processes := (gmap string DataNode).

Class DataNodesLaws (W : Type) `{DataNodes W} := {
  dn_takes : string → list FsBlock → W → Prop;            (* the node can store these blocks *)
  dn_stored : string → string → string → list Z → W → Prop;  (* address, block, partition, bytes *)
  dn_flushed : W → W → Prop;                              (* the sinks of all nodes have run in between *)
  dn_reads : string → string → string → list Z → W → Prop;
  dn_assign_ok : ∀ a bs w, dn_takes a bs w →
    ∃ res w', dn_AssignBlocks a bs w = (Some res, w') ∧ BPI_BlockID <$> res = Fs_Id <$> bs ∧
      (∀ j b pl, bs !! j = Some b → res !! j = Some pl → dn_stored a (Fs_Id b) (BPI_PartitionID pl) (Fs_Data b) w') ∧
      (∀ id part data, id ∉ Fs_Id <$> bs → dn_reads a id part data w → dn_stored a id part data w') ∧
      ∀ a', a' ≠ a → (∀ bs', dn_takes a' bs' w → dn_takes a' bs' w') ∧
        (∀ id part data, dn_stored a' id part data w → dn_stored a' id part data w') ∧
        (∀ id part data, dn_reads a' id part data w → dn_reads a' id part data w');
  dn_stored_reads : ∀ a id part data w, dn_reads a id part data w → dn_stored a id part data w;
  dn_flush_ok : ∀ a id part data w w', dn_stored a id part data w → dn_flushed w w' → dn_reads a id part data w';
  dn_get_ok : ∀ a (l : list (BlockPlacementInfo * list Z)) w, l ≠ [] →
    Forall (λ p, dn_reads a (BPI_BlockID p.1) (BPI_PartitionID p.1) p.2 w) l →
    ∃ w', dn_GetBlocks a l.*1 w = (Some ((λ p, Some (fetched (BPI_BlockID p.1) p.2)) <$> l), w') ∧
      ∀ a' id part data, dn_reads a' id part data w → dn_reads a' id part data w';
  dn_remove_ok : ∀ a l w, NoDup (BPI_BlockID <$> l) →
    Forall (λ p, ∃ data, data ≠ [] ∧ dn_reads a (BPI_BlockID p) (BPI_PartitionID p) data w) l →
    ∃ res w', dn_RemoveBlocks a l w = (res, w') ∧
      ∀ a' id part data, id ∉ BPI_BlockID <$> l ∨ a' ≠ a → dn_reads a' id part data w → dn_reads a' id part data w';
}.

(** ** The data nodes of [Node] *)

Section processes.
Context (order : list (Z * IdxBlock) → list (Z * IdxBlock)) (Horder : ∀ l, order l ≡ₚ l).
Context (porder : list string → list string) (Hporder : ∀ l, porder l ≡ₚ l).
Context (border : list (string * list Z) → list (string * list Z)) (Hborder : ∀ l, border l ≡ₚ l).
Context (fallocate : nat → Fileutil.falloc_res) (Hno : ∀ i, fallocate i ≠ Fileutil.FallocErr).
Context (random : option (list Z)).
(** the machine of each node, and the time *)
Context (probes : string → Probes) (now : Z).

(** a call that panics or fails is an error for the registry *)
Definition answered {E A} (r : result E A) : option A := match r with Ok a => Some a | _ => None end.

Definition at_node {A} (a : string) (f : DataNode → option A * Manager) (w : processes) : option A * processes :=
  match w !! a with
  | Some n => let '(r, m') := f n in (r, <[a := with_data m' n]> w)
  | None => (None, w)
  end.

Definition node_processes : DataNodes processes := {|
  dn_Dial a := true;
  dn_Heartbeat a := at_node a (λ n, ((λ res, Some res.2) <$> answered (Heartbeat porder (probes a) now n), n_data n));
  dn_AssignBlocks a bs := at_node a (λ n,
    let '(r, m') := AssignBlocks no_faults no_faults porder fallocate random (Some <$> bs) (n_data n) in (answered r, m'));
  dn_GetBlocks a l := at_node a (λ n, let '(bs, e) := GetBlocks no_faults l (n_data n) in (match e with None => Some bs | Some _ => None end, n_data n));
  dn_RemoveBlocks a l := at_node a (λ n,
    let '(r, m') := Server_RemoveBlocks no_faults l (n_data n) in (match r with Ok b => Some (b, ""%string) | _ => None end, m'));
|}.

Lemma with_data_id n : with_data (n_data n) n = n.
Proof using. by destruct n. Qed.

(** every sink of a node flushes once *)
Definition flush_node (n : DataNode) : DataNode := with_data (flush_all no_faults no_faults order border (n_data n)) n.

(** what a read of a placement gives on a node *)
Definition node_reads (id part : string) (data : list Z) (m : Manager) : Prop :=
  ∀ ok err, ReadBlock no_faults (mkBPI id part ok err) m = Ok (Some (fetched id data)).

Lemma GetBlocks_reads (l : list (BlockPlacementInfo * list Z)) m :
  Forall (λ p, node_reads (BPI_BlockID p.1) (BPI_PartitionID p.1) p.2 m) l →
  GetBlocks no_faults l.*1 m = ((λ p, Some (fetched (BPI_BlockID p.1) p.2)) <$> l, None).
Proof using.
  induction 1 as [|[[id part ok err] data] l Hp Hl IH]; [done|]. rewrite !fmap_cons.
  cbn [GetBlocks fst snd BPI_BlockID BPI_PartitionID] in *. by rewrite (Hp ok err), IH.
Qed.

(** a flush of a node whose sinks are empty *)
Lemma flush_id m : node_inv m → node_inv (flush_all no_faults no_faults order border m) ∧
  ∀ id part data, node_reads id part data m → node_reads id part data (flush_all no_faults no_faults order border m).
Proof using.
  intros H. assert (flush_all no_faults no_faults order border m = m) as ->; [|done].
  unfold flush_all. destruct m as [[ps i] sh]. unfold with_parts. cbn -[sink_tick]. do 2 f_equal.
  apply map_eq. intros k. rewrite lookup_fmap. destruct (ps !! k) as [o|] eqn:Ek; [|done].
  destruct (ni_parts _ H k o Ek) as (p & -> & _ & _ & Hs). cbn -[sink_tick]. do 2 f_equal.
  unfold sink_tick, drain_sink. rewrite Hs. cbn. rewrite map_size_empty, bool_decide_true by done. destruct p. cbn in *. by rewrite Hs.
Qed.

(** a node that can store these blocks: a partition made for them has a name of its own *)
Definition process_takes (n : DataNode) (bs : list FsBlock) : Prop :=
  node_inv (n_data n) ∧ acceptable (n_data n) bs ∧ parts (m_parts (n_data n)) !! Uuid.String (Uuid.NewV4 random).1 = None.

#[program] Definition node_processes_laws : @DataNodesLaws processes node_processes := {|
  dn_takes a bs w := ∃ n, w !! a = Some n ∧ process_takes n bs;
  dn_stored a id part data w := ∃ n, w !! a = Some n ∧ node_inv (n_data (flush_node n)) ∧ node_reads id part data (n_data (flush_node n));
  dn_flushed w w' := w' = flush_node <$> w;
  dn_reads a id part data w := ∃ n, w !! a = Some n ∧ node_inv (n_data n) ∧ node_reads id part data (n_data n);
|}.
Next Obligation.
  intros a bs w (n & Ha & Hinv & Hacc & Hfree).
  destruct (write_then_read order Horder porder Hporder border Hborder fallocate Hno random bs (n_data n) Hinv Hacc)
    as (pl & m' & E & Hlen & Hall).
  destruct (write_keeps order Horder porder Hporder border Hborder fallocate Hno random bs (n_data n) Hinv Hacc Hfree) as [Hinv' Hkeep].
  rewrite E in Hinv', Hkeep. cbn [snd] in Hinv', Hkeep.
  exists pl, (<[a := with_data m' n]> w). split_and!.
  - cbn. unfold at_node. rewrite Ha. unfold AssignBlocks.
    replace (received (Some <$> bs)) with bs by (unfold received; clear; induction bs; cbn; congruence).
    by rewrite E.
  - apply list_eq. intros j. rewrite !list_lookup_fmap. destruct (bs !! j) as [b|] eqn:Eb.
    + destruct (Hall j b Eb) as (p & -> & Hid & _). cbn. by rewrite Hid.
    + apply lookup_ge_None in Eb. rewrite (proj2 (lookup_ge_None pl j)) by lia. done.
  - intros j b p Hb Hp. exists (with_data m' n). split; [apply lookup_insert_eq|]. split; [exact Hinv'|].
    destruct (Hall j b Hb) as (p' & Hp' & Hid & _ & Hr).
    assert (p' = p) as -> by congruence. destruct p as [id part ok' err']. cbn in Hid. subst id. intros ok err. exact Hr.
  - intros id part data Hid (n' & Hn' & _ & Hr). assert (n' = n) as -> by congruence. exists (with_data m' n).
    split; [apply lookup_insert_eq|]. split; [exact Hinv'|]. intros ok err. by apply Hkeep.
  - intros a' Hne. split_and!.
    + intros bs' (m2 & H2 & ?). exists m2. split; [|done]. by rewrite lookup_insert_ne.
    + intros id part data (m2 & H2 & ?). exists m2. split; [|done]. by rewrite lookup_insert_ne.
    + intros id part data (m2 & H2 & ?). exists m2. split; [|done]. by rewrite lookup_insert_ne.
Qed.
Next Obligation.
  intros a id part data w (n & Ha & Hinv & Hr). destruct (flush_id _ Hinv) as [Hinv' Hr'].
  exists n. split; [done|]. split; [exact Hinv'|]. by apply Hr'.
Qed.
Next Obligation.
  intros a id part data w w' (n & Ha & Hinv & Hr) ->. exists (flush_node n). split; [|done]. by rewrite lookup_fmap, Ha.
Qed.
Next Obligation.
  intros a l w Hne Hl. destruct l as [|p0 l0] eqn:El; [done|]. rewrite <- El in *.
  assert (∃ n, w !! a = Some n) as [n Ha].
  { rewrite El in Hl. apply Forall_cons in Hl as [(n & Hn & _) _]. by exists n. }
  exists w. split; [|done]. cbn. unfold at_node. rewrite Ha. rewrite (GetBlocks_reads l (n_data n)).
  - by rewrite with_data_id, insert_id.
  - eapply Forall_impl; [exact Hl|]. intros p (n' & Hn' & _ & Hr). assert (n' = n) as -> by congruence. exact Hr.
Qed.
Next Obligation.
  intros a l w Hnd Hl. cbn. unfold at_node. destruct (w !! a) as [n|] eqn:Ha; [|by eexists None, w].
  unfold Server_RemoveBlocks. destruct l as [|p0 l0] eqn:El.
  { assert (∃ r, Manager_RemoveBlocks no_faults [] (n_data n) = (r, n_data n) ∧ r ≠ Panic) as (r & E & Hr).
    { unfold Manager_RemoveBlocks. destruct (n_data n) as [s []]; by eexists. }
    rewrite E. destruct r as [|e|]; [..|done]; (eexists _, w; split; [by rewrite with_data_id, insert_id|done]). }
  rewrite <- El in *.
  assert (node_inv (n_data n)) as Hinv.
  { rewrite El in Hl. apply Forall_cons in Hl as [(data & _ & n' & Hn' & Hinv & _) _]. by assert (n' = n) as -> by congruence. }
  destruct (remove_keeps l (n_data n) Hinv Hnd) as (m' & E & Hinv' & Hkeep).
  { eapply Forall_impl; [exact Hl|]. intros [id part ok err] (data & Hne & n' & Hn' & _ & Hr). assert (n' = n) as -> by congruence.
    destruct (ReadBlock_view (n_data n) id part ok err data Hinv Hne (Hr ok err)) as (p & Hp & _ & Hv).
    exists p. split; [done|]. cbn. by rewrite Hv. }
  rewrite E. eexists _, _. split; [reflexivity|]. intros a' id part data Hid (n' & Hn' & Hi & Hr).
  destruct (decide (a' = a)) as [->|Hne].
  - destruct Hid as [Hid|]; [|done]. assert (n' = n) as -> by congruence. exists (with_data m' n). split; [apply lookup_insert_eq|].
    split; [exact Hinv'|]. intros ok err. by apply Hkeep.
  - exists n'. by rewrite lookup_insert_ne.
Qed.
End processes.

(** ** The choice of nodes by what they hold *)

Section choice.
Context (porder : list string → list string) (Hporder : ∀ l, porder l ≡ₚ l).
Context (fallocate : nat → Fileutil.falloc_res) (random : option (list Z)).
Context (probes : string → Probes) (now : Z) (order : gset string → list string).
Local Existing Instance node_processes.
Abbreviation nodes_world := (node_processes porder fallocate random probes now).
Implicit Types (w : processes) (n : Node) (d : DataNode).

(** the blocks on the disk of the process that answers for [n] *)
Definition really_used w n : Z := match w !! conn n with Some d => total_blocks (n_data d) | None => 0 end.

(** a process that can answer: running, with its partitions open, on a machine
    whose probes work *)
Definition answering w n : Prop := ∃ d, w !! conn n = Some d ∧ m_shutdown (n_data d) = false ∧
  (∀ k o, parts (m_parts (n_data d)) !! k = Some o → ∃ p, o = Some p ∧ closed p = false) ∧
  is_Some (disk_usage (probes (conn n)) (Config_RhosusPath (n_Config d))) ∧ is_Some (virtual_memory (probes (conn n))) ∧
  total_blocks (n_data d) < 2 ^ 31.

Lemma total_blocks_nonneg m : 0 ≤ total_blocks m.
Proof using.
  unfold total_blocks. induction (map_to_list (parts (m_parts m))) as [|[k o] l IH]; cbn; [lia|].
  unfold held_blocks at 1. destruct o; lia.
Qed.

Lemma heartbeat_reports w n : answering w n →
  ∃ ms, @dn_Heartbeat _ nodes_world (conn n) w = (Some (Some ms), w) ∧ Metrics_BlocksUsed ms = really_used w n.
Proof using Hporder.
  intros (d & Hd & Hon & Hk & [usage Hu] & [percent Hv] & Hlt).
  destruct (CollectMetrics_ok porder Hporder (probes (conn n)) now d usage percent Hon Hk Hu Hv) as (ms & E & Hused & _).
  exists ms. split.
  - cbn. unfold at_node, Heartbeat. rewrite Hd. cbn. rewrite E. cbn. by rewrite with_data_id, insert_id.
  - rewrite Hused. unfold really_used. rewrite Hd. pose proof (total_blocks_nonneg (n_data d)). unfold i32. rewrite Z.mod_small; lia.
Qed.

(** one round of pings: every node has metrics that tell what it holds *)
Lemma pings_ok (lat : string → Z) (ns : gmap string Node) l w : NoDup l → (∀ id, id ∈ l → ∃ n, ns !! id = Some n ∧ answering w n) → ∀ m,
  (∀ id, id ∈ l → nodes m !! id = ns !! id) →
  ∃ m', for_each l (λ id, match ns !! id with Some n => @ping _ nodes_world (lat id) id n | None => mret tt end) (m, w) = (Ok tt, (m', w)) ∧
    (∀ id, id ∉ l → nodes m' !! id = nodes m !! id) ∧
    ∀ id n, id ∈ l → ns !! id = Some n → ∃ ms, Metrics_BlocksUsed ms = really_used w n ∧
      nodes m' !! id = Some (with_metrics (Some ms) (lat id) n).
Proof using Hporder.
  induction l as [|i l IH]; intros Hnd Hl m Hm; cbn [for_each].
  { exists m. split_and!; [done..|]. intros id n Hin. by apply elem_of_nil in Hin. }
  apply NoDup_cons in Hnd as [Hni Hnd]. destruct (Hl i) as (n & Hn & Hans); [by constructor|]. rewrite Hn.
  destruct (heartbeat_reports w n Hans) as (ms & E & Hms).
  set (m1 := mkNodesMap (alter (with_metrics (Some ms) (lat i)) i (nodes m)) (transport m)).
  assert (@ping _ nodes_world (lat i) i n (m, w) = (Ok tt, (m1, w))) as Ep.
  { unfold ping, in_world. rewrite (bind_ok _ _ (m, w) (Some (Some ms)) (m, w)) by (by rewrite E). done. }
  rewrite (bind_ok _ _ _ _ _ Ep).
  destruct (IH Hnd ltac:(intros id Hid; apply Hl; by constructor) m1) as (m' & E' & Hout & Hin).
  { intros id Hid. cbn. rewrite lookup_alter_ne by (by intros ->). apply Hm. by constructor. }
  exists m'. split; [exact E'|]. split.
  - intros id [Hne Hid]%not_elem_of_cons. rewrite (Hout id Hid). cbn. by rewrite lookup_alter_ne by done.
  - intros id n' [->|Hid]%elem_of_cons Hn'; [|by apply Hin]. assert (n' = n) as -> by congruence. exists ms. split; [done|].
    rewrite (Hout i Hni). cbn. by rewrite lookup_alter_eq, (Hm i), Hn by constructor.
Qed.

End choice.

(** a node process on a machine with half of its disk and memory used *)
Definition plain_probes : Probes :=
  mkProbes (Some (Z.shiftl 1022 52)) (λ _, Some (mkUsage 100 50 (Z.shiftl 1022 52))) (Some ["/"%string]) None.
Definition process_at (address : string) (m : Manager) : DataNode :=
  mkDataNode address address (mkConfig address "" address "/data") m false.

