(* ===== verification/Registry.v ===== *)
(** * The registry: [src/rhosus/registry]

    A registry joins the cluster, whose application state is the storage, and the
    map of data nodes.  The handlers below are those of [files.go],
    [file_handlers.go], [sys_handlers.go], [policy.go], [util.go] and
    [registry.go]; the http requests and responses they read and write are values. *)

From S2P Require Import Prelude GoSort GoStrings Messages MemDB Backend Storage Journal Cluster NodesMap.

Inductive registry_error :=
| ErrFileExists | ErrNoSuchFileOrDirectory | ErrReplicationImpossible | ErrEntryNotFound | ErrRequest
| ErrStorage (e : storage_error) | ErrCluster (e : cluster_error) | ErrNodes (e : nodes_error).

(** the entry handler of a registry changes its storage: [r.Storage] is the
    application state of the cluster *)
Record Registry {J : Type} {T : Type → Type} {B W : Type} := mkRegistry {
  Cluster_of : Cluster J (Storage T B);
  NodesMap_of : NodesMap;
  world : W;
}.
Arguments Registry J T B W : clear implicits.
Arguments mkRegistry {J T B W}.

(** ** [policy.go] *)

Inductive Policy_Capability :=
| Policy_Deny | Policy_Create | Policy_Read | Policy_Update | Policy_Delete | Policy_List | Policy_Sudo.

Definition cap2Int (c : Policy_Capability) : Z :=
  match c with
  | Policy_Deny => Z.shiftl 1 0 | Policy_Create => Z.shiftl 1 1 | Policy_Read => Z.shiftl 1 2
  | Policy_Update => Z.shiftl 1 3 | Policy_Delete => Z.shiftl 1 4 | Policy_List => Z.shiftl 1 5
  | Policy_Sudo => Z.shiftl 1 6
  end.

(** ** [util.go] *)

Definition with_Index (i : Z) (b : FsBlock) : FsBlock :=
  mkFsBlock (Fs_Id b) i (Fs_FileId b) (Fs_Offset b) (Fs_Len b) (Fs_Data b) (Fs_Checksum b).

(** a block that the registry does not know has index 0 *)
Definition fillAndSortBlocks (blocks : list BlockInfo) (dBlocks : list FsBlock) : result registry_error (list FsBlock) :=
  let bMap : gmap string Z := foldl (λ m b, <[Block_Id b := Block_Index b]> m) ∅ blocks in
  let index := λ b, default 0 (bMap !! Fs_Id b) in
  sort_by index ((λ b, with_Index (index b) b) <$> dBlocks).

(** ** Entries from the leader: [handleEntriesFromLeader] *)

Section entries.
Context {T : Type → Type} `{MemDB T} {B : Type} `{Backend B} `{RecordCodecs} `{EntryCodecs}.
Local Abbreviation SM := (M (Storage T B) storage_error).

(** one round of the loop: a payload that does not unmarshal is skipped *)
Definition handle_entry (e : Entry) : SM unit :=
  match Entry_type e with
  | Entry_ASSIGN_FILE =>
      match Unmarshal_msg (Entry_Data e) with Some a => StoreFile (AssignFile_File a) | None => mret tt end
  | Entry_DELETE_FILE =>
      match Unmarshal_msg (Entry_Data e) with Some d => DeleteFile (DeleteFile_File d) | None => mret tt end
  | Entry_ASSIGN_BLOCKS =>
      match Unmarshal_msg (Entry_Data e) with Some a => PutBlocks (AssignBlocks_Blocks a) | None => mret tt end
  | Entry_DELETE_BLOCKS =>
      match Unmarshal_msg (Entry_Data e) with Some d => DeleteBlocks (DeleteBlocks_Blocks d) | None => mret tt end
  | Entry_CREATE_POLICY =>
      match Unmarshal_msg (Entry_Data e) with Some a => StorePolicy (CreatePolicy_Policy a) | None => mret tt end
  | Entry_DELETE_POLICY =>
      match Unmarshal_msg (Entry_Data e) with
      | Some d => policy ← GetPolicy (DeletePolicy_PolicyName d);
                  match policy with Some p => DeletePolicy p | None => mret tt end
      | None => mret tt
      end
  | Entry_CREATE_TOKEN =>
      match Unmarshal_msg (Entry_Data e) with Some a => StoreToken (CreateToken_Token a) | None => mret tt end
  | Entry_REVOKE_TOKEN =>
      match Unmarshal_msg (Entry_Data e) with
      | Some d => token ← GetToken (RevokeToken_Accessor d);
                  match token with Some t => RevokeToken t | None => mret tt end
      | None => mret tt
      end
  end.

(** an error of one entry is logged, and the next one is handled *)
Definition apply_entry (s : Storage T B) (e : Entry) : Storage T B := (handle_entry e s).2.
Definition handleEntriesFromLeader (entries : list Entry) (s : Storage T B) : Storage T B := foldl apply_entry s entries.
End entries.

Section registry.
Context {J : Type} `{Journal J} {T : Type → Type} `{MemDB T} {B : Type} `{Backend B} {W : Type} `{DataNodes W}.
Context `{RecordCodecs} `{EntryCodecs}.
(** the order of [range] over a map, of the goroutines of an upload, and
    for each entry written the time and whether the pipeline takes it *)
Context (order : gset string → list string) (norder : list (Node * list FsBlock) → list (Node * list FsBlock)).
Context (now : Entry_Type → Z) (taken : Entry_Type → bool).

Local Abbreviation R := (Registry J T B W).
Local Abbreviation RM := (M R registry_error).

Definition Storage_of (r : R) : Storage T B := app (Cluster_of r).

Definition map_err {E E' A} (f : E → E') (r : result E A) : result E' A :=
  match r with Ok a => Ok a | Err e => Err (f e) | Panic => Panic end.

Definition on_storage {A} (m : M (Storage T B) storage_error A) : RM A := λ r,
  let '(a, s) := m (Storage_of r) in
  (map_err ErrStorage a, mkRegistry (set_app s (Cluster_of r)) (NodesMap_of r) (world r)).

Definition on_cluster {A} (m : M (Cluster J (Storage T B)) cluster_error A) : RM A := λ r,
  let '(a, c) := m (Cluster_of r) in (map_err ErrCluster a, mkRegistry c (NodesMap_of r) (world r)).

Definition on_nodes {A} (m : M (NodesMap * W) nodes_error A) : RM A := λ r,
  let '(a, (n, w)) := m (NodesMap_of r, world r) in (map_err ErrNodes a, mkRegistry (Cluster_of r) n w).

Definition catch {A} (m : RM A) : RM (option A) := λ r,
  match m r with (Ok a, r') => (Ok (Some a), r') | (Err _, r') => (Ok None, r') | (Panic, r') => (Panic, r') end.

Definition attempt {A} (m : RM A) : RM (A + registry_error) := λ r,
  match m r with (Ok a, r') => (Ok (inl a), r') | (Err e, r') => (Ok (inr e), r') | (Panic, r') => (Panic, r') end.

(** ** Files and blocks: [files.go] *)

Definition registerFile (file : FileInfo) : RM unit := on_storage (StoreFile file).
Definition unregisterFile (file : FileInfo) : RM unit := on_storage (DeleteFile file).
Definition registerBlocks (blocks : list BlockInfo) : RM unit := on_storage (PutBlocks blocks).
Definition unregisterBlocks (blocks : list BlockInfo) : RM unit := on_storage (DeleteBlocks blocks).

Definition with_ParentID (id : string) (f : FileInfo) : FileInfo :=
  mkFileInfo (File_Id f) id (File_Type f) (File_Name f) (File_Path f) (File_FileSize f) (File_Permission f)
    (File_Owner f) (File_Group f) (File_Symlink f) (File_Replication f).

Definition WriteFile (file : FileInfo) : RM unit :=
  on_cluster (WriteAssignFileEntry order (now Entry_ASSIGN_FILE) (taken Entry_ASSIGN_FILE) file).

Definition RegisterFile (file : FileInfo) : RM unit :=
  test ← on_storage (GetFileByPath (File_Path file));
  match test with
  | Some _ => fail ErrFileExists
  | None =>
      parentID ← (if bool_decide (1 < length (Split (File_Path file)))%nat then
                    parent ← on_storage (GetFileByPath (parent_path (File_Path file)));
                    match parent with
                    | None => fail ErrNoSuchFileOrDirectory
                    | Some p => mret (File_Id p)
                    end
                  else mret "root"%string);
      let file := with_ParentID parentID file in
      _ ← registerFile file;
      WriteFile file
  end.

Definition FileExists (path : string) : RM bool :=
  test ← on_storage (GetFileByPath path); mret (match test with Some _ => true | None => false end).

(** the nodes each list of blocks goes to *)
Definition blocksAssignment (chosen : list Node) (rf : Z) (blocks : list FsBlock) : result registry_error (list (Node * list FsBlock)) :=
  if lenZ chosen <? rf then
    match chosen with node :: _ => Ok [(node, blocks)] | [] => Panic end
  else if lenZ chosen =? rf then Ok ((λ node, (node, blocks)) <$> chosen)
  else Ok [].

Abbreviation placements := (gmap string (list BlockInfo_Placement)).

(** the answer of one node, merged under the lock; whether a placement succeeded
    is not looked at *)
Definition add_placements (nodeID : string) (res : list BlockPlacementInfo) (m : placements) : placements :=
  foldl (λ m p, <[BPI_BlockID p := default [] (m !! BPI_BlockID p) ++ [mkPlacement nodeID (BPI_PartitionID p)]]> m) m res.

Fixpoint transport_blocks (jobs : list (Node * list FsBlock)) (m : placements) : RM placements :=
  match jobs with
  | [] => mret m
  | (node, blocks) :: jobs' =>
      res ← catch (on_nodes (nodes_AssignBlocks (Node_Id (node_info node)) blocks));
      transport_blocks jobs' (add_placements (Node_Id (node_info node)) (default [] res) m)
  end.

Definition block_infos (fileID : string) (blocks : list FsBlock) (m : placements) : list BlockInfo :=
  let blockSeq : gmap string Z := foldl (λ s b, <[Fs_Id b := Fs_Index b]> s) ∅ blocks in
  omap (λ blockID, (λ result, mkBlockInfo blockID (default 0 (blockSeq !! blockID)) 0 fileID result) <$> m !! blockID)
    (order (dom m)).

Definition TransportAndRegisterBlocks (fileID : string) (blocks : list FsBlock) (replicationFactor : Z) : RM unit :=
  r ← get;
  chosen ← lift (map_err ErrNodes (GetNodesWithLeastBlocks order replicationFactor (NodesMap_of r)));
  jobs ← lift (blocksAssignment chosen replicationFactor blocks);
  assignResult ← transport_blocks (norder jobs) ∅;
  let bInfos := block_infos fileID blocks assignResult in
  _ ← ignore_err (registerBlocks bInfos);
  on_cluster (WriteAssignBlocksEntry order (now Entry_ASSIGN_BLOCKS) (taken Entry_ASSIGN_BLOCKS) bInfos).

(** [bMap]: what is asked of each node *)
Definition group_placements (l : list (string * BlockPlacementInfo)) : gmap string (list BlockPlacementInfo) :=
  foldl (λ m p, <[p.1 := default [] (m !! p.1) ++ [p.2]]> m) ∅ l.

(** the goroutine of one node; a node that is gone is a nil pointer *)
Definition remove_from (nodeId : string) (blocks : list BlockPlacementInfo) : RM unit :=
  node ← on_nodes (GetNode nodeId);
  n ← from_option node;
  _ ← on_nodes (in_world (dn_RemoveBlocks (conn n) blocks));
  mret tt.

Definition RemoveFileBlocks (file : FileInfo) : RM unit :=
  blocks ← on_storage (GetBlocks (File_Id file));
  let bMap := group_placements (blocks ≫= λ b,
    (λ p, (Placement_NodeID p, mkBPI (Block_Id b) (Placement_PartitionID p) false "")) <$> Block_Blocks b) in
  _ ← for_each (order (dom bMap)) (λ nodeId, remove_from nodeId (default [] (bMap !! nodeId)));
  on_storage (DeleteFileWithBlocks file).

(** the first placement of a block; a block without one is an index out of range *)
Fixpoint first_placements (blocks : list BlockInfo) : result registry_error (list (string * BlockPlacementInfo)) :=
  match blocks with
  | [] => Ok []
  | b :: blocks' =>
      p ← of_option (head (Block_Blocks b)) Panic;
      l ← first_placements blocks';
      Ok ((Placement_NodeID p, mkBPI (Block_Id b) (Placement_PartitionID p) false "") :: l)
  end.

(** the blocks of the nodes that answer, in the order of the goroutines *)
Fixpoint fetch (ids : list string) (bMap : gmap string (list BlockPlacementInfo)) : RM (list FsBlock) :=
  match ids with
  | [] => mret []
  | nodeID :: ids' =>
      actual ← catch (on_nodes (nodes_GetBlocks nodeID (default [] (bMap !! nodeID))));
      rest ← fetch ids' bMap;
      mret (default [] actual ++ rest)
  end.

(** the blocks that [GetFileHandler] hands to [transport], in order *)
Definition GetFileHandler (path : string) : RM (list FsBlock) :=
  file ← on_storage (GetFileByPath path);
  match file with
  | None => fail ErrNoSuchFileOrDirectory
  | Some file =>
      blocks ← on_storage (GetBlocks (File_Id file));
      firsts ← lift (first_placements blocks);
      let bMap := group_placements firsts in
      result ← fetch (order (dom bMap)) bMap;
      lift (fillAndSortBlocks blocks result)
  end.
End registry.
