(* ===== verification/Handlers.v ===== *)
(** * The handlers of a registry: [sys_handlers.go] and [file_handlers.go]

    Requests and responses are the messages of [pb/api] or, for the routes of the
    file system, an http status with a body.  The upload of a file is in [Upload]. *)

From S2P Require Import Prelude GoSort GoStrings Messages MemDB Backend Storage Journal Cluster NodesMap Registry.

(** ** Messages of [pb/api] *)

Record CommonResponse := mkCommon { Common_Success : bool; Common_Err : string; Common_Args : gmap string string }.
Definition failure (err : string) : CommonResponse := mkCommon false err ∅.
Definition success : CommonResponse := mkCommon true "" ∅.

Record PolicyPathRules := mkPathRule { Rule_Path : string; Rule_Capabilities : list string }.
Record GetPolicyResponse := mkPolicyResponse { PolicyRes_Name : string; PolicyRes_Paths : list PolicyPathRules }.
Record GetTokenResponse := mkTokenResponse { TokenRes_Accessor : string; TokenRes_Policies : list string; TokenRes_Ttl : string }.
Record ApiFileInfo := mkApiFile { ApiFile_Name : string; ApiFile_Type : FileInfo_FileType; ApiFile_Size : Z }.

(** an http response: status and body *)
Record http_response := mkHttp { http_status : Z; http_body : list Z }.

Section handlers.
Context {J : Type} `{Journal J} {T : Type → Type} `{MemDB T} {B : Type} `{Backend B} {W : Type} `{DataNodes W}.
Context `{RecordCodecs} `{EntryCodecs}.
Context (order : gset string → list string) (norder : list (Node * list FsBlock) → list (Node * list FsBlock)).
Context (now : Entry_Type → Z) (taken : Entry_Type → bool).

Local Abbreviation R := (Registry J T B W).
Local Abbreviation RM := (M R registry_error).

(** ** Directories and removal *)

(** [uid] is the identifier that [uuid.NewV4] returns.  The parent is tested before
    the error of its query *)
Definition HandleMakeDir (uid path : string) : RM CommonResponse :=
  let path := Trim path in
  dir ← on_storage (GetFileByPath path);
  match dir with
  | Some _ => mret (failure "directory already exists")
  | None =>
      parentID ← (if bool_decide (1 < length (Split path))%nat then
                    parent ← catch (on_storage (GetFileByPath (parent_path path)));
                    mret (File_Id <$> default None parent)
                  else mret (Some "root"%string));
      match parentID with
      | None => mret (failure "no such file or directory")
      | Some id =>
          let file := mkFileInfo uid id FileInfo_DIR (base_name path) path 0 0 "" "" "" 0 in
          _ ← on_storage (StoreFile file);
          _ ← WriteFile order now taken file;
          mret success
      end
  end.

(** [killChildren]: the recursion goes down the tree of parents; it ends on its
    own when the fuel suffices *)
Fixpoint killChildren (fuel : nat) (file : FileInfo) : RM unit :=
  match fuel with
  | O => panic
  | S fuel' =>
      childFiles ← on_storage (GetFilesByParentId (File_Id file));
      if bool_decide (childFiles = []) then mret tt
      else
        _ ← (if bool_decide (File_Type file = FileInfo_FILE) then RemoveFileBlocks order file else mret tt);
        for_each childFiles (killChildren fuel')
  end.

Definition WriteDeleteFile (file : FileInfo) : RM unit :=
  on_cluster (WriteDeleteFileEntry order (now Entry_DELETE_FILE) (taken Entry_DELETE_FILE) file).
Definition WriteDeleteBlocks (blocks : list BlockInfo) : RM unit :=
  on_cluster (WriteDeleteBlocksEntry order (now Entry_DELETE_BLOCKS) (taken Entry_DELETE_BLOCKS) blocks).

(** [Recursive] of the request is not looked at *)
Definition HandleRemoveFileOrPath (fuel : nat) (path : string) : RM CommonResponse :=
  rootFile ← on_storage (GetFileByPath (Trim path));
  match rootFile with
  | None => mret (failure "no such file or directory")
  | Some file =>
      blocks ← on_storage (GetBlocks (File_Id file));
      _ ← killChildren fuel file;
      _ ← (if bool_decide (File_Type file = FileInfo_FILE) then RemoveFileBlocks order file else mret tt);
      _ ← WriteDeleteFile file;
      _ ← WriteDeleteBlocks blocks;
      mret success
  end.

(** ** Policies *)

Definition path_rules (p : Policy) : list PolicyPathRules :=
  (λ r, mkPathRule (PathRules_Path r) (PathRules_Capabilities r)) <$> Policy_Paths p.

(** an error of the cluster is logged *)
Definition HandleCreatePolicy (uid name : string) (paths : list PolicyPathRules) : RM unit :=
  let policy := mkPolicy uid name ((λ r, mkPathRules (Rule_Path r) name 0 (Rule_Capabilities r)) <$> paths) in
  _ ← on_storage (StorePolicy policy);
  ignore_err (on_cluster (WriteCreatePolicyEntry order (now Entry_CREATE_POLICY) (taken Entry_CREATE_POLICY) policy)).

Definition HandleGetPolicy (name : string) : RM GetPolicyResponse :=
  policy ← on_storage (GetPolicy name);
  match policy with
  | None => fail ErrEntryNotFound
  | Some p => mret (mkPolicyResponse (Policy_Name p) (path_rules p))
  end.

Definition HandleListPolicies : RM (list GetPolicyResponse) :=
  policies ← on_storage ListPolicies;
  mret ((λ p, mkPolicyResponse (Policy_Name p) (path_rules p)) <$> policies).

(** [None] is a nil response *)
Definition HandleDeletePolicy (name : string) : RM (option unit) :=
  policy ← on_storage (GetPolicy name);
  match policy with
  | None => mret None
  | Some p =>
      _ ← on_storage (DeletePolicy p);
      _ ← ignore_err (on_cluster (WriteDeletePolicyEntry order (now Entry_DELETE_POLICY) (taken Entry_DELETE_POLICY) (Policy_Name p)));
      mret (Some tt)
  end.

(** ** Tokens *)

(** [time.Second.Milliseconds()] *)
Definition second_ms : Z := 1000.

(** [tokenStr] is the random token, [ms] the time in milliseconds *)
Definition HandleCreateToken (tokenStr : string) (ms : Z) (policies : list string) : RM string :=
  let token := mkToken tokenStr "" "" tokenStr second_ms ms policies "" false in
  _ ← on_storage (StoreToken token);
  _ ← ignore_err (on_cluster (WriteCreateTokenEntry order (now Entry_CREATE_TOKEN) (taken Entry_CREATE_TOKEN) token));
  mret tokenStr.

Definition token_response (t : Token) : GetTokenResponse := mkTokenResponse (Token_Accessor t) (Token_Policies t) "3m".

Definition HandleGetToken (accessor : string) : RM GetTokenResponse :=
  token ← on_storage (GetToken accessor);
  match token with None => fail ErrEntryNotFound | Some t => mret (token_response t) end.

Definition HandleListTokens : RM (list GetTokenResponse) :=
  tokens ← on_storage ListTokens; mret (token_response <$> tokens).

(** the response is nil in every case *)
Definition HandleRevokeToken (accessor : string) : RM unit :=
  token ← on_storage (GetToken accessor);
  match token with
  | None => mret tt
  | Some t =>
      _ ← on_storage (RevokeToken t);
      ignore_err (on_cluster (WriteRevokeTokenEntry order (now Entry_REVOKE_TOKEN) (taken Entry_REVOKE_TOKEN) (Token_Accessor t)))
  end.

(** ** The routes of the file system *)

(** [io.CopyN(rw, reader, int64(block.Len))] *)
Definition copy_block (b : FsBlock) : list Z := take (Z.to_nat (i64 (Fs_Len b))) (Fs_Data b).

(** the response, and the error the handler returns to its caller: the blocks are
    written one by one, with status 200 unless a header was written before *)
Definition HandleGetFile (path : string) : RM (http_response * option registry_error) :=
  res ← attempt (GetFileHandler order (Trim path));
  mret (match res with
        | inl blocks => (mkHttp 200 (blocks ≫= copy_block), None)
        | inr ErrNoSuchFileOrDirectory => (mkHttp 404 [], Some ErrNoSuchFileOrDirectory)
        | inr e => (mkHttp 200 [], Some e)
        end).

(** [list[i].Name[0] < list[j].Name[1]]: the second byte of a name *)
Definition less_names (a b : ApiFileInfo) : result registry_error bool :=
  x ← of_option (String.get 0 (ApiFile_Name a)) Panic;
  y ← of_option (String.get 1 (ApiFile_Name b)) Panic;
  Ok (N_of_ascii x <? N_of_ascii y)%N.

(** a symbolic link is listed as a directory, the zero type *)
Definition api_file (f : FileInfo) : ApiFileInfo :=
  mkApiFile (File_Name f) (match File_Type f with FileInfo_SYMLINK => FileInfo_DIR | t => t end) (File_FileSize f).

(** [None] is a 404 *)
Definition HandleList (path : string) : RM (option (list ApiFileInfo)) :=
  parentID ← (if decide (path = "/"%string) then mret (Some "root"%string)
              else dir ← on_storage (GetFileByPath (Trim path)); mret (File_Id <$> dir));
  match parentID with
  | None => mret None
  | Some id =>
      files ← on_storage (GetFilesByParentId id);
      l ← lift (sort_slice less_names (api_file <$> files));
      mret (Some l)
  end.

Definition HandleDeleteFile (fuel : nat) (path : string) : RM CommonResponse := HandleRemoveFileOrPath fuel path.
End handlers.
