(* ===== verification/Upload.v ===== *)
(** * The upload of a file: [HandlePutFile] of [registry/file_handlers.go]

    The body of the request is read in blocks of 2 MiB into buffers of a pool.  A
    full block is staged by a goroutine of its own, whose slice points into the
    buffer it gives back to the pool; the last, shorter block is copied.  The main
    loop waits while four buffers are in use.  An [event] is a step of the loop or
    the run of one goroutine, and a list of events is a schedule. *)

From S2P Require Import Prelude GoStrings Messages MemDB Backend Storage Journal Cluster NodesMap Registry Handlers.

(** 2 MiB *)
Definition blockSize : Z := Z.shiftl 2 20.
Definition maxBuffers : Z := 4.

(** a [[]byte]: an array of its own, or the first [len] bytes of a pooled buffer *)
Inductive payload := Own (data : list Z) | Shared (buffer : nat) (len : nat).

(** a block of [dataToTransfer] *)
Record staged := mkStaged { st_Id : string; st_Index : Z; st_Len : Z; st_Data : payload }.

(** where the main loop is: about to lock, decided to wait, waiting for the
    condition, about to read a block, or past the loop *)
Inductive position := Enter | Full | Waiting | Fill | Done.

Record Upload := mkUpload {
  up_position : position;
  up_rest : list Z;                  (* what the reader has still to give *)
  up_broken : bool;                  (* it ends with an error, not with EOF *)
  up_buffers : gmap nat (list Z);    (* the arrays behind the buffers *)
  bufPool : list nat;
  bytesBufferCounter : Z;
  up_pending : list (nat * nat);     (* goroutines that did not run: buffer and size *)
  up_counter : Z;
  totalFileSize : Z;
  dataToTransfer : list staged;
  up_uids : nat;                     (* calls of [uuid.NewV4] *)
}.

Inductive event := Main (buffer : nat) | Go (i : nat).

Section upload.
(** the identifiers that the calls of [uuid.NewV4] return *)
Context (ids : nat → string).

(** an upload starts with the buffers that earlier ones left *)
Definition start_upload (body : list Z) (broken : bool) (buffers : gmap nat (list Z)) (pool : list nat) : Upload :=
  mkUpload Enter body broken buffers pool 0 [] 1 0 [] 1.

(** [bytesBuffer.ReadFrom(io.LimitReader(partReader, blockSize))]: the data, what
    is left, and whether there was no error *)
Definition read_block (rest : list Z) (broken : bool) : list Z * list Z * bool :=
  let n := Z.to_nat blockSize in
  (take n rest, drop n rest, (blockSize <=? lenZ rest) || negb broken).

(** what a buffer's array holds once data was read into it from the start *)
Definition overwrite (data old : list Z) : list Z := data ++ drop (length data) old.

(** the body of the loop from [bufPool.Get] on: a buffer of the pool or a new one *)
Definition fill (buffer : nat) (s : Upload) : option Upload :=
  if bool_decide (buffer ∈ bufPool s ∨ up_buffers s !! buffer = None) then
    let '(data, rest, ok) := read_block (up_rest s) (up_broken s) in
    let buffers := <[buffer := overwrite data (default [] (up_buffers s !! buffer))]> (up_buffers s) in
    let pool := filter (λ b, b ≠ buffer) (bufPool s) in
    if negb ok || (lenZ data =? 0) then
      Some (mkUpload Done rest (up_broken s) buffers (buffer :: pool) (bytesBufferCounter s - 1)
              (up_pending s) (up_counter s) (totalFileSize s) (dataToTransfer s) (up_uids s))
    else if lenZ data <? blockSize then
      let block := mkStaged (ids (up_uids s)) (up_counter s) (lenZ data) (Own data) in
      Some (mkUpload Done rest (up_broken s) buffers (buffer :: pool) (bytesBufferCounter s - 1)
              (up_pending s) (up_counter s) (u64 (totalFileSize s + lenZ data)) (dataToTransfer s ++ [block]) (S (up_uids s)))
    else
      Some (mkUpload Enter rest (up_broken s) buffers pool (bytesBufferCounter s)
              (up_pending s ++ [(buffer, length data)]) (up_counter s) (totalFileSize s) (dataToTransfer s) (up_uids s))
  else None.

Definition with_position (p : position) (s : Upload) : Upload :=
  mkUpload p (up_rest s) (up_broken s) (up_buffers s) (bufPool s) (bytesBufferCounter s)
    (up_pending s) (up_counter s) (totalFileSize s) (dataToTransfer s) (up_uids s).

Definition take_buffer (s : Upload) : Upload :=
  mkUpload Fill (up_rest s) (up_broken s) (up_buffers s) (bufPool s) (bytesBufferCounter s + 1)
    (up_pending s) (up_counter s) (totalFileSize s) (dataToTransfer s) (up_uids s).

(** [bytesBufferLimitCond.Signal()]: nothing is remembered without a waiter *)
Definition signal (p : position) : position := match p with Waiting => Enter | _ => p end.

(** the goroutine of a full block: its appends and increments are taken to be
    atomic *)
Definition run_block (i : nat) (s : Upload) : option Upload :=
  '(buffer, dataSize) ← up_pending s !! i;
  let block := mkStaged (ids (up_uids s)) (up_counter s) (Z.of_nat dataSize) (Shared buffer dataSize) in
  Some (mkUpload (signal (up_position s)) (up_rest s) (up_broken s) (up_buffers s) (buffer :: bufPool s)
          (bytesBufferCounter s - 1) (delete i (up_pending s)) (i64 (up_counter s + 1))
          (u64 (totalFileSize s + Z.of_nat dataSize)) (dataToTransfer s ++ [block]) (S (up_uids s))).

Definition upload_step (e : event) (s : Upload) : option Upload :=
  match e with
  | Go i => run_block i s
  | Main buffer =>
      match up_position s with
      | Enter => Some (if maxBuffers <=? bytesBufferCounter s then with_position Full s else take_buffer s)
      | Full => Some (with_position Waiting s)
      | Fill => fill buffer s
      | Waiting | Done => None
      end
  end.

Fixpoint upload_run (sched : list event) (s : Upload) : option Upload :=
  match sched with
  | [] => Some s
  | e :: sched' => s' ← upload_step e s; upload_run sched' s'
  end.

(** the bytes a slice shows *)
Definition payload_bytes (buffers : gmap nat (list Z)) (p : payload) : list Z :=
  match p with Own data => data | Shared b n => take n (default [] (buffers !! b)) end.

(** the blocks as they are sent *)
Definition sent (fileID : string) (s : Upload) : list FsBlock :=
  (λ b, mkFsBlock (st_Id b) (u64 (st_Index b)) fileID 0 (st_Len b) (payload_bytes (up_buffers s) (st_Data b)) [])
    <$> dataToTransfer s.
End upload.

(** ** The handler *)

Section handler.
Context {J : Type} `{Journal J} {T : Type → Type} `{MemDB T} {B : Type} `{Backend B} {W : Type} `{DataNodes W}.
Context `{RecordCodecs} `{EntryCodecs}.
Context (order : gset string → list string) (norder : list (Node * list FsBlock) → list (Node * list FsBlock)).
Context (now : Entry_Type → Z) (taken : Entry_Type → bool).
Context (ids : nat → string).
Local Abbreviation RM := (M (Registry J T B W) registry_error).

(** the file that is registered, with [req.URL.String()] *)
Definition uploaded_file (url : string) (size : Z) : FileInfo :=
  mkFileInfo (ids 0) "" FileInfo_FILE (base_name (Trim url)) (Trim url) size 493 "" "" "" 2.

(** the answer to the result of [RegisterFile] *)
Definition put_response (res : unit + registry_error) : http_response :=
  match res with
  | inl _ => mkHttp 200 (bytes_of_string "OK")
  | inr ErrFileExists => mkHttp 409 []
  | inr ErrNoSuchFileOrDirectory => mkHttp 400 []
  | inr _ => mkHttp 500 (bytes_of_string "internal error")
  end.

(** [part] is the first part of the multipart body, [None] when there is none; the
    handler waits for none of its goroutines: those of [late] run while the
    blocks are sent.  [None] is a schedule that does not end the loop. *)
Definition HandlePutFile (url : string) (part : option (list Z * bool)) (buffers : gmap nat (list Z)) (pool : list nat)
    (sched : list event) (late : list nat) : option (RM http_response) :=
  match part with
  | None => Some (fail ErrRequest)
  | Some (body, broken) =>
      s ← upload_run ids sched (start_upload body broken buffers pool);
      match up_position s with
      | Done =>
          s' ← upload_run ids (Go <$> late) s;
          Some (
            _ ← ignore_err (TransportAndRegisterBlocks order norder now taken (ids 0) (sent (ids 0) s) 2);
            res ← attempt (RegisterFile order now taken (uploaded_file url (totalFileSize s')));
            mret (put_response res))
      | _ => None
      end
  end.
End handler.

(** ** What a schedule can do *)

Section facts.
Context (ids : nat → string).
Local Abbreviation step := (upload_step ids).
Local Abbreviation run := (upload_run ids).

Definition reachable (s s' : Upload) : Prop := ∃ sched, run sched s = Some s'.

Lemma upload_run_app l1 l2 s : run (l1 ++ l2) s = (s' ← run l1 s; run l2 s').
Proof using. revert s. induction l1 as [|e l1 IH]; intros s; [done|]. cbn. destruct (step e s); [apply IH|done]. Qed.

(** rule induction on the steps *)
Lemma reachable_ind (P : Upload → Prop) s s' :
  reachable s s' → P s → (∀ e t t', P t → step e t = Some t' → P t') → P s'.
Proof using.
  intros [sched Hr] Hs Hstep. revert s Hs Hr. induction sched as [|e sched IH]; intros s Hs Hr; cbn in Hr.
  - by injection Hr as <-.
  - destruct (step e s) as [t|] eqn:E; [|done]. cbn in Hr. eauto.
Qed.

(** the bytes of the blocks that are staged, and of those whose goroutine did not run *)
Fixpoint staged_bytes (l : list staged) : Z :=
  match l with [] => 0 | b :: l' => st_Len b + staged_bytes l' end.
Definition pending_bytes (s : Upload) : Z := blockSize * lenZ (up_pending s).
Definition in_fill (s : Upload) : Z := match up_position s with Fill => 1 | _ => 0 end.

(** the state of the loop while a body of [size] bytes is uploaded *)
Record upload_inv (size : Z) (s : Upload) : Prop := {
  inv_buffers : bytesBufferCounter s = lenZ (up_pending s) + in_fill s;
  inv_limit : bytesBufferCounter s ≤ maxBuffers;
  inv_sizes : Forall (λ p, Z.of_nat p.2 = blockSize) (up_pending s);
  inv_total : totalFileSize s = u64 (staged_bytes (dataToTransfer s));
  inv_bytes : staged_bytes (dataToTransfer s) + pending_bytes s + lenZ (up_rest s) = size ∨
              up_position s = Done ∧ up_broken s = true;
  inv_done : up_position s = Done → up_broken s = false → up_rest s = [];
}.

Lemma staged_bytes_snoc l b : staged_bytes (l ++ [b]) = staged_bytes l + st_Len b.
Proof using. induction l as [|c l IH]; cbn; [lia|]. rewrite IH. lia. Qed.

Lemma u64_add x y : u64 (u64 x + y) = u64 (x + y).
Proof using. unfold u64. by rewrite Zplus_mod_idemp_l. Qed.

Lemma blockSize_pos : 0 < blockSize.
Proof using. done. Qed.

Lemma start_inv body broken buffers pool : upload_inv (lenZ body) (start_upload body broken buffers pool).
Proof using.
  split; try done. left. unfold pending_bytes. cbn [staged_bytes start_upload up_pending up_rest dataToTransfer fmap list_fmap foldr length]. lia.
Qed.

Lemma read_block_spec rest broken data rest' ok : read_block rest broken = (data, rest', ok) →
  data ++ rest' = rest ∧ lenZ data ≤ blockSize ∧ (lenZ data < blockSize → rest' = []) ∧ (ok = false → broken = true).
Proof using.
  unfold read_block. intros [= <- <- <-]. pose proof (Z2Nat.id blockSize (Z.lt_le_incl _ _ blockSize_pos)) as Hn.
  split_and!; [apply take_drop| | |].
  - rewrite length_take. lia.
  - rewrite length_take. intros Hlt. apply length_zero_iff_nil. rewrite length_drop. lia.
  - by intros [_ ?%negb_false_iff]%orb_false_elim.
Qed.

Lemma fill_inv size buffer s s' : up_position s = Fill → upload_inv size s → fill ids buffer s = Some s' → upload_inv size s'.
Proof using.
  intros Hp [Hb Hl Hs Ht Hc Hd]. unfold in_fill in Hb. rewrite Hp in Hb, Hc.
  unfold fill. case_bool_decide as Hbuf; [|done].
  destruct (read_block (up_rest s) (up_broken s)) as [[data rest] ok] eqn:Er.
  apply read_block_spec in Er as (Hsplit & Hle & Hshort & Hok). destruct Hc as [Hc|[? ?]]; [|done].
  apply (f_equal length) in Hsplit. rewrite length_app in Hsplit. pose proof blockSize_pos as Hpos.
  unfold pending_bytes in Hc. destruct ok; cbn [negb orb].
  - destruct (Z.eqb_spec (lenZ data) 0) as [Hnil|Hnil]; [|destruct (Z.ltb_spec (lenZ data) blockSize) as [Hlt|Hge]];
      intros E; injection E as <-; split; unfold pending_bytes; cbn; rewrite ?staged_bytes_snoc, ?length_app;
      try (cbn; lia); try (intros _ _; apply Hshort; lia); try done; [by rewrite Ht, u64_add|].
    apply Forall_app_2; [done|]. apply Forall_singleton. cbn. lia.
  - intros E. injection E as <-. split; cbn; try done; try lia; [by right; auto|]. intros _. rewrite Hok; done.
Qed.

Lemma upload_step_inv size e s s' : upload_inv size s → upload_step ids e s = Some s' → upload_inv size s'.
Proof using.
  intros Hinv. destruct e as [buffer|i]; cbn.
  - destruct (up_position s) eqn:Ep; try done.
    + destruct Hinv as [Hb Hl Hs Ht Hc Hd]. unfold in_fill in *. rewrite Ep in *.
      destruct (Z.leb_spec maxBuffers (bytesBufferCounter s)); intros [= <-]; split; cbn; try done; try lia;
        (destruct Hc as [Hc|[? ?]]; [by left|done]).
    + intros [= <-]. destruct Hinv as [Hb Hl Hs Ht Hc Hd]. unfold in_fill in *. rewrite Ep in *. by split; try done; destruct Hc as [Hc|[? ?]]; [left|].
    + by apply fill_inv.
  - unfold run_block. destruct (up_pending s !! i) as [[b n]|] eqn:Ei; [|done]. intros [= <-].
    destruct Hinv as [Hb Hl Hs Ht Hc Hd].
    pose proof (Forall_lookup_1 _ _ _ _ Hs Ei) as Hn. cbn in Hn.
    assert (lenZ (up_pending s) = lenZ (delete i (up_pending s)) + 1) as Hlen.
    { rewrite length_delete by done. apply lookup_lt_Some in Ei. lia. }
    split; cbn.
    + rewrite Hb, Hlen. unfold in_fill. cbn. destruct (up_position s); cbn; lia.
    + unfold in_fill in Hb. destruct (up_position s); lia.
    + by apply Forall_delete.
    + rewrite Ht, u64_add. by rewrite staged_bytes_snoc.
    + rewrite staged_bytes_snoc. unfold pending_bytes in *. cbn in *.
      destruct Hc as [Hc|[-> ->]]; [left|right; done]. lia.
    + destruct (up_position s); done.
Qed.

Lemma reachable_inv size s s' : upload_inv size s → reachable s s' → upload_inv size s'.
Proof using. intros Hs Hr. eapply reachable_ind; eauto using upload_step_inv. Qed.

(** ** Bodies shorter than a block *)

(** the whole body is read at once, and no goroutine starts *)
Lemma fill_small buffer s : up_rest s ≠ [] → lenZ (up_rest s) < blockSize → up_broken s = false →
  fill ids buffer s =
    if bool_decide (buffer ∈ bufPool s ∨ up_buffers s !! buffer = None) then
      Some (mkUpload Done [] false
              (<[buffer := overwrite (up_rest s) (default [] (up_buffers s !! buffer))]> (up_buffers s))
              (buffer :: filter (λ b, b ≠ buffer) (bufPool s)) (bytesBufferCounter s - 1) (up_pending s) (up_counter s)
              (u64 (totalFileSize s + lenZ (up_rest s)))
              (dataToTransfer s ++ [mkStaged (ids (up_uids s)) (up_counter s) (lenZ (up_rest s)) (Own (up_rest s))])
              (S (up_uids s)))
    else None.
Proof using.
  intros Hne Hlt Hbr. unfold fill. case_bool_decide; [|done].
  destruct (read_block (up_rest s) (up_broken s)) as [[data rest] ok] eqn:Er.
  apply read_block_spec in Er as (Hsplit & Hle & Hshort & Hok).
  pose proof (f_equal length Hsplit) as Hl. rewrite length_app in Hl.
  rewrite (Hshort ltac:(lia)), app_nil_r in *. subst data.
  destruct ok; [|rewrite Hok in Hbr by done; done]. cbn [negb orb].
  rewrite (proj2 (Z.eqb_neq _ 0)), (proj2 (Z.ltb_lt _ _) Hlt), Hbr; [done|].
  destruct (up_rest s); [done|cbn; lia].
Qed.

(** the state in which every schedule that ends the loop leaves it *)
Definition small_upload (body : list Z) (s : Upload) : Prop :=
  dataToTransfer s = [mkStaged (ids 1) 1 (lenZ body) (Own body)] ∧ totalFileSize s = u64 (lenZ body) ∧ up_pending s = [].

Lemma small_runs body buffers pool sched s : body ≠ [] → lenZ body < blockSize →
  run sched (start_upload body false buffers pool) = Some s → up_position s = Done → small_upload body s.
Proof using.
  intros Hne Hlt Hr.
  assert (match up_position s with
          | Enter => s = start_upload body false buffers pool
          | Fill => s = take_buffer (start_upload body false buffers pool)
          | Done => small_upload body s
          | _ => False
          end) as Hs.
  { pattern s. apply (reachable_ind _ _ s (ex_intro _ sched Hr)); [done|]. intros e t t' Ht Hstep.
    destruct (up_position t) eqn:Ep; try done.
    - subst t. destruct e as [b|i]; cbn in Hstep; [|done]. by injection Hstep as <-.
    - destruct e as [b|i]; cbn in Hstep; [rewrite Ep in Hstep|subst t; done].
      rewrite fill_small in Hstep by (subst t; done). case_bool_decide; [|done]. injection Hstep as <-. by subst t.
    - destruct Ht as (Hd & Ht & Hp). destruct e as [b|i]; cbn in Hstep; [by rewrite Ep in Hstep|].
      unfold run_block in Hstep. by rewrite Hp in Hstep. }
  intros Hd. by rewrite Hd in Hs.
Qed.

(** taking a new buffer ends it *)
Lemma small_ends body buffers pool b : body ≠ [] → lenZ body < blockSize → buffers !! b = None →
  ∃ s, run [Main b; Main b] (start_upload body false buffers pool) = Some s ∧ up_position s = Done.
Proof using.
  intros Hne Hlt Hb. cbn. rewrite fill_small by done. cbn. rewrite bool_decide_true by (by right). cbn. by eexists.
Qed.

(** ** Bodies of full blocks *)

Lemma fill_full block rest buffer s : up_rest s = block ++ rest → lenZ block = blockSize →
  buffer ∈ bufPool s ∨ up_buffers s !! buffer = None →
  fill ids buffer s =
    Some (mkUpload Enter rest (up_broken s) (<[buffer := overwrite block (default [] (up_buffers s !! buffer))]> (up_buffers s))
            (filter (λ b, b ≠ buffer) (bufPool s)) (bytesBufferCounter s)
            (up_pending s ++ [(buffer, length block)]) (up_counter s) (totalFileSize s) (dataToTransfer s) (up_uids s)).
Proof using.
  intros Hr Hb Hbuf. unfold fill. rewrite bool_decide_true by done.
  destruct (read_block (up_rest s) (up_broken s)) as [[data rest'] ok] eqn:Er.
  assert (data = block ∧ rest' = rest ∧ ok = true) as (-> & -> & ->).
  { unfold read_block in Er. rewrite Hr, <- Hb, Nat2Z.id, take_app_length, drop_app_length in Er.
    rewrite (proj2 (Z.leb_le (lenZ block) (lenZ (block ++ rest)))) in Er by (rewrite length_app; lia). by injection Er as <- <- <-. }
  pose proof blockSize_pos. cbn [negb orb]. by rewrite (proj2 (Z.eqb_neq _ 0)), (proj2 (Z.ltb_ge _ _)) by lia.
Qed.

Lemma fill_end buffer s : up_rest s = [] → up_broken s = false → buffer ∈ bufPool s ∨ up_buffers s !! buffer = None →
  fill ids buffer s =
    Some (mkUpload Done [] false (<[buffer := overwrite [] (default [] (up_buffers s !! buffer))]> (up_buffers s))
            (buffer :: filter (λ b, b ≠ buffer) (bufPool s)) (bytesBufferCounter s - 1)
            (up_pending s) (up_counter s) (totalFileSize s) (dataToTransfer s) (up_uids s)).
Proof using.
  intros Hr Hbr Hbuf. unfold fill. rewrite bool_decide_true, Hr, Hbr by done. unfold read_block.
  by rewrite take_nil, drop_nil, orb_true_r.
Qed.

(** one event at a time *)
Lemma run_step e l s s' t : upload_step ids e s = Some s' → run l s' = Some t → run (e :: l) s = Some t.
Proof using. cbn. by intros ->. Qed.

Lemma run_full block rest buffer l s t : up_position s = Fill → up_rest s = block ++ rest → lenZ block = blockSize →
  buffer ∈ bufPool s ∨ up_buffers s !! buffer = None →
  run l (mkUpload Enter rest (up_broken s) (<[buffer := overwrite block (default [] (up_buffers s !! buffer))]> (up_buffers s))
            (filter (λ b, b ≠ buffer) (bufPool s)) (bytesBufferCounter s)
            (up_pending s ++ [(buffer, length block)]) (up_counter s) (totalFileSize s) (dataToTransfer s) (up_uids s)) = Some t →
  run (Main buffer :: l) s = Some t.
Proof using. intros Hp Hr Hb Hbuf. apply run_step. cbn. rewrite Hp. by apply fill_full. Qed.

Lemma run_end buffer l s t : up_position s = Fill → up_rest s = [] → up_broken s = false →
  buffer ∈ bufPool s ∨ up_buffers s !! buffer = None →
  run l (mkUpload Done [] false (<[buffer := overwrite [] (default [] (up_buffers s !! buffer))]> (up_buffers s))
            (buffer :: filter (λ b, b ≠ buffer) (bufPool s)) (bytesBufferCounter s - 1)
            (up_pending s) (up_counter s) (totalFileSize s) (dataToTransfer s) (up_uids s)) = Some t →
  run (Main buffer :: l) s = Some t.
Proof using. intros Hp Hr Hb Hbuf. apply run_step. cbn. rewrite Hp. by apply fill_end. Qed.
End facts.

(** evaluates events other than a read *)
Ltac run_event :=
  eapply run_step;
  [lazymatch goal with
   | |- upload_step _ (Main _) ?s = _ =>
       let p := eval vm_compute in (up_position s) in
       lazymatch p with Fill => fail | _ => idtac end
   | _ => idtac
   end; cbn;
   repeat match goal with
   | |- context [maxBuffers <=? ?x] => let v := eval vm_compute in (maxBuffers <=? x) in change (maxBuffers <=? x) with v; cbn
   end; reflexivity|].
Ltac run_events := repeat run_event.
Ltac read_full block rest :=
  eapply (run_full _ block rest); [done|by rewrite ?app_nil_r|done|(by right) || by left; apply list_elem_of_here|]; run_events.
Ltac read_end := eapply run_end; [done|done|done|(by right) || by left; apply list_elem_of_here|].

Section claims.
Context (ids : nat → string).



(** C33: the signal of a buffer that is given back between the test of the counter
    and the wait is lost: with a body of at least four full blocks there is a
    schedule after which the main loop waits, no goroutine is left, and no step
    is possible *)
Theorem upload_may_wait_for_ever block1 block2 block3 block4 rest :
  Forall (λ b : list Z, lenZ b = blockSize) [block1; block2; block3; block4] →
  ∃ sched s, upload_run ids sched (start_upload (block1 ++ block2 ++ block3 ++ block4 ++ rest) false ∅ []) = Some s ∧
    up_position s = Waiting ∧ up_pending s = [] ∧ ∀ e, upload_step ids e s = None.
Proof using.
  rewrite !Forall_cons. intros (H1 & H2 & H3 & H4 & _).
  exists [Main 0; Main 0; Main 0; Main 1; Main 0; Main 2; Main 0; Main 3; Main 0; Go 0; Go 0; Go 0; Go 0; Main 0].
  eexists. split; [run_events|].
  { read_full block1 (block2 ++ block3 ++ block4 ++ rest). read_full block2 (block3 ++ block4 ++ rest).
    read_full block3 (block4 ++ rest). read_full block4 rest. reflexivity. }
  split_and!; [done..|]. intros [b|i]; [done|]. by destruct i.
Qed.
End claims.

(** ** Witnesses *)

Definition some_ids (n : nat) : string := String (ascii_of_nat (97 + n)) "".
Definition full_block (b : Z) : list Z := replicate (Z.to_nat blockSize) b.

Lemma full_block_length b : lenZ (full_block b) = blockSize.
Proof. unfold full_block. rewrite length_replicate. apply Z2Nat.id. pose proof blockSize_pos. lia. Qed.



Lemma upload_may_wait_for_ever_witness : ∃ sched s,
  upload_run some_ids sched (start_upload (full_block 1 ++ full_block 2 ++ full_block 3 ++ full_block 4 ++ []) false ∅ []) = Some s ∧
  up_position s = Waiting ∧ up_pending s = [] ∧ ∀ e, upload_step some_ids e s = None.
Proof.
  apply (upload_may_wait_for_ever some_ids (full_block 1) (full_block 2) (full_block 3) (full_block 4) []).
  repeat (constructor; [apply full_block_length|]). constructor.
Defined.
