(* ===== verification/UploadOrder.v ===== *)
(** * Uploads that keep their blocks apart

    [Upload] shows what goes wrong when goroutines and buffers meet.  Here is the order
    in which nothing does: goroutines run in the order in which they were started and
    before the last read, and no buffer that a block points into is handed out again.
    Such a schedule exists for every body, and stages exactly its bytes. *)

From S2P Require Import Prelude Messages Upload.

Section orderly.
Context (ids : nat → string).
Local Abbreviation step := (upload_step ids).
Local Abbreviation run := (upload_run ids).
Implicit Types (s : Upload) (body : list Z).

(** the buffers that a block points into, staged or not *)
Definition shared s : list nat :=
  omap (λ b, match st_Data b with Shared n _ => Some n | Own _ => None end) (dataToTransfer s) ++ (up_pending s).*1.

Definition orderly (e : event) s : Prop :=
  match e with
  | Go i => (i = 0)%nat
  | Main buffer => up_position s = Fill → (buffer ∉ shared s) ∧ (lenZ (up_rest s) < blockSize → up_pending s = [])
  end.

Fixpoint orderly_run (sched : list event) s : Prop :=
  match sched with
  | [] => True
  | e :: sched' => orderly e s ∧ match step e s with Some s' => orderly_run sched' s' | None => False end
  end.

(** the bytes behind the blocks that are staged, and behind those that are not yet *)
Definition shown s : list (list Z) := (λ b, payload_bytes (up_buffers s) (st_Data b)) <$> dataToTransfer s.
Definition waiting s : list (list Z) := (λ p, payload_bytes (up_buffers s) (Shared p.1 p.2)) <$> up_pending s.

Record apart_inv body s : Prop := {
  ap_body : mjoin (shown s) ++ mjoin (waiting s) ++ up_rest s = body;
  ap_broken : up_broken s = false;
  ap_ids : st_Id <$> dataToTransfer s = ids <$> seq 1 (length (dataToTransfer s));
  ap_uids : up_uids s = S (length (dataToTransfer s));
  ap_index : st_Index <$> dataToTransfer s = seqZ 1 (lenZ (dataToTransfer s));
  ap_counter : up_position s ≠ Done → up_counter s = lenZ (dataToTransfer s) + 1;
  ap_len : Forall (λ b, st_Len b = lenZ (payload_bytes (up_buffers s) (st_Data b)) ∧ 0 < st_Len b ≤ blockSize) (dataToTransfer s);
  ap_full : Forall (λ p, lenZ (payload_bytes (up_buffers s) (Shared p.1 p.2)) = Z.of_nat p.2 ∧ Z.of_nat p.2 = blockSize) (up_pending s);
  ap_total : totalFileSize s = u64 (lenZ (mjoin (shown s)));
  ap_end : up_position s = Done → up_pending s = [] ∧ up_rest s = [];
}.

(** a buffer that nothing points into can be filled *)
Lemma shown_other buffer v s : buffer ∉ shared s →
  Forall (λ b, payload_bytes (<[buffer := v]> (up_buffers s)) (st_Data b) = payload_bytes (up_buffers s) (st_Data b)) (dataToTransfer s).
Proof using.
  intros Hb. apply Forall_forall. intros b Hin. destruct (st_Data b) as [data|c n] eqn:Ed; [done|]. cbn.
  rewrite lookup_insert_ne; [done|]. intros ->. apply Hb, elem_of_app. left. apply list_elem_of_omap. exists b. by rewrite Ed.
Qed.
Lemma waiting_other buffer v s : buffer ∉ shared s →
  Forall (λ p, payload_bytes (<[buffer := v]> (up_buffers s)) (Shared p.1 p.2) = payload_bytes (up_buffers s) (Shared p.1 p.2)) (up_pending s).
Proof using.
  intros Hb. apply Forall_forall. intros p Hin. cbn. rewrite lookup_insert_ne; [done|]. intros ->.
  apply Hb, elem_of_app. right. by apply list_elem_of_fmap_2.
Qed.
Lemma fmap_same {A B} (f g : A → B) l : Forall (λ x, f x = g x) l → f <$> l = g <$> l.
Proof using. induction 1; cbn; congruence. Qed.

Lemma length_join_cons (x : list Z) (l : list (list Z)) : lenZ (mjoin (x :: l)) = lenZ x + lenZ (mjoin l).
Proof using. change (mjoin (x :: l)) with (x ++ mjoin l). rewrite length_app. lia. Qed.

(** no block is empty, so there are no more blocks than bytes *)
Lemma staged_few body s : apart_inv body s → lenZ (dataToTransfer s) ≤ lenZ body.
Proof using.
  intros [Hb _ _ _ _ _ Hl _ _ _]. assert (lenZ (dataToTransfer s) ≤ lenZ (mjoin (shown s))); [|rewrite <- Hb, length_app; lia].
  unfold shown. induction Hl as [|b l [Hlen Hpos] _ IH]; [done|].
  rewrite fmap_cons, length_join_cons, <- Hlen. cbn [length]. lia.
Qed.

Lemma start_apart body buffers pool : apart_inv body (start_upload body false buffers pool).
Proof using. by split. Qed.

Lemma run_apart body s s' : lenZ body < 2 ^ 62 → apart_inv body s → run_block ids 0 s = Some s' → apart_inv body s'.
Proof using.
  intros Hsmall Hinv. pose proof (staged_few _ _ Hinv) as Hfew. destruct Hinv as [Hb Hbr Hi Hu Hx Hc Hl Hf Ht He].
  unfold run_block. destruct (up_pending s) as [|[buffer n] pend] eqn:Ep; [done|]. cbn. intros [= <-].
  apply Forall_cons in Hf as [[Hn Hfull] Hf]. cbn in Hn, Hfull.
  assert (up_position s ≠ Done) as Hpos by (intros Hd; by destruct (He Hd)). specialize (Hc Hpos).
  pose proof blockSize_pos. unfold shown, waiting in *. rewrite Ep in Hb. cbn [fmap list_fmap] in Hb.
  split; unfold shown, waiting; cbn [up_rest up_broken up_buffers up_pending up_counter totalFileSize dataToTransfer up_uids up_position];
    rewrite ?fmap_app, ?length_app; cbn [fmap list_fmap length].
  - rewrite <- Hb, join_app. cbn. by rewrite app_nil_r, <- !app_assoc.
  - done.
  - rewrite seq_app, fmap_app, Hi, Hu. done.
  - rewrite Hu. lia.
  - rewrite Hx, Hc, Nat2Z.inj_add, seqZ_app by lia. f_equal. change (Z.of_nat 1) with 1. by rewrite seqZ_cons, (Z.add_comm 1) by lia.
  - intros _. rewrite Hc, i64_small by lia. lia.
  - apply Forall_app_2; [done|]. apply Forall_singleton. cbn. lia.
  - done.
  - rewrite Ht, u64_add, join_app, length_app. cbn. rewrite app_nil_r. f_equal. cbn in Hn. lia.
  - by destruct (up_position s).
Qed.
(** the state when a buffer that nothing points into is filled *)
Lemma other_buffer buffer v s : buffer ∉ shared s →
  (λ b, payload_bytes (<[buffer := v]> (up_buffers s)) (st_Data b)) <$> dataToTransfer s = shown s ∧
  (λ p, payload_bytes (<[buffer := v]> (up_buffers s)) (Shared p.1 p.2)) <$> up_pending s = waiting s.
Proof using. intros Hb. split; apply fmap_same; [by apply shown_other|by apply waiting_other]. Qed.

Lemma fill_apart body buffer s s' : apart_inv body s → up_position s = Fill → buffer ∉ shared s →
  (lenZ (up_rest s) < blockSize → up_pending s = []) → fill ids buffer s = Some s' → apart_inv body s'.
Proof using.
  intros [Hb Hbr Hi Hu Hx Hc Hl Hf Ht He] Hpos Hother Hlast. specialize (Hc ltac:(by rewrite Hpos)).
  unfold fill. case_bool_decide as Hbuf; [|done].
  destruct (read_block (up_rest s) (up_broken s)) as [[data rest] ok] eqn:Er.
  apply read_block_spec in Er as (Hsplit & Hle & Hshort & Hok).
  assert (ok = true) as -> by (destruct ok; [done|]; rewrite Hok in Hbr; done). cbn [negb orb].
  pose proof (f_equal length Hsplit) as Hlen. rewrite length_app in Hlen. pose proof blockSize_pos as Hbs.
  set (buffers := <[buffer := _]> (up_buffers s)).
  destruct (other_buffer buffer (overwrite data (default [] (up_buffers s !! buffer))) s Hother) as [Hsh Hwt].
  pose proof (shown_other buffer (overwrite data (default [] (up_buffers s !! buffer))) s Hother) as Hsh'.
  pose proof (waiting_other buffer (overwrite data (default [] (up_buffers s !! buffer))) s Hother) as Hwt'.
  fold buffers in Hsh, Hwt, Hsh', Hwt'.
  assert (Forall (λ b, st_Len b = lenZ (payload_bytes buffers (st_Data b)) ∧ 0 < st_Len b ≤ blockSize) (dataToTransfer s)) as Hl'.
  { rewrite Forall_forall in Hl, Hsh' |- *. intros b Hin. rewrite (Hsh' b Hin). by apply Hl. }
  assert (Forall (λ p, lenZ (payload_bytes buffers (Shared p.1 p.2)) = Z.of_nat p.2 ∧ Z.of_nat p.2 = blockSize) (up_pending s)) as Hf'.
  { rewrite Forall_forall in Hf, Hwt' |- *. intros p Hin. rewrite (Hwt' p Hin). by apply Hf. }
  destruct (Z.eqb_spec (lenZ data) 0) as [Hnil|Hnil]; [|destruct (Z.ltb_spec (lenZ data) blockSize) as [Hlt|Hge]];
    intros [= <-]; (split; unfold shown, waiting;
      cbn [up_rest up_broken up_buffers up_pending up_counter totalFileSize dataToTransfer up_uids up_position];
      fold buffers; rewrite ?fmap_app, ?Hsh, ?Hwt); try done.
  - rewrite <- Hb, <- Hsplit. assert (data = []) as -> by (apply nil_length_inv; lia). done.
  - intros _. rewrite Hshort in * by lia. split; [apply Hlast; cbn in Hlen; lia|done].
  - rewrite Hlast in * by (rewrite Hshort in Hlen by lia; cbn in Hlen; lia). rewrite Hshort in * by lia.
    rewrite app_nil_r in Hsplit. rewrite <- Hb, <- Hsplit, <- Hwt, join_app, <- app_assoc. f_equal. cbn. by rewrite !app_nil_r.
  - rewrite length_app, seq_app, fmap_app, Hi, Hu. done.
  - rewrite Hu, length_app. cbn. lia.
  - rewrite length_app, Hx, Nat2Z.inj_add, seqZ_app by lia. cbn [fmap list_fmap st_Index]. f_equal. change (lenZ [_]) with 1. by rewrite Hc, seqZ_cons, (Z.add_comm 1) by lia.
  - apply Forall_app_2; [done|]. apply Forall_singleton. cbn. lia.
  - rewrite Ht, u64_add, join_app, length_app. cbn. rewrite app_nil_r. f_equal. lia.
  - intros _. split; [apply Hlast; rewrite Hshort in Hlen by lia; cbn in Hlen; lia|by apply Hshort].
  - rewrite <- Hb, <- Hsplit, join_app, <- !app_assoc. do 2 f_equal. cbn. unfold buffers. rewrite lookup_insert_eq. cbn.
    unfold overwrite. by rewrite take_app_length, app_nil_r.
  - apply Forall_app_2; [done|]. apply Forall_singleton. cbn. unfold buffers. rewrite lookup_insert_eq. cbn.
    unfold overwrite. rewrite take_app_length. lia.
Qed.

Lemma orderly_step body e s s' : lenZ body < 2 ^ 62 → apart_inv body s → orderly e s → step e s = Some s' → apart_inv body s'.
Proof using.
  intros Hsmall Hinv Ho. destruct e as [buffer|i]; cbn in Ho |- *; [|subst i; by apply run_apart].
  destruct (up_position s) eqn:Ep; try done.
  - intros [= <-]. destruct Hinv as [Hb Hbr Hi Hu Hx Hc Hl Hf Ht He]. rewrite Ep in *.
    case_match; split; try done; intros _; by apply Hc.
  - intros [= <-]. destruct Hinv as [Hb Hbr Hi Hu Hx Hc Hl Hf Ht He]. rewrite Ep in *. split; try done. intros _. by apply Hc.
  - destruct (Ho eq_refl) as [Hother Hlast]. by apply (fill_apart body).
Qed.

Lemma orderly_ok body sched s s' : lenZ body < 2 ^ 62 → apart_inv body s → orderly_run sched s → run sched s = Some s' → apart_inv body s'.
Proof using.
  intros Hsmall. revert s. induction sched as [|e sched IH]; intros s Hinv Ho Hr; [by injection Hr as <-|].
  cbn in Ho, Hr. destruct Ho as [He Ho]. destruct (step e s) as [t|] eqn:E; [|done]. cbn in Hr.
  apply (IH t); [by eapply orderly_step|done|done].
Qed.

(** a new buffer can always be had *)
Lemma new_buffer s : ∃ buffer, up_buffers s !! buffer = None ∧ (buffer ∉ shared s).
Proof using.
  exists (fresh (dom (up_buffers s) ∪ list_to_set (shared s) : gset nat)).
  pose proof (is_fresh (dom (up_buffers s) ∪ list_to_set (shared s) : gset nat)) as Hf.
  apply not_elem_of_union in Hf as [? Hf]. split; [by apply not_elem_of_dom|]. by rewrite elem_of_list_to_set in Hf.
Qed.

(** one block after the other, each in a buffer of its own *)
Lemma orderly_ends body s : apart_inv body s → up_position s = Enter → up_pending s = [] → bytesBufferCounter s = 0 →
  ∃ sched s', orderly_run sched s ∧ run sched s = Some s' ∧ up_position s' = Done.
Proof using.
  intros Hinv. assert (up_broken s = false) as Hbr by apply Hinv. clear Hinv. remember (length (up_rest s)) as k eqn:Ek. revert s Hbr Ek.
  induction (lt_wf k) as [k _ IH]. intros s Hbr -> Hp Hn Hc. destruct (new_buffer s) as (buffer & Hfree & Hother).
  set (t := take_buffer s).
  assert (step (Main 0) s = Some t) as E1 by (cbn; by rewrite Hp, Hc).
  assert (orderly (Main 0) s) as O1 by (cbn; by rewrite Hp).
  assert (orderly (Main buffer) t) as O2 by (cbn; intros _; split; [exact Hother|by rewrite Hn]).
  assert (∀ v, step (Main buffer) t = Some v → up_position v = Done →
    ∃ sched s', orderly_run sched s ∧ run sched s = Some s' ∧ up_position s' = Done) as Hend.
  { intros v E2 Hv. exists [Main 0; Main buffer], v. cbn [orderly_run upload_run]. rewrite E1. cbn [mbind option_bind]. by rewrite E2. }
  pose proof blockSize_pos as Hbs. destruct (Z.le_gt_cases blockSize (lenZ (up_rest s))) as [Hfull|Hshort].
  - set (n := Z.to_nat blockSize).
    assert (up_rest s = take n (up_rest s) ++ drop n (up_rest s)) as Hsplit by (by rewrite take_drop).
    pose proof (fill_full ids _ _ buffer t Hsplit ltac:(rewrite length_take; lia) (or_intror Hfree)) as E2.
    change (fill ids buffer t) with (step (Main buffer) t) in E2.
    set (v := mkUpload _ _ _ _ _ _ _ _ _ _ _) in E2.
    assert (∃ u, run_block ids 0 v = Some u ∧ up_broken u = false ∧ up_rest u = drop n (up_rest s) ∧ up_position u = Enter ∧
      up_pending u = [] ∧ bytesBufferCounter u = 0) as (u & E3 & Hbr' & Hrest & Hp' & Hn' & Hc').
    { unfold run_block, v, t. cbn. rewrite Hn. cbn. eexists. split; [reflexivity|]. cbn. split_and!; done || lia. }
    destruct (IH (length (drop n (up_rest s))) ltac:(rewrite length_drop; lia) u Hbr' ltac:(by rewrite Hrest) Hp' Hn' Hc')
      as (sched & s' & Ho & Hr & Hd).
    exists (Main 0 :: Main buffer :: Go 0 :: sched), s'. cbn [orderly_run upload_run]. rewrite E1. cbn [mbind option_bind].
    rewrite E2. cbn [mbind option_bind upload_step]. by rewrite E3.
  - destruct (decide (up_rest s = [])) as [Hnil|Hne].
    + eapply Hend; [by apply (fill_end ids buffer t); [..|right]|done].
    + eapply (Hend _); [cbn; rewrite (fill_small ids buffer t Hne Hshort Hbr); by rewrite bool_decide_true by (by right)|done].
Qed.

(** ** What is sent *)

Lemma orderly_sent body sched s fileID buffers pool : lenZ body < 2 ^ 62 →
  orderly_run sched (start_upload body false buffers pool) → run sched (start_upload body false buffers pool) = Some s → up_position s = Done →
  up_pending s = [] ∧ totalFileSize s = u64 (lenZ body) ∧ mjoin (Fs_Data <$> sent fileID s) = body ∧
  Fs_Id <$> sent fileID s = ids <$> seq 1 (length (sent fileID s)) ∧
  Fs_Index <$> sent fileID s = seqZ 1 (lenZ (sent fileID s)) ∧
  Forall (λ b, Fs_Len b = lenZ (Fs_Data b) ∧ 0 < Fs_Len b ≤ blockSize) (sent fileID s).
Proof using.
  intros Hsmall Ho Hr Hd. pose proof (orderly_ok body sched _ s Hsmall (start_apart body buffers pool) Ho Hr) as Hinv.
  pose proof (staged_few _ _ Hinv) as Hfew. destruct Hinv as [Hb Hbr Hi Hu Hx Hc Hl Hf Ht He].
  destruct (He Hd) as [Hpend Hrest]. unfold waiting in Hb. rewrite Hpend, Hrest in Hb. cbn in Hb. rewrite app_nil_r in Hb.
  unfold sent. rewrite <- !list_fmap_compose, length_fmap. split_and!; [done|by rewrite Ht, Hb|exact Hb|exact Hi| |].
  - rewrite <- Hx. apply fmap_same, Forall_forall. intros b Hin. cbn. apply u64_small.
    apply (list_elem_of_fmap_2 st_Index) in Hin. rewrite Hx in Hin. apply elem_of_seqZ in Hin. unfold in_u64. lia.
  - apply Forall_fmap. exact Hl.
Qed.

(** every schedule of a body shorter than a block keeps its block apart *)
Lemma small_orderly body buffers pool sched s : body ≠ [] → lenZ body < blockSize →
  run sched (start_upload body false buffers pool) = Some s → orderly_run sched (start_upload body false buffers pool).
Proof using.
  intros Hne Hlt. set (s0 := start_upload body false buffers pool).
  assert (∀ l t, t = s0 ∨ t = take_buffer s0 ∨ up_position t = Done ∧ up_pending t = [] → run l t = Some s → orderly_run l t) as Hl.
  { induction l as [|e l IH]; intros t Ht Hr; [done|]. cbn [upload_run orderly_run] in Hr |- *. destruct (step e t) as [t'|] eqn:E; [|done].
    cbn in Hr. destruct e as [buffer|i]; cbn in E.
    - destruct Ht as [->|[->|[Hd Hp]]]; [..|by rewrite Hd in E].
      + injection E as <-. split; [done|]. apply IH; [auto|done].
      + split; [cbn; intros _; split; [apply not_elem_of_nil|done]|]. cbn in E. rewrite fill_small in E by done.
        case_bool_decide; [|done]. injection E as <-. apply IH; [|done]. right; right. done.
    - unfold run_block in E. destruct Ht as [->|[->|[Hd Hp]]]; [done..|]. by rewrite Hp in E. }
  intros Hr. apply Hl; [by left|done].
Qed.
End orderly.

(** C39: for a body of any length below 2^62 the goroutines of an upload can be
    scheduled in order, with a buffer of its own for every block, so that the upload
    ends; and every schedule of this kind that ends has staged blocks that hold exactly
    the body, numbered from one, none of them empty or longer than a block. *)
Theorem orderly_uploads_stage_the_body (ids : nat → string) (body : list Z) (buffers : gmap nat (list Z)) (pool : list nat)
    (fileID : string) :
  lenZ body < 2 ^ 62 →
  let s0 := start_upload body false buffers pool in
  (∃ sched s, orderly_run ids sched s0 ∧ upload_run ids sched s0 = Some s ∧ up_position s = Done) ∧
  ∀ sched s, orderly_run ids sched s0 → upload_run ids sched s0 = Some s → up_position s = Done →
    let blocks := sent fileID s in
    mjoin (Fs_Data <$> blocks) = body ∧ totalFileSize s = lenZ body ∧ up_pending s = [] ∧
    Fs_Id <$> blocks = ids <$> seq 1 (length blocks) ∧ Fs_Index <$> blocks = seqZ 1 (lenZ blocks) ∧
    Forall (λ b, Fs_Len b = lenZ (Fs_Data b) ∧ 0 < Fs_Len b ≤ blockSize) blocks.
Proof.
  intros Hsmall s0. split; [by apply (orderly_ends ids body); [apply start_apart|..]|].
  intros sched s Ho Hr Hd. destruct (orderly_sent ids body sched s fileID buffers pool Hsmall Ho Hr Hd) as (? & Ht & ? & ? & ? & ?).
  rewrite Ht, u64_small by (unfold in_u64; lia). by split_and!.
Qed.

Lemma orderly_uploads_stage_the_body_witness :
  let name_of n := String (ascii_of_nat n) "" in
  let s0 := start_upload (Z.of_nat <$> seq 0 5) false ∅ [] in
  (∃ sched s, orderly_run name_of sched s0 ∧ upload_run name_of sched s0 = Some s ∧ up_position s = Done) ∧
  ∀ sched s, orderly_run name_of sched s0 → upload_run name_of sched s0 = Some s → up_position s = Done →
    mjoin (Fs_Data <$> sent "f" s) = [0; 1; 2; 3; 4].
Proof.
  assert (lenZ (Z.of_nat <$> seq 0 5) < 2 ^ 62) as H by (vm_compute; done).
  destruct (orderly_uploads_stage_the_body (λ n, String (ascii_of_nat n) "") (Z.of_nat <$> seq 0 5) ∅ [] "f" H) as [Hex Hall].
  split; [exact Hex|]. intros sched s H1 H2 H3. exact (proj1 (Hall sched s H1 H2 H3)).
Defined.
