(* ===== verification/RegistrySpec.v ===== *)
(** * What a registry writes, and what the others make of it

    The leader stores a change, journals an entry for it, and buffers the entry for
    every peer; a follower applies the entry to its own storage.  The lemmas below
    follow both sides, on the tables of [StorageSpec] and the journal of
    [ClusterSpec]; the theorem joins them over sequences of operations. *)

From S2P Require Import Prelude GoSort GoStrings Wal WalInv WalOpen WalSpec Messages MemDB Backend Storage.
From S2P Require Import StorageSpec Journal Cluster ClusterSpec NodesMap Registry Handlers.

(** ** Reading the storage *)

(** the one row with a value of a unique index *)
Definition lookup_by {R} (ix : R → string) (v : string) (m : gmap string R) : option R :=
  head (filter (λ r, ix r = v) ((map_to_list m).*2)).

Lemma lookup_by_Some {R} (ix : R → string) v m r : lookup_by ix v m = Some r → (∃ i, m !! i = Some r) ∧ ix r = v.
Proof.
  unfold lookup_by. intros Hr. assert (r ∈ filter (λ r, ix r = v) (map_to_list m).*2) as Hin.
  { destruct (filter _ _); [done|]. injection Hr as ->. apply list_elem_of_here. }
  apply list_elem_of_filter in Hin as [Hv ([i r'] & -> & Hi)%list_elem_of_fmap].
  apply elem_of_map_to_list in Hi. eauto.
Qed.

Lemma lookup_by_None {R} (ix : R → string) v (m : gmap string R) : lookup_by ix v m = None → ∀ i r, m !! i = Some r → ix r ≠ v.
Proof.
  unfold lookup_by. intros Hn i r Hi Hv. assert (r ∈ filter (λ r, ix r = v) (map_to_list m).*2) as Hin.
  { apply list_elem_of_filter. split; [done|]. apply list_elem_of_fmap. exists (i, r). by rewrite elem_of_map_to_list. }
  destruct (filter _ _); [by apply elem_of_nil in Hin|done].
Qed.

Lemma answers_lookup_by {R} (ix : IndexSchema R) v m o :
  ix_Unique ix = true → distinct ix m → answers_one (ix_Field ix) v m o → o = lookup_by (ix_Field ix) v m.
Proof.
  intros Hu Hd Ho. destruct (lookup_by (ix_Field ix) v m) as [r|] eqn:E.
  - apply lookup_by_Some in E as [[i Hi] Hv]. destruct o as [r'|]; cbn in Ho.
    + destruct Ho as [[j Hj] Hv']. assert (i = j) as <- by (eapply Hd; eauto; congruence). congruence.
    + by destruct (Ho i r Hi).
  - destruct o as [r'|]; [|done]. destruct Ho as [[j Hj] Hv]. by destruct (lookup_by_None _ _ _ E j r').
Qed.

Definition file_at (path : string) (μ : meta) : option FileInfo := lookup_by File_Path path (m_files μ).
Definition policy_at (name : string) (μ : meta) : option Policy := lookup_by Policy_Name name (m_policies μ).
Definition children (id : string) (μ : meta) : list FileInfo :=
  filter (λ f, File_ParentID f = id) ((map_to_list (m_files μ)).*2).

Lemma file_at_Some path μ f : file_at path μ = Some f → (∃ i, m_files μ !! i = Some f) ∧ File_Path f = path.
Proof. apply lookup_by_Some. Qed.

Lemma elem_of_children id μ f : f ∈ children id μ ↔ (∃ i, m_files μ !! i = Some f) ∧ File_ParentID f = id.
Proof. exact (elem_of_having (mkIndex false false File_ParentID) id (m_files μ) f). Qed.

Section reads.
Context {T : Type → Type} `{MemDBLaws T} {B : Type} `{BackendLaws B} `{RecordCodecs}.
Local Abbreviation S := (Storage T B).
Implicit Types (s : S).

Lemma stands_file_id s μ i f : stands s μ → m_files μ !! i = Some f → File_Id f = i.
Proof. intros Hs. apply (wf_pid KFile). by apply (stands_wf KFile s). Qed.

Lemma GetFileByPath_ok path s μ : stands s μ → GetFileByPath path s = (Ok (file_at path μ), s).
Proof.
  intros Hs. pose proof (stands_wf KFile s μ Hs) as Hw. destruct Hs as [_ Hk]. destruct (Hk KFile) as [Hsch Hr _ _].
  destruct (first_rows KFile "path" (mkIndex false true File_Path) path _ _ Hsch Hr Hw) as (o & E & Ho); [done| |done|].
  { in_schema. }
  assert (o = file_at path μ) as ->.
  { apply (answers_lookup_by (mkIndex false true File_Path)); [done| |exact Ho].
    pose proof (wf_distinct _ _ Hw) as Hd. rewrite Forall_forall in Hd.
    apply (Hd ("path"%string, _)). in_schema. }
  unfold GetFileByPath, query. f_equal. exact E.
Qed.

Lemma GetPolicy_ok name s μ : stands s μ → GetPolicy name s = (Ok (policy_at name μ), s).
Proof.
  intros Hs. pose proof (stands_wf KPolicy s μ Hs) as Hw. destruct Hs as [_ Hk]. destruct (Hk KPolicy) as [Hsch Hr _ _].
  destruct (first_rows KPolicy "name" (mkIndex false true Policy_Name) name _ _ Hsch Hr Hw) as (o & E & Ho); [done| |done|].
  { in_schema. }
  assert (o = policy_at name μ) as ->.
  { apply (answers_lookup_by (mkIndex false true Policy_Name)); [done| |exact Ho].
    pose proof (wf_distinct _ _ Hw) as Hd. rewrite Forall_forall in Hd.
    apply (Hd ("name"%string, _)). in_schema. }
  unfold GetPolicy, query. f_equal. exact E.
Qed.

Lemma GetToken_ok accessor s μ : stands s μ → GetToken accessor s = (Ok (m_tokens μ !! accessor), s).
Proof.
  intros Hs. pose proof (stands_wf KToken s μ Hs) as Hw. destruct Hs as [_ Hk]. destruct (Hk KToken) as [Hsch Hr _ _].
  unfold GetToken, query. f_equal. exact (first_id KToken accessor _ _ Hsch Hr Hw).
Qed.

Lemma GetFilesByParentId_ok id s μ : stands s μ →
  ∃ l, GetFilesByParentId id s = (Ok l, s) ∧ l ≡ₚ children id μ.
Proof.
  intros Hs. destruct (get_ok KFile "parent_id" (mkIndex false false File_ParentID) id s μ Hs) as (l & E & Hl); [done| |].
  { in_schema. }
  exists l. split; [|exact Hl]. unfold GetFilesByParentId, query. f_equal. exact E.
Qed.

(** the blocks of a file, when each has an index of its own *)
Definition numbered_blocks (id : string) (μ : meta) : Prop := NoDup (Block_Index <$> blocks_of id μ).
#[export] Instance numbered_blocks_dec id μ : Decision (numbered_blocks id μ).
Proof. unfold numbered_blocks. apply _. Defined.
Definition sorted_blocks (id : string) (μ : meta) : list BlockInfo :=
  match sort_by (E:=storage_error) Block_Index (blocks_of id μ) with Ok l => l | _ => [] end.

Lemma sorted_blocks_perm id μ : sorted_blocks id μ ≡ₚ blocks_of id μ.
Proof.
  unfold sorted_blocks. by destruct (sort_by_ok (E:=storage_error) Block_Index (blocks_of id μ)) as (l & -> & Hl & _).
Qed.

Lemma GetBlocks_numbered id s μ : stands s μ → numbered_blocks id μ → GetBlocks id s = (Ok (sorted_blocks id μ), s).
Proof.
  intros Hs Hn. destruct (GetBlocks_ok id s μ Hs) as (l & E & Hl & Hsl). unfold sorted_blocks.
  destruct (sort_by_ok (E:=storage_error) Block_Index (blocks_of id μ)) as (l' & -> & Hl' & Hsl').
  rewrite E. do 2 f_equal. apply (sorted_unique Block_Index); [by rewrite Hl|by rewrite Hl, Hl'|done..].
Qed.
End reads.

(** ** The leader *)

Section leader.
Context {J : Type} `{JournalLaws J} {T : Type → Type} `{MemDBLaws T} {B : Type} `{BackendLaws B} {W : Type} `{DataNodes W}.
Context `{RecordCodecs} `{EntryCodecs}.
Context (order : gset string → list string) (order_perm : ∀ s, order s ≡ₚ elements s).
Context (now : Entry_Type → Z).
Local Abbreviation R := (Registry J T B W).
Local Abbreviation RM := (M R registry_error).
Local Abbreviation C := (Cluster J (Storage T B)).
Implicit Types (r : R) (c : C) (es : list Entry).

(** the pipeline takes every entry *)
Definition always (_ : Entry_Type) : bool := true.

(** no buffer is ahead of the log *)
Definition buffered c (n : Z) : Prop := ∀ uid p l, peers c !! uid = Some p → last (buffer p) = Some l →
  Entry_Index l ≤ n ∧ Entry_Term l ≤ currentTerm c.

(** a registry that can take requests, with its log and its metadata *)
Record ready r es (μ : meta) : Prop := {
  ready_storage : stands (Storage_of r) μ;
  ready_journal : synced (Cluster_of r) es;
  ready_on : Cluster.shutdown (Cluster_of r) = false;
  ready_pipeline : pipeline (Cluster_of r) = true;
  ready_buffers : buffered (Cluster_of r) (lenZ es);
}.

(** [c'] is [c] after the entries [new] were written *)
Record grown (new : list Entry) c c' : Prop := {
  grown_peers : peers c' = (λ p, with_buffer (buffer p ++ new) p) <$> peers c;
  grown_conns : conns c' = conns c;
  grown_term : currentTerm c' = currentTerm c;
  grown_ID : ID c' = ID c;
}.

Lemma with_buffer_buffer p : with_buffer (buffer p) p = p.
Proof using. by destruct p. Qed.

Lemma grown_refl c : grown [] c c.
Proof using.
  split; try done. rewrite <- (map_fmap_id (peers c)) at 1. apply map_fmap_ext. intros i p _. cbn.
  by rewrite app_nil_r, with_buffer_buffer.
Qed.

Lemma grown_trans n1 n2 c1 c2 c3 : grown n1 c1 c2 → grown n2 c2 c3 → grown (n1 ++ n2) c1 c3.
Proof using.
  intros [p1 e1 t1 i1] [p2 e2 t2 i2]. split; try congruence. rewrite p2, p1, <- map_fmap_compose.
  apply map_fmap_ext. intros i p _. cbn. by rewrite app_assoc.
Qed.

(** the entry a write journals *)
Definition new_entry (term n : Z) (p : Entry_Type * list Z) : Entry := mkEntry (n + 1) term p.1 p.2 (now p.1) 0.
Fixpoint entries_of (term n : Z) (ps : list (Entry_Type * list Z)) : list Entry :=
  match ps with [] => [] | p :: ps' => new_entry term n p :: entries_of term (n + 1) ps' end.

Definition store (s : Storage T B) r : R := mkRegistry (set_app s (Cluster_of r)) (NodesMap_of r) (world r).

Lemma on_storage_write {A} (m : M (Storage T B) storage_error A) r a s' :
  m (Storage_of r) = (Ok a, s') → on_storage m r = (Ok a, store s' r).
Proof using. unfold on_storage. by intros ->. Qed.

Lemma on_storage_read {A} (m : M (Storage T B) storage_error A) r a :
  m (Storage_of r) = (Ok a, Storage_of r) → on_storage m r = (Ok a, r).
Proof using. unfold on_storage. intros ->. by destruct r as [[] ? ?]. Qed.

Lemma ready_store r es μ s' μ' : ready r es μ → stands s' μ' → ready (store s' r) es μ'.
Proof using. intros [Hs Hj Ho Hp Hb] Hs'. by split. Qed.

Lemma write_ready typ data r es μ : ready r es μ → lenZ es + 2 < 2 ^ 64 →
  let e := new_entry (currentTerm (Cluster_of r)) (lenZ es) (typ, data) in
  short e →
  ∃ r', on_cluster (writeEntry order (now typ) (always typ) typ data) r = (Ok tt, r') ∧ ready r' (es ++ [e]) μ ∧
    grown [e] (Cluster_of r) (Cluster_of r') ∧ NodesMap_of r' = NodesMap_of r ∧ world r' = world r.
Proof using order_perm.
  intros [Hs Hj Ho Hp Hb] Hroom e Hshort. change (always typ) with true.
  destruct (writeEntry_ok order order_perm (now typ) typ data (Cluster_of r) es) as (j' & E & Hj'); [done..| |].
  { intros uid p Huid l Hl. destruct (Hb uid p l Huid Hl). cbn. lia. }
  eexists. split; [unfold on_cluster; rewrite E; reflexivity|]. cbn. split_and!; [|by split|done..].
  split; [exact Hs| |done|done|].
  - by apply (synced_snoc (Cluster_of r) es e j').
  - intros uid p l. cbn. rewrite lookup_fmap, fmap_Some. intros (q & Hq & ->). cbn. rewrite last_snoc.
    intros [= <-]. rewrite length_app. cbn. lia.
Qed.

(** a request that logs entries and ends with the metadata [μ'] *)
Definition logs (m : RM unit) r es (ps : list (Entry_Type * list Z)) (μ' : meta) : Prop :=
  let new := entries_of (currentTerm (Cluster_of r)) (lenZ es) ps in
  ∃ r', m r = (Ok tt, r') ∧ ready r' (es ++ new) μ' ∧ grown new (Cluster_of r) (Cluster_of r') ∧
    dom (nodes (NodesMap_of r')) = dom (nodes (NodesMap_of r)).

Lemma grown_store s' r : grown [] (Cluster_of r) (Cluster_of (store s' r)).
Proof using. destruct (grown_refl (Cluster_of r)) as [Hp _ _ _]. by split. Qed.

Lemma logs_nil (m : RM unit) r es μ : m r = (Ok tt, r) → ready r es μ → logs m r es [] μ.
Proof using. intros Em Hr. exists r. cbn. rewrite app_nil_r. split_and!; [done|done|apply grown_refl|done]. Qed.

(** a step that leaves the log as it is *)
Lemma logs_after (m m' : RM unit) r r1 es ps μ' : m r = m' r1 → grown [] (Cluster_of r) (Cluster_of r1) →
  dom (nodes (NodesMap_of r1)) = dom (nodes (NodesMap_of r)) → logs m' r1 es ps μ' → logs m r es ps μ'.
Proof using.
  intros Em Hg Hn (r' & E & Hr' & Hg' & Hn'). rewrite (grown_term _ _ _ Hg) in *. exists r'. split_and!.
  - by rewrite Em.
  - done.
  - exact (grown_trans [] _ _ _ _ Hg Hg').
  - by rewrite Hn'.
Qed.

(** [m] writes the entry, and may drop the error of the write *)
Definition carries (m : RM unit) (w : M C cluster_error unit) r : Prop :=
  ∀ r', on_cluster w r = (Ok tt, r') → m r = (Ok tt, r').

Lemma carries_same (m : RM unit) w r : m r = on_cluster w r → carries m w r.
Proof using. by intros Em r' <-. Qed.
Lemma carries_ignore (m : RM unit) w r : m r = on_cluster w r → carries (ignore_err m) w r.
Proof using. intros Em r' E. unfold ignore_err. by rewrite Em, E. Qed.

(** one entry, then the rest of the handler *)
Lemma logs_write typ data (m : RM unit) (k : unit → RM unit) r es ps μ μ' :
  carries m (writeEntry order (now typ) (always typ) typ data) r → ready r es μ → lenZ es + 2 < 2 ^ 64 →
  let e := new_entry (currentTerm (Cluster_of r)) (lenZ es) (typ, data) in
  short e →
  (∀ r1, ready r1 (es ++ [e]) μ → grown [e] (Cluster_of r) (Cluster_of r1) → logs (k tt) r1 (es ++ [e]) ps μ') →
  logs (m ≫= k) r es ((typ, data) :: ps) μ'.
Proof using order_perm.
  intros Em Hr Hroom e Hshort Hk. destruct (write_ready typ data r es μ Hr Hroom Hshort) as (r1 & E & Hr1 & Hg & Hn & _).
  destruct (Hk r1 Hr1 Hg) as (r' & E' & Hr' & Hg' & Hn'). rewrite (grown_term _ _ _ Hg) in *.
  rewrite length_app in *. cbn [length] in *. replace (Z.of_nat (length es + 1)) with (lenZ es + 1) in * by lia.
  rewrite <- app_assoc in Hr'. apply Em in E.
  exists r'. cbn [entries_of]. split_and!; [by rewrite (bind_ok _ _ _ _ _ E)|exact Hr'|exact (grown_trans _ _ _ _ _ Hg Hg')|].
  by rewrite Hn', Hn.
Qed.

Lemma logs_last typ data (m : RM unit) r es μ :
  carries m (writeEntry order (now typ) (always typ) typ data) r → ready r es μ → lenZ es + 2 < 2 ^ 64 →
  short (new_entry (currentTerm (Cluster_of r)) (lenZ es) (typ, data)) →
  logs m r es [(typ, data)] μ.
Proof using order_perm.
  intros Em Hr Hroom Hshort. destruct (write_ready typ data r es μ Hr Hroom Hshort) as (r1 & E & Hr1 & Hg & Hn & _).
  exists r1. cbn [entries_of]. split_and!; [by apply Em|done..|]. by rewrite Hn.
Qed.

(** the storage changes first *)
Lemma logs_store {A} (m : M (Storage T B) storage_error A) (k : A → RM unit) r es a s' ps μ' :
  m (Storage_of r) = (Ok a, s') → logs (k a) (store s' r) es ps μ' → logs (on_storage m ≫= k) r es ps μ'.
Proof using.
  intros E. apply logs_after; [|apply grown_store|done]. by rewrite (bind_ok _ _ _ _ _ (on_storage_write m r a s' E)).
Qed.

Lemma logs_read {A} (m : M (Storage T B) storage_error A) (k : A → RM unit) r es a ps μ' :
  m (Storage_of r) = (Ok a, Storage_of r) → logs (k a) r es ps μ' → logs (on_storage m ≫= k) r es ps μ'.
Proof using.
  intros E. apply logs_after; [|apply grown_refl|done]. by rewrite (bind_ok _ _ _ _ _ (on_storage_read m r a E)).
Qed.

(** a computation that leaves the registry as it is *)
Lemma logs_pure {A} (m : RM A) (k : A → RM unit) r es a ps μ' :
  m r = (Ok a, r) → logs (k a) r es ps μ' → logs (m ≫= k) r es ps μ'.
Proof using. intros E. apply logs_after; [|apply grown_refl|done]. by rewrite (bind_ok _ _ _ _ _ E). Qed.
End leader.

(** ** Requests and their effect on the metadata *)

Inductive reg_op :=
| RRegisterFile (f : FileInfo) | RMakeDir (uid path : string) | RRemoveFile (path : string)
| RCreatePolicy (uid name : string) (paths : list PolicyPathRules) | RDeletePolicy (name : string)
| RCreateToken (token : string) (ms : Z) (policies : list string) | RRevokeToken (accessor : string).

(** the identifier of the directory a path is in *)
Definition parent_of (path : string) (μ : meta) : option string :=
  if bool_decide (1 < length (Split path))%nat then File_Id <$> file_at (parent_path path) μ else Some "root"%string.

Definition new_dir (uid path id : string) : FileInfo :=
  mkFileInfo uid id FileInfo_DIR (base_name path) path 0 0 "" "" "" 0.
Definition new_policy (uid name : string) (paths : list PolicyPathRules) : Policy :=
  mkPolicy uid name ((λ r, mkPathRules (Rule_Path r) name 0 (Rule_Capabilities r)) <$> paths).
Definition new_token (token : string) (ms : Z) (policies : list string) : Token :=
  mkToken token "" "" token second_ms ms policies "" false.

(** the file a request adds *)
Definition added (o : reg_op) (μ : meta) : option FileInfo :=
  match o with
  | RRegisterFile f => (λ id, with_ParentID id f) <$> parent_of (File_Path f) μ
  | RMakeDir uid path => (λ id, new_dir uid (Trim path) id) <$> parent_of (Trim path) μ
  | _ => None
  end.

Section requests.
Context `{RecordCodecs} `{EntryCodecs}.

Definition reg_effect (o : reg_op) (μ : meta) : meta :=
  match o with
  | RRegisterFile _ | RMakeDir _ _ =>
      match added o μ with Some f => effect (OStoreFile f) μ | None => μ end
  | RRemoveFile path => match file_at (Trim path) μ with Some f => effect (ODeleteFileWithBlocks f) μ | None => μ end
  | RCreatePolicy uid name paths => effect (OStorePolicy (new_policy uid name paths)) μ
  | RDeletePolicy name => match policy_at name μ with Some p => effect (ODeletePolicy p) μ | None => μ end
  | RCreateToken token ms policies => effect (OStoreToken (new_token token ms policies)) μ
  | RRevokeToken accessor => match m_tokens μ !! accessor with Some t => effect (ORevokeToken t) μ | None => μ end
  end.

(** what a request asks of the metadata, [known] being the data nodes *)
Definition reg_allowed (known : gset string) (o : reg_op) (μ : meta) : Prop :=
  match o with
  | RRegisterFile f => file_at (File_Path f) μ = None ∧ ∃ g, added o μ = Some g ∧ admissible KFile (m_files μ) g
  | RMakeDir _ path => file_at (Trim path) μ = None ∧ ∃ g, added o μ = Some g ∧ admissible KFile (m_files μ) g
  | RRemoveFile path => ∃ f, file_at (Trim path) μ = Some f ∧ File_Type f = FileInfo_FILE ∧ children (File_Id f) μ = [] ∧
      numbered_blocks (File_Id f) μ ∧
      Forall (λ b, Forall (λ p, Placement_NodeID p ∈ known) (Block_Blocks b)) (blocks_of (File_Id f) μ)
  | RCreatePolicy uid name paths => admissible KPolicy (m_policies μ) (new_policy uid name paths)
  | RDeletePolicy name => is_Some (policy_at name μ)
  | RCreateToken token ms policies => admissible KToken (m_tokens μ) (new_token token ms policies)
  | RRevokeToken accessor => ∃ t, m_tokens μ !! accessor = Some t ∧ Token_Accessor t = accessor
  end.

(** the entries of a removal *)
Definition removal (id : string) (f : FileInfo) (μ : meta) : list (Entry_Type * list Z) :=
  [(Entry_DELETE_FILE, Marshal_msg (mkDeleteFile id f));
   (Entry_DELETE_BLOCKS, Marshal_msg (mkDeleteBlocks id (sorted_blocks (File_Id f) μ)))].

(** the entries of a request of the registry [id] *)
Definition payloads (id : string) (o : reg_op) (μ : meta) : list (Entry_Type * list Z) :=
  match o with
  | RRegisterFile _ | RMakeDir _ _ =>
      match added o μ with Some f => [(Entry_ASSIGN_FILE, Marshal_msg (mkAssignFile id f))] | None => [] end
  | RRemoveFile path =>
      match file_at (Trim path) μ with
      | Some f => removal id f μ
      | None => []
      end
  | RCreatePolicy uid name paths => [(Entry_CREATE_POLICY, Marshal_msg (mkCreatePolicy id (new_policy uid name paths)))]
  | RDeletePolicy name => [(Entry_DELETE_POLICY, Marshal_msg (mkDeletePolicy id name))]
  | RCreateToken token ms policies => [(Entry_CREATE_TOKEN, Marshal_msg (mkCreateToken id (new_token token ms policies)))]
  | RRevokeToken accessor => [(Entry_REVOKE_TOKEN, Marshal_msg (mkRevokeToken id accessor))]
  end.

Fixpoint run_effect (ops : list reg_op) (μ : meta) : meta :=
  match ops with [] => μ | o :: ops' => run_effect ops' (reg_effect o μ) end.
Fixpoint run_allowed (known : gset string) (ops : list reg_op) (μ : meta) : Prop :=
  match ops with [] => True | o :: ops' => reg_allowed known o μ ∧ run_allowed known ops' (reg_effect o μ) end.
Fixpoint run_payloads (id : string) (ops : list reg_op) (μ : meta) : list (Entry_Type * list Z) :=
  match ops with [] => [] | o :: ops' => payloads id o μ ++ run_payloads id ops' (reg_effect o μ) end.
End requests.

(** the nodes that are asked are those of the placements *)
Lemma group_placements_dom l id : id ∈ dom (group_placements l) ↔ id ∈ l.*1.
Proof.
  unfold group_placements. assert (∀ m : gmap string (list BlockPlacementInfo),
    id ∈ dom (foldl (λ m p, <[p.1 := default [] (m !! p.1) ++ [p.2]]> m) m l) ↔ id ∈ dom m ∨ id ∈ l.*1) as Hm.
  { induction l as [|p l IH]; intros m; cbn [foldl fmap list_fmap].
    - split; [by left|by intros [?|?%elem_of_nil]].
    - rewrite IH, dom_insert, elem_of_union, elem_of_singleton, elem_of_cons. tauto. }
  rewrite Hm, dom_empty. split; [by intros [?%elem_of_empty|?]|by right].
Qed.

(** ** The handlers *)

Section handlers.
Context {J : Type} `{JournalLaws J} {T : Type → Type} `{MemDBLaws T} {B : Type} `{BackendLaws B} {W : Type} `{DataNodes W}.
Context `{RecordCodecs} `{EntryCodecs}.
Context (order : gset string → list string) (order_perm : ∀ s, order s ≡ₚ elements s).
Context (now : Entry_Type → Z).
Local Abbreviation R := (Registry J T B W).
Local Abbreviation RM := (M R registry_error).
Implicit Types (r : R) (es : list Entry) (s : Storage T B).

(** a response that does not report success counts as an error *)
Definition accepted (m : RM CommonResponse) : RM unit :=
  res ← m; guard_err (negb (Common_Success res)) ErrRequest.

Definition reg_do (fuel : nat) (o : reg_op) : RM unit :=
  match o with
  | RRegisterFile f => RegisterFile order now always f
  | RMakeDir uid path => accepted (HandleMakeDir order now always uid path)
  | RRemoveFile path => accepted (HandleRemoveFileOrPath order now always fuel path)
  | RCreatePolicy uid name paths => HandleCreatePolicy order now always uid name paths
  | RDeletePolicy name => _ ← HandleDeletePolicy order now always name; mret tt
  | RCreateToken token ms policies => _ ← HandleCreateToken order now always token ms policies; mret tt
  | RRevokeToken accessor => HandleRevokeToken order now always accessor
  end.

Lemma StoreFile_ok f s μ : stands s μ → admissible KFile (m_files μ) f →
  ∃ s', StoreFile f s = (Ok tt, s') ∧ stands s' (effect (OStoreFile f) μ).
Proof. exact (put_row_ok KFile f s μ). Qed.
Lemma StorePolicy_ok p s μ : stands s μ → admissible KPolicy (m_policies μ) p →
  ∃ s', StorePolicy p s = (Ok tt, s') ∧ stands s' (effect (OStorePolicy p) μ).
Proof. exact (put_row_ok KPolicy p s μ). Qed.
Lemma StoreToken_ok t s μ : stands s μ → admissible KToken (m_tokens μ) t →
  ∃ s', StoreToken t s = (Ok tt, s') ∧ stands s' (effect (OStoreToken t) μ).
Proof. exact (put_row_ok KToken t s μ). Qed.
Lemma DeleteFile_ok f s μ : stands s μ → m_files μ !! File_Id f = Some f →
  ∃ s', DeleteFile f s = (Ok tt, s') ∧ stands s' (effect (ODeleteFile f) μ).
Proof. exact (delete_row_ok KFile f s μ). Qed.
Lemma DeletePolicy_ok p s μ : stands s μ → m_policies μ !! Policy_Id p = Some p →
  ∃ s', DeletePolicy p s = (Ok tt, s') ∧ stands s' (effect (ODeletePolicy p) μ).
Proof. exact (delete_row_ok KPolicy p s μ). Qed.
Lemma RevokeToken_ok t s μ : stands s μ → m_tokens μ !! Token_Id t = Some t →
  ∃ s', RevokeToken t s = (Ok tt, s') ∧ stands s' (effect (ORevokeToken t) μ).
Proof. exact (delete_row_ok KToken t s μ). Qed.
Lemma DeleteBlocks_ok l s μ : stands s μ → NoDup (Block_Id <$> l) → Forall (λ b, m_blocks μ !! Block_Id b = Some b) l →
  ∃ s', DeleteBlocks l s = (Ok tt, s') ∧ stands s' (effect (ODeleteBlocks l) μ).
Proof. exact (delete_rows_ok KBlock l s μ). Qed.
Lemma PutBlocks_ok l s μ : stands s μ → allowed (OPutBlocks l) μ →
  ∃ s', PutBlocks l s = (Ok tt, s') ∧ stands s' (effect (OPutBlocks l) μ).
Proof.
  intros Hs Ha. destruct (st_step_refines (OPutBlocks l) s μ Hs Ha) as (o & s' & E & Ho & Hs').
  exists s'. split; [|exact Hs']. cbn in E, Ho. subst o. unfold observe in E.
  by destruct (PutBlocks l s) as [[[]|e|] s1]; simplify_eq/=.
Qed.

(** a row that was found is where its identifier says *)
Lemma found_file path s μ f : stands s μ → file_at path μ = Some f → m_files μ !! File_Id f = Some f.
Proof. intros Hs [[i Hi] _]%file_at_Some. by rewrite (stands_file_id s μ i f Hs Hi). Qed.
Lemma found_policy name s μ p : stands s μ → policy_at name μ = Some p → m_policies μ !! Policy_Id p = Some p ∧ Policy_Name p = name.
Proof.
  intros Hs [[i Hi] Hn]%lookup_by_Some. split; [|done]. pose proof (wf_pid KPolicy _ (stands_wf KPolicy s μ Hs) i p Hi) as Hp.
  change (Policy_Id p = i) in Hp. by rewrite Hp.
Qed.
Lemma found_token accessor s μ t : stands s μ → m_tokens μ !! accessor = Some t → m_tokens μ !! Token_Id t = Some t ∧ Token_Id t = accessor.
Proof.
  intros Hs Ht. pose proof (wf_pid KToken _ (stands_wf KToken s μ Hs) accessor t Ht) as Hp.
  change (Token_Id t = accessor) in Hp. by rewrite Hp.
Qed.

(** *** The follower *)

Lemma apply_ok e s s' : handle_entry e s = (Ok tt, s') → apply_entry s e = s'.
Proof using. unfold apply_entry. by intros ->. Qed.

(** decoding the payload that was encoded *)
Ltac decode := unfold handle_entry; cbn [Entry_type Entry_Data new_entry fst snd]; rewrite Unmarshal_Marshal_msg.

Lemma replay_removal id f s μ term n : stands s μ → m_files μ !! File_Id f = Some f →
  stands (foldl apply_entry s (entries_of now term n (removal id f μ))) (effect (ODeleteFileWithBlocks f) μ).
Proof using.
  intros Hs Hf. cbn [removal entries_of foldl].
  destruct (DeleteFile_ok f s μ Hs Hf) as (s1 & E1 & Hs1).
  rewrite (apply_ok _ s s1) by (decode; exact E1).
  destruct (drop_having KBlock (mkIndex false false Block_FileID) (File_Id f) (sorted_blocks (File_Id f) μ) (m_blocks μ)
    (stands_wf KBlock s μ Hs) (sorted_blocks_perm (File_Id f) μ)) as (Hnd & Hall & Hdrop).
  destruct (DeleteBlocks_ok (sorted_blocks (File_Id f) μ) s1 _ Hs1 Hnd Hall) as (s2 & E2 & Hs2).
  rewrite (apply_ok _ s1 s2) by (decode; exact E2).
  cbn [effect] in Hs2 |- *. cbn [m_blocks mset] in Hs2. cbn in Hdrop. rewrite Hdrop in Hs2. exact Hs2.
Qed.

Lemma replay_ok known id o s μ term n : stands s μ → reg_allowed known o μ →
  stands (foldl apply_entry s (entries_of now term n (payloads id o μ))) (reg_effect o μ).
Proof.
  intros Hs Ha. destruct o as [f|uid path|path|uid name paths|name|token ms policies|accessor]; cbn [reg_effect payloads] in *.
  - destruct Ha as (_ & g & -> & Hg). cbn [entries_of foldl]. destruct (StoreFile_ok g s μ Hs Hg) as (s' & E & Hs').
    rewrite (apply_ok _ s s'); [done|]. decode. exact E.
  - destruct Ha as (_ & g & -> & Hg). cbn [entries_of foldl]. destruct (StoreFile_ok g s μ Hs Hg) as (s' & E & Hs').
    rewrite (apply_ok _ s s'); [done|]. decode. exact E.
  - destruct Ha as (f & Hf & _). rewrite Hf. apply replay_removal; [exact Hs|]. exact (found_file _ s μ f Hs Hf).
  - cbn [entries_of foldl]. destruct (StorePolicy_ok _ s μ Hs Ha) as (s' & E & Hs').
    rewrite (apply_ok _ s s'); [done|]. decode. exact E.
  - destruct Ha as [p Hp]. rewrite Hp. cbn [entries_of foldl]. destruct (found_policy _ s μ p Hs Hp) as [Hp' _].
    destruct (DeletePolicy_ok p s μ Hs Hp') as (s' & E & Hs'). rewrite (apply_ok _ s s'); [done|]. decode.
    rewrite (bind_ok _ _ _ _ _ (GetPolicy_ok name s μ Hs)). cbn [DeletePolicy_PolicyName]. rewrite Hp. exact E.
  - cbn [entries_of foldl]. destruct (StoreToken_ok _ s μ Hs Ha) as (s' & E & Hs').
    rewrite (apply_ok _ s s'); [done|]. decode. exact E.
  - destruct Ha as (t & Ht & _). rewrite Ht. cbn [entries_of foldl]. destruct (found_token _ s μ t Hs Ht) as [Ht' _].
    destruct (RevokeToken_ok t s μ Hs Ht') as (s' & E & Hs'). rewrite (apply_ok _ s s'); [done|]. decode.
    rewrite (bind_ok _ _ _ _ _ (GetToken_ok accessor s μ Hs)). rewrite Ht. exact E.
Qed.

(** *** The leader *)

Lemma RegisterFile_ok f g r es μ : ready r es μ → lenZ es + 2 < 2 ^ 64 →
  file_at (File_Path f) μ = None → added (RRegisterFile f) μ = Some g → admissible KFile (m_files μ) g →
  Forall short (entries_of now (currentTerm (Cluster_of r)) (lenZ es) [(Entry_ASSIGN_FILE, Marshal_msg (mkAssignFile (ID (Cluster_of r)) g))]) →
  logs now (RegisterFile order now always f) r es [(Entry_ASSIGN_FILE, Marshal_msg (mkAssignFile (ID (Cluster_of r)) g))] (effect (OStoreFile g) μ).
Proof using order_perm.
  intros Hr Hroom Hfree Hadd Hadm [Hshort _]%Forall_cons. pose proof (ready_storage _ _ _ Hr) as Hs.
  unfold RegisterFile. eapply logs_read; [exact (GetFileByPath_ok _ _ _ Hs)|]. rewrite Hfree.
  cbn in Hadd. destruct (parent_of (File_Path f) μ) as [id|] eqn:Epar; [|done]. injection Hadd as <-.
  apply (logs_pure _ _ _ _ _ id).
  { unfold parent_of in Epar. case_bool_decide; [|by injection Epar as <-].
    rewrite (bind_ok _ _ _ _ _ (on_storage_read _ _ _ (GetFileByPath_ok _ _ _ Hs))).
    destruct (file_at (parent_path _) μ); by simplify_eq/=. }
  destruct (StoreFile_ok _ _ _ Hs Hadm) as (s' & E & Hs'). cbv zeta.
  eapply logs_store; [exact E|]. apply (logs_last order order_perm now Entry_ASSIGN_FILE (Marshal_msg (mkAssignFile (ID (Cluster_of r)) (with_ParentID id f)))); [by apply carries_same|eapply ready_store; [exact Hr|exact Hs']|exact Hroom|exact Hshort].
Qed.

Lemma logs_accept (m : RM CommonResponse) r es ps μ' :
  logs now (accepted m) r es ps μ' → ∃ r' res, m r = (Ok res, r') ∧ Common_Success res = true.
Proof using.
  intros (r' & E & _). unfold accepted, mbind, M_bind in E. destruct (m r) as [[res|e|] r1]; [|done..].
  exists r1, res. split; [done|]. by destruct (Common_Success res).
Qed.

Lemma logs_assoc {A D} (m : RM A) (f : A → RM D) (k : D → RM unit) r es ps μ' :
  logs now (m ≫= λ a, f a ≫= k) r es ps μ' → logs now ((m ≫= f) ≫= k) r es ps μ'.
Proof using. intros (r' & E & Hr'). exists r'. by rewrite bind_assoc. Qed.

Lemma HandleMakeDir_ok uid path g r es μ : ready r es μ → lenZ es + 2 < 2 ^ 64 →
  file_at (Trim path) μ = None → added (RMakeDir uid path) μ = Some g → admissible KFile (m_files μ) g →
  Forall short (entries_of now (currentTerm (Cluster_of r)) (lenZ es) [(Entry_ASSIGN_FILE, Marshal_msg (mkAssignFile (ID (Cluster_of r)) g))]) →
  logs now (accepted (HandleMakeDir order now always uid path)) r es [(Entry_ASSIGN_FILE, Marshal_msg (mkAssignFile (ID (Cluster_of r)) g))] (effect (OStoreFile g) μ).
Proof using order_perm.
  intros Hr Hroom Hfree Hadd Hadm [Hshort _]%Forall_cons. pose proof (ready_storage _ _ _ Hr) as Hs.
  unfold accepted, HandleMakeDir. apply logs_assoc. eapply logs_read; [exact (GetFileByPath_ok _ _ _ Hs)|]. rewrite Hfree.
  apply logs_assoc.
  cbn in Hadd. destruct (parent_of (Trim path) μ) as [id|] eqn:Epar; [|done]. injection Hadd as <-.
  apply (logs_pure _ _ _ _ _ (Some id)).
  { unfold parent_of in Epar. case_bool_decide; [|by injection Epar as <-].
    unfold mbind at 1, M_bind at 1, catch. rewrite (on_storage_read _ _ _ (GetFileByPath_ok _ _ _ Hs)). cbn. by rewrite Epar. }
  destruct (StoreFile_ok _ _ _ Hs Hadm) as (s' & E & Hs'). cbv zeta. apply logs_assoc.
  eapply logs_store; [exact E|]. apply logs_assoc.
  eapply (logs_write order order_perm now Entry_ASSIGN_FILE (Marshal_msg (mkAssignFile (ID (Cluster_of r)) (new_dir uid (Trim path) id)))); [by apply carries_same|eapply ready_store; [exact Hr|exact Hs']|exact Hroom|exact Hshort|]. intros r1 Hr1 _. by apply logs_nil.
Qed.

Lemma HandleCreatePolicy_ok uid name paths r es μ : ready r es μ → lenZ es + 2 < 2 ^ 64 →
  let p := new_policy uid name paths in admissible KPolicy (m_policies μ) p →
  let ps := [(Entry_CREATE_POLICY, Marshal_msg (mkCreatePolicy (ID (Cluster_of r)) p))] in
  Forall short (entries_of now (currentTerm (Cluster_of r)) (lenZ es) ps) →
  logs now (HandleCreatePolicy order now always uid name paths) r es ps (effect (OStorePolicy p) μ).
Proof using order_perm.
  intros Hr Hroom p Hadm ps [Hshort _]%Forall_cons. pose proof (ready_storage _ _ _ Hr) as Hs.
  destruct (StorePolicy_ok _ _ _ Hs Hadm) as (s' & E & Hs'). unfold HandleCreatePolicy. cbv zeta.
  eapply logs_store; [exact E|].
  apply (logs_last order order_perm now Entry_CREATE_POLICY (Marshal_msg (mkCreatePolicy (ID (Cluster_of r)) p)));
    [by apply carries_ignore|eapply ready_store; [exact Hr|exact Hs']|exact Hroom|exact Hshort].
Qed.

Lemma HandleDeletePolicy_ok name p r es μ : ready r es μ → lenZ es + 2 < 2 ^ 64 → policy_at name μ = Some p →
  let ps := [(Entry_DELETE_POLICY, Marshal_msg (mkDeletePolicy (ID (Cluster_of r)) name))] in
  Forall short (entries_of now (currentTerm (Cluster_of r)) (lenZ es) ps) →
  logs now (_ ← HandleDeletePolicy order now always name; mret tt) r es ps (effect (ODeletePolicy p) μ).
Proof using order_perm.
  intros Hr Hroom Hp ps [Hshort _]%Forall_cons. pose proof (ready_storage _ _ _ Hr) as Hs.
  destruct (found_policy _ _ _ _ Hs Hp) as [Hp' Hname].
  destruct (DeletePolicy_ok _ _ _ Hs Hp') as (s' & E & Hs'). unfold HandleDeletePolicy. apply logs_assoc.
  eapply logs_read; [exact (GetPolicy_ok _ _ _ Hs)|]. rewrite Hp. apply logs_assoc.
  eapply logs_store; [exact E|]. apply logs_assoc. rewrite Hname.
  eapply (logs_write order order_perm now Entry_DELETE_POLICY (Marshal_msg (mkDeletePolicy (ID (Cluster_of r)) name)));
    [by apply carries_ignore|eapply ready_store; [exact Hr|exact Hs']|exact Hroom|exact Hshort|].
  intros r1 Hr1 _. by apply logs_nil.
Qed.

Lemma HandleCreateToken_ok token ms policies r es μ : ready r es μ → lenZ es + 2 < 2 ^ 64 →
  let t := new_token token ms policies in admissible KToken (m_tokens μ) t →
  let ps := [(Entry_CREATE_TOKEN, Marshal_msg (mkCreateToken (ID (Cluster_of r)) t))] in
  Forall short (entries_of now (currentTerm (Cluster_of r)) (lenZ es) ps) →
  logs now (_ ← HandleCreateToken order now always token ms policies; mret tt) r es ps (effect (OStoreToken t) μ).
Proof using order_perm.
  intros Hr Hroom t Hadm ps [Hshort _]%Forall_cons. pose proof (ready_storage _ _ _ Hr) as Hs.
  destruct (StoreToken_ok _ _ _ Hs Hadm) as (s' & E & Hs'). unfold HandleCreateToken. cbv zeta. apply logs_assoc.
  eapply logs_store; [exact E|]. apply logs_assoc.
  eapply (logs_write order order_perm now Entry_CREATE_TOKEN (Marshal_msg (mkCreateToken (ID (Cluster_of r)) t)));
    [by apply carries_ignore|eapply ready_store; [exact Hr|exact Hs']|exact Hroom|exact Hshort|].
  intros r1 Hr1 _. by apply logs_nil.
Qed.

Lemma HandleRevokeToken_ok accessor t r es μ : ready r es μ → lenZ es + 2 < 2 ^ 64 → m_tokens μ !! accessor = Some t →
  Token_Accessor t = accessor →
  let ps := [(Entry_REVOKE_TOKEN, Marshal_msg (mkRevokeToken (ID (Cluster_of r)) accessor))] in
  Forall short (entries_of now (currentTerm (Cluster_of r)) (lenZ es) ps) →
  logs now (HandleRevokeToken order now always accessor) r es ps (effect (ORevokeToken t) μ).
Proof using order_perm.
  intros Hr Hroom Ht Hacc ps [Hshort _]%Forall_cons. pose proof (ready_storage _ _ _ Hr) as Hs.
  destruct (found_token _ _ _ _ Hs Ht) as [Ht' _].
  destruct (RevokeToken_ok _ _ _ Hs Ht') as (s' & E & Hs'). unfold HandleRevokeToken.
  eapply logs_read; [exact (GetToken_ok _ _ _ Hs)|]. rewrite Ht.
  eapply logs_store; [exact E|]. rewrite Hacc.
  apply (logs_last order order_perm now Entry_REVOKE_TOKEN (Marshal_msg (mkRevokeToken (ID (Cluster_of r)) accessor)));
    [by apply carries_ignore|eapply ready_store; [exact Hr|exact Hs']|exact Hroom|exact Hshort].
Qed.

(** *** Removal of a file *)

(** the data nodes' answers leave the registry as it is *)
Definition same_registry r r1 : Prop := Cluster_of r1 = Cluster_of r ∧ NodesMap_of r1 = NodesMap_of r.

Lemma remove_from_ok nodeId blocks r : nodeId ∈ dom (nodes (NodesMap_of r)) →
  ∃ r1, remove_from nodeId blocks r = (Ok tt, r1) ∧ same_registry r r1.
Proof using.
  intros [n Hn]%elem_of_dom. unfold remove_from, on_nodes, GetNode, nodes_get, in_world, from_option.
  unfold mbind, M_bind. cbn. rewrite Hn. cbn. destruct (dn_RemoveBlocks _ _ _) as [a w]. by eexists.
Qed.

Lemma remove_all_ok l (f : string → list BlockPlacementInfo) r : Forall (λ id, id ∈ dom (nodes (NodesMap_of r))) l →
  ∃ r1, for_each l (λ id, remove_from id (f id)) r = (Ok tt, r1) ∧ same_registry r r1.
Proof using.
  revert r. induction l as [|id l IH]; intros r Hl; [by exists r|]. apply Forall_cons in Hl as [Hid Hl].
  destruct (remove_from_ok id (f id) r Hid) as (r1 & E & Hc & Hn). cbn [for_each].
  rewrite (bind_ok _ _ _ _ _ E). rewrite <- Hn in Hl. destruct (IH r1 Hl) as (r2 & E2 & Hc2 & Hn2). exists r2.
  split; [exact E2|]. unfold same_registry. by rewrite Hc2, Hn2.
Qed.

(** the data nodes are asked, and then the storage *)
Lemma RemoveFileBlocks_eq f r μ : stands (Storage_of r) μ →
  Forall (λ b, Forall (λ p, Placement_NodeID p ∈ dom (nodes (NodesMap_of r))) (Block_Blocks b)) (blocks_of (File_Id f) μ) →
  ∃ r1, RemoveFileBlocks order f r = on_storage (DeleteFileWithBlocks f) r1 ∧ same_registry r r1.
Proof using order_perm.
  intros Hs Hnodes. unfold RemoveFileBlocks. destruct (GetBlocks_ok (File_Id f) _ _ Hs) as (l & El & Hl & _).
  rewrite (bind_ok _ _ _ _ _ (on_storage_read _ _ _ El)). cbv zeta.
  set (bMap := group_placements _).
  destruct (remove_all_ok (order (dom bMap)) (λ nodeId, default [] (bMap !! nodeId)) r) as (r1 & E1 & Hr1).
  { apply Forall_forall. intros id Hid. rewrite (order_perm _), elem_of_elements in Hid.
    apply group_placements_dom in Hid. apply list_elem_of_fmap in Hid as ([id' p] & -> & Hp).
    apply list_elem_of_bind in Hp as (b & Hp & Hb). apply list_elem_of_fmap in Hp as (pl & [= -> ->] & Hpl).
    rewrite Hl in Hb. rewrite Forall_forall in Hnodes. specialize (Hnodes b Hb).
    rewrite Forall_forall in Hnodes. exact (Hnodes pl Hpl). }
  exists r1. split; [|done]. by rewrite (bind_ok _ _ _ _ _ E1).
Qed.

Lemma RemoveFileBlocks_ok f r es μ : ready r es μ → m_files μ !! File_Id f = Some f →
  Forall (λ b, Forall (λ p, Placement_NodeID p ∈ dom (nodes (NodesMap_of r))) (Block_Blocks b)) (blocks_of (File_Id f) μ) →
  ∃ r1, RemoveFileBlocks order f r = (Ok tt, r1) ∧ ready r1 es (effect (ODeleteFileWithBlocks f) μ) ∧
    grown [] (Cluster_of r) (Cluster_of r1) ∧ NodesMap_of r1 = NodesMap_of r.
Proof using order_perm.
  intros Hr Hf Hnodes. pose proof (ready_storage _ _ _ Hr) as Hs.
  destruct (RemoveFileBlocks_eq f r μ Hs Hnodes) as (r1 & -> & Hc & Hnm).
  destruct (DeleteFileWithBlocks_ok f _ _ Hs Hf) as (s' & E & Hs').
  unfold on_storage. replace (Storage_of r1) with (Storage_of r) by (unfold Storage_of; by rewrite Hc).
  rewrite E. rewrite Hc, Hnm. eexists. split; [reflexivity|].
  split; [destruct Hr; by split|]. split; [apply (grown_store s' r)|done].
Qed.

(** a file that is gone is an error, and the storage stays as it is *)
Lemma RemoveFileBlocks_gone f r es μ : ready r es μ → m_files μ !! File_Id f = None →
  Forall (λ b, Forall (λ p, Placement_NodeID p ∈ dom (nodes (NodesMap_of r))) (Block_Blocks b)) (blocks_of (File_Id f) μ) →
  ∃ e r1, RemoveFileBlocks order f r = (Err e, r1) ∧ ready r1 es μ ∧ NodesMap_of r1 = NodesMap_of r.
Proof using order_perm.
  intros Hr Hf Hnodes. pose proof (ready_storage _ _ _ Hr) as Hs.
  destruct (RemoveFileBlocks_eq f r μ Hs Hnodes) as (r1 & -> & Hc & Hnm).
  destruct (DeleteFileWithBlocks_gone f _ _ Hs Hf) as (e & E).
  unfold on_storage. replace (Storage_of r1) with (Storage_of r) by (unfold Storage_of; by rewrite Hc).
  rewrite E. rewrite Hc, Hnm. eexists _, _. split; [reflexivity|]. split; [|done]. destruct Hr. by split.
Qed.

Lemma killChildren_leaf fuel f r μ : stands (Storage_of r) μ → children (File_Id f) μ = [] →
  killChildren order (S fuel) f r = (Ok tt, r).
Proof using.
  intros Hs Hc. cbn [killChildren]. destruct (GetFilesByParentId_ok (File_Id f) _ _ Hs) as (l & E & Hl).
  rewrite (bind_ok _ _ _ _ _ (on_storage_read _ _ _ E)). rewrite Hc in Hl. apply Permutation_nil_r in Hl as ->.
  by rewrite bool_decide_true.
Qed.

(** the two entries at the end of a removal *)
Lemma removal_ok {A} f (a : A) (k : A → RM unit) r r1 es μ μ1 : ready r1 es μ1 → lenZ es + 3 < 2 ^ 64 →
  grown [] (Cluster_of r) (Cluster_of r1) → NodesMap_of r1 = NodesMap_of r → (∀ r2, k a r2 = (Ok tt, r2)) →
  let ps := removal (ID (Cluster_of r)) f μ in
  Forall short (entries_of now (currentTerm (Cluster_of r)) (lenZ es) ps) →
  logs now ((_ ← WriteDeleteFile order now always f; _ ← WriteDeleteBlocks order now always (sorted_blocks (File_Id f) μ); mret a) ≫= k) r1 es ps μ1.
Proof using order_perm.
  intros Hr1 Hroom [_ _ Ht Hid] Hn1 Hk ps [Hshort1 [Hshort2 _]%Forall_cons]%Forall_cons. apply logs_assoc.
  eapply (logs_write order order_perm now Entry_DELETE_FILE (Marshal_msg (mkDeleteFile (ID (Cluster_of r)) f)));
    [apply carries_same; by rewrite <- Hid|exact Hr1|lia|by rewrite Ht|].
  intros r2 Hr2 [_ _ Ht2 Hid2]. apply logs_assoc.
  eapply (logs_write order order_perm now Entry_DELETE_BLOCKS (Marshal_msg (mkDeleteBlocks (ID (Cluster_of r)) (sorted_blocks (File_Id f) μ))));
    [apply carries_same; by rewrite <- Hid, <- Hid2|exact Hr2| | |].
  - rewrite length_app. cbn [length]. lia.
  - rewrite Ht2, Ht, length_app. cbn [length]. replace (Z.of_nat (length es + 1)) with (lenZ es + 1) by lia. exact Hshort2.
  - intros r3 Hr3 _. apply logs_nil; [exact (Hk r3)|exact Hr3].
Qed.

Lemma HandleRemoveFile_ok fuel path f r es μ : ready r es μ → lenZ es + 3 < 2 ^ 64 → file_at (Trim path) μ = Some f →
  File_Type f = FileInfo_FILE → children (File_Id f) μ = [] → numbered_blocks (File_Id f) μ →
  Forall (λ b, Forall (λ p, Placement_NodeID p ∈ dom (nodes (NodesMap_of r))) (Block_Blocks b)) (blocks_of (File_Id f) μ) →
  let ps := removal (ID (Cluster_of r)) f μ in
  Forall short (entries_of now (currentTerm (Cluster_of r)) (lenZ es) ps) →
  logs now (accepted (HandleRemoveFileOrPath order now always (S fuel) path)) r es ps (effect (ODeleteFileWithBlocks f) μ).
Proof using order_perm.
  intros Hr Hroom Hf Htype Hc Hn Hnodes ps Hshort.
  pose proof (ready_storage _ _ _ Hr) as Hs. pose proof (found_file _ _ _ _ Hs Hf) as Hf'.
  unfold accepted, HandleRemoveFileOrPath. apply logs_assoc.
  eapply logs_read; [exact (GetFileByPath_ok _ _ _ Hs)|]. rewrite Hf. apply logs_assoc.
  eapply logs_read; [exact (GetBlocks_numbered _ _ _ Hs Hn)|]. apply logs_assoc.
  apply (logs_pure _ _ _ _ _ tt); [by eapply killChildren_leaf|]. apply logs_assoc. rewrite bool_decide_true by done.
  destruct (RemoveFileBlocks_ok f r es μ Hr Hf' Hnodes) as (r1 & E1 & Hr1 & Hg1 & Hn1).
  eapply logs_after; [by rewrite (bind_ok _ _ _ _ _ E1)|exact Hg1|by rewrite Hn1|].
  apply (removal_ok f success (λ res, guard_err (negb (Common_Success res)) ErrRequest) r r1 es μ); done.
Qed.

(** *** Sequences of requests *)

Lemma entries_of_length term n ps : length (entries_of now term n ps) = length ps.
Proof using. revert n. induction ps as [|p ps IH]; intros n; [done|]. cbn. by rewrite IH. Qed.

Lemma entries_of_app term n ps qs :
  entries_of now term n (ps ++ qs) = entries_of now term n ps ++ entries_of now term (n + lenZ ps) qs.
Proof using.
  revert n. induction ps as [|p ps IH]; intros n; cbn [entries_of Datatypes.app length].
  - by rewrite Z.add_0_r.
  - rewrite IH. do 3 f_equal. lia.
Qed.

Lemma reg_step_ok fuel o r es μ : ready r es μ → reg_allowed (dom (nodes (NodesMap_of r))) o μ → lenZ es + 3 < 2 ^ 64 →
  Forall short (entries_of now (currentTerm (Cluster_of r)) (lenZ es) (payloads (ID (Cluster_of r)) o μ)) →
  logs now (reg_do (S fuel) o) r es (payloads (ID (Cluster_of r)) o μ) (reg_effect o μ).
Proof using order_perm.
  intros Hr Ha Hroom Hshort. assert (lenZ es + 2 < 2 ^ 64) as Hroom2 by lia.
  destruct o as [f|uid path|path|uid name paths|name|token ms policies|accessor]; cbn [reg_do reg_effect payloads reg_allowed] in *.
  - destruct Ha as (Hfree & g & Hg & Hadm). rewrite Hg in *. by apply RegisterFile_ok.
  - destruct Ha as (Hfree & g & Hg & Hadm). rewrite Hg in *. by apply HandleMakeDir_ok.
  - destruct Ha as (f & Hf & Htype & Hc & Hn & Hnodes). rewrite Hf in *. by apply HandleRemoveFile_ok.
  - by apply HandleCreatePolicy_ok.
  - destruct Ha as [p Hp]. rewrite Hp. by apply HandleDeletePolicy_ok.
  - by apply HandleCreateToken_ok.
  - destruct Ha as (t & Ht & Hacc). rewrite Ht. by apply HandleRevokeToken_ok.
Qed.

Lemma run_ops_ok fuel ops r es μ : ready r es μ → run_allowed (dom (nodes (NodesMap_of r))) ops μ →
  lenZ es + lenZ (run_payloads (ID (Cluster_of r)) ops μ) + 3 < 2 ^ 64 →
  Forall short (entries_of now (currentTerm (Cluster_of r)) (lenZ es) (run_payloads (ID (Cluster_of r)) ops μ)) →
  logs now (for_each ops (reg_do (S fuel))) r es (run_payloads (ID (Cluster_of r)) ops μ) (run_effect ops μ).
Proof using order_perm.
  revert r es μ. induction ops as [|o ops IH]; intros r es μ Hr Ha Hroom Hshort; [by apply logs_nil|].
  destruct Ha as [Ho Ha]. cbn [run_payloads run_effect for_each] in *.
  rewrite entries_of_app, Forall_app in Hshort. destruct Hshort as [Hshort1 Hshort2]. rewrite length_app in Hroom.
  destruct (reg_step_ok fuel o r es μ Hr Ho ltac:(lia) Hshort1) as (r1 & E1 & Hr1 & Hg1 & Hn1).
  set (new := entries_of _ _ _ (payloads _ o μ)) in *.
  assert (lenZ (es ++ new) = lenZ es + lenZ (payloads (ID (Cluster_of r)) o μ)) as Hlen.
  { unfold new. rewrite length_app, entries_of_length. lia. }
  pose proof (grown_term _ _ _ Hg1) as Ht. pose proof (grown_ID _ _ _ Hg1) as Hid.
  destruct (IH r1 (es ++ new) (reg_effect o μ)) as (r2 & E2 & Hr2 & Hg2 & Hn2).
  - done.
  - by rewrite Hn1.
  - rewrite Hlen, Hid. lia.
  - by rewrite Ht, Hlen, Hid.
  - exists r2. rewrite Ht, Hlen, Hid in *. rewrite entries_of_app. fold new. split_and!.
    + by rewrite (bind_ok _ _ _ _ _ E1).
    + by rewrite app_assoc.
    + exact (grown_trans _ _ _ _ _ Hg1 Hg2).
    + by rewrite Hn2, Hn1.
Qed.

Lemma replay_run known id ops s μ term n : stands s μ → run_allowed known ops μ →
  stands (handleEntriesFromLeader (entries_of now term n (run_payloads id ops μ)) s) (run_effect ops μ).
Proof using.
  revert s μ n. induction ops as [|o ops IH]; intros s μ n Hs Ha; [done|]. destruct Ha as [Ho Ha].
  cbn [run_payloads run_effect]. rewrite entries_of_app. unfold handleEntriesFromLeader. rewrite foldl_app.
  apply IH; [|done]. by eapply replay_ok.
Qed.
End handlers.

(** ** Leader and follower *)

Section followers.
Context {J : Type} `{JournalLaws J} {T : Type → Type} `{MemDBLaws T} {B : Type} `{BackendLaws B} {W : Type} `{DataNodes W}.
Context `{RecordCodecs} `{EntryCodecs}.
Context (garbled : list Z → Entry) (order : gset string → list string) (now : Entry_Type → Z).

(** C1: after any sequence of accepted requests (files, directories, the removal of
  files, policies and tokens) the leader's storage has exactly their effect, its
  journal has grown by exactly the entries of the requests, and one round of
  dispatchEntries over a working network brings a follower, whose journal held a
  prefix of the leader's, to the same journal and to the same metadata *)
Theorem followers_hold_the_same_metadata (uid : string) (fuel k : nat) (ops : list reg_op)
    (r : Registry J T B W) (f : Cluster J (Storage T B)) (es : list Entry) (μ : meta) :
  (∀ s, order s ≡ₚ elements s) → ready r es μ → run_allowed (dom (nodes (NodesMap_of r))) ops μ →
  let new := entries_of now (currentTerm (Cluster_of r)) (lenZ es) (run_payloads (ID (Cluster_of r)) ops μ) in
  lenZ (es ++ new) + 3 < 2 ^ 63 → Forall short (es ++ new) →
  leads (Cluster_of r) uid (drop k es) es → Cluster.recovering <$> peers (Cluster_of r) !! uid = Some false →
  (k ≤ length es)%nat → (∃ s, level f (take k es) s (currentTerm (Cluster_of r)) ∧
    stands (handleEntriesFromLeader (drop k es) s) μ) →
  ∃ r' c' f',
    for_each ops (reg_do order now (S fuel)) r = (Ok tt, r') ∧ stands (Storage_of r') (run_effect ops μ) ∧
    synced (Cluster_of r') (es ++ new) ∧
    dispatch_peer garbled (serve apply_entry) uid (Cluster_of r', f) = (Ok tt, (c', f')) ∧
    synced f' (es ++ new) ∧ stands (app f') (run_effect ops μ).
Proof.
  intros Ho Hr Ha new Hroom Hshort Hleads Hrec Hk (s & Hlevel & Hs).
  assert (length new = length (run_payloads (ID (Cluster_of r)) ops μ)) as Hlen by apply entries_of_length.
  rewrite length_app in Hroom.
  destruct (run_ops_ok order Ho now fuel ops r es μ Hr Ha) as (r' & E & Hr' & Hg & _); [lia|by apply Forall_app in Hshort as [_ ?]|].
  fold new in Hr', Hg. pose proof (ready_journal _ _ _ Hr') as Hj'. destruct Hleads as (_ & Hconn & p & Hp & Hbuf).
  assert (peers (Cluster_of r') !! uid = Some (with_buffer (buffer p ++ new) p)) as Hp'.
  { by rewrite (grown_peers _ _ _ Hg), lookup_fmap, Hp. }
  destruct (dispatch_peer_ok garbled apply_entry uid (Cluster_of r') f (es ++ new) k s) as (c' & f' & E' & _ & (Hf' & Happ & _) & _).
  - split; [done|]. split; [by rewrite (grown_conns _ _ _ Hg)|]. eexists. split; [exact Hp'|]. cbn.
    by rewrite Hbuf, drop_app_le.
  - rewrite Hp'. cbn. by rewrite Hp in Hrec.
  - done.
  - rewrite length_app. lia.
  - rewrite length_app. lia.
  - by rewrite take_app_le, (grown_term _ _ _ Hg).
  - exists r', c', f'. split_and!; [done|by destruct Hr'|done|exact E'|done|].
    rewrite Happ, drop_app_le, foldl_app by done.
    exact (replay_run now _ (ID (Cluster_of r)) ops _ μ _ _ Hs Ha).
Qed.
End followers.

(** ** Witness: two registries, the second one empty *)

#[export] Instance admissible_dec `{RecordCodecs} k m r : Decision (admissible k m r).
Proof.
  unfold admissible. repeat apply and_dec; try apply _.
  destruct (m !! pid k r) as [r'|]; [|by left].
  destruct (decide (key k r' = key k r)); [left; by intros ? [= <-]|right]. intros Hn. by apply n, Hn.
Defined.

Section witnesses.
#[local] Existing Instance bit_records.
#[local] Existing Instance bit_codecs.

Definition no_nodes : DataNodes unit :=
  {| dn_Dial _ := false; dn_Heartbeat _ w := (None, w); dn_AssignBlocks _ _ w := (None, w);
     dn_GetBlocks _ _ w := (None, w); dn_RemoveBlocks _ _ w := (None, w) |}.
#[local] Existing Instance no_nodes.

Definition small_storage : Type := Storage map_table (FileStorageBackend map_bolt).
Definition small_cluster (id other : string) (s : small_storage) : Cluster node_wal small_storage :=
  mkCluster _ _ id {[other := mkPeer (small_info other) [] 0 false]} {[other]} 1 0 0 State_LEADER false 0 true 0 "" (wal_of []) s.
Definition small_registry (s : small_storage) : Registry node_wal map_table (FileStorageBackend map_bolt) unit :=
  mkRegistry (small_cluster "a" "b" s) (mkNodesMap ∅ (mkTransport ∅ false)) tt.
Definition docs_a : FileInfo := mkFileInfo "1" "" FileInfo_FILE "a" "docs/a" 3 493 "" "" "" 2.
Definition some_requests : list reg_op :=
  [RMakeDir "d" "/docs/"; RRegisterFile docs_a; RCreatePolicy "q" "p" [mkPathRule "docs" ["read"%string]];
   RCreateToken "t" 5 ["p"%string]; RRemoveFile "/docs/a"; RRevokeToken "t"; RDeletePolicy "p"].

Lemma some_requests_allowed : run_allowed ∅ some_requests no_meta.
Proof.
  cbn [run_allowed some_requests].
  repeat match goal with |- _ ∧ _ => split end; try done; cbn [reg_allowed].
  all: try (split; [by vm_compute|]); try (eexists; split; [by vm_compute|]).
  all: try (apply (bool_decide_eq_true_1 _); by vm_compute).
  all: try done.
Qed.

Definition some_entries : list Entry := entries_of (λ _, 0) 1 0 (run_payloads "a" some_requests no_meta).

Lemma some_entries_short : Forall short some_entries.
Proof. apply (bool_decide_eq_true_1 (Forall (λ e, 0 ≤ lenZ (Marshal_msg e) < 2 ^ 64) some_entries)). by vm_compute. Qed.

Lemma small_ready s : stands s no_meta → ready (small_registry s) [] no_meta.
Proof.
  intros Hs. split; [done| |done|done|].
  - split; [exact (small_holds 0 ltac:(lia))|]. by split.
  - intros uid p l Hp. cbn [peers Cluster_of small_registry small_cluster] in Hp.
    by apply lookup_singleton_Some in Hp as [<- <-].
Qed.

Lemma followers_hold_the_same_metadata_witness : ∃ s : small_storage, stands s no_meta ∧
  ∃ r' c' f',
    for_each some_requests (reg_do by_name (λ _, 0) 1) (small_registry s) = (Ok tt, r') ∧
    stands (Storage_of r') (run_effect some_requests no_meta) ∧ synced (Cluster_of r') some_entries ∧
    dispatch_peer no_entry (serve apply_entry) "b" (Cluster_of r', small_cluster "b" "a" s) = (Ok tt, (c', f')) ∧
    synced f' some_entries ∧ stands (app f') (run_effect some_requests no_meta).
Proof.
  destruct small_fresh as (s & _ & Hs). exists s. split; [exact Hs|].
  apply (followers_hold_the_same_metadata no_entry by_name (λ _, 0) "b" 0 0 some_requests
    (small_registry s) (small_cluster "b" "a" s) [] no_meta).
  - exact by_name_perm.
  - by apply small_ready.
  - exact some_requests_allowed.
  - by vm_compute.
  - exact some_entries_short.
  - split; [apply (ready_journal _ _ _ (small_ready s Hs))|]. split; [apply elem_of_singleton; done|].
    eexists. split; [apply lookup_singleton_eq|done].
  - done.
  - done.
  - exists s. split; [|exact Hs]. split; [|split; [done|split; [done|]]].
    + split; [exact (small_holds 0 ltac:(lia))|]. by split.
    + vm_compute. lia.
Defined.
End witnesses.
