(* ===== verification/Followers.v ===== *)
(** * The registries of a cluster over a network that loses messages

    The requests of [RegistrySpec] on the leader, interleaved with the rounds, the
    losses and the restarts of [Network]: every follower holds the metadata that the
    leader had after some of its requests. *)

From stdpp Require Import relations.
From S2P Require Import Prelude GoSort GoStrings Wal WalInv WalOpen WalSpec Messages MemDB Backend Storage.
From S2P Require Import StorageSpec Journal Cluster ClusterSpec NodesMap Registry Handlers RegistrySpec Network.

Section registries.
Context {J : Type} `{JournalLaws J} {T : Type → Type} `{MemDBLaws T} {B : Type} `{BackendLaws B} {W : Type} `{DataNodes W}.
Context `{RecordCodecs} `{EntryCodecs}.
Context (garbled : list Z → Entry) (order : gset string → list string) (order_perm : ∀ s, order s ≡ₚ elements s).
Context (now : Entry_Type → Z) (fuel : nat).
(** the storage before the first entry *)
Context (s0 : Storage T B).
Local Abbreviation R := (Registry J T B W).
Local Abbreviation N := (net J (Storage T B)).
Implicit Types (r : R) (w : N) (es : list Entry).

Definition with_cluster (c : Cluster J (Storage T B)) r : R := mkRegistry c (NodesMap_of r) (world r).

(** a leader that answers requests while the network loses calls, and the requests
    that it answered *)
Inductive serves (r0 : R) (w0 : N) : list reg_op → R → N → Prop :=
| serves_start : serves r0 w0 [] r0 w0
| serves_request ops o r r' w : serves r0 w0 ops r w →
    reg_do order now (S fuel) o r = (Ok tt, r') → serves r0 w0 (ops ++ [o]) r' w
| serves_round ops uid lost x r c' w w' : serves r0 w0 ops r w → is_Some (followers w !! uid) →
    dispatch_peer garbled (lossy apply_entry) uid (Cluster_of r, mkNet _ _ (followers w) lost) = (x, (c', w')) →
    serves r0 w0 ops (with_cluster c' r) w'
| serves_restart ops uid infos alive f f' r w : serves r0 w0 ops r w → followers w !! uid = Some f →
    NewCluster garbled uid infos alive (Ok (wal f)) true (app f) = Ok f' →
    serves r0 w0 ops r (mkNet _ _ (<[uid := f']> (followers w)) (fates w)).

(** ** Sequences of requests, one request longer *)

Lemma run_effect_snoc ops o μ : run_effect (ops ++ [o]) μ = reg_effect o (run_effect ops μ).
Proof using. revert μ. induction ops as [|o' ops IH]; intros μ; [done|]. apply IH. Qed.

Lemma run_allowed_snoc known ops o μ :
  run_allowed known (ops ++ [o]) μ ↔ run_allowed known ops μ ∧ reg_allowed known o (run_effect ops μ).
Proof using.
  revert μ. induction ops as [|o' ops IH]; intros μ; cbn [run_allowed run_effect Datatypes.app]; [tauto|]. rewrite IH. tauto.
Qed.

Lemma run_payloads_snoc id ops o μ :
  run_payloads id (ops ++ [o]) μ = run_payloads id ops μ ++ payloads id o (run_effect ops μ).
Proof using.
  revert μ. induction ops as [|o' ops IH]; intros μ; cbn [run_payloads run_effect Datatypes.app].
  - by rewrite app_nil_r.
  - by rewrite IH, app_assoc.
Qed.

Lemma run_allowed_take known ops μ j : run_allowed known ops μ → run_allowed known (take j ops) μ.
Proof using.
  revert μ j. induction ops as [|o ops IH]; intros μ [|j]; cbn [run_allowed take]; [done..|]. intros [Ho Ha]. split; [done|by apply IH].
Qed.

Lemma run_payloads_take id ops μ j : run_payloads id (take j ops) μ `prefix_of` run_payloads id ops μ.
Proof using.
  revert μ j. induction ops as [|o ops IH]; intros μ [|j]; cbn [run_payloads take]; [done|done|apply prefix_nil|].
  by apply prefix_app.
Qed.

(** ** The network under the requests *)

Lemma grown_inv new r r' w es : grown new (Cluster_of r) (Cluster_of r') → synced (Cluster_of r') (es ++ new) →
  Forall short new → Forall (λ e, Entry_Term e ≤ currentTerm (Cluster_of r)) new → lenZ (es ++ new) + 2 < 2 ^ 63 →
  net_inv apply_entry s0 (Cluster_of r) w es → net_inv apply_entry s0 (Cluster_of r') w (es ++ new).
Proof using.
  intros [Hp Hc Ht _] Hs Hsh Hterm Hroom [_ Hsh0 _ Ht0 Hpe Hheld]. split; [done|by apply Forall_app|done| | |].
  - rewrite Ht. by apply Forall_app.
  - intros uid. rewrite Hp, lookup_fmap, fmap_is_Some. apply Hpe.
  - intros uid f Hf. destruct (Hheld uid f Hf) as [k [Hlv Hle Hconn (p & Ep & Hrec & Hb)]]. exists k. split.
    + by rewrite Ht, take_app_le.
    + rewrite length_app. lia.
    + by rewrite Hc.
    + rewrite drop_app_le by done. eexists. rewrite Hp, lookup_fmap, Ep. split; [done|]. split; [done|].
      cbn. by apply sublist_app.
Qed.

(** the buffers of the leader are never ahead of its log *)
Lemma inv_buffered c w es : net_inv apply_entry s0 c w es → buffered c (lenZ es).
Proof using.
  intros [(_ & Hn & _) _ _ Ht Hpe Hheld] uid p l Hp Hl. destruct (Hpe uid) as [f Hf]; [by eexists|].
  destruct (Hheld uid f Hf) as [k [_ _ _ (p' & Hp' & _ & Hb)]]. assert (p' = p) as -> by congruence.
  assert (l ∈ es) as Hin.
  { apply (sublist_subseteq _ _ (sublist_drop es k)), (sublist_subseteq _ _ Hb).
    apply last_Some in Hl as [b' ->]. apply elem_of_app. right. by apply list_elem_of_here. }
  apply list_elem_of_lookup in Hin as [i Hi]. pose proof (Hn i l Hi) as Hidx. pose proof (lookup_lt_Some _ _ _ Hi).
  rewrite Forall_lookup in Ht. split; [lia|by eapply Ht].
Qed.

Lemma entries_of_terms term n ps : Forall (λ e, Entry_Term e ≤ term) (entries_of now term n ps).
Proof using. revert n. induction ps as [|p ps IH]; intros n; constructor; [done|apply IH]. Qed.

(** what a registry that answered [ops] has, and the network below it *)
Record serving (r0 : R) (ops : list reg_op) (es0 : list Entry) (μ0 : meta) r w : Prop := {
  sv_ready : ready r (es0 ++ entries_of now (currentTerm (Cluster_of r0)) (lenZ es0) (run_payloads (ID (Cluster_of r0)) ops μ0)) (run_effect ops μ0);
  sv_net : net_inv apply_entry s0 (Cluster_of r) w
    (es0 ++ entries_of now (currentTerm (Cluster_of r0)) (lenZ es0) (run_payloads (ID (Cluster_of r0)) ops μ0));
  sv_term : currentTerm (Cluster_of r) = currentTerm (Cluster_of r0);
  sv_ID : ID (Cluster_of r) = ID (Cluster_of r0);
  sv_nodes : dom (nodes (NodesMap_of r)) = dom (nodes (NodesMap_of r0));
}.

Local Abbreviation new_of r0 ops μ0 es0 :=
  (entries_of now (currentTerm (Cluster_of r0)) (lenZ es0) (run_payloads (ID (Cluster_of r0)) ops μ0)).

Lemma new_of_snoc r0 ops o μ0 es0 :
  new_of r0 (ops ++ [o]) μ0 es0 = new_of r0 ops μ0 es0 ++
    entries_of now (currentTerm (Cluster_of r0)) (lenZ (es0 ++ new_of r0 ops μ0 es0)) (payloads (ID (Cluster_of r0)) o (run_effect ops μ0)).
Proof using. rewrite run_payloads_snoc, entries_of_app, length_app, entries_of_length. do 2 f_equal. lia. Qed.

Lemma new_of_take r0 ops μ0 es0 j :
  new_of r0 (take j ops) μ0 es0 = take (length (run_payloads (ID (Cluster_of r0)) (take j ops) μ0)) (new_of r0 ops μ0 es0).
Proof using.
  destruct (run_payloads_take (ID (Cluster_of r0)) ops μ0 j) as [rest ->]. rewrite entries_of_app.
  by rewrite take_app_length' by (by rewrite entries_of_length).
Qed.

Lemma serving_request r0 w ops o r r' es0 μ0 : serving r0 ops es0 μ0 r w →
  run_allowed (dom (nodes (NodesMap_of r0))) (ops ++ [o]) μ0 →
  lenZ (es0 ++ new_of r0 (ops ++ [o]) μ0 es0) + 3 < 2 ^ 63 → Forall short (es0 ++ new_of r0 (ops ++ [o]) μ0 es0) →
  reg_do order now (S fuel) o r = (Ok tt, r') → serving r0 (ops ++ [o]) es0 μ0 r' w.
Proof using order_perm.
  intros [Hr Hinv Ht Hid Hn] [_ Ha]%run_allowed_snoc Hroom Hsh E.
  rewrite new_of_snoc, app_assoc in Hroom, Hsh. apply Forall_app in Hsh as [_ Hsh].
  set (es := es0 ++ new_of r0 ops μ0 es0) in *. rewrite (length_app es) in Hroom.
  destruct (reg_step_ok order order_perm now fuel o r es (run_effect ops μ0) Hr) as (r1 & E1 & Hr1 & Hg & Hn1); [by rewrite Hn|lia|by rewrite Ht, Hid|].
  rewrite E1 in E. injection E as <-. rewrite Ht, Hid in *.
  split.
  - by rewrite new_of_snoc, app_assoc, run_effect_snoc.
  - rewrite new_of_snoc, app_assoc. apply (grown_inv _ r); try done.
    + apply (ready_journal _ _ _ Hr1).
    + rewrite Ht. apply entries_of_terms.
    + fold es. rewrite (length_app es). lia.
  - by rewrite (grown_term _ _ _ Hg).
  - by rewrite (grown_ID _ _ _ Hg).
  - by rewrite Hn1.
Qed.

Lemma serving_round r0 w w' ops uid lost x r c' es0 μ0 : serving r0 ops es0 μ0 r w → is_Some (followers w !! uid) →
  dispatch_peer garbled (lossy apply_entry) uid (Cluster_of r, mkNet _ _ (followers w) lost) = (x, (c', w')) →
  serving r0 ops es0 μ0 (with_cluster c' r) w'.
Proof using.
  intros [[Hs Hj Ho Hp Hb] Hinv Ht Hid Hn] Hf E.
  destruct (dispatch_inv garbled apply_entry s0 uid lost x (Cluster_of r) c' w w' _ Hinv Hf E) as (Hinv' & [_ Hkt Hki Hka Hko Hkp _] & _).
  split; [split| | | |]; try done.
  - unfold Storage_of. cbn. by rewrite Hka.
  - apply Hinv'.
  - cbn. by rewrite Hko.
  - cbn. by rewrite Hkp.
  - exact (inv_buffered c' w' _ Hinv').
  - cbn. by rewrite Hkt.
  - cbn. by rewrite Hki.
Qed.

Lemma serves_serving r0 w0 ops r w es0 μ0 : serves r0 w0 ops r w → 0 ≤ currentTerm (Cluster_of r0) →
  ready r0 es0 μ0 → net_inv apply_entry s0 (Cluster_of r0) w0 es0 → run_allowed (dom (nodes (NodesMap_of r0))) ops μ0 →
  lenZ (es0 ++ new_of r0 ops μ0 es0) + 3 < 2 ^ 63 → Forall short (es0 ++ new_of r0 ops μ0 es0) →
  serving r0 ops es0 μ0 r w.
Proof using order_perm.
  intros Hsv Hpos Hr0 Hinv0. induction Hsv as [|ops o r r' w _ IH E|ops uid lost x r c' w w' _ IH Hf E|ops uid infos alive f f' r w _ IH Hf E];
    intros Ha Hroom Hsh.
  - split; cbn [run_payloads entries_of run_effect]; by rewrite ?app_nil_r.
  - apply (serving_request r0 w ops o r); try done. pose proof Ha as [Ha' _]%run_allowed_snoc. apply IH; [done|..].
    + rewrite new_of_snoc, app_assoc, length_app in Hroom. lia.
    + rewrite new_of_snoc, app_assoc, Forall_app in Hsh. apply Hsh.
  - apply (serving_round r0 w w' ops uid lost x r); [by apply IH|done..].
  - destruct (IH Ha Hroom Hsh) as [Hr Hinv Ht Hid Hn]. split; try done.
    apply (restart_inv garbled apply_entry s0 uid infos alive f); try done. by rewrite Ht.
Qed.

(** requests in a row, and a round after them *)
Lemma serves_requests r0 w0 ops' ops r r' w : serves r0 w0 ops' r w →
  for_each ops (reg_do order now (S fuel)) r = (Ok tt, r') → serves r0 w0 (ops' ++ ops) r' w.
Proof using.
  revert ops' r. induction ops as [|o ops IH]; intros ops' r Hsv E; cbn [for_each] in E.
  - injection E as <-. by rewrite app_nil_r.
  - destruct (reg_do order now (S fuel) o r) as [[[]|e|] r1] eqn:E1; unfold mbind, M_bind in E; rewrite E1 in E; [|done..].
    rewrite (cons_middle o ops' ops), app_assoc. apply (IH _ r1); [|exact E]. by eapply serves_request.
Qed.

Lemma serves_lossy_round r0 w0 ops uid (lost : list fate) r w : serves r0 w0 ops r w → is_Some (followers w !! uid) →
  ∃ r' w', serves r0 w0 ops r' w'.
Proof using.
  intros Hsv Hf. destruct (dispatch_peer garbled (lossy apply_entry) uid (Cluster_of r, mkNet _ _ (followers w) lost)) as [x [c' w']] eqn:E.
  exists (with_cluster c' r), w'. by eapply serves_round.
Qed.
End registries.

Section property.
Context {J : Type} `{JournalLaws J} {T : Type → Type} `{MemDBLaws T} {B : Type} `{BackendLaws B} {W : Type} `{DataNodes W}.
Context `{RecordCodecs} `{EntryCodecs}.
Context (garbled : list Z → Entry) (order : gset string → list string) (now : Entry_Type → Z).

(** C5: While a leader answers accepted requests, and rounds of dispatchEntries lose
    requests and answers and followers restart in between: the leader's storage has
    the effect of all the requests; every follower's journal is a prefix of the
    leader's, and its storage is the replay of exactly that prefix; so whenever the
    prefix ends with the entries of a request, the follower holds the metadata that
    the leader had after that request. *)
Theorem followers_hold_earlier_metadata (fuel : nat) (s0 : Storage T B) (r0 r : Registry J T B W)
    (w0 w : net J (Storage T B)) (ops : list reg_op) (es0 : list Entry) (μ0 : meta) :
  (∀ s, order s ≡ₚ elements s) → serves garbled order now fuel r0 w0 ops r w →
  0 ≤ currentTerm (Cluster_of r0) → ready r0 es0 μ0 → net_inv apply_entry s0 (Cluster_of r0) w0 es0 →
  stands (foldl apply_entry s0 es0) μ0 → run_allowed (dom (nodes (NodesMap_of r0))) ops μ0 →
  let id := ID (Cluster_of r0) in
  let es := es0 ++ entries_of now (currentTerm (Cluster_of r0)) (lenZ es0) (run_payloads id ops μ0) in
  lenZ es + 3 < 2 ^ 63 → Forall short es →
  stands (Storage_of r) (run_effect ops μ0) ∧ synced (Cluster_of r) es ∧
  ∀ uid f, followers w !! uid = Some f → ∃ k, (k ≤ length es)%nat ∧ synced f (take k es) ∧
    app f = foldl apply_entry s0 (take k es) ∧
    ∀ j, k = (length es0 + length (run_payloads id (take j ops) μ0))%nat → stands (app f) (run_effect (take j ops) μ0).
Proof.
  intros Ho Hsv Hpos Hr0 Hinv0 Hs0 Ha id es Hroom Hsh.
  destruct (serves_serving garbled order Ho now fuel s0 r0 w0 ops r w es0 μ0) as [Hr Hinv _ _ _]; [done..|].
  split_and!; [apply Hr|apply Hr|]. intros uid f Hf. destruct (inv_held _ _ _ _ _ Hinv uid f Hf) as [k [(Hsf & Happ & _) Hk _ _]].
  exists k. split_and!; [done..|]. intros j ->. rewrite Happ. unfold replayed.
  unfold es, id. rewrite take_app_add, <- new_of_take, foldl_app.
  apply (replay_run now (dom (nodes (NodesMap_of r0)))); [done|by apply run_allowed_take].
Qed.
End property.

(** ** Witness: the second registry misses a round, and gets part of the next *)

Section witnesses.
#[local] Existing Instance bit_records.
#[local] Existing Instance bit_codecs.
#[local] Existing Instance no_nodes.

Definition one_follower (s : small_storage) : net node_wal small_storage :=
  mkNet _ _ {["b" := small_cluster "b" "a" s]} [].

Lemma one_follower_inv s : stands s no_meta → net_inv apply_entry s (Cluster_of (small_registry s)) (one_follower s) [].
Proof.
  intros Hs. split; try done.
  - apply (ready_journal _ _ _ (small_ready s Hs)).
  - intros uid [p Hp]. cbn [peers Cluster_of small_registry small_cluster] in Hp.
    apply lookup_singleton_Some in Hp as [<- _]. by eexists.
  - intros uid f Hf. cbn [followers one_follower] in Hf. apply lookup_singleton_Some in Hf as [<- <-]. exists 0%nat. split.
    + split; [apply (ready_journal _ _ _ (small_ready s Hs))|]. split; [done|]. split; [done|]. change (0 < 50)%nat. lia.
    + done.
    + by apply elem_of_singleton.
    + eexists. split; [apply lookup_singleton_eq|]. done.
Qed.

Lemma followers_hold_earlier_metadata_witness : ∃ (s : small_storage) r w,
  serves no_entry by_name (λ _, 0) 0 (small_registry s) (one_follower s) some_requests r w ∧
  stands (Storage_of r) (run_effect some_requests no_meta) ∧ synced (Cluster_of r) some_entries ∧
  ∀ uid f, followers w !! uid = Some f → ∃ k, (k ≤ length some_entries)%nat ∧ synced f (take k some_entries) ∧
    app f = foldl apply_entry s (take k some_entries) ∧
    ∀ j, k = length (run_payloads "a" (take j some_requests) no_meta) → stands (app f) (run_effect (take j some_requests) no_meta).
Proof.
  destruct small_fresh as (s & _ & Hs). exists s.
  destruct (run_ops_ok by_name by_name_perm (λ _, 0) 0 some_requests (small_registry s) [] no_meta (small_ready s Hs)
    some_requests_allowed ltac:(by vm_compute) some_entries_short) as (r1 & E & _).
  pose proof (serves_requests no_entry by_name (λ _, 0) 0 (small_registry s) (one_follower s) [] some_requests _ r1 (one_follower s)
    (serves_start _ _ _ _ _ _) E) as Hsv1.
  destruct (serves_lossy_round no_entry by_name (λ _, 0) 0 (small_registry s) (one_follower s) some_requests "b" [Delivered; ResponseLost] r1 (one_follower s) Hsv1)
    as (r & w & Hsv); [by eexists|].
  exists r, w. split; [exact Hsv|].
  apply (followers_hold_earlier_metadata no_entry by_name (λ _, 0) 0 s (small_registry s) r (one_follower s) w some_requests [] no_meta).
  - exact by_name_perm.
  - exact Hsv.
  - done.
  - by apply small_ready.
  - by apply one_follower_inv.
  - exact Hs.
  - exact some_requests_allowed.
  - by vm_compute.
  - exact some_entries_short.
Defined.
End witnesses.
