(* ===== verification/TreeSpec.v ===== *)
(** * The tree of files

    A file knows its directory by the identifier in [ParentID], and paths are
    looked up as a whole; that the two agree is an invariant of the requests.  It
    makes the recursion of [killChildren] end, and shows what removing a directory
    does. *)

From S2P Require Import Prelude GoSort GoStrings Wal WalInv WalOpen WalSpec Messages MemDB Backend Storage.
From S2P Require Import StorageSpec Journal Cluster ClusterSpec NodesMap Registry Handlers RegistrySpec.

Definition nested (path : string) : Prop := (1 < length (Split path))%nat.

(** every file is in the root, or its parent is the file at the parent path *)
Definition tree (μ : meta) : Prop := ∀ i f, m_files μ !! i = Some f →
  (¬ nested (File_Path f) ∧ File_ParentID f = "root"%string) ∨
  (nested (File_Path f) ∧ ∃ p, m_files μ !! File_ParentID f = Some p ∧ File_Path p = parent_path (File_Path f)).

Definition path_length (f : FileInfo) : nat := String.length (File_Path f).

(** children of [f] have longer paths *)
Definition below (f : FileInfo) (μ : meta) : Prop :=
  ∀ i g, m_files μ !! i = Some g → File_ParentID g = File_Id f → (path_length f < path_length g)%nat.
Definition graded (μ : meta) : Prop := ∀ i f, m_files μ !! i = Some f → below f μ.

(** no identifier is the one that stands for the root *)
Definition no_root (μ : meta) : Prop := m_files μ !! "root"%string = None.

Section tree_requests.
Context `{RecordCodecs} `{EntryCodecs}.

Lemma tree_graded μ : wf_rows KFile (m_files μ) → no_root μ → tree μ → graded μ.
Proof.
  intros Hw Hroot Ht i f Hf j g Hg Hpar. pose proof (wf_pid KFile _ Hw i f Hf) as Hid. change (File_Id f = i) in Hid.
  destruct (Ht j g Hg) as [[_ Hr]|(Hn & p & Hp & Hpath)].
  - exfalso. unfold no_root in Hroot. rewrite <- Hr, Hpar, Hid in Hroot. congruence.
  - assert (p = f) as -> by (rewrite Hpar, Hid in Hp; congruence).
    unfold path_length. rewrite Hpath. by apply parent_shorter.
Qed.

(** a file that is added at a free path has a new identifier *)
Lemma added_fresh μ g : admissible KFile (m_files μ) g → file_at (File_Path g) μ = None → m_files μ !! File_Id g = None.
Proof.
  intros (_ & _ & _ & Hkey) Hfree. destruct (m_files μ !! File_Id g) as [r|] eqn:E; [|done].
  pose proof (Hkey r E) as Hk. change (File_Path r = File_Path g) in Hk. by destruct (lookup_by_None _ _ _ Hfree _ _ E).
Qed.

Lemma tree_insert μ g : tree μ → m_files μ !! File_Id g = None →
  Some (File_ParentID g) = parent_of (File_Path g) μ → (∀ i f, m_files μ !! i = Some f → File_Id f = i) →
  tree (effect (OStoreFile g) μ).
Proof using.
  intros Ht Hfresh Hpar Hids i f. cbn [effect m_files mset]. intros [[<- <-]|[Hne Hf]]%lookup_insert_Some.
  - unfold parent_of in Hpar. case_bool_decide as Hn; [right|left; split; [done|by injection Hpar as ->]].
    split; [done|]. destruct (file_at (parent_path (File_Path g)) μ) as [p|] eqn:Ep; [|done]. injection Hpar as ->.
    apply file_at_Some in Ep as [[j Hj] Hpath]. rewrite (Hids j p Hj). exists p. split; [|done].
    rewrite lookup_insert_ne; [done|]. intros E. rewrite E in Hfresh. congruence.
  - destruct (Ht i f Hf) as [?|(Hn & p & Hp & Hpath)]; [by left|right]. split; [done|]. exists p.
    split; [|done]. rewrite lookup_insert_ne; [done|]. intros E. rewrite E in Hfresh. congruence.
Qed.

Lemma tree_delete μ f : tree μ → m_files μ !! File_Id f = Some f → children (File_Id f) μ = [] →
  tree (effect (ODeleteFileWithBlocks f) μ).
Proof using.
  intros Ht Hf Hc i g. cbn [effect m_files mset]. intros [Hne Hg]%lookup_delete_Some.
  destruct (Ht i g Hg) as [?|(Hn & p & Hp & Hpath)]; [by left|right]. split; [done|]. exists p. split; [|done].
  rewrite lookup_delete_ne; [done|]. intros E.
  assert (g ∈ children (File_Id f) μ) as Hin by (apply elem_of_children; eauto). rewrite Hc in Hin. by apply elem_of_nil in Hin.
Qed.

(** the new identifiers are not the one of the root *)
Definition not_root (o : reg_op) : Prop :=
  match o with RRegisterFile f => File_Id f ≠ "root"%string | RMakeDir uid _ => uid ≠ "root"%string | _ => True end.

Lemma added_path o μ g : added o μ = Some g →
  Some (File_ParentID g) = parent_of (File_Path g) μ ∧
  match o with RRegisterFile f => File_Path g = File_Path f ∧ File_Id g = File_Id f
             | RMakeDir uid path => File_Path g = Trim path ∧ File_Id g = uid | _ => True end.
Proof using.
  destruct o; cbn; try done.
  - destruct (parent_of (File_Path f) μ) eqn:E; [|done]. by intros [= <-].
  - destruct (parent_of (Trim path) μ) eqn:E; [|done]. by intros [= <-].
Qed.

(** one request *)
Lemma tree_step known o μ : wf_rows KFile (m_files μ) → tree μ ∧ no_root μ → reg_allowed known o μ → not_root o →
  wf_rows KFile (m_files (reg_effect o μ)) ∧ tree (reg_effect o μ) ∧ no_root (reg_effect o μ).
Proof.
  intros Hw [Ht Hroot] Ha Hnr.
  assert (∀ i f, m_files μ !! i = Some f → File_Id f = i) as Hids by exact (wf_pid KFile _ Hw).
  assert (∀ g, admissible KFile (m_files μ) g → file_at (File_Path g) μ = None →
    Some (File_ParentID g) = parent_of (File_Path g) μ → File_Id g ≠ "root"%string →
    wf_rows KFile (m_files (effect (OStoreFile g) μ)) ∧ tree (effect (OStoreFile g) μ) ∧ no_root (effect (OStoreFile g) μ)) as Hadd.
  { intros g Hadm Hfree Hpar Hid. split; [by apply (wf_rows_insert KFile)|]. split.
    - apply tree_insert; [done|by apply added_fresh|done..].
    - unfold no_root. cbn [effect m_files mset]. by rewrite lookup_insert_ne. }
  destruct o as [f|uid path|path|uid name paths|name|token ms policies|accessor]; cbn [reg_effect reg_allowed not_root] in *.
  - destruct Ha as (Hfree & g & Hg & Hadm). rewrite Hg. destruct (added_path _ _ _ Hg) as (Hpar & Hp & Hi).
    apply Hadd; [done|by rewrite Hp|done|by rewrite Hi].
  - destruct Ha as (Hfree & g & Hg & Hadm). rewrite Hg. destruct (added_path _ _ _ Hg) as (Hpar & Hp & Hi).
    apply Hadd; [done|by rewrite Hp|done|by rewrite Hi].
  - destruct Ha as (f & Hf & _ & Hc & _). rewrite Hf. pose proof Hf as [[i Hi] _]%file_at_Some.
    assert (m_files μ !! File_Id f = Some f) as Hf' by by rewrite (Hids i f Hi).
    split; [by apply (wf_rows_delete KFile)|]. split; [by apply tree_delete|].
    unfold no_root. cbn [effect m_files mset]. apply lookup_delete_None. by right.
  - done.
  - destruct Ha as [p ->]. done.
  - done.
  - destruct Ha as (t & -> & _). done.
Qed.

Lemma tree_run known ops μ : wf_rows KFile (m_files μ) → tree μ ∧ no_root μ → run_allowed known ops μ → Forall not_root ops →
  tree (run_effect ops μ) ∧ no_root (run_effect ops μ).
Proof.
  revert μ. induction ops as [|o ops IH]; intros μ Hw Ht Ha Hnr; [done|]. destruct Ha as [Ho Ha].
  apply Forall_cons in Hnr as [Hn Hnr]. destruct (tree_step known o μ Hw Ht Ho Hn) as (Hw' & Ht'). by apply IH.
Qed.
End tree_requests.

(** ** [killChildren] *)

Section kill.
Context {J : Type} `{JournalLaws J} {T : Type → Type} `{MemDBLaws T} {B : Type} `{BackendLaws B} {W : Type} `{DataNodes W}.
Context `{RecordCodecs} `{EntryCodecs}.
Context (order : gset string → list string) (order_perm : ∀ s, order s ≡ₚ elements s).
Context (now : Entry_Type → Z).
Local Abbreviation R := (Registry J T B W).
Implicit Types (r : R) (es : list Entry) (μ : meta).

(** what the recursion keeps: the files and blocks only get fewer *)
Record killing (known : gset string) (len : nat) μ : Prop := {
  kill_graded : graded μ;
  kill_len : ∀ i f, m_files μ !! i = Some f → (path_length f ≤ len)%nat;
  kill_known : ∀ i b, m_blocks μ !! i = Some b → Forall (λ p, Placement_NodeID p ∈ known) (Block_Blocks b);
}.

Definition shrinks μ μ' : Prop := m_files μ' ⊆ m_files μ ∧ m_blocks μ' ⊆ m_blocks μ.

Lemma shrinks_refl μ : shrinks μ μ.
Proof using. by split. Qed.
Lemma shrinks_trans μ1 μ2 μ3 : shrinks μ1 μ2 → shrinks μ2 μ3 → shrinks μ1 μ3.
Proof using. intros [] []. by split; etrans. Qed.

Lemma killing_shrinks known len μ μ' : killing known len μ → shrinks μ μ' → killing known len μ'.
Proof using.
  intros [Hg Hl Hk] [Hf Hb]. split.
  - intros i f Hi j g Hj. by apply (Hg i f (lookup_weaken _ _ _ _ Hi Hf) j g), (lookup_weaken _ _ _ _ Hj Hf).
  - intros i f Hi. exact (Hl i f (lookup_weaken _ _ _ _ Hi Hf)).
  - intros i b Hi. exact (Hk i b (lookup_weaken _ _ _ _ Hi Hb)).
Qed.

Lemma below_shrinks f μ μ' : below f μ → shrinks μ μ' → below f μ'.
Proof using. intros Hb [Hf _] i g Hg. exact (Hb i g (lookup_weaken _ _ _ _ Hg Hf)). Qed.

Lemma delete_shrinks f μ : shrinks μ (effect (ODeleteFileWithBlocks f) μ).
Proof using. split; cbn [effect m_files m_blocks mset]; [apply delete_subseteq|apply map_filter_subseteq]. Qed.

(** a row that was there is still the same, or gone *)
Definition same_or_gone f μ : Prop := m_files μ !! File_Id f = Some f ∨ m_files μ !! File_Id f = None.

Lemma same_or_gone_shrinks f μ μ' : same_or_gone f μ → shrinks μ μ' → same_or_gone f μ'.
Proof using.
  intros Hf [Hs _]. destruct (m_files μ' !! File_Id f) as [g|] eqn:E; [|by right].
  pose proof (lookup_weaken _ _ _ _ E Hs) as Hg. destruct Hf as [Hf|Hf]; left; congruence.
Qed.

Lemma known_blocks known len f μ : killing known len μ →
  Forall (λ b, Forall (λ p, Placement_NodeID p ∈ known) (Block_Blocks b)) (blocks_of (File_Id f) μ).
Proof using.
  intros [_ _ Hk]. apply Forall_forall. intros b [_ ([i b'] & -> & Hb)%list_elem_of_fmap]%list_elem_of_filter.
  exact (Hk i b' (proj1 (elem_of_map_to_list _ _ _) Hb)).
Qed.

(** the outcome of a removal: it returns, and what is left is a part of what was there *)
Definition left_over (res : result registry_error unit) r' es (r : R) μ : Prop :=
  res ≠ Panic ∧ NodesMap_of r' = NodesMap_of r ∧ ∃ μ', ready r' es μ' ∧ shrinks μ μ'.

Lemma killChildren_ends known len fuel f r es μ : ready r es μ → dom (nodes (NodesMap_of r)) = known →
  killing known len μ → below f μ → same_or_gone f μ → (len - path_length f < fuel)%nat →
  left_over (killChildren order fuel f r).1 (killChildren order fuel f r).2 es r μ.
Proof using order_perm.
  revert f r μ. induction fuel as [|fuel IH]; intros f r μ Hr Hdom Hk Hbelow Hsame Hfuel; [lia|]. cbn [killChildren].
  destruct (GetFilesByParentId_ok (File_Id f) _ _ (ready_storage _ _ _ Hr)) as (l & E & Hl).
  rewrite (bind_ok _ _ _ _ _ (on_storage_read _ _ _ E)).
  case_bool_decide as Hnil; [by split; [|split; [|exists μ; split; [|apply shrinks_refl]]]|].
  assert (∀ g, g ∈ l → below g μ ∧ same_or_gone g μ ∧ (len - path_length g < fuel)%nat) as Hchild.
  { intros g Hg. rewrite Hl in Hg. apply elem_of_children in Hg as [[i Hi] Hpar].
    pose proof (kill_graded _ _ _ Hk i g Hi). pose proof (Hbelow i g Hi Hpar). pose proof (kill_len _ _ _ Hk i g Hi).
    rewrite <- (stands_file_id _ _ _ _ (ready_storage _ _ _ Hr) Hi) in Hi. split; [done|]. split; [by left|]. lia. }
  clear E Hl Hnil.
  assert (∀ r1 μ1, ready r1 es μ1 → NodesMap_of r1 = NodesMap_of r → shrinks μ μ1 →
    left_over (for_each l (killChildren order fuel) r1).1 (for_each l (killChildren order fuel) r1).2 es r μ) as Hloop.
  { induction l as [|g l IHl]; intros r1 μ1 Hr1 Hn1 Hs1.
    - split; [done|]. split; [done|]. by exists μ1.
    - cbn [for_each]. destruct (Hchild g (list_elem_of_here _ _)) as (Hb & Hs & Hf).
      destruct (IH g r1 μ1 Hr1) as (Hnp & Hn2 & μ2 & Hr2 & Hs2);
        [by rewrite Hn1|by eapply killing_shrinks|by eapply below_shrinks|by eapply same_or_gone_shrinks|done|].
      unfold mbind, M_bind. destruct (killChildren order fuel g r1) as [[[]|e|] r2]; cbn [fst snd] in *; [|split; [done|]|done].
      + apply IHl with (μ1 := μ2); [|done|by rewrite Hn2|by eapply shrinks_trans].
        intros g' Hg'. by apply Hchild, list_elem_of_further.
      + split; [by rewrite Hn2|]. exists μ2. split; [done|]. by eapply shrinks_trans. }
  case_bool_decide.
  - destruct Hsame as [Hf|Hf].
    + destruct (RemoveFileBlocks_ok order order_perm f r es μ Hr Hf) as (r1 & E1 & Hr1 & _ & Hn1).
      { rewrite Hdom. by eapply known_blocks. }
      rewrite (bind_ok _ _ _ _ _ E1). apply (Hloop r1 _ Hr1 Hn1). apply delete_shrinks.
    + destruct (RemoveFileBlocks_gone order order_perm f r es μ Hr Hf) as (e & r1 & E1 & Hr1 & Hn1).
      { rewrite Hdom. by eapply known_blocks. }
      rewrite (bind_err _ _ _ _ _ E1). split; [done|]. split; [done|]. exists μ. split; [done|apply shrinks_refl].
  - rewrite (bind_ok _ _ r tt r) by done. apply (Hloop r μ); [done|done|apply shrinks_refl].
Qed.

(** directories of directories and of files without children: nothing is removed *)
Definition leaves μ : Prop := ∀ i f, m_files μ !! i = Some f → File_Type f = FileInfo_FILE → children (File_Id f) μ = [].

Lemma killChildren_noop len fuel f r es μ : ready r es μ → graded μ → (∀ i g, m_files μ !! i = Some g → (path_length g ≤ len)%nat) →
  leaves μ → below f μ →
  File_Type f ≠ FileInfo_FILE ∨ children (File_Id f) μ = [] → (len - path_length f < fuel)%nat →
  killChildren order fuel f r = (Ok tt, r).
Proof using.
  intros Hr Hgr Hlen Hleaf. revert f. induction fuel as [|fuel IH]; intros f Hbelow Hf Hfuel; [lia|]. cbn [killChildren].
  destruct (GetFilesByParentId_ok (File_Id f) _ _ (ready_storage _ _ _ Hr)) as (l & E & Hl).
  rewrite (bind_ok _ _ _ _ _ (on_storage_read _ _ _ E)). case_bool_decide as Hnil; [done|].
  rewrite bool_decide_false.
  2:{ intros Ht. destruct Hf as [Hf|Hf]; [done|]. rewrite Hf in Hl. by apply Permutation_nil_r in Hl. }
  rewrite (bind_ok _ _ r tt r) by done.
  assert (∀ g, g ∈ l → killChildren order fuel g r = (Ok tt, r)) as Hg.
  { intros g Hg. rewrite Hl in Hg. apply elem_of_children in Hg as [[i Hi] Hpar].
    pose proof (Hbelow i g Hi Hpar). pose proof (Hlen i g Hi). apply IH; [by eapply Hgr| |lia].
    destruct (decide (File_Type g = FileInfo_FILE)); [right; by eapply Hleaf|by left]. }
  clear E Hl Hnil. induction l as [|g l IHl]; [done|]. cbn [for_each].
  rewrite (bind_ok _ _ _ _ _ (Hg g (list_elem_of_here _ _))). apply IHl. intros g' Hg'. by apply Hg, list_elem_of_further.
Qed.
End kill.

(** the response after two writes *)
Lemma bind_ret_ok {S E A} (m n : M S E unit) (a : A) s s' :
  ((_ ← m; _ ← n; mret a) ≫= λ _, mret tt) s = (Ok tt, s') → (_ ← m; _ ← n; mret a) s = (Ok a, s').
Proof.
  unfold mbind, M_bind. destruct (m s) as [[[]|e|] s1]; [|done..]. destruct (n s1) as [[[]|e|] s2]; [|done..].
  cbn. by intros [= ->].
Qed.

(** ** Properties *)

(** the length of the longest path *)
Definition longest (μ : meta) : nat := max_list (path_length <$> (map_to_list (m_files μ)).*2).

Lemma longest_ok μ i f : m_files μ !! i = Some f → (path_length f ≤ longest μ)%nat.
Proof.
  intros Hf. apply max_list_elem_of_le, list_elem_of_fmap_2, list_elem_of_fmap. exists (i, f).
  split; [done|]. by apply elem_of_map_to_list.
Qed.

Section properties.
Context {J : Type} `{JournalLaws J} {T : Type → Type} `{MemDBLaws T} {B : Type} `{BackendLaws B} {W : Type} `{DataNodes W}.
Context `{RecordCodecs} `{EntryCodecs}.
Context (order : gset string → list string) (now : Entry_Type → Z).
Implicit Types (r : Registry J T B W) (es : list Entry) (μ : meta).

(** C9: the files form a tree, and requests keep it: after any sequence of accepted
  requests, every stored file in a directory has as its parent the file that is
  found at its parent path, and every other file has the root *)
Theorem file_tree_invariant (fuel : nat) (ops : list reg_op) r es μ :
  (∀ s, order s ≡ₚ elements s) → ready r es μ → tree μ → no_root μ →
  run_allowed (dom (nodes (NodesMap_of r))) ops μ → Forall not_root ops →
  let ps := run_payloads (ID (Cluster_of r)) ops μ in
  lenZ es + lenZ ps + 3 < 2 ^ 64 → Forall short (entries_of now (currentTerm (Cluster_of r)) (lenZ es) ps) →
  ∃ r', for_each ops (reg_do order now (S fuel)) r = (Ok tt, r') ∧
    ∀ id f, GetFile id (Storage_of r') = (Ok (Some f), Storage_of r') →
      if bool_decide (nested (File_Path f)) then
        ∃ p, GetFileByPath (parent_path (File_Path f)) (Storage_of r') = (Ok (Some p), Storage_of r') ∧
          File_ParentID f = File_Id p
      else File_ParentID f = "root"%string.
Proof.
  intros Ho Hr Ht Hroot Ha Hnr ps Hroom Hshort.
  destruct (run_ops_ok order Ho now fuel ops r es μ Hr Ha Hroom Hshort) as (r' & E & Hr' & _).
  exists r'. split; [done|]. pose proof (ready_storage _ _ _ Hr') as Hs'. pose proof (stands_wf KFile _ _ Hs') as Hw.
  destruct (tree_run _ ops μ (stands_wf KFile _ _ (ready_storage _ _ _ Hr)) (conj Ht Hroot) Ha Hnr) as [Ht' _].
  intros id f Hf. destruct Hs' as [? Hk] eqn:Es. destruct (Hk KFile) as [Hsch Hrows _ _].
  pose proof (GetFile_rows id _ _ Hsch Hrows Hw) as Hget. rewrite Hget in Hf. injection Hf as Hf. clear Es.
  destruct (Ht' id f Hf) as [[Hn Hp]|(Hn & p & Hp & Hpath)].
  - by rewrite bool_decide_false.
  - rewrite bool_decide_true by done. exists p. rewrite <- Hpath, (GetFileByPath_ok _ _ _ Hs'). split.
    + do 2 f_equal. symmetry. apply (answers_lookup_by (mkIndex false true File_Path)); [done| |by split; [eauto|]].
      pose proof (wf_distinct _ _ Hw) as Hd. rewrite Forall_forall in Hd.
      apply (Hd ("path"%string, _)). apply list_elem_of_further, list_elem_of_here.
    + symmetry. exact (stands_file_id _ _ _ _ Hs' Hp).
Qed.

(** C23: the recursion of killChildren ends: on a tree whose blocks are on known data
  nodes a recursion depth of one more than the longest path is enough from any
  file, whatever the files and directories below it are; the registry goes on with
  a part of its files and blocks *)
Theorem killChildren_terminates (fuel : nat) (path : string) (d : FileInfo) r es μ :
  (∀ s, order s ≡ₚ elements s) → ready r es μ → tree μ → no_root μ → file_at path μ = Some d →
  (∀ i b, m_blocks μ !! i = Some b → Forall (λ p, Placement_NodeID p ∈ dom (nodes (NodesMap_of r))) (Block_Blocks b)) →
  (longest μ < fuel)%nat →
  ∃ res r', killChildren order fuel d r = (res, r') ∧ res ≠ Panic ∧
    ∃ μ', ready r' es μ' ∧ m_files μ' ⊆ m_files μ ∧ m_blocks μ' ⊆ m_blocks μ.
Proof.
  intros Ho Hr Ht Hroot Hd Hknown Hfuel. pose proof (ready_storage _ _ _ Hr) as Hs.
  pose proof (tree_graded μ (stands_wf KFile _ _ Hs) Hroot Ht) as Hg. pose proof (found_file _ _ _ _ Hs Hd) as Hd'.
  destruct (killChildren_ends order Ho (dom (nodes (NodesMap_of r))) (longest μ) fuel d r es μ Hr eq_refl) as (Hnp & _ & μ' & Hr' & Hs').
  - split; [done|apply longest_ok|done].
  - exact (Hg _ d Hd').
  - by left.
  - lia.
  - destruct (killChildren order fuel d r) as [res r']. exists res, r'. split; [done|]. split; [done|]. by exists μ'.
Qed.

(** Removing a directory answers success and logs its deletion, but the leader
  removes nothing: its metadata is what it was.  A follower that replays the
  entries loses the directory and keeps what was in it: the two registries differ,
  and the follower's files are no tree any more *)
Theorem removed_directory_stays (fuel : nat) (path : string) (d : FileInfo) r es μ :
  (∀ s, order s ≡ₚ elements s) → ready r es μ → tree μ → no_root μ → leaves μ →
  file_at (Trim path) μ = Some d → File_Type d = FileInfo_DIR → children (File_Id d) μ ≠ [] → numbered_blocks (File_Id d) μ →
  (longest μ < fuel)%nat → lenZ es + 3 < 2 ^ 64 →
  let new := entries_of now (currentTerm (Cluster_of r)) (lenZ es) (removal (ID (Cluster_of r)) d μ) in
  Forall short new →
  ∃ r', HandleRemoveFileOrPath order now always fuel path r = (Ok success, r') ∧ ready r' (es ++ new) μ ∧
    GetFileByPath (Trim path) (Storage_of r') = (Ok (Some d), Storage_of r') ∧
    ∀ s, stands s μ → ∃ μ', stands (handleEntriesFromLeader new s) μ' ∧ file_at (Trim path) μ' = None ∧ ¬ tree μ'.
Proof.
  intros Ho Hr Ht Hroot Hleaf Hd Htype Hch Hn Hfuel Hroom new Hshort. pose proof (ready_storage _ _ _ Hr) as Hs.
  pose proof (tree_graded μ (stands_wf KFile _ _ Hs) Hroot Ht) as Hg. pose proof (found_file _ _ _ _ Hs Hd) as Hd'.
  assert (killChildren order fuel d r = (Ok tt, r)) as Ekill.
  { eapply (killChildren_noop order (longest μ) fuel d r es μ Hr Hg (longest_ok μ) Hleaf); [exact (Hg _ d Hd')|left; by rewrite Htype|lia]. }
  destruct (removal_ok order Ho now d success (λ _, mret tt) r r es μ μ Hr Hroom (grown_refl _) eq_refl (λ _, eq_refl) Hshort)
    as (r' & E & Hr' & _). fold new in Hr'. apply bind_ret_ok in E.
  exists r'. pose proof (ready_storage _ _ _ Hr') as Hs'. split_and!; [|done|by rewrite (GetFileByPath_ok _ _ _ Hs'), Hd|].
  - unfold HandleRemoveFileOrPath. rewrite (bind_ok _ _ _ _ _ (on_storage_read _ _ _ (GetFileByPath_ok _ _ _ Hs))), Hd.
    rewrite (bind_ok _ _ _ _ _ (on_storage_read _ _ _ (GetBlocks_numbered _ _ _ Hs Hn))), (bind_ok _ _ _ _ _ Ekill).
    rewrite bool_decide_false by (by rewrite Htype). by rewrite (bind_ok _ _ r tt r) by done.
  - intros s Hst. eexists. split; [by apply (replay_removal now)|].
    apply file_at_Some in Hd as [_ Hpath]. pose proof (wf_distinct _ _ (stands_wf KFile _ _ Hs)) as Hdis. split.
    + destruct (file_at _ _) as [g|] eqn:Eg; [|done]. apply file_at_Some in Eg as [[i Hi] Hgp].
      cbn [effect m_files mset] in Hi. apply lookup_delete_Some in Hi as [Hne Hi]. exfalso. apply Hne.
      rewrite Forall_forall in Hdis. eapply (Hdis ("path"%string, mkIndex false true File_Path));
        [apply list_elem_of_further, list_elem_of_here|done|exact Hd'|exact Hi|]. cbn. by rewrite Hpath.
    + intros Ht'. destruct (children (File_Id d) μ) as [|g l] eqn:Ec; [done|].
      assert (g ∈ children (File_Id d) μ) as [[i Hi] Hpar]%elem_of_children by (rewrite Ec; apply list_elem_of_here).
      assert (m_files (effect (ODeleteFileWithBlocks d) μ) !! i = Some g) as Hi'.
      { cbn [effect m_files mset]. rewrite lookup_delete_ne; [done|]. intros <-.
        assert (g = d) as -> by congruence. by pose proof (Hg _ d Hd' _ d Hd' Hpar) as ?%Nat.lt_irrefl. }
      destruct (Ht' i g Hi') as [[_ Hroot']|(_ & p & Hp & _)].
      * unfold no_root in Hroot. rewrite <- Hroot', Hpar in Hroot. congruence.
      * cbn [effect m_files mset] in Hp. rewrite Hpar in Hp. by rewrite lookup_delete_eq in Hp.
Qed.
End properties.

(** ** Witnesses *)

Section witnesses.
#[local] Existing Instance bit_records.
#[local] Existing Instance bit_codecs.
#[local] Existing Instance no_nodes.

Definition small_registries : Type := Registry node_wal map_table (FileStorageBackend map_bolt) unit.

Lemma no_meta_tree : tree no_meta.
Proof. intros i f Hf. cbn in Hf. by rewrite lookup_empty in Hf. Qed.

Lemma file_tree_invariant_witness : ∃ s : small_storage, stands s no_meta ∧
  ∃ r', for_each some_requests (reg_do by_name (λ _, 0) 1) (small_registry s) = (Ok tt, r') ∧
    ∀ id f, GetFile id (Storage_of r') = (Ok (Some f), Storage_of r') →
      if bool_decide (nested (File_Path f)) then
        ∃ p, GetFileByPath (parent_path (File_Path f)) (Storage_of r') = (Ok (Some p), Storage_of r') ∧
          File_ParentID f = File_Id p
      else File_ParentID f = "root"%string.
Proof.
  destruct small_fresh as (s & _ & Hs). exists s. split; [exact Hs|].
  apply (file_tree_invariant by_name (λ _, 0) 0 some_requests (small_registry s) [] no_meta).
  - exact by_name_perm.
  - by apply small_ready.
  - exact no_meta_tree.
  - done.
  - exact some_requests_allowed.
  - repeat constructor; done.
  - by vm_compute.
  - exact some_entries_short.
Defined.

(** a directory with a file in it *)
Definition docs_requests : list reg_op := [RMakeDir "d" "/docs/"; RRegisterFile docs_a].
Definition docs_meta : meta := run_effect docs_requests no_meta.
Definition docs : FileInfo := new_dir "d" "docs" "root".
Definition docs_entries : list Entry := entries_of (λ _, 0) 1 0 (run_payloads "a" docs_requests no_meta).

Lemma docs_tree : tree docs_meta ∧ no_root docs_meta.
Proof.
  apply (tree_run ∅ docs_requests); [apply (no_meta_wf KFile)|split; [exact no_meta_tree|done]| |].
  - destruct some_requests_allowed as (H1 & H2 & _). split; [exact H1|]. split; [exact H2|done].
  - repeat constructor; done.
Qed.

Lemma docs_ready : ∃ r : small_registries, ready r docs_entries docs_meta ∧ ID (Cluster_of r) = "a"%string ∧
  currentTerm (Cluster_of r) = 1 ∧ dom (nodes (NodesMap_of r)) = ∅.
Proof.
  destruct small_fresh as (s & _ & Hs). destruct some_requests_allowed as (H1 & H2 & _).
  destruct (run_ops_ok by_name by_name_perm (λ _, 0) 0 docs_requests (small_registry s) [] no_meta) as (r & _ & Hr & Hg & Hn).
  - by apply small_ready.
  - split; [exact H1|]. split; [exact H2|done].
  - by vm_compute.
  - apply (bool_decide_eq_true_1 (Forall (λ e, 0 ≤ lenZ (Marshal_msg e) < 2 ^ 64) docs_entries)). by vm_compute.
  - exists r. split; [exact Hr|]. rewrite (grown_ID _ _ _ Hg), (grown_term _ _ _ Hg), Hn. cbn. by rewrite dom_empty_L.
Qed.

Lemma killChildren_terminates_witness : ∃ (r r' : small_registries) res,
  killChildren by_name 10 docs r = (res, r') ∧ res ≠ Panic ∧
  ∃ μ', ready r' docs_entries μ' ∧ m_files μ' ⊆ m_files docs_meta ∧ m_blocks μ' ⊆ m_blocks docs_meta.
Proof.
  destruct docs_ready as (r & Hr & _), docs_tree as [Ht Hroot].
  destruct (killChildren_terminates by_name 10 "docs" docs r docs_entries docs_meta) as (res & r' & E).
  - exact by_name_perm.
  - exact Hr.
  - exact Ht.
  - exact Hroot.
  - by vm_compute.
  - intros i b Hb. change (m_blocks docs_meta) with (∅ : gmap string BlockInfo) in Hb. by rewrite lookup_empty in Hb.
  - apply Nat.ltb_lt. by vm_compute.
  - exists r, r', res. exact E.
Defined.

Lemma removed_directory_stays_witness : ∃ (r r' : small_registries) new,
  HandleRemoveFileOrPath by_name (λ _, 0) always 10 "/docs" r = (Ok success, r') ∧ ready r' (docs_entries ++ new) docs_meta ∧
  GetFileByPath "docs" (Storage_of r') = (Ok (Some docs), Storage_of r') ∧
  ∀ s : small_storage, stands s docs_meta → ∃ μ', stands (handleEntriesFromLeader new s) μ' ∧ file_at "docs" μ' = None ∧ ¬ tree μ'.
Proof.
  destruct docs_ready as (r & Hr & Hid & Hterm & _), docs_tree as [Ht Hroot].
  destruct (removed_directory_stays by_name (λ _, 0) 10 "/docs" docs r docs_entries docs_meta) as (r' & E).
  - exact by_name_perm.
  - exact Hr.
  - exact Ht.
  - exact Hroot.
  - apply (bool_decide_eq_true_1 (map_Forall (λ _ f, File_Type f = FileInfo_FILE → children (File_Id f) docs_meta = []) (m_files docs_meta))).
    by vm_compute.
  - by vm_compute.
  - done.
  - apply (bool_decide_eq_true_1 _). by vm_compute.
  - apply (bool_decide_eq_true_1 _). by vm_compute.
  - apply Nat.ltb_lt. by vm_compute.
  - by vm_compute.
  - rewrite Hid, Hterm.
    apply (bool_decide_eq_true_1 (Forall (λ e, 0 ≤ lenZ (Marshal_msg e) < 2 ^ 64) (entries_of (λ _, 0) 1 (lenZ docs_entries) (removal "a" docs docs_meta)))).
    by vm_compute.
  - exists r, r'. eexists. exact E.
Defined.
End witnesses.
