(* ===== verification/PutGet.v ===== *)
(** * Files on the data nodes: from the upload to the download

    The registry sends the blocks of a file to the least used nodes, keeps where
    they went, and later reads each block back from the first of its placements.
    The theorems rest on the contract of the data nodes, [DataNodesLaws]. *)

From S2P Require Import Prelude GoSort GoStrings RandFile IdxFile Partition Manager Wal WalInv WalOpen WalSpec.
From S2P Require Import Messages MemDB Backend Storage StorageSpec Journal Cluster ClusterSpec NodesMap NodesSpec Registry.
From S2P Require Import Handlers Upload UploadOrder RegistrySpec.
From S2P Require Import Node.

(** ** Grouping by node *)

Lemma filter_none {A} (P : A → Prop) `{!∀ x, Decision (P x)} l : (∀ x, x ∈ l → ¬ P x) → filter P l = [].
Proof.
  induction l as [|x l IH]; intros Hl; [done|]. rewrite filter_cons_False by (apply Hl, list_elem_of_here).
  apply IH. intros y Hy. by apply Hl, list_elem_of_further.
Qed.

Lemma bind_ext {A B} (f g : A → list B) l : (∀ x, x ∈ l → f x = g x) → l ≫= f = l ≫= g.
Proof.
  induction l as [|x l IH]; intros Hl; [done|]. cbn. f_equal; [apply Hl, list_elem_of_here|].
  apply IH. intros y Hy. by apply Hl, list_elem_of_further.
Qed.

Lemma group_placements_lookup l k :
  group_placements l !! k = (if decide (k ∈ l.*1) then Some ((filter (λ p, p.1 = k) l).*2) else None).
Proof.
  unfold group_placements. assert (∀ m : gmap string (list BlockPlacementInfo),
    foldl (λ m p, <[p.1 := default [] (m !! p.1) ++ [p.2]]> m) m l !! k =
    if decide (k ∈ l.*1) then Some (default [] (m !! k) ++ (filter (λ p, p.1 = k) l).*2) else m !! k) as Hm.
  { induction l as [|p l IH]; intros m; cbn [foldl fmap list_fmap].
    - by rewrite decide_False by apply not_elem_of_nil.
    - rewrite IH. destruct (decide (p.1 = k)) as [<-|Hne].
      + rewrite lookup_insert_eq, filter_cons_True by done. cbn [fmap list_fmap].
        rewrite (decide_True (P := p.1 ∈ p.1 :: l.*1)) by apply list_elem_of_here. case_decide; cbn.
        * by rewrite <- app_assoc.
        * rewrite filter_none; [done|]. intros q Hq Hk. apply H. apply list_elem_of_fmap. by exists q.
      + rewrite lookup_insert_ne, filter_cons_False by done.
        destruct (decide (k ∈ l.*1)) as [Hin|Hin].
        * by rewrite decide_True by by apply list_elem_of_further.
        * rewrite decide_False; [done|]. by intros [->|?]%elem_of_cons. }
  rewrite Hm, lookup_empty. done.
Qed.

Lemma bind_fmap {A B C} (f : A → list B) (g : B → C) l : (l ≫= λ x, g <$> f x) = g <$> (l ≫= f).
Proof. induction l as [|x l IH]; [done|]. cbn. by rewrite fmap_app, <- IH. Qed.

(** the groups of all keys make up the whole list *)
Lemma groups_perm {A} (ks : list string) (l : list (string * A)) : NoDup ks → (∀ p, p ∈ l → p.1 ∈ ks) →
  ks ≫= (λ k, (filter (λ p, p.1 = k) l).*2) ≡ₚ l.*2.
Proof.
  revert l. induction ks as [|k ks IH]; intros l Hnd Hin.
  - destruct l as [|p l]; [done|]. exfalso. by apply (not_elem_of_nil p.1), Hin, list_elem_of_here.
  - apply NoDup_cons in Hnd as [Hni Hnd]. cbn.
    rewrite <- (filter_app_complement (λ p : string * A, p.1 = k) l) at 2. rewrite fmap_app. f_equiv.
    rewrite <- (IH (filter (λ p, p.1 ≠ k) l) Hnd).
    + apply reflexive_eq, bind_ext. intros k' Hk'. f_equal. symmetry. apply list_filter_filter_l.
      intros p E1 E2. apply Hni. by rewrite <- E2, E1.
    + intros p [Hne Hp]%list_elem_of_filter. by apply Hin in Hp; apply elem_of_cons in Hp as [?|?].
Qed.

Lemma sorted_by_key {A} (key : A → Z) l : StronglySorted Z.le (key <$> l) → StronglySorted (key_le key) l.
Proof.
  induction l as [|x l IH]; intros Hs; [constructor|]. cbn in Hs. apply StronglySorted_inv in Hs as [Hs Hx].
  constructor; [by apply IH|]. rewrite Forall_fmap in Hx. exact Hx.
Qed.
Lemma seqZ_sorted m n : StronglySorted Z.le (seqZ m n).
Proof.
  revert m. destruct (Z.le_gt_cases n 0) as [Hn|Hn]; intros m; [rewrite seqZ_nil by lia; constructor|].
  assert (∀ k m, StronglySorted Z.le (seqZ m (Z.of_nat k))) as Hk; [|rewrite <- (Z2Nat.id n) by lia; apply Hk].
  induction k as [|k IH]; intros m'; [constructor|]. rewrite seqZ_cons by lia. constructor.
  - replace (Z.pred (Z.of_nat (S k))) with (Z.of_nat k) by lia. apply IH.
  - apply Forall_forall. intros x Hx%elem_of_seqZ. lia.
Qed.

Lemma sorted_fmap {A B} (key : A → Z) (key' : B → Z) (f : A → B) l : (∀ x, x ∈ l → key' (f x) = key x) →
  StronglySorted (key_le key) l → StronglySorted (key_le key') (f <$> l).
Proof.
  intros Hk. induction 1 as [|x l Hs IH Hx]; [constructor|]. cbn. constructor.
  - apply IH. intros y Hy. by apply Hk, list_elem_of_further.
  - apply Forall_fmap. rewrite Forall_forall in Hx |- *. intros y Hy. unfold key_le, compose.
    rewrite !Hk by eauto using list_elem_of_here, list_elem_of_further. by apply Hx.
Qed.

Lemma NoDup_fmap_inj {A B} (f : A → B) l x y : NoDup (f <$> l) → x ∈ l → y ∈ l → f x = f y → x = y.
Proof.
  induction l as [|z l IH]; intros Hnd Hx Hy E; [by apply elem_of_nil in Hx|]. cbn in Hnd. apply NoDup_cons in Hnd as [Hni Hnd].
  apply elem_of_cons in Hx as [->|Hx], Hy as [->|Hy]; [done| | |by apply IH].
  - destruct Hni. rewrite E. by apply list_elem_of_fmap_2.
  - destruct Hni. rewrite <- E. by apply list_elem_of_fmap_2.
Qed.

(** a map filled in a loop *)
Lemma filled_lookup {A V} (key : A → string) (val : A → V) l x (m : gmap string V) : NoDup (key <$> l) → x ∈ l →
  foldl (λ m y, <[key y := val y]> m) m l !! key x = Some (val x).
Proof.
  assert (∀ l (m : gmap string V), key x ∉ key <$> l → foldl (λ m y, <[key y := val y]> m) m l !! key x = m !! key x) as Hskip.
  { clear l m. induction l as [|y l IH]; intros m Hni; [done|]. cbn in *. apply not_elem_of_cons in Hni as [Hne Hni].
    rewrite IH by done. by rewrite lookup_insert_ne. }
  revert m. induction l as [|y l IH]; intros m Hnd Hx; [by apply elem_of_nil in Hx|].
  apply NoDup_cons in Hnd as [Hni Hnd]. cbn. apply elem_of_cons in Hx as [->|Hx]; [|by apply IH].
  rewrite Hskip by done. apply lookup_insert_eq.
Qed.

(** ** The download *)

Section download.
Context {J : Type} `{JournalLaws J} {T : Type → Type} `{MemDBLaws T} {B : Type} `{BackendLaws B}.
Context {W : Type} `{DataNodesLaws W} `{RecordCodecs} `{EntryCodecs}.
Context (order : gset string → list string) (order_perm : ∀ s, order s ≡ₚ elements s).
Local Abbreviation R := (Registry J T B W).
Implicit Types (r : R) (μ : meta).

(** the first placement of a block is on a known node, and reads as [data] *)
Definition retrievable r (data : list Z) (b : BlockInfo) : Prop :=
  ∃ pl pls n, Block_Blocks b = pl :: pls ∧ nodes (NodesMap_of r) !! Placement_NodeID pl = Some n ∧
    dn_reads (conn n) (Block_Id b) (Placement_PartitionID pl) data (world r).

Definition first_of (b : BlockInfo) : string * BlockPlacementInfo :=
  match Block_Blocks b with
  | pl :: _ => (Placement_NodeID pl, mkBPI (Block_Id b) (Placement_PartitionID pl) false "")
  | [] => (""%string, mkBPI (Block_Id b) "" false "")
  end.

Lemma first_placements_ok bs : Forall (λ b, Block_Blocks b ≠ []) bs → first_placements bs = Ok (first_of <$> bs).
Proof using.
  induction 1 as [|b bs Hb Hbs IH]; [done|]. cbn [first_placements]. rewrite IH, fmap_cons.
  unfold first_of at 2. by destruct (Block_Blocks b).
Qed.

(** [r'] is [r] after the data nodes were read *)
Record only_reads r r' : Prop := {
  or_cluster : Cluster_of r' = Cluster_of r;
  or_nodes : NodesMap_of r' = NodesMap_of r;
  or_world : ∀ a id part data, dn_reads a id part data (world r) → dn_reads a id part data (world r');
}.

(** what the nodes send for a list of blocks *)
Lemma fetch_ok (data : string → list Z) ids bMap r :
  (∀ id, id ∈ ids → ∃ l n, bMap !! id = Some l ∧ l ≠ [] ∧ nodes (NodesMap_of r) !! id = Some n ∧
    Forall (λ p, dn_reads (conn n) (BPI_BlockID p) (BPI_PartitionID p) (data (BPI_BlockID p)) (world r)) l) →
  ∃ r', fetch ids bMap r = (Ok (ids ≫= λ id, (λ p, fetched (BPI_BlockID p) (data (BPI_BlockID p))) <$> default [] (bMap !! id)), r') ∧
    only_reads r r'.
Proof using.
  revert r. induction ids as [|id ids IH]; intros r Hids; [by exists r|]. cbn [fetch].
  destruct (Hids id (list_elem_of_here _ _)) as (l & n & Hl & Hne & Hn & Hreads).
  destruct (dn_get_ok (conn n) ((λ p, (p, data (BPI_BlockID p))) <$> l) (world r)) as (w' & E & Hw').
  { by destruct l. }
  { apply Forall_fmap. exact Hreads. }
  replace ((λ p, (p, data (BPI_BlockID p))) <$> l).*1 with l in E by (clear; induction l; cbn; congruence).
  rewrite <- list_fmap_compose in E.
  set (r1 := mkRegistry (Cluster_of r) (NodesMap_of r) w').
  assert (catch (on_nodes (nodes_GetBlocks id (default [] (bMap !! id)))) r =
    (Ok (Some ((λ p, fetched (BPI_BlockID p) (data (BPI_BlockID p))) <$> l)), r1)) as E1.
  { unfold catch, on_nodes, nodes_GetBlocks, GetNode, nodes_get, in_world, mbind, M_bind. cbn. rewrite Hn, Hl. cbn. rewrite E.
    cbn. do 3 f_equal. clear. induction l as [|p l IH]; [done|]. cbn. by rewrite IH. }
  rewrite (bind_ok _ _ _ _ _ E1).
  destruct (IH r1) as (r' & E' & [Hc' Hn' Hr']).
  { intros id' Hid'. destruct (Hids id' (list_elem_of_further _ _ _ Hid')) as (l' & n' & ? & ? & ? & Hr).
    exists l', n'. split_and!; [done..|]. eapply Forall_impl; [exact Hr|]. intros p. apply Hw'. }
  exists r'. rewrite (bind_ok _ _ _ _ _ E'). cbn. rewrite Hl. split; [done|]. split; [done..|]. intros a id' part d Hd. by apply Hr', Hw'.
Qed.

(** numbering and sorting what came back, whatever its order *)
Lemma fillAndSortBlocks_ok (data : string → list Z) bs l :
  NoDup (Block_Id <$> bs) → NoDup (Block_Index <$> bs) → StronglySorted (key_le Block_Index) bs →
  l ≡ₚ (λ b, fetched (Block_Id b) (data (Block_Id b))) <$> bs →
  fillAndSortBlocks bs l = Ok ((λ b, with_Index (Block_Index b) (fetched (Block_Id b) (data (Block_Id b)))) <$> bs).
Proof using.
  intros Hids Hixs Hsorted Hl. unfold fillAndSortBlocks. cbv zeta.
  set (bMap := foldl _ _ _). set (index := λ b, default 0 (bMap !! Fs_Id b)).
  set (send := λ b, with_Index (Block_Index b) (fetched (Block_Id b) (data (Block_Id b)))).
  change (sort_by index ((λ b, with_Index (index b) b) <$> l) = Ok (E:=registry_error) (send <$> bs)).
  assert (∀ b, b ∈ bs → index (fetched (Block_Id b) (data (Block_Id b))) = Block_Index b) as Hix.
  { intros b Hb. unfold index, bMap. cbn. by rewrite (filled_lookup Block_Id Block_Index bs b). }
  assert (((λ b, with_Index (index b) b) <$> l) ≡ₚ send <$> bs) as Hl'.
  { rewrite Hl, <- list_fmap_compose. apply reflexive_eq, list_fmap_ext. intros i b Hb%list_elem_of_lookup_2.
    cbn. unfold send. by rewrite Hix. }
  assert (∀ b, b ∈ bs → index (send b) = Block_Index b) as Hsend by exact Hix.
  destruct (sort_by_ok (E:=registry_error) index ((λ b, with_Index (index b) b) <$> l)) as (l' & E & Hp & Hs). rewrite E. f_equal.
  symmetry. apply (sorted_unique index).
  - rewrite <- list_fmap_compose, (list_fmap_ext _ Block_Index); [done|].
    intros i b Hb%list_elem_of_lookup_2. by apply Hsend.
  - by rewrite Hp, Hl'.
  - by apply (sorted_fmap Block_Index).
  - exact Hs.
Qed.

Lemma copy_block_sent i id data : lenZ data < 2 ^ 63 → copy_block (with_Index i (fetched id data)) = data.
Proof using.
  intros Hd. unfold copy_block. cbn. apply take_ge. rewrite i64_small by lia. lia.
Qed.

(** the blocks are asked from the nodes of their first placements, and written in the order of their indexes *)
Lemma GetFile_ok path r μ f (data : string → list Z) :
  stands (Storage_of r) μ → file_at (Trim path) μ = Some f → numbered_blocks (File_Id f) μ →
  Forall (λ b, retrievable r (data (Block_Id b)) b ∧ lenZ (data (Block_Id b)) < 2 ^ 63) (blocks_of (File_Id f) μ) →
  ∃ r', HandleGetFile order path r =
    (Ok (mkHttp 200 (sorted_blocks (File_Id f) μ ≫= λ b, data (Block_Id b)), None), r') ∧ only_reads r r'.
Proof using order_perm.
  intros Hs Hf Hn Hall. set (bs := sorted_blocks (File_Id f) μ). pose proof (sorted_blocks_perm (File_Id f) μ) as Hperm.
  fold bs in Hperm. rewrite <- Hperm in Hall.
  destruct (drop_having KBlock (mkIndex false false Block_FileID) (File_Id f) bs (m_blocks μ)
    (stands_wf KBlock _ μ Hs) Hperm) as (Hids & _ & _). change (pid KBlock) with Block_Id in Hids.
  assert (StronglySorted (key_le Block_Index) bs) as Hsorted.
  { unfold bs, sorted_blocks. by destruct (sort_by_ok (E:=storage_error) Block_Index (blocks_of (File_Id f) μ)) as (l & -> & _ & Hl). }
  set (bMap := group_placements (first_of <$> bs)).
  set (send := λ p, fetched (BPI_BlockID p) (data (BPI_BlockID p))).
  destruct (fetch_ok data (order (dom bMap)) bMap r) as (r' & Efetch & Honly).
  { intros id Hid. rewrite order_perm, elem_of_elements in Hid. apply group_placements_dom in Hid.
    exists ((filter (λ p, p.1 = id) (first_of <$> bs)).*2).
    apply list_elem_of_fmap in Hid as (p0 & -> & Hp0). pose proof Hp0 as (b0 & -> & Hb0)%list_elem_of_fmap.
    rewrite Forall_forall in Hall. destruct (Hall b0 Hb0) as [(pl0 & pls0 & n & Epl0 & Hnode & _) _].
    exists n. split_and!.
    - unfold bMap. rewrite group_placements_lookup, decide_True; [done|]. by apply list_elem_of_fmap_2.
    - intros E%fmap_nil_inv. assert (first_of b0 ∈ filter (λ p, p.1 = (first_of b0).1) (first_of <$> bs)) as Hin
        by by apply list_elem_of_filter. rewrite E in Hin. by apply elem_of_nil in Hin.
    - unfold first_of. by rewrite Epl0.
    - apply Forall_fmap, Forall_forall. intros p [Hp1 (b & -> & Hb)%list_elem_of_fmap]%list_elem_of_filter.
      destruct (Hall b Hb) as [(pl & pls & n' & Epl & Hnode' & Hr) _]. unfold first_of in Hp1 |- *.
      rewrite Epl in Hp1 |- *. rewrite Epl0 in Hp1. cbn in Hp1 |- *. rewrite Hp1 in Hnode'.
      assert (n' = n) as <- by congruence. exact Hr. }
  assert ((order (dom bMap) ≫= λ id, (λ p, fetched (BPI_BlockID p) (data (BPI_BlockID p))) <$> default [] (bMap !! id)) ≡ₚ
    (λ b, fetched (Block_Id b) (data (Block_Id b))) <$> bs) as Hfetched.
  { rewrite bind_fmap. transitivity (send <$> (first_of <$> bs).*2).
    - f_equiv. rewrite <- (groups_perm (order (dom bMap)) (first_of <$> bs)).
      + apply reflexive_eq, bind_ext. intros id Hid. rewrite order_perm, elem_of_elements in Hid.
        apply group_placements_dom in Hid. unfold bMap. by rewrite group_placements_lookup, decide_True.
      + rewrite order_perm. apply NoDup_elements.
      + intros p Hp. rewrite order_perm, elem_of_elements. apply group_placements_dom. by apply list_elem_of_fmap_2.
    - apply reflexive_eq. rewrite <- !list_fmap_compose. apply list_fmap_ext. intros i b _. unfold send, first_of, compose.
      by destruct (Block_Blocks b). }
  exists r'. split; [|exact Honly].
  assert (GetFileHandler order (Trim path) r =
    (Ok ((λ b, with_Index (Block_Index b) (fetched (Block_Id b) (data (Block_Id b)))) <$> bs), r')) as E.
  { unfold GetFileHandler. rewrite (bind_ok _ _ _ _ _ (on_storage_read _ _ _ (GetFileByPath_ok _ _ _ Hs))), Hf.
    rewrite (bind_ok _ _ _ _ _ (on_storage_read _ _ _ (GetBlocks_numbered _ _ _ Hs Hn))). fold bs.
    rewrite first_placements_ok.
    - erewrite bind_ok by reflexivity. cbv zeta. fold bMap. rewrite (bind_ok _ _ _ _ _ Efetch). unfold lift.
      rewrite (fillAndSortBlocks_ok data); [done|done| |done|done]. by rewrite Hperm.
    - eapply Forall_impl; [exact Hall|]. intros b [(pl & pls & n & -> & _) _]. done. }
  assert (((λ b, with_Index (Block_Index b) (fetched (Block_Id b) (data (Block_Id b)))) <$> bs) ≫= copy_block =
    bs ≫= λ b, data (Block_Id b)) as Hbody.
  { rewrite Forall_forall in Hall. clear -Hall. induction bs as [|b bs IH]; [done|]. rewrite fmap_cons. cbn.
    rewrite IH by (intros c Hc; by apply Hall, list_elem_of_further). f_equal. apply copy_block_sent.
    by apply Hall, list_elem_of_here. }
  rewrite <- Hbody. unfold HandleGetFile. erewrite bind_ok by (unfold attempt; by rewrite E). reflexivity.
Qed.
End download.

(** ** The placement of an upload *)

Section placement.
Context {J : Type} `{JournalLaws J} {T : Type → Type} `{MemDBLaws T} {B : Type} `{BackendLaws B}.
Context {W : Type} `{DataNodesLaws W} `{RecordCodecs} `{EntryCodecs}.
Context (order : gset string → list string) (order_perm : ∀ s, order s ≡ₚ elements s).
Context (norder : list (Node * list FsBlock) → list (Node * list FsBlock)) (norder_perm : ∀ l, norder l ≡ₚ l).
Context (now : Entry_Type → Z).
Local Abbreviation R := (Registry J T B W).
Local Abbreviation placements := (gmap string (list BlockInfo_Placement)).
Implicit Types (r : R) (μ : meta) (es : list Entry) (bs : list FsBlock) (ns : list Node).

(** every node is kept under its identifier, has answered a ping, and has an
    address of its own that takes the blocks *)
Record usable bs r : Prop := {
  usable_ids : map_Forall (λ id n, Node_Id (node_info n) = id) (nodes (NodesMap_of r));
  usable_pinged : pinged (NodesMap_of r);
  usable_conns : NoDup (conn <$> (map_to_list (nodes (NodesMap_of r))).*2);
  usable_takes : map_Forall (λ _ n, dn_takes (conn n) bs (world r)) (nodes (NodesMap_of r));
}.

(** [pl] says where a node keeps a block *)
Definition keeps (w : W) (b : FsBlock) (n : Node) (pl : BlockInfo_Placement) : Prop :=
  Placement_NodeID pl = Node_Id (node_info n) ∧
  dn_stored (conn n) (Fs_Id b) (Placement_PartitionID pl) (Fs_Data b) w.

(** merging the answer of a node adds one placement to each of its blocks *)
Lemma add_placements_ids nodeID res (m : placements) id : id ∉ BPI_BlockID <$> res → add_placements nodeID res m !! id = m !! id.
Proof using.
  unfold add_placements. revert m. induction res as [|p res IH]; intros m Hni; [done|].
  cbn in *. apply not_elem_of_cons in Hni as [Hne Hni]. rewrite IH by done. by rewrite lookup_insert_ne.
Qed.

Lemma add_placements_lookup nodeID res (m : placements) j pl : NoDup (BPI_BlockID <$> res) → res !! j = Some pl →
  add_placements nodeID res m !! BPI_BlockID pl =
    Some (default [] (m !! BPI_BlockID pl) ++ [mkPlacement nodeID (BPI_PartitionID pl)]).
Proof using.
  revert m j. induction res as [|p res IH]; intros m j Hnd Hj; [done|].
  cbn in Hnd. apply NoDup_cons in Hnd as [Hni Hnd]. destruct j as [|j]; cbn in Hj.
  - injection Hj as ->. unfold add_placements. cbn. fold (add_placements nodeID res).
    change (foldl _ ?m0 res) with (add_placements nodeID res m0).
    rewrite add_placements_ids by done. apply lookup_insert_eq.
  - change (add_placements nodeID (p :: res) m) with (add_placements nodeID res (<[BPI_BlockID p := default [] (m !! BPI_BlockID p) ++ [mkPlacement nodeID (BPI_PartitionID p)]]> m)).
    rewrite (IH _ j) by done. rewrite lookup_insert_ne; [done|]. intros E. apply Hni. rewrite E.
    apply list_elem_of_fmap_2. by eapply list_elem_of_lookup_2.
Qed.

Lemma add_placements_dom nodeID res (m : placements) : dom (add_placements nodeID res m) = list_to_set (BPI_BlockID <$> res) ∪ dom m.
Proof using.
  unfold add_placements. revert m. induction res as [|p res IH]; intros m; cbn [foldl fmap list_fmap list_to_set].
  - by rewrite (left_id_L ∅ _).
  - rewrite IH, dom_insert_L, (assoc_L (∪)). f_equal. apply (comm_L (∪)).
Qed.

(** one node takes its blocks *)
Lemma assign_ok n bs r : nodes (NodesMap_of r) !! Node_Id (node_info n) = Some n → dn_takes (conn n) bs (world r) →
  ∃ res w', catch (on_nodes (nodes_AssignBlocks (Node_Id (node_info n)) bs)) r =
      (Ok (Some res), mkRegistry (Cluster_of r) (NodesMap_of r) w') ∧
    BPI_BlockID <$> res = Fs_Id <$> bs ∧
    (∀ j b pl, bs !! j = Some b → res !! j = Some pl → dn_stored (conn n) (Fs_Id b) (BPI_PartitionID pl) (Fs_Data b) w') ∧
    (∀ id part data, id ∉ Fs_Id <$> bs → dn_reads (conn n) id part data (world r) → dn_stored (conn n) id part data w') ∧
    ∀ a', a' ≠ conn n → (∀ bs', dn_takes a' bs' (world r) → dn_takes a' bs' w') ∧
      (∀ id part data, dn_stored a' id part data (world r) → dn_stored a' id part data w') ∧
      (∀ id part data, dn_reads a' id part data (world r) → dn_reads a' id part data w').
Proof using.
  intros Hn Ht. destruct (dn_assign_ok (conn n) bs (world r) Ht) as (res & w' & E & Hids & Hst & Hkeep & Hother).
  exists res, w'. split_and!; [|done..].
  unfold catch, on_nodes, nodes_AssignBlocks, GetNode, nodes_get, in_world, mbind, M_bind. cbn. rewrite Hn. cbn. by rewrite E.
Qed.

(** all of them, in any order *)
Lemma transport_ok bs ns (m : placements) r : NoDup (Fs_Id <$> bs) → NoDup (conn <$> ns) →
  Forall (λ n, nodes (NodesMap_of r) !! Node_Id (node_info n) = Some n ∧ dn_takes (conn n) bs (world r)) ns →
  ∃ m' w', transport_blocks ((λ n, (n, bs)) <$> ns) m r = (Ok m', mkRegistry (Cluster_of r) (NodesMap_of r) w') ∧
    (ns ≠ [] → dom m' = list_to_set (Fs_Id <$> bs) ∪ dom m) ∧
    (∀ b, b ∈ bs → ∃ pls, default [] (m' !! Fs_Id b) = default [] (m !! Fs_Id b) ++ pls ∧ Forall2 (keeps w' b) ns pls) ∧
    (∀ a id part data, a ∉ conn <$> ns → dn_stored a id part data (world r) → dn_stored a id part data w') ∧
    (∀ a id part data, id ∉ Fs_Id <$> bs → dn_reads a id part data (world r) → dn_stored a id part data w').
Proof using.
  intros Hids. revert m r. induction ns as [|n ns IH]; intros m r Hc Hns.
  { exists m, (world r). split; [by destruct r|]. split_and!; [done| |done|].
    - intros b Hb. exists []. by rewrite app_nil_r.
    - intros a id part data _. apply dn_stored_reads. }
  cbn in Hc. apply NoDup_cons in Hc as [Hnc Hc]. apply Forall_cons in Hns as [[Hn Ht] Hns].
  destruct (assign_ok n bs r Hn Ht) as (res & w1 & E1 & Hres & Hst & Hsame & Hother).
  set (r1 := mkRegistry (Cluster_of r) (NodesMap_of r) w1) in *.
  set (m1 := add_placements (Node_Id (node_info n)) res m).
  destruct (IH m1 r1 Hc) as (m' & w' & E & Hdom & Hpls & Hkeep & Hread).
  { rewrite Forall_forall in Hns |- *. intros n' Hn'. destruct (Hns n' Hn') as [? Ht']. split; [done|].
    apply Hother; [|done]. intros Heq. apply Hnc. rewrite <- Heq. by apply list_elem_of_fmap_2. }
  assert (dom m1 = list_to_set (Fs_Id <$> bs) ∪ dom m) as Hdom1 by (unfold m1; by rewrite add_placements_dom, Hres).
  exists m', w'. split_and!.
  - cbn [transport_blocks fmap list_fmap]. rewrite (bind_ok _ _ _ _ _ E1). exact E.
  - intros _. destruct ns as [|n2 ns]; [cbn in E; injection E as <- _; exact Hdom1|].
    rewrite Hdom, Hdom1 by done. by rewrite (assoc_L (∪)), (idemp_L (∪)).
  - intros b Hb. destruct (Hpls b Hb) as (pls & Epls & Hall). apply list_elem_of_lookup in Hb as [j Hj].
    assert (∃ pl, res !! j = Some pl ∧ BPI_BlockID pl = Fs_Id b) as (pl & Hpl & Hid).
    { pose proof (f_equal (λ l, l !! j) Hres) as Ej. cbn in Ej. rewrite !list_lookup_fmap, Hj in Ej. cbn in Ej.
      destruct (res !! j) as [pl|]; [|done]. exists pl. split; [done|]. by injection Ej. }
    exists (mkPlacement (Node_Id (node_info n)) (BPI_PartitionID pl) :: pls). split.
    + rewrite Epls. unfold m1. rewrite <- Hid, (add_placements_lookup _ _ _ j) by (by rewrite ?Hres). cbn.
      by rewrite <- app_assoc.
    + constructor; [|exact Hall]. split; [done|]. apply Hkeep; [done|]. cbn. by eapply Hst.
  - intros a id part data Ha Hsto. cbn in Ha. apply not_elem_of_cons in Ha as [Hne Ha]. apply Hkeep; [done|]. by apply Hother.
  - intros a id part data Hid Hr. destruct (decide (a = conn n)) as [->|Hne].
    + apply Hkeep; [done|]. by apply Hsame.
    + apply Hread; [done|]. by apply Hother.
Qed.

(** the records of the placed blocks *)
Lemma block_infos_perm fileID bs (m : placements) : NoDup (Fs_Id <$> bs) → dom m = list_to_set (Fs_Id <$> bs) →
  block_infos order fileID bs m ≡ₚ (λ b, mkBlockInfo (Fs_Id b) (Fs_Index b) 0 fileID (default [] (m !! Fs_Id b))) <$> bs.
Proof using order_perm.
  intros Hnd Hdom. unfold block_infos. cbv zeta.
  assert (order (dom m) ≡ₚ Fs_Id <$> bs) as ->.
  { rewrite order_perm. apply NoDup_Permutation; [apply NoDup_elements|done|]. intros x.
    by rewrite elem_of_elements, Hdom, elem_of_list_to_set. }
  apply reflexive_eq. set (blockSeq := foldl _ _ _).
  assert (∀ l : list FsBlock, (∀ b, b ∈ l → b ∈ bs) →
    omap (λ blockID, (λ result, mkBlockInfo blockID (default 0 (blockSeq !! blockID)) 0 fileID result) <$> m !! blockID) (Fs_Id <$> l) =
    (λ b, mkBlockInfo (Fs_Id b) (Fs_Index b) 0 fileID (default [] (m !! Fs_Id b))) <$> l) as Hl; [|by apply Hl].
  induction l as [|b l IH]; intros Hl; [done|]. rewrite !fmap_cons. cbn [omap list_omap].
  assert (b ∈ bs) as Hb by apply Hl, list_elem_of_here.
  assert (Fs_Id b ∈ dom m) as [pls Hpls]%elem_of_dom by (rewrite Hdom; apply elem_of_list_to_set; by apply list_elem_of_fmap_2).
  rewrite Hpls. cbn. unfold blockSeq. rewrite (filled_lookup Fs_Id Fs_Index bs b) by done. cbn. f_equal.
  apply IH. intros c Hc. by apply Hl, list_elem_of_further.
Qed.

(** the nodes that take the blocks: the [rf] least used, or only one when there are fewer *)
Definition targets (rf : Z) (m : NodesMap) ns : Prop :=
  ∃ l, l ≡ₚ (map_to_list (nodes m)).*2 ∧ StronglySorted (key_le used) l ∧
    ns ≡ₚ take (if lenZ l <? rf then 1%nat else Z.to_nat rf) l.

Lemma jobs_ok rf bs m : pinged m → nodes m ≠ ∅ → 1 ≤ rf →
  ∃ chosen ns, GetNodesWithLeastBlocks order rf m = Ok chosen ∧
    blocksAssignment chosen rf bs = Ok ((λ n, (n, bs)) <$> ns) ∧ targets rf m ns.
Proof using order_perm.
  intros Hp Hne Hrf. destruct (GetNodesWithLeastBlocks_ok order order_perm rf m Hp ltac:(lia)) as (l & E & Hl & Hs).
  assert (l ≠ []) as Hnil.
  { intros ->. apply Hne. apply map_to_list_empty_iff. symmetry in Hl. apply Permutation_nil_r, fmap_nil_inv in Hl. done. }
  eexists (take _ l), (take (if lenZ l <? rf then 1%nat else Z.to_nat rf) l). split; [exact E|]. split; [|by exists l].
  unfold blocksAssignment. rewrite length_take. destruct (Z.ltb_spec (lenZ l) rf) as [Hlt|Hge].
  - rewrite (proj2 (Z.ltb_lt _ rf)) by lia. rewrite take_ge by lia. destruct l; [done|]. by destruct l.
  - rewrite (proj2 (Z.ltb_ge _ rf)), (proj2 (Z.eqb_eq _ rf)) by lia. done.
Qed.

(** the records that an upload of [bs] leaves *)
Definition placed (fileID : string) bs (rf : Z) r : list BlockInfo :=
  match (chosen ← map_err ErrNodes (GetNodesWithLeastBlocks order rf (NodesMap_of r)); blocksAssignment chosen rf bs) with
  | Ok jobs => match transport_blocks (norder jobs) ∅ r with (Ok m, _) => block_infos order fileID bs m | _ => [] end
  | _ => []
  end.

(** [info] is the record of a block that each of [ns] keeps *)
Definition recorded (w : W) (fileID : string) ns (b : FsBlock) (info : BlockInfo) : Prop :=
  Block_Id info = Fs_Id b ∧ Block_Index info = Fs_Index b ∧ Block_FileID info = fileID ∧
  Forall2 (keeps w b) ns (Block_Blocks info).

Definition placed_payload r (fileID : string) bs (rf : Z) : list Z :=
  Marshal_msg (mkAssignBlocks (ID (Cluster_of r)) (placed fileID bs rf r) "").

Lemma Transport_ok (fileID : string) bs (rf : Z) r es μ : ready r es μ → lenZ es + 2 < 2 ^ 64 →
  usable bs r → nodes (NodesMap_of r) ≠ ∅ → 1 ≤ rf → NoDup (Fs_Id <$> bs) → allowed (OPutBlocks (placed fileID bs rf r)) μ →
  let e := new_entry now (currentTerm (Cluster_of r)) (lenZ es) (Entry_ASSIGN_BLOCKS, placed_payload r fileID bs rf) in
  short e →
  ∃ ns r', TransportAndRegisterBlocks order norder now always fileID bs rf r = (Ok tt, r') ∧
    targets rf (NodesMap_of r) ns ∧ ready r' (es ++ [e]) (effect (OPutBlocks (placed fileID bs rf r)) μ) ∧
    grown [e] (Cluster_of r) (Cluster_of r') ∧ NodesMap_of r' = NodesMap_of r ∧
    Block_Id <$> placed fileID bs rf r ≡ₚ Fs_Id <$> bs ∧
    Forall (λ b, ∃ info, info ∈ placed fileID bs rf r ∧ recorded (world r') fileID ns b info) bs ∧
    ∀ a id part data, id ∉ Fs_Id <$> bs → dn_reads a id part data (world r) → dn_stored a id part data (world r').
Proof using order_perm norder_perm.
  intros Hr Hroom [Huids Hping Hconns Htakes] Hne Hrf Hids Hallow e Hshort.
  destruct (jobs_ok rf bs (NodesMap_of r) Hping Hne Hrf) as (chosen & ns0 & E1 & E2 & l & Hl & Hs & Hns0).
  destruct (Permutation_map_inv (λ n, (n, bs)) ns0 (norder_perm ((λ n, (n, bs)) <$> ns0))) as (ns & Enorder & Hns).
  destruct (transport_ok bs ns ∅ r Hids) as (m & w & E3 & Hdom & Hpls & _ & Hread).
  { rewrite <- Hns, Hns0. eapply sublist_NoDup; [|apply fmap_sublist, sublist_take]. by rewrite Hl. }
  { rewrite <- Hns, Hns0. apply Forall_take. rewrite Hl. apply Forall_fmap, Forall_forall.
    intros [id n] Hn%elem_of_map_to_list. cbn. rewrite (Huids id n Hn). split; [done|]. exact (Htakes id n Hn). }
  change (norder ((λ n, (n, bs)) <$> ns0) = (λ n, (n, bs)) <$> ns) in Enorder.
  assert (placed fileID bs rf r = block_infos order fileID bs m) as Eplaced.
  { unfold placed. rewrite E1. unfold mbind, result_bind, map_err. by rewrite E2, Enorder, E3. }
  set (infos := placed fileID bs rf r) in *.
  assert (ns ≠ []) as Hnns.
  { intros ->. apply Permutation_nil_r in Hns as ->. symmetry in Hns0. apply Permutation_nil_r in Hns0. 
    destruct l as [|n0 l]; [|destruct (lenZ (n0 :: l) <? rf); [done|]; by destruct (Z.to_nat rf) eqn:?; [lia|]].
    apply Hne. apply map_to_list_empty_iff. symmetry in Hl. by apply Permutation_nil_r, fmap_nil_inv in Hl. }
  rewrite dom_empty_L, (right_id_L ∅ _) in Hdom.
  pose proof (block_infos_perm fileID bs m Hids (Hdom Hnns)) as Hinfos. rewrite <- Eplaced in Hinfos.
  set (r1 := mkRegistry (Cluster_of r) (NodesMap_of r) w).
  assert (ready r1 es μ) as Hr1 by (destruct Hr; by split).
  destruct (PutBlocks_ok infos (Storage_of r1) μ (ready_storage _ _ _ Hr1) Hallow) as (s' & E4 & Hs').
  pose proof (ready_store r1 es μ s' _ Hr1 Hs') as Hr2.
  destruct (write_ready order order_perm now Entry_ASSIGN_BLOCKS (placed_payload r fileID bs rf) _ _ _ Hr2 Hroom Hshort)
    as (r' & E5 & Hr' & Hg & Hnm & Hw).
  exists ns, r'. split_and!.
  - unfold TransportAndRegisterBlocks. erewrite bind_ok by reflexivity. unfold lift. rewrite E1.
    erewrite bind_ok by reflexivity. rewrite E2. erewrite bind_ok by reflexivity. rewrite Enorder.
    rewrite (bind_ok _ _ _ _ _ E3). cbv zeta. rewrite <- Eplaced.
    assert (ignore_err (registerBlocks infos) r1 = (Ok tt, store s' r1)) as E6.
    { unfold ignore_err, registerBlocks. by rewrite (on_storage_write _ _ _ _ E4). }
    rewrite (bind_ok _ _ _ _ _ E6). exact E5.
  - exists l. split_and!; [done..|]. by rewrite <- Hns.
  - exact Hr'.
  - exact (grown_trans [] _ _ _ _ (grown_store s' r1) Hg).
  - exact Hnm.
  - rewrite Hinfos, <- list_fmap_compose. done.
  - apply Forall_forall. intros b Hb. destruct (Hpls b Hb) as (pls & Epl & Hall).
    exists (mkBlockInfo (Fs_Id b) (Fs_Index b) 0 fileID (default [] (m !! Fs_Id b))). split.
    + rewrite Hinfos. apply list_elem_of_fmap. by exists b.
    + split_and!; [done..|]. cbn. rewrite Epl, Hw. by rewrite lookup_empty.
  - intros a id part data Hid Hread'. rewrite Hw. by apply Hread.
Qed.

Lemma targets_known rf m ns n : targets rf m ns → n ∈ ns → ∃ id, nodes m !! id = Some n.
Proof using.
  intros (l & Hl & _ & Hns) Hn. rewrite Hns in Hn. apply list_elem_of_lookup in Hn as [i [Hi _]%lookup_take_Some].
  apply list_elem_of_lookup_2 in Hi. rewrite Hl in Hi. apply list_elem_of_fmap in Hi as ([id n'] & -> & Hi).
  exists id. by apply elem_of_map_to_list in Hi.
Qed.

Lemma targets_nonempty rf m ns : targets rf m ns → nodes m ≠ ∅ → 1 ≤ rf → ns ≠ [].
Proof using.
  intros (l & Hl & _ & Hns) Hne Hrf ->. apply Permutation_nil_l in Hns. apply Hne, map_to_list_empty_iff.
  destruct l as [|n l]; [symmetry in Hl; by apply Permutation_nil_r, fmap_nil_inv in Hl|].
  exfalso. destruct (lenZ (n :: l) <? rf); [done|]. destruct (Z.to_nat rf) eqn:E; [lia|done].
Qed.

(** what concerns neither the nodes map nor the data nodes *)
Definition apart {A} (m : M R registry_error A) : Prop :=
  ∀ r, NodesMap_of (m r).2 = NodesMap_of r ∧ world (m r).2 = world r.

Lemma apart_bind {A D} (m : M R registry_error A) (k : A → M R registry_error D) : apart m → (∀ a, apart (k a)) → apart (m ≫= k).
Proof using.
  intros Hm Hk r. specialize (Hm r). unfold mbind, M_bind. destruct (m r) as [[a|e|] r1]; cbn in *; [|done..].
  destruct (Hk a r1) as [-> ->]. done.
Qed.
Lemma apart_storage {A} (m : M (Storage T B) storage_error A) : apart (on_storage m).
Proof using. intros r. unfold on_storage. by destruct (m (Storage_of r)). Qed.
Lemma apart_cluster {A} (m : M (Cluster J (Storage T B)) cluster_error A) : apart (on_cluster m).
Proof using. intros r. unfold on_cluster. by destruct (m (Cluster_of r)). Qed.

Lemma RegisterFile_apart f : apart (RegisterFile order now always f).
Proof using.
  unfold RegisterFile. apply apart_bind; [apply apart_storage|]. intros [g|]; [done|].
  apply apart_bind.
  - case_bool_decide; [|done]. apply apart_bind; [apply apart_storage|]. by intros [p|].
  - intros id. apply apart_bind; [apply apart_storage|]. intros _. apply apart_cluster.
Qed.

Lemma stored_file_at (s : Storage T B) μ f : stands s μ → m_files μ !! File_Id f = Some f → file_at (File_Path f) μ = Some f.
Proof using.
  intros Hs Hf. symmetry. apply (answers_lookup_by (mkIndex false true File_Path)); [done| |].
  - pose proof (wf_distinct _ _ (stands_wf KFile s μ Hs)) as Hd. rewrite Forall_forall in Hd.
    apply (Hd ("path"%string, _)). in_schema.
  - split; [by exists (File_Id f)|done].
Qed.

(** the rows that a list adds *)
Lemma add_rows_spec (l : list BlockInfo) (m : gmap string BlockInfo) : NoDup (Block_Id <$> l) →
  (∀ b, b ∈ l → add_rows KBlock l m !! Block_Id b = Some b) ∧ ∀ i, i ∉ Block_Id <$> l → add_rows KBlock l m !! i = m !! i.
Proof using.
  intros Hnd. split; [intros b Hb; exact (filled_lookup Block_Id (λ b, b) l b m Hnd Hb)|]. clear Hnd.
  revert m. induction l as [|b l IH]; intros m i Hni; [done|]. cbn in Hni. apply not_elem_of_cons in Hni as [Hne Hni].
  etrans; [exact (IH (<[Block_Id b := b]> m) i Hni)|]. by apply lookup_insert_ne.
Qed.

(** the blocks of a file that had none *)
Lemma blocks_added (s : Storage T B) fileID infos μ μ' : stands s μ' → blocks_of fileID μ = [] → NoDup (Block_Id <$> infos) →
  Forall (λ i, Block_FileID i = fileID) infos → m_blocks μ' = add_rows KBlock infos (m_blocks μ) → blocks_of fileID μ' ≡ₚ infos.
Proof using.
  intros Hs Hnone Hnd Hids Hb. rewrite Forall_forall in Hids. destruct (add_rows_spec infos (m_blocks μ) Hnd) as [Hin Hout].
  destruct (drop_having KBlock (mkIndex false false Block_FileID) fileID (blocks_of fileID μ') (m_blocks μ')
    (stands_wf KBlock s μ' Hs) (Permutation_refl _)) as (Hnd' & _ & _).
  apply NoDup_Permutation; [by apply (NoDup_fmap_1 (pid KBlock))|by apply (NoDup_fmap_1 Block_Id)|].
  intros b. etrans; [exact (elem_of_having (mkIndex false false Block_FileID) fileID (m_blocks μ') b)|]. cbn [ix_Field]. rewrite Hb. split.
  - intros [[i Hi] Hf]. destruct (decide (i ∈ Block_Id <$> infos)) as [(c & -> & Hc)%list_elem_of_fmap|Hni].
    + pose proof (eq_trans (eq_sym Hi) (Hin c Hc)) as E. by injection E as ->.
    + pose proof (eq_trans (eq_sym (Hout i Hni)) Hi) as Hi'. assert (b ∈ blocks_of fileID μ) as Hold; [|rewrite Hnone in Hold; by apply elem_of_nil in Hold].
      apply (elem_of_having (mkIndex false false Block_FileID) fileID (m_blocks μ) b). eauto.
  - intros Hbi. split; [exists (Block_Id b); by apply Hin|by apply Hids].
Qed.
End placement.

(** ** The theorems *)

Section theorems.
Context {J : Type} `{JournalLaws J} {T : Type → Type} `{MemDBLaws T} {B : Type} `{BackendLaws B}.
Context {W : Type} `{DataNodesLaws W} `{RecordCodecs} `{EntryCodecs}.
Context (order : gset string → list string) (norder : list (Node * list FsBlock) → list (Node * list FsBlock)).
Context (now : Entry_Type → Z) (ids : nat → string).
Local Abbreviation R := (Registry J T B W).
Implicit Types (r : R) (μ : meta) (es : list Entry).

(** the block of a body shorter than [blockSize] *)
Definition only_sent (body : list Z) : FsBlock := mkFsBlock (ids 1) 1 (ids 0) 0 (lenZ body) body [].
Definition put_file (url : string) (body : list Z) : FileInfo := uploaded_file ids url (u64 (lenZ body)).

Lemma HandlePutFile_small (url : string) (body : list Z) (buffers : gmap nat (list Z)) (pool : list nat)
    (sched : list event) (late : list nat) (put : M R registry_error http_response) : body ≠ [] → lenZ body < blockSize →
  HandlePutFile order norder now always ids url (Some (body, false)) buffers pool sched late = Some put →
  put = (_ ← ignore_err (TransportAndRegisterBlocks order norder now always (ids 0) [only_sent body] 2);
         res ← attempt (RegisterFile order now always (put_file url body));
         mret (put_response res)).
Proof.
  intros Hbody Hlen Hput. unfold HandlePutFile in Hput.
  destruct (upload_run ids sched (start_upload body false buffers pool)) as [s|] eqn:Erun; [|done].
  unfold mbind at 1, option_bind in Hput. destruct (up_position s) eqn:Epos; try done.
  destruct (small_runs ids body buffers pool sched s Hbody Hlen Erun Epos) as (Hdata & Hsize & Hpend).
  destruct late as [|i late].
  - cbn [upload_run fmap list_fmap] in Hput. injection Hput as <-. unfold sent. by rewrite Hdata, Hsize.
  - cbn [upload_run fmap list_fmap upload_step] in Hput. unfold run_block in Hput. by rewrite Hpend in Hput.
Qed.

Lemma blockSize_small : blockSize < 2 ^ 63.
Proof. done. Qed.

(** what the handler does with the blocks [bs] of a file of [size] bytes *)
Definition put_blocks_of (url : string) (size : Z) (bs : list FsBlock) : M R registry_error http_response :=
  _ ← ignore_err (TransportAndRegisterBlocks order norder now always (ids 0) bs 2);
  res ← attempt (RegisterFile order now always (uploaded_file ids url size));
  mret (put_response res).

(** a registry that reads from where [r] wrote: [r] itself or one that was started on
    its storage, once the sinks of the data nodes have run *)
Record reads_back r r2 : Prop := {
  rb_flushed : dn_flushed (world r) (world r2);
  rb_storage : Storage_of r2 = Storage_of r ∨ NewStorage (Ok (backend (Storage_of r))) = Ok (Storage_of r2);
  rb_nodes : ∀ id n, nodes (NodesMap_of r) !! id = Some n → ∃ n', nodes (NodesMap_of r2) !! id = Some n' ∧ conn n' = conn n;
}.

Lemma reads_back_stands r r2 μ : reads_back r r2 → stands (Storage_of r) μ → stands (Storage_of r2) μ.
Proof.
  intros [_ [->|E] _] Hs; [done|]. destruct (NewStorage_again _ _ Hs) as (s' & E' & Hs'). rewrite E in E'. by injection E' as ->.
Qed.

(** a recorded block can be read once the sinks have run *)
Lemma retrievable_recorded fileID b ns info r r2 : map_Forall (λ id n, Node_Id (node_info n) = id) (nodes (NodesMap_of r)) →
  ns ≠ [] ∧ (∀ n, n ∈ ns → ∃ id, nodes (NodesMap_of r) !! id = Some n) →
  recorded (world r) fileID ns b info → reads_back r r2 → retrievable r2 (Fs_Data b) info.
Proof.
  intros Hids [Hne Hknown] (Hid & _ & _ & Hall) [Hw _ Hnodes]. remember (Block_Blocks info) as l eqn:El.
  destruct Hall as [|n pl ns pls [Hpn Hst] _]; [done|].
  destruct (Hknown n (list_elem_of_here _ _)) as [id Hn]. destruct (Hnodes id n Hn) as (n' & Hn' & Hconn).
  exists pl, pls, n'. rewrite Hid, Hconn. split_and!; [done| |by eapply dn_flush_ok].
  by rewrite Hpn, (Hids id n Hn).
Qed.

(** the metadata and the entries that an upload leaves *)
Definition put_meta bs (g : FileInfo) r μ : meta := effect (OStoreFile g) (effect (OPutBlocks (placed order norder (ids 0) bs 2 r)) μ).
Definition put_entries bs (g : FileInfo) r es : list Entry :=
  entries_of now (currentTerm (Cluster_of r)) (lenZ es)
    [(Entry_ASSIGN_BLOCKS, placed_payload order norder r (ids 0) bs 2);
     (Entry_ASSIGN_FILE, Marshal_msg (mkAssignFile (ID (Cluster_of r)) g))].

Lemma added_file url size g μ : added (RRegisterFile (uploaded_file ids url size)) μ = Some g →
  File_Id g = ids 0 ∧ File_Path g = Trim url ∧ File_Type g = FileInfo_FILE.
Proof. cbn. destruct (parent_of _ μ); [intros [= <-]|]; done. Qed.

(** what an upload of [bs] asks of the registry *)
Record fits (url : string) (size : Z) (bs : list FsBlock) (g : FileInfo) r es μ : Prop := {
  fit_ready : ready r es μ;
  fit_room : lenZ es + 3 < 2 ^ 64;
  fit_usable : usable bs r;
  fit_nodes : nodes (NodesMap_of r) ≠ ∅;
  fit_ids : NoDup (Fs_Id <$> bs);
  fit_path : file_at (Trim url) μ = None;
  fit_blocks : blocks_of (ids 0) μ = [];
  fit_added : added (RRegisterFile (uploaded_file ids url size)) μ = Some g;
  fit_file : admissible KFile (m_files μ) g;
  fit_placed : allowed (OPutBlocks (placed order norder (ids 0) bs 2 r)) μ;
  fit_short : Forall short (put_entries bs g r es);
}.

(** the state that an upload leaves *)
Lemma put_stores url size bs g r es μ : (∀ s, order s ≡ₚ elements s) → (∀ l, norder l ≡ₚ l) → fits url size bs g r es μ →
  let μ' := put_meta bs g r μ in
  ∃ ns r', put_blocks_of url size bs r = (Ok (mkHttp 200 (bytes_of_string "OK")), r') ∧
    ready r' (es ++ put_entries bs g r es) μ' ∧ file_at (Trim url) μ' = Some g ∧ NodesMap_of r' = NodesMap_of r ∧
    targets 2 (NodesMap_of r) ns ∧ NoDup (Block_Id <$> blocks_of (ids 0) μ') ∧ Block_Id <$> blocks_of (ids 0) μ' ≡ₚ Fs_Id <$> bs ∧
    Forall (λ b, ∃ info, info ∈ blocks_of (ids 0) μ' ∧ recorded (world r') (ids 0) ns b info) bs ∧
    blocks_of (ids 0) μ' ≡ₚ placed order norder (ids 0) bs 2 r ∧
    ∀ a id part data, id ∉ Fs_Id <$> bs → dn_reads a id part data (world r) → dn_stored a id part data (world r').
Proof.
  intros Ho Hno [Hr Hroom Hus Hne Hnd Hfree Hnone Hadd Hadm Hallow [Hshort1 Hshort2]%Forall_cons].
  destruct (Transport_ok order Ho norder Hno now (ids 0) bs 2 r es μ Hr ltac:(lia) Hus Hne ltac:(lia) Hnd Hallow Hshort1)
    as (ns & r1 & E1 & Hns & Hr1 & Hg & Hnm & Hids & Hrec & Hkeep).
  set (infos := placed order norder (ids 0) bs 2 r) in *.
  destruct (RegisterFile_ok order Ho now (uploaded_file ids url size) g r1 _ _ Hr1) as (r2 & E2 & Hr2 & _);
    [rewrite length_app; cbn [length]; lia|exact Hfree|exact Hadd|exact Hadm| |].
  { rewrite (grown_term _ _ _ Hg), (grown_ID _ _ _ Hg), length_app. cbn [length].
    replace (Z.of_nat (length es + 1)) with (lenZ es + 1) by lia. exact Hshort2. }
  destruct (RegisterFile_apart order now (uploaded_file ids url size) r1) as [Hnm2 Hw2]. rewrite E2 in Hnm2, Hw2. cbn in Hnm2, Hw2.
  pose proof (ready_storage _ _ _ Hr2) as Hs2.
  destruct (added_file url size g μ Hadd) as (Hgid & Hgpath & _).
  assert (NoDup (Block_Id <$> infos)) as Hnd' by (by rewrite Hids).
  assert (∀ i, i ∈ infos → ∃ b, b ∈ bs ∧ recorded (world r1) (ids 0) ns b i) as Hback.
  { intros i Hi. rewrite Forall_forall in Hrec. pose proof (list_elem_of_fmap_2 Block_Id _ _ Hi) as Hin. rewrite Hids in Hin.
    apply list_elem_of_fmap in Hin as (b & Eb & Hb). destruct (Hrec b Hb) as (i' & Hi' & Hri). exists b. split; [done|].
    assert (i = i') as ->; [|done]. apply (NoDup_fmap_inj Block_Id infos); [done..|]. rewrite Eb. by destruct Hri as [-> _]. }
  assert (blocks_of (ids 0) (put_meta bs g r μ) ≡ₚ infos) as Hblocks.
  { apply (blocks_added (Storage_of r2) _ infos μ); [done..| |done]. apply Forall_forall. intros i Hi.
    by destruct (Hback i Hi) as (b & _ & _ & _ & ? & _). }
  exists ns, r2. split_and!; [| | |by rewrite Hnm2|exact Hns|by rewrite Hblocks|by rewrite Hblocks| |exact Hblocks|].
  - unfold put_blocks_of. erewrite bind_ok by (unfold ignore_err; by rewrite E1). erewrite bind_ok by (unfold attempt; by rewrite E2). done.
  - rewrite (grown_term _ _ _ Hg), length_app, <- app_assoc in Hr2. cbn [length] in Hr2.
    replace (Z.of_nat (length es + 1)) with (lenZ es + 1) in Hr2 by lia. rewrite (grown_ID _ _ _ Hg) in Hr2. exact Hr2.
  - rewrite <- Hgpath. apply (stored_file_at (Storage_of r2)); [exact Hs2|]. cbn. apply lookup_insert_eq.
  - rewrite Hw2. eapply Forall_impl; [exact Hrec|]. intros b (i & Hi & Hri). exists i. by rewrite Hblocks.
  - intros a id part data Hid Hd. rewrite Hw2. by apply Hkeep.
Qed.

(** the block that a record is of *)
Lemma record_of (w : W) ns bs μ i : NoDup (Block_Id <$> blocks_of (ids 0) μ) → Block_Id <$> blocks_of (ids 0) μ ≡ₚ Fs_Id <$> bs →
  Forall (λ b, ∃ info, info ∈ blocks_of (ids 0) μ ∧ recorded w (ids 0) ns b info) bs → i ∈ blocks_of (ids 0) μ →
  ∃ b, b ∈ bs ∧ recorded w (ids 0) ns b i.
Proof.
  intros Hnd Hperm Hrec Hi. rewrite Forall_forall in Hrec. pose proof (list_elem_of_fmap_2 Block_Id _ _ Hi) as Hin. rewrite Hperm in Hin.
  apply list_elem_of_fmap in Hin as (b & Eb & Hb). destruct (Hrec b Hb) as (i' & Hi' & Hri). exists b. split; [done|].
  assert (i = i') as ->; [|done]. apply (NoDup_fmap_inj Block_Id (blocks_of (ids 0) μ)); [done..|]. rewrite Eb. by destruct Hri as [-> _].
Qed.

(** the bytes of the records are those of the blocks *)
Lemma sent_bytes bs μ (data : string → list Z) : Block_Id <$> sorted_blocks (ids 0) μ = Fs_Id <$> bs →
  (∀ b, b ∈ bs → data (Fs_Id b) = Fs_Data b) → (sorted_blocks (ids 0) μ ≫= λ b, data (Block_Id b)) = mjoin (Fs_Data <$> bs).
Proof.
  intros Hsorted Hdata.
  transitivity ((Block_Id <$> sorted_blocks (ids 0) μ) ≫= data); [clear; induction (sorted_blocks (ids 0) μ) as [|i l IH]; cbn; congruence|].
  rewrite Hsorted. clear -Hdata. induction bs as [|b bs IH]; [done|]. rewrite !fmap_cons. cbn.
  rewrite (Hdata b (list_elem_of_here _ _)). f_equal. apply IH. intros c Hc. by apply Hdata, list_elem_of_further.
Qed.

(** the records in the order of their indexes are the blocks in theirs *)
Lemma sorted_records (w : W) ns bs μ : NoDup (Fs_Id <$> bs) → NoDup (Fs_Index <$> bs) → StronglySorted (key_le Fs_Index) bs →
  NoDup (Block_Id <$> blocks_of (ids 0) μ) → Block_Id <$> blocks_of (ids 0) μ ≡ₚ Fs_Id <$> bs →
  Forall (λ b, ∃ info, info ∈ blocks_of (ids 0) μ ∧ recorded w (ids 0) ns b info) bs →
  numbered_blocks (ids 0) μ ∧ Block_Id <$> sorted_blocks (ids 0) μ = Fs_Id <$> bs.
Proof.
  intros Hids Hix Hs Hnd Hperm Hrec. set (pair_of := λ i : BlockInfo, (Block_Index i, Block_Id i)). set (pair_of' := λ b : FsBlock, (Fs_Index b, Fs_Id b)).
  assert (pair_of' <$> bs ≡ₚ pair_of <$> blocks_of (ids 0) μ) as Hpairs.
  { apply NoDup_Permutation.
    - apply (NoDup_fmap_1 snd). by rewrite <- list_fmap_compose.
    - apply (NoDup_fmap_1 snd). by rewrite <- list_fmap_compose.
    - intros p. rewrite !list_elem_of_fmap. split.
      + intros (b & -> & Hb). rewrite Forall_forall in Hrec. destruct (Hrec b Hb) as (i & Hi & Eid & Eix & _).
        exists i. split; [|done]. unfold pair_of. by rewrite Eid, Eix.
      + intros (i & -> & Hi). destruct (record_of w ns bs μ i Hnd Hperm Hrec Hi) as (b & Hb & Eid & Eix & _). exists b. split; [|done].
        unfold pair_of'. by rewrite <- Eid, <- Eix. }
  assert (numbered_blocks (ids 0) μ) as Hnum.
  { unfold numbered_blocks. change Block_Index with (fst ∘ pair_of). rewrite list_fmap_compose, <- Hpairs, <- list_fmap_compose. exact Hix. }
  split; [exact Hnum|].
  assert (pair_of <$> sorted_blocks (ids 0) μ = pair_of' <$> bs) as E.
  { symmetry. apply (sorted_unique fst).
    - by rewrite <- list_fmap_compose.
    - by rewrite Hpairs, sorted_blocks_perm.
    - by apply (sorted_fmap Fs_Index).
    - apply (sorted_fmap Block_Index); [done|]. unfold sorted_blocks.
      by destruct (sort_by_ok (E:=storage_error) Block_Index (blocks_of (ids 0) μ)) as (l & -> & _ & Hl). }
  apply (f_equal (fmap snd)) in E. by rewrite <- !list_fmap_compose in E.
Qed.

(** blocks that go up come down in the order of their indexes *)
Lemma put_get url size bs g r es μ : (∀ s, order s ≡ₚ elements s) → (∀ l, norder l ≡ₚ l) → fits url size bs g r es μ →
  NoDup (Fs_Index <$> bs) → StronglySorted (key_le Fs_Index) bs → Forall (λ b, lenZ (Fs_Data b) < 2 ^ 63) bs →
  ∃ r', put_blocks_of url size bs r = (Ok (mkHttp 200 (bytes_of_string "OK")), r') ∧
    ∀ r2, reads_back r' r2 → ∃ r'', HandleGetFile order url r2 = (Ok (mkHttp 200 (mjoin (Fs_Data <$> bs)), None), r'').
Proof.
  intros Ho Hno Hfit Hix Hs Hlens. pose proof (fit_ids _ _ _ _ _ _ _ Hfit) as Hids. pose proof (fit_nodes _ _ _ _ _ _ _ Hfit) as Hne.
  pose proof (usable_ids _ _ (fit_usable _ _ _ _ _ _ _ Hfit)) as Hnids.
  destruct (put_stores url size bs g r es μ Ho Hno Hfit) as (ns & r' & E & Hr' & Hg & Hnm & Hns & Hnd & Hperm & Hrec & _ & _).
  pose proof (ready_storage _ _ _ Hr') as Hs'. destruct (added_file url size g μ (fit_added _ _ _ _ _ _ _ Hfit)) as (Hgid & _).
  set (μ' := put_meta bs g r μ) in *. exists r'. split; [exact E|]. intros r2 Hback.
  destruct (sorted_records (world r') ns bs μ' Hids Hix Hs Hnd Hperm Hrec) as [Hnum Hsorted].
  set (data := λ id, default [] (foldl (λ m b, <[Fs_Id b := Fs_Data b]> m) (∅ : gmap string (list Z)) bs !! id)).
  assert (∀ b, b ∈ bs → data (Fs_Id b) = Fs_Data b) as Hdata.
  { intros b Hb. unfold data. by rewrite (filled_lookup Fs_Id Fs_Data bs b). }
  destruct (GetFile_ok order Ho url r2 μ' g data (reads_back_stands _ _ _ Hback Hs') Hg) as (r'' & E'' & _); rewrite Hgid in *.
  { exact Hnum. }
  { apply Forall_forall. intros i Hi. rewrite Forall_forall in Hlens.
    destruct (record_of (world r') ns bs μ' i Hnd Hperm Hrec Hi) as (b & Hb & Hri). pose proof Hri as (Eid & _).
    rewrite Eid, (Hdata b Hb). split; [|by apply Hlens]. eapply retrievable_recorded; [by rewrite Hnm| |exact Hri|exact Hback].
    rewrite Hnm. split; [by eapply targets_nonempty|]. intros n. by apply (targets_known 2). }
  exists r''. by rewrite <- (sent_bytes bs μ' data Hsorted Hdata).
Qed.

(** C20: TransportAndRegisterBlocks sends all blocks to the nodes with the least
  blocks used, as many as the replication factor, or to a single one when there are
  fewer nodes than that; every block gets one record with its index and, in the
  order of those nodes, the placement at which each of them stored its bytes; the
  records are stored and logged in one entry *)
Theorem blocks_go_to_the_least_used (fileID : string) (bs : list FsBlock) (rf : Z) r es μ :
  (∀ s, order s ≡ₚ elements s) → (∀ l, norder l ≡ₚ l) →
  ready r es μ → lenZ es + 2 < 2 ^ 64 → usable bs r → nodes (NodesMap_of r) ≠ ∅ → 1 ≤ rf → NoDup (Fs_Id <$> bs) →
  let infos := placed order norder fileID bs rf r in
  allowed (OPutBlocks infos) μ →
  let e := new_entry now (currentTerm (Cluster_of r)) (lenZ es) (Entry_ASSIGN_BLOCKS, placed_payload order norder r fileID bs rf) in
  short e →
  ∃ ns r', TransportAndRegisterBlocks order norder now always fileID bs rf r = (Ok tt, r') ∧
    targets rf (NodesMap_of r) ns ∧ stands (Storage_of r') (effect (OPutBlocks infos) μ) ∧ synced (Cluster_of r') (es ++ [e]) ∧
    Block_Id <$> infos ≡ₚ Fs_Id <$> bs ∧
    Forall (λ b, ∃ info, info ∈ infos ∧ recorded (world r') fileID ns b info) bs.
Proof.
  intros Ho Hno Hr Hroom Hus Hne Hrf Hids infos Hallow e Hshort.
  destruct (Transport_ok order Ho norder Hno now fileID bs rf r es μ Hr Hroom Hus Hne Hrf Hids Hallow Hshort)
    as (ns & r' & E & Hns & [Hs Hj _ _ _] & _ & _ & Hperm & Hall & _). by exists ns, r'.
Qed.


(** HandlePutFile of a body shorter than a block answers OK in every schedule,
  and once the sinks of the data nodes have run, HandleGetFile of the same path
  answers 200 with exactly that body *)
Theorem put_then_get (url : string) (body : list Z) (buffers : gmap nat (list Z)) (pool : list nat)
    (sched : list event) (late : list nat) (put : M R registry_error http_response) (g : FileInfo) r es μ :
  (∀ s, order s ≡ₚ elements s) → (∀ l, norder l ≡ₚ l) → body ≠ [] → lenZ body < blockSize →
  HandlePutFile order norder now always ids url (Some (body, false)) buffers pool sched late = Some put →
  ready r es μ → lenZ es + 3 < 2 ^ 64 → usable [only_sent body] r → nodes (NodesMap_of r) ≠ ∅ →
  file_at (Trim url) μ = None → blocks_of (ids 0) μ = [] →
  added (RRegisterFile (put_file url body)) μ = Some g → admissible KFile (m_files μ) g →
  allowed (OPutBlocks (placed order norder (ids 0) [only_sent body] 2 r)) μ →
  Forall short (entries_of now (currentTerm (Cluster_of r)) (lenZ es)
    [(Entry_ASSIGN_BLOCKS, placed_payload order norder r (ids 0) [only_sent body] 2);
     (Entry_ASSIGN_FILE, Marshal_msg (mkAssignFile (ID (Cluster_of r)) g))]) →
  ∃ r', put r = (Ok (mkHttp 200 (bytes_of_string "OK")), r') ∧
    ∀ w', dn_flushed (world r') w' →
    ∃ r'', HandleGetFile order url (mkRegistry (Cluster_of r') (NodesMap_of r') w') = (Ok (mkHttp 200 body, None), r'').
Proof.
  intros Ho Hno Hbody Hlen Hput Hr Hroom Hus Hne Hfree Hnone Hadd Hadm Hallow Hshort.
  destruct (put_get url (u64 (lenZ body)) [only_sent body] g r es μ Ho Hno) as (r' & E & Hget).
  { by split; [..|apply NoDup_singleton| | | | | |]. }
  { apply NoDup_singleton. }
  { by repeat constructor. }
  { apply Forall_singleton. cbn. pose proof blockSize_small. lia. }
  exists r'. split; [rewrite (HandlePutFile_small _ _ _ _ _ _ _ Hbody Hlen Hput); exact E|]. intros w' Hw'.
  destruct (Hget (mkRegistry (Cluster_of r') (NodesMap_of r') w')) as (r'' & E'').
  { split; [done|by left|]. intros id n Hn. by exists n. }
  exists r''. cbn in E''. by rewrite app_nil_r in E''.
Qed.

Lemma HandlePutFile_orderly url body buffers pool sched late s (put : M R registry_error http_response) : lenZ body < 2 ^ 62 →
  orderly_run ids sched (start_upload body false buffers pool) → upload_run ids sched (start_upload body false buffers pool) = Some s →
  HandlePutFile order norder now always ids url (Some (body, false)) buffers pool sched late = Some put →
  up_position s = Done ∧ put = put_blocks_of url (u64 (lenZ body)) (sent (ids 0) s).
Proof.
  intros Hlen Ho Hrun Hput. unfold HandlePutFile in Hput. rewrite Hrun in Hput. unfold mbind at 1, option_bind in Hput.
  destruct (up_position s) eqn:Epos; try done. split; [done|].
  destruct (orderly_sent ids body sched s (ids 0) buffers pool Hlen Ho Hrun Epos) as (Hpend & Hsize & _).
  destruct late as [|i late].
  - cbn [upload_run fmap list_fmap] in Hput. injection Hput as <-. by rewrite Hsize.
  - cbn [upload_run fmap list_fmap upload_step] in Hput. unfold run_block in Hput. by rewrite Hpend in Hput.
Qed.

End theorems.

(** ** Witnesses *)

Section witnesses.
#[local] Existing Instance bit_records.
#[local] Existing Instance bit_codecs.

(** two nodes with an empty partition each *)
Definition plain_nodes : DataNodes processes :=
  node_processes (λ l, l) (λ _, Fileutil.FallocOk) None (λ _, plain_probes) 0.
#[local] Existing Instance plain_nodes.
Definition plain_manager : Manager := mkManager (mkPartitionsMap {[ "p" := Some (empty_part []) ]} 0) false.
Definition plain_world : processes := {[ "h1" := process_at "h1" plain_manager; "h2" := process_at "h2" plain_manager ]}.
Definition plain_node (id address : string) (blocks : Z) : Node :=
  mkNode (mkNodeInfo id id address "" NodeInfo_NORMAL) (Some (mkMetrics blocks 0 1 0 0 0 0 0 0 0)) 0 address 0 false false.
Definition plain_map : NodesMap :=
  mkNodesMap {[ "n1" := plain_node "n1" "h1" 5; "n2" := plain_node "n2" "h2" 3 ]} (mkTransport ∅ false).
Definition plain_registry (s : small_storage) : Registry node_wal map_table (FileStorageBackend map_bolt) processes :=
  mkRegistry (small_cluster "a" "b" s) plain_map plain_world.
Definition plain_ids (n : nat) : string := match n with O => id_a | _ => id_b end.
Definition plain_body : list Z := [104; 105].
Definition plain_placed : list BlockInfo :=
  [mkBlockInfo id_b 1 0 id_a [mkPlacement "n2" "p"; mkPlacement "n1" "p"]].

Lemma plain_placed_ok s : placed by_name (λ l, l) id_a [only_sent plain_ids plain_body] 2 (plain_registry s) = plain_placed.
Proof. by vm_compute. Qed.

Lemma no_falloc_error (i : nat) : Fileutil.FallocOk ≠ Fileutil.FallocErr.
Proof. done. Qed.
Definition plain_laws : DataNodesLaws processes :=
  node_processes_laws no_order (λ l, Permutation_refl l) (λ l, l) (λ l, Permutation_refl l) (λ l, l) (λ l, Permutation_refl l)
    (λ _, Fileutil.FallocOk) no_falloc_error None (λ _, plain_probes) 0.
#[local] Existing Instance plain_laws.

Lemma plain_takes body : lenZ body ≤ defaultBlockSize → acceptable plain_manager [only_sent plain_ids body].
Proof.
  intros Hb. split.
  - apply NoDup_singleton.
  - intros b ->%list_elem_of_singleton. split; [|exact Hb]. apply (bool_decide_eq_true_1 _). by vm_compute.
  - intros b k p _ Hko. cbn in Hko. apply lookup_singleton_Some in Hko as [<- [= <-]]. by apply view_None.
  - intros k p Hko _. cbn in Hko. apply lookup_singleton_Some in Hko as [<- [= <-]]. by vm_compute.
  - by vm_compute.
Qed.

Lemma plain_node_inv : node_inv plain_manager.
Proof.
  split; [done|]. intros k o Hko. cbn in Hko. apply lookup_singleton_Some in Hko as [<- <-].
  exists (empty_part []). split_and!; [done|apply empty_part_inv|done|done].
Qed.

Lemma plain_usable s : usable [only_sent plain_ids plain_body] (plain_registry s).
Proof.
  split.
  - apply (bool_decide_eq_true_1 _). by vm_compute.
  - apply (bool_decide_eq_true_1 _). by vm_compute.
  - apply (bool_decide_eq_true_1 _). by vm_compute.
  - intros id n Hn. cbn in Hn.
    apply lookup_insert_Some in Hn as [[_ <-]|[_ [_ <-]%lookup_singleton_Some]]; eexists;
      (split; [reflexivity|split; [exact plain_node_inv|split; [by apply plain_takes|by vm_compute]]]).
Qed.

(** uploads from an empty registry *)
Lemma plain_ready_at s (w : processes) μ : stands s μ → ready (mkRegistry (small_cluster "a" "b" s) plain_map w) [] μ.
Proof.
  intros Hs. split; [done| |done|done|].
  - split; [exact (small_holds 0 ltac:(lia))|]. by split.
  - intros uid p l Hp. cbn [peers Cluster_of small_cluster] in Hp.
    by apply lookup_singleton_Some in Hp as [<- <-].
Qed.
Lemma plain_ready s : stands s no_meta → ready (plain_registry s) [] no_meta.
Proof. apply plain_ready_at. Qed.

Lemma plain_allowed s : allowed (OPutBlocks (placed by_name (λ l, l) id_a [only_sent plain_ids plain_body] 2 (plain_registry s))) no_meta.
Proof. rewrite plain_placed_ok. apply (bool_decide_eq_true_1 (Forall _ _)). by vm_compute. Qed.

Definition plain_entry : Entry := new_entry (λ _, 0) 1 0 (Entry_ASSIGN_BLOCKS, Marshal_msg (mkAssignBlocks "a" plain_placed "")).

Lemma plain_payload s : placed_payload by_name (λ l, l) (plain_registry s) id_a [only_sent plain_ids plain_body] 2 =
  Marshal_msg (mkAssignBlocks "a" plain_placed "").
Proof. unfold placed_payload. by rewrite plain_placed_ok. Qed.

Definition plain_file : FileInfo := with_ParentID "root" (put_file plain_ids "/a" plain_body).

Definition plain_entries : list Entry := entries_of (λ _, 0) 1 0
  [(Entry_ASSIGN_BLOCKS, Marshal_msg (mkAssignBlocks "a" plain_placed "")); (Entry_ASSIGN_FILE, Marshal_msg (mkAssignFile "a" plain_file))].

Lemma plain_entries_short : Forall short plain_entries.
Proof. apply (bool_decide_eq_true_1 (Forall (λ e, 0 ≤ lenZ (Marshal_msg e) < 2 ^ 64) plain_entries)). by vm_compute. Qed.

Lemma plain_entry_short : short plain_entry.
Proof. by pose proof plain_entries_short as [He _]%Forall_cons. Qed.

Lemma blocks_go_to_the_least_used_witness : ∃ s : small_storage, stands s no_meta ∧
  ∃ ns r', TransportAndRegisterBlocks by_name (λ l, l) (λ _, 0) always id_a [only_sent plain_ids plain_body] 2 (plain_registry s) = (Ok tt, r') ∧
    targets 2 plain_map ns ∧
    stands (Storage_of r') (effect (OPutBlocks (placed by_name (λ l, l) id_a [only_sent plain_ids plain_body] 2 (plain_registry s))) no_meta) ∧
    synced (Cluster_of r') [new_entry (λ _, 0) 1 0
      (Entry_ASSIGN_BLOCKS, placed_payload by_name (λ l, l) (plain_registry s) id_a [only_sent plain_ids plain_body] 2)] ∧
    Block_Id <$> placed by_name (λ l, l) id_a [only_sent plain_ids plain_body] 2 (plain_registry s) ≡ₚ [id_b] ∧
    Forall (λ b, ∃ info, info ∈ placed by_name (λ l, l) id_a [only_sent plain_ids plain_body] 2 (plain_registry s) ∧
      recorded (world r') id_a ns b info) [only_sent plain_ids plain_body].
Proof.
  destruct small_fresh as (s & _ & Hs). exists s. split; [exact Hs|].
  apply (blocks_go_to_the_least_used by_name (λ l, l) (λ _, 0) id_a [only_sent plain_ids plain_body] 2 (plain_registry s) [] no_meta).
  - exact by_name_perm.
  - done.
  - by apply plain_ready.
  - done.
  - apply plain_usable.
  - done.
  - done.
  - apply NoDup_singleton.
  - apply plain_allowed.
  - rewrite plain_payload. exact plain_entry_short.
Defined.

Lemma plain_schedule : ∃ put : M (Registry node_wal map_table (FileStorageBackend map_bolt) processes) registry_error http_response,
  HandlePutFile by_name (λ l, l) (λ _, 0) always plain_ids "/a" (Some (plain_body, false)) ∅ [] [Main 0; Main 0] [] = Some put.
Proof.
  destruct (small_ends plain_ids plain_body ∅ [] 0) as (s & E & Hs); [done|by apply Z.ltb_lt; vm_compute|done|].
  unfold HandlePutFile, mbind, option_bind. rewrite E, Hs. by eexists.
Qed.

Lemma put_then_get_witness : ∃ (s : small_storage) put, stands s no_meta ∧
  HandlePutFile by_name (λ l, l) (λ _, 0) always plain_ids "/a" (Some (plain_body, false)) ∅ [] [Main 0; Main 0] [] = Some put ∧
  ∃ r', put (plain_registry s) = (Ok (mkHttp 200 (bytes_of_string "OK")), r') ∧
    ∀ w', dn_flushed (world r') w' →
    ∃ r'', HandleGetFile by_name "/a" (mkRegistry (Cluster_of r') (NodesMap_of r') w') = (Ok (mkHttp 200 plain_body, None), r'').
Proof.
  destruct small_fresh as (s & _ & Hs), plain_schedule as [put Hput]. exists s, put. split; [exact Hs|]. split; [exact Hput|].
  apply (put_then_get by_name (λ l, l) (λ _, 0) plain_ids "/a" plain_body ∅ [] [Main 0; Main 0] [] put plain_file (plain_registry s) [] no_meta).
  - exact by_name_perm.
  - done.
  - done.
  - done.
  - exact Hput.
  - by apply plain_ready.
  - done.
  - apply plain_usable.
  - done.
  - done.
  - done.
  - by vm_compute.
  - apply (bool_decide_eq_true_1 _). by vm_compute.
  - apply plain_allowed.
  - rewrite plain_payload. exact plain_entries_short.
Defined.

Lemma plain_fits s : stands s no_meta → fits by_name (λ l, l) (λ _, 0) plain_ids "/a" 2 [only_sent plain_ids plain_body] plain_file (plain_registry s) [] no_meta.
Proof.
  intros Hs. split.
  - by apply plain_ready.
  - done.
  - apply plain_usable.
  - done.
  - apply NoDup_singleton.
  - done.
  - done.
  - by vm_compute.
  - apply (bool_decide_eq_true_1 _). by vm_compute.
  - apply plain_allowed.
  - unfold put_entries. rewrite plain_payload. exact plain_entries_short.
Qed.


(** a file of two blocks, each on a node of its own *)
Definition two_blocks : list BlockInfo :=
  [mkBlockInfo id_a 2 0 "1" [mkPlacement "n1" "p"; mkPlacement "n2" "p"]; mkBlockInfo id_b 1 0 "1" [mkPlacement "n2" "p"]].
Definition two_data (id : string) : list Z := if bool_decide (id = id_a) then [3; 4] else [1; 2].
Definition two_meta : meta := effect (OPutBlocks two_blocks) file_meta.
Definition holding (id : string) : Manager :=
  flush_all no_faults no_faults no_order (λ l, l)
    (Manager_WriteBlocks no_faults no_faults (λ l, l) (λ _, Fileutil.FallocOk) None [mkFsBlock id 0 "1" 0 2 (two_data id) []] plain_manager).2.
Definition two_registry (s : small_storage) : Registry node_wal map_table (FileStorageBackend map_bolt) processes :=
  mkRegistry (small_cluster "a" "b" s) plain_map {[ "h1" := process_at "h1" (holding id_a); "h2" := process_at "h2" (holding id_b) ]}.

Lemma two_stored : ∃ s : small_storage, stands s two_meta.
Proof.
  destruct file_stored as (s & Hs). destruct (PutBlocks_ok two_blocks s file_meta Hs) as (s' & _ & Hs'); [|by exists s'].
  apply (bool_decide_eq_true_1 (Forall _ _)). by vm_compute.
Qed.

Lemma holding_inv id : id = id_a ∨ id = id_b → node_inv (holding id).
Proof.
  intros Hid. apply (write_keeps no_order (λ l, Permutation_refl l) (λ l, l) (λ l, Permutation_refl l) (λ l, l) (λ l, Permutation_refl l)
    (λ _, Fileutil.FallocOk) no_falloc_error None [mkFsBlock id 0 "1" 0 2 (two_data id) []] plain_manager plain_node_inv); [|by vm_compute].
  split.
  - apply NoDup_singleton.
  - intros b ->%list_elem_of_singleton. destruct Hid as [->| ->]; (split; [apply (bool_decide_eq_true_1 _)|]; by vm_compute).
  - intros b k p _ Hko. cbn in Hko. apply lookup_singleton_Some in Hko as [<- [= <-]]. by apply view_None.
  - intros k p Hko _. cbn in Hko. apply lookup_singleton_Some in Hko as [<- [= <-]]. by vm_compute.
  - by vm_compute.
Qed.

Lemma holding_reads id : id = id_a ∨ id = id_b → node_reads id "p" (two_data id) (holding id).
Proof. intros [->| ->] ok err; by vm_compute. Qed.

End witnesses.
