(* ===== verification/FileStore.v ===== *)
(** * The store as its clients see it: paths and the bytes behind them

    A client puts files, reads them, removes them, and makes directories, policies and
    tokens; between its requests the sinks of the data nodes run, and the registry may
    be started again.  [serves] is the set of registries that come about this way, with
    the map of paths and bytes they stand for; the theorem reads every file of that map
    back. *)

From S2P Require Import Prelude GoSort GoStrings RandFile IdxFile Partition Manager Wal WalInv WalOpen WalSpec.
From S2P Require Import Messages MemDB Backend Storage StorageSpec Journal Cluster ClusterSpec NodesMap NodesSpec Registry.
From S2P Require Import Handlers Upload UploadOrder RegistrySpec PutGet.

(** ** Rows of other files *)

Lemma elem_of_blocks_of fileID μ b : b ∈ blocks_of fileID μ ↔ (∃ i, m_blocks μ !! i = Some b) ∧ Block_FileID b = fileID.
Proof. exact (elem_of_having (mkIndex false false Block_FileID) fileID (m_blocks μ) b). Qed.

Section rows.
Context {T : Type → Type} `{MemDBLaws T} {B : Type} `{BackendLaws B} `{RecordCodecs}.
Implicit Types (s : Storage T B) (μ : meta).

Lemma blocks_of_ids s fileID μ : stands s μ → NoDup (Block_Id <$> blocks_of fileID μ).
Proof.
  intros Hs. by destruct (drop_having KBlock (mkIndex false false Block_FileID) fileID (blocks_of fileID μ) (m_blocks μ)
    (stands_wf KBlock s μ Hs) (Permutation_refl _)) as (Hnd & _).
Qed.
Lemma block_row s fileID μ b : stands s μ → b ∈ blocks_of fileID μ → m_blocks μ !! Block_Id b = Some b ∧ Block_FileID b = fileID.
Proof.
  intros Hs [[i Hi] Hf]%elem_of_blocks_of. by rewrite (wf_pid KBlock _ (stands_wf KBlock s μ Hs) i b Hi : Block_Id b = i).
Qed.

(** the same blocks in two states *)
Lemma same_blocks s s' fileID μ μ' : stands s μ → stands s' μ' →
  (∀ b, Block_FileID b = fileID → m_blocks μ' !! Block_Id b = Some b ↔ m_blocks μ !! Block_Id b = Some b) →
  blocks_of fileID μ' ≡ₚ blocks_of fileID μ.
Proof.
  intros Hs Hs' Hb. apply NoDup_Permutation; [by eapply NoDup_fmap_1, blocks_of_ids..|].
  assert (∀ s0 μ0 b, stands s0 μ0 → b ∈ blocks_of fileID μ0 ↔ m_blocks μ0 !! Block_Id b = Some b ∧ Block_FileID b = fileID) as Hrow.
  { intros s0 μ0 b Hst. split; [by eapply block_row|]. intros [? ?]. apply elem_of_blocks_of. eauto. }
  intros b. rewrite (Hrow s' μ'), (Hrow s μ) by done. split; intros [? ?]; (split; [by apply Hb|done]).
Qed.
End rows.

Lemma sorted_blocks_same fileID μ μ' : numbered_blocks fileID μ → blocks_of fileID μ' ≡ₚ blocks_of fileID μ →
  numbered_blocks fileID μ' ∧ sorted_blocks fileID μ' = sorted_blocks fileID μ.
Proof.
  intros Hn Hp. assert (numbered_blocks fileID μ') as Hn' by (unfold numbered_blocks; by rewrite Hp). split; [done|].
  assert (∀ μ0, StronglySorted (key_le Block_Index) (sorted_blocks fileID μ0)) as Hsort.
  { intros μ0. unfold sorted_blocks. by destruct (sort_by_ok (E:=storage_error) Block_Index (blocks_of fileID μ0)) as (l & -> & _ & Hl). }
  apply (sorted_unique Block_Index); [by rewrite sorted_blocks_perm|by rewrite !sorted_blocks_perm|apply Hsort..].
Qed.

(** ** What the registry keeps of a file *)

Section kept.
Context {J : Type} `{JournalLaws J} {T : Type → Type} `{MemDBLaws T} {B : Type} `{BackendLaws B}.
Context {W : Type} `{DataNodesLaws W} `{RecordCodecs} `{EntryCodecs}.
Context (order : gset string → list string) (order_perm : ∀ s, order s ≡ₚ elements s).
Local Abbreviation R := (Registry J T B W).
Implicit Types (r : R) (μ : meta) (D : list string).

(** the placement is on a known node and reads as [data] *)
Definition found_at r (id : string) (data : list Z) (pl : BlockInfo_Placement) : Prop :=
  ∃ n, nodes (NodesMap_of r) !! Placement_NodeID pl = Some n ∧ dn_reads (conn n) id (Placement_PartitionID pl) data (world r).

(** every placement of a block, each on a node of its own *)
Record kept r (b : BlockInfo) (data : list Z) : Prop := {
  kp_placed : Block_Blocks b ≠ [];
  kp_nodes : NoDup (Placement_NodeID <$> Block_Blocks b);
  kp_reads : Forall (found_at r (Block_Id b) data) (Block_Blocks b);
  kp_data : data ≠ [];
  kp_len : lenZ data < 2 ^ 63;
}.

(** the file at [path] has these bytes *)
Definition readable r μ (path : string) (body : list Z) : Prop := ∃ f (data : string → list Z),
  m_files μ !! File_Id f = Some f ∧ File_Path f = path ∧ numbered_blocks (File_Id f) μ ∧
  (sorted_blocks (File_Id f) μ ≫= λ b, data (Block_Id b)) = body ∧
  Forall (λ b, kept r b (data (Block_Id b))) (blocks_of (File_Id f) μ).

(** from [r] to [r2] nodes keep their connections and blocks but those of [D] *)
Record moved D r r2 : Prop := {
  mv_nodes : ∀ id n, nodes (NodesMap_of r) !! id = Some n → ∃ n', nodes (NodesMap_of r2) !! id = Some n' ∧ conn n' = conn n;
  mv_reads : ∀ a id part data, id ∉ D → dn_reads a id part data (world r) → dn_reads a id part data (world r2);
}.

Lemma moved_same D r r2 : NodesMap_of r2 = NodesMap_of r → world r2 = world r → moved D r r2.
Proof using. intros Hn Hw. split; [rewrite Hn; eauto|by rewrite Hw]. Qed.
Lemma moved_trans D r1 r2 r3 : moved D r1 r2 → moved D r2 r3 → moved D r1 r3.
Proof using.
  intros [Hn1 Hr1] [Hn2 Hr2]. split.
  - intros id n Hn. destruct (Hn1 id n Hn) as (n' & Hn' & <-). by apply Hn2.
  - intros a id part data Hid Hd. by apply Hr2, Hr1.
Qed.

Lemma kept_moved D r r2 b data : moved D r r2 → Block_Id b ∉ D → kept r b data → kept r2 b data.
Proof using.
  intros [Hn Hr] Hb [Hp Hnd Hreads Hd Hl]. split; try done. eapply Forall_impl; [exact Hreads|].
  intros pl (n & Hnode & Hdata). destruct (Hn _ n Hnode) as (n' & Hnode' & Hconn). exists n'. split; [done|].
  rewrite Hconn. by apply Hr.
Qed.

(** a file that a step does not touch *)
Lemma readable_moved D r r2 μ μ2 path body : moved D r r2 → stands (Storage_of r) μ → stands (Storage_of r2) μ2 →
  (∀ f, m_files μ !! File_Id f = Some f → File_Path f = path →
    m_files μ2 !! File_Id f = Some f ∧ blocks_of (File_Id f) μ2 ≡ₚ blocks_of (File_Id f) μ ∧
    ∀ b, b ∈ blocks_of (File_Id f) μ → Block_Id b ∉ D) →
  readable r μ path body → readable r2 μ2 path body.
Proof using.
  intros Hmv Hs Hs2 Hf (f & data & Hrow & Hpath & Hnum & Hbody & Hkept). destruct (Hf f Hrow Hpath) as (Hrow2 & Hperm & Hout).
  destruct (sorted_blocks_same _ _ _ Hnum Hperm) as [Hnum2 Esort].
  exists f, data. split_and!; [done..|by rewrite Esort|]. rewrite Hperm. rewrite Forall_forall in Hkept |- *. intros b Hb.
  eapply kept_moved; [exact Hmv|by apply Hout|by apply Hkept].
Qed.

Lemma readable_at r μ path body : stands (Storage_of r) μ → readable r μ path body → is_Some (file_at path μ).
Proof using. intros Hs (f & data & Hf & <- & _). exists f. by apply (stored_file_at (Storage_of r)). Qed.

Lemma kept_retrievable r b data : kept r b data → retrievable r data b ∧ lenZ data < 2 ^ 63.
Proof using.
  intros [Hp _ Hr _ Hl]. split; [|done]. destruct (Block_Blocks b) as [|pl pls] eqn:E; [done|].
  apply Forall_cons in Hr as [(n & Hn & Hd) _]. by exists pl, pls, n.
Qed.

Lemma readable_get r μ path body : stands (Storage_of r) μ → readable r μ (Trim path) body →
  ∃ r', HandleGetFile order path r = (Ok (mkHttp 200 body, None), r') ∧ only_reads r r'.
Proof using order_perm.
  intros Hs (f & data & Hf & Hpath & Hnum & <- & Hkept).
  apply (GetFile_ok order order_perm path r μ f data Hs); [|exact Hnum|].
  - rewrite <- Hpath. by apply (stored_file_at (Storage_of r)).
  - eapply Forall_impl; [exact Hkept|]. intros b. apply kept_retrievable.
Qed.

Lemma missing_get r μ path : stands (Storage_of r) μ → file_at (Trim path) μ = None →
  HandleGetFile order path r = (Ok (mkHttp 404 [], Some ErrNoSuchFileOrDirectory), r).
Proof using.
  intros Hs Hf. assert (GetFileHandler order (Trim path) r = (Err ErrNoSuchFileOrDirectory, r)) as E.
  { unfold GetFileHandler. by rewrite (bind_ok _ _ _ _ _ (on_storage_read _ _ _ (GetFileByPath_ok _ _ _ Hs))), Hf. }
  unfold HandleGetFile. by rewrite (bind_ok _ _ r (inr ErrNoSuchFileOrDirectory) r) by (unfold attempt; by rewrite E).
Qed.
End kept.

(** ** An upload *)

Section put.
Context {J : Type} `{JournalLaws J} {T : Type → Type} `{MemDBLaws T} {B : Type} `{BackendLaws B}.
Context {W : Type} `{DataNodesLaws W} `{RecordCodecs} `{EntryCodecs}.
Context (order : gset string → list string) (order_perm : ∀ s, order s ≡ₚ elements s).
Context (norder : list (Node * list FsBlock) → list (Node * list FsBlock)) (norder_perm : ∀ l, norder l ≡ₚ l).
Context (now : Entry_Type → Z) (ids : nat → string).
Local Abbreviation R := (Registry J T B W).
Implicit Types (r : R) (μ : meta) (es : list Entry) (bs : list FsBlock) (ns : list Node).

(** identifiers that nothing has yet *)
Record new_ids bs μ : Prop := {
  new_file : m_files μ !! ids 0 = None;
  new_blocks : Forall (λ b, m_blocks μ !! Fs_Id b = None) bs;
}.

(** the entry for the blocks *)
Definition block_entry bs r es : Entry :=
  new_entry now (currentTerm (Cluster_of r)) (lenZ es) (Entry_ASSIGN_BLOCKS, placed_payload order norder r (ids 0) bs 2).

(** the registry once the sinks of the data nodes have run *)
Definition with_world (w : W) r : R := mkRegistry (Cluster_of r) (NodesMap_of r) w.

Lemma targets_ids r rf ns : map_Forall (λ id n, Node_Id (node_info n) = id) (nodes (NodesMap_of r)) →
  targets rf (NodesMap_of r) ns → NoDup ((λ n, Node_Id (node_info n)) <$> ns).
Proof using.
  intros Hids (l & Hl & _ & Hns). rewrite Hns. eapply sublist_NoDup; [|apply fmap_sublist, sublist_take]. rewrite Hl.
  rewrite <- list_fmap_compose, (list_fmap_ext _ fst); [apply NoDup_fst_map_to_list|].
  intros i [id n] Hi%list_elem_of_lookup_2%elem_of_map_to_list. exact (Hids id n Hi).
Qed.

(** a block that was sent is kept once the sinks have run *)
Lemma recorded_kept r r' ns b info w : map_Forall (λ id n, Node_Id (node_info n) = id) (nodes (NodesMap_of r)) →
  ns ≠ [] → targets 2 (NodesMap_of r) ns → recorded (world r') (ids 0) ns b info → NodesMap_of r' = NodesMap_of r →
  dn_flushed (world r') w → Fs_Data b ≠ [] → lenZ (Fs_Data b) < 2 ^ 63 → kept (with_world w r') info (Fs_Data b).
Proof using.
  intros Hids Hne Hns (Hid & _ & _ & Hall) Hnm Hw Hd Hl. split; [..|done|done].
  - destruct Hall; [done|]. done.
  - replace (Placement_NodeID <$> Block_Blocks info) with ((λ n, Node_Id (node_info n)) <$> ns); [by apply (targets_ids r 2)|].
    clear -Hall. induction Hall as [|n pl ns pls [Hpl _] _ IH]; [done|]. cbn. by rewrite IH, Hpl.
  - rewrite Hid. apply Forall_forall. intros pl [i Hi]%list_elem_of_lookup.
    destruct (Forall2_lookup_r _ _ _ _ _ Hall Hi) as (n & Hn & Hpl & Hst).
    destruct (targets_known 2 (NodesMap_of r) ns n Hns (list_elem_of_lookup_2 _ _ _ Hn)) as [id Hnode]. exists n.
    cbn [with_world NodesMap_of world]. rewrite Hnm, Hpl, (Hids id n Hnode). split; [done|]. by eapply dn_flush_ok.
Qed.

(** the other files *)
Lemma sent_others (s s' : Storage T B) (infos : list BlockInfo) bs μ μ' fid : stands s μ → stands s' μ' → new_ids bs μ → fid ≠ ids 0 →
  m_blocks μ' = add_rows KBlock infos (m_blocks μ) → NoDup (Fs_Id <$> bs) → Block_Id <$> infos ≡ₚ Fs_Id <$> bs →
  Forall (λ i, Block_FileID i = ids 0) infos →
  blocks_of fid μ' ≡ₚ blocks_of fid μ ∧ ∀ b, b ∈ blocks_of fid μ → Block_Id b ∉ Fs_Id <$> bs.
Proof using.
  intros Hs Hs' [_ Hnew] Hne Hb Hnd Hperm Hinfos. assert (NoDup (Block_Id <$> infos)) as Hnd' by by rewrite Hperm.
  destruct (add_rows_spec infos (m_blocks μ) Hnd') as [Hin Hout]. pose proof (proj1 (Forall_forall _ _) Hnew) as Hnone0. pose proof (proj1 (Forall_forall _ _) Hinfos) as Hfids.
  assert (∀ id, id ∈ Fs_Id <$> bs → m_blocks μ !! id = None) as Hnone by (intros id (b & -> & Hbs)%list_elem_of_fmap; by apply Hnone0).
  split.
  - apply (same_blocks s s'); [done..|]. intros b Hfid. rewrite Hb.
    destruct (decide (Block_Id b ∈ Block_Id <$> infos)) as [Hi|Hni].
    + pose proof Hi as (c & Ec & Hc)%list_elem_of_fmap. rewrite Hperm in Hi. specialize (Hnone _ Hi). split; intros E; [|congruence].
      rewrite Ec in E. pose proof (eq_trans (eq_sym E) (Hin c Hc)) as Ebc. injection Ebc as ->. destruct Hne. rewrite <- Hfid. by apply Hfids.
    + pose proof (Hout _ Hni) as E. cbn in E |- *. by rewrite E.
  - intros b Hbf Hi. destruct (block_row _ _ _ _ Hs Hbf) as [Hrow _]. rewrite (Hnone _ Hi) in Hrow. done.
Qed.

Lemma put_ok url size bs g r es μ : fits order norder now ids url size bs g r es μ → new_ids bs μ →
  NoDup (Fs_Index <$> bs) → StronglySorted (key_le Fs_Index) bs → Forall (λ b, Fs_Data b ≠ [] ∧ lenZ (Fs_Data b) < 2 ^ 63) bs →
  ∃ r', put_blocks_of order norder now ids url size bs r = (Ok (mkHttp 200 (bytes_of_string "OK")), r') ∧
    ∀ w, dn_flushed (world r') w → let r2 := with_world w r' in let μ2 := put_meta order norder ids bs g r μ in
      ready r2 (es ++ put_entries order norder now ids bs g r es) μ2 ∧ readable r2 μ2 (Trim url) (mjoin (Fs_Data <$> bs)) ∧
      ∀ path body, readable r μ path body → readable r2 μ2 path body.
Proof using order_perm norder_perm.
  intros Hfit [Hnf Hnb] Hix Hsort Hdata. pose proof (fit_ids _ _ _ _ _ _ _ _ _ _ _ Hfit) as Hids.
  pose proof (usable_ids _ _ (fit_usable _ _ _ _ _ _ _ _ _ _ _ Hfit)) as Hnids.
  pose proof (ready_storage _ _ _ (fit_ready _ _ _ _ _ _ _ _ _ _ _ Hfit)) as Hs.
  destruct (added_file ids url size g μ (fit_added _ _ _ _ _ _ _ _ _ _ _ Hfit)) as (Hgid & Hgpath & _).
  destruct (put_stores order norder now ids url size bs g r es μ order_perm norder_perm Hfit)
    as (ns & r' & E & Hr' & Hg & Hnm & Hns & Hnd & Hperm & Hrec & Hinfos & Hkeep).
  exists r'. split; [exact E|]. intros w Hw r2 μ2. fold μ2 in Hr', Hg, Hnd, Hperm, Hrec, Hinfos.
  assert (ready r2 (es ++ put_entries order norder now ids bs g r es) μ2) as Hr2 by (destruct Hr'; by split).
  pose proof (ready_storage _ _ _ Hr2) as Hs2. split; [exact Hr2|]. split.
  - destruct (sorted_records ids (world r') ns bs μ2 Hids Hix Hsort Hnd Hperm Hrec) as [Hnum Esort].
    set (data := λ id, default [] (foldl (λ m b, <[Fs_Id b := Fs_Data b]> m) (∅ : gmap string (list Z)) bs !! id)).
    assert (∀ b, b ∈ bs → data (Fs_Id b) = Fs_Data b) as Hd.
    { intros b Hb. unfold data. by rewrite (filled_lookup Fs_Id Fs_Data bs b). }
    exists g, data. rewrite Hgid. split_and!; [|done|exact Hnum| |].
    + rewrite <- Hgid. by apply (found_file (Trim url) (Storage_of r2)).
    + by apply sent_bytes.
    + apply Forall_forall. intros i Hi. destruct (record_of ids (world r') ns bs μ2 i Hnd Hperm Hrec Hi) as (b & Hb & Hri).
      rewrite Forall_forall in Hdata. destruct (Hdata b Hb) as [Hne Hlen]. pose proof Hri as (Eid & _). rewrite Eid, (Hd b Hb).
      eapply (recorded_kept r); try done. eapply targets_nonempty; [exact Hns| |lia]. apply (fit_nodes _ _ _ _ _ _ _ _ _ _ _ Hfit).
  - intros path body. apply (readable_moved (Fs_Id <$> bs)); [|done|done|].
    + split; [change (NodesMap_of r2) with (NodesMap_of r'); rewrite Hnm; eauto|]. intros a id part d Hid Hr. eapply dn_flush_ok; [by apply Hkeep|exact Hw].
    + intros f Hf _. assert (File_Id f ≠ ids 0) as Hne by (intros Ef; rewrite Ef, Hnf in Hf; done). split.
      * cbn. rewrite lookup_insert_ne; [done|]. by rewrite Hgid.
      * apply (sent_others (Storage_of r) (Storage_of r2) (placed order norder (ids 0) bs 2 r) bs); [done|done|by split|done|done|done|by rewrite <- Hinfos|].
        rewrite <- Hinfos. apply Forall_forall. intros i Hi. by destruct (block_row _ _ _ _ Hs2 Hi) as [_ Hfid].
Qed.

(** what an upload to a path that is taken asks of the registry *)
Record conflicts (url : string) bs r es μ : Prop := {
  cf_ready : ready r es μ;
  cf_room : lenZ es + 2 < 2 ^ 64;
  cf_usable : usable bs r;
  cf_nodes : nodes (NodesMap_of r) ≠ ∅;
  cf_ids : NoDup (Fs_Id <$> bs);
  cf_path : is_Some (file_at (Trim url) μ);
  cf_placed : allowed (OPutBlocks (placed order norder (ids 0) bs 2 r)) μ;
  cf_short : short (block_entry bs r es);
}.

(** it is refused, after its blocks were sent and registered *)
Lemma put_conflict url size bs r es μ : conflicts url bs r es μ → new_ids bs μ →
  ∃ r', put_blocks_of order norder now ids url size bs r = (Ok (mkHttp 409 []), r') ∧
    ∀ w, dn_flushed (world r') w → let r2 := with_world w r' in let μ2 := effect (OPutBlocks (placed order norder (ids 0) bs 2 r)) μ in
      ready r2 (es ++ [block_entry bs r es]) μ2 ∧ ∀ path body, readable r μ path body → readable r2 μ2 path body.
Proof using order_perm norder_perm.
  intros [Hr Hroom Hus Hne Hids [f0 Hf0] Hallow Hshort] Hnew. pose proof (ready_storage _ _ _ Hr) as Hs.
  destruct (Transport_ok order order_perm norder norder_perm now (ids 0) bs 2 r es μ Hr Hroom Hus Hne ltac:(lia) Hids Hallow Hshort)
    as (ns & r1 & E1 & _ & Hr1 & _ & Hnm & Hperm & Hrec & Hkeep).
  set (infos := placed order norder (ids 0) bs 2 r) in *. exists r1. split.
  - unfold put_blocks_of. erewrite bind_ok by (unfold ignore_err; by rewrite E1).
    assert (RegisterFile order now always (uploaded_file ids url size) r1 = (Err ErrFileExists, r1)) as E2.
    { unfold RegisterFile. rewrite (bind_ok _ _ _ _ _ (on_storage_read _ _ _ (GetFileByPath_ok _ _ _ (ready_storage _ _ _ Hr1)))).
      change (file_at (File_Path (uploaded_file ids url size)) (effect (OPutBlocks infos) μ)) with (file_at (Trim url) μ). by rewrite Hf0. }
    by erewrite bind_ok by (unfold attempt; by rewrite E2).
  - intros w Hw r2 μ2. assert (ready r2 (es ++ [block_entry bs r es]) μ2) as Hr2 by (destruct Hr1; by split).
    split; [exact Hr2|]. pose proof (ready_storage _ _ _ Hr2) as Hs2. intros path body.
    apply (readable_moved (Fs_Id <$> bs)); [|done|done|].
    + split; [change (NodesMap_of r2) with (NodesMap_of r1); rewrite Hnm; eauto|]. intros a id part d Hid Hd. eapply dn_flush_ok; [by apply Hkeep|exact Hw].
    + intros f Hf _. split; [exact Hf|]. apply (sent_others (Storage_of r) (Storage_of r2) infos bs); try done.
      * intros Ef. rewrite Ef, (new_file _ _ Hnew) in Hf. done.
      * apply Forall_forall. intros i Hi. pose proof (list_elem_of_fmap_2 Block_Id _ _ Hi) as Hin. rewrite Hperm in Hin.
        apply list_elem_of_fmap in Hin as (b & Eb & Hb). rewrite Forall_forall in Hrec. destruct (Hrec b Hb) as (i' & Hi' & Eid & _ & Efid & _).
        assert (i = i') as ->; [|done]. apply (NoDup_fmap_inj Block_Id infos); [by rewrite Hperm|done|done|by rewrite Eb].
Qed.
End put.

(** ** A removal *)

Definition placements_of (b : BlockInfo) : list (string * BlockPlacementInfo) :=
  (λ p, (Placement_NodeID p, mkBPI (Block_Id b) (Placement_PartitionID p) false "")) <$> Block_Blocks b.

Lemma elem_of_placements id p (blocks : list BlockInfo) : p ∈ (filter (λ p, p.1 = id) (blocks ≫= placements_of)).*2 →
  ∃ b pl, b ∈ blocks ∧ pl ∈ Block_Blocks b ∧ Placement_NodeID pl = id ∧ p = mkBPI (Block_Id b) (Placement_PartitionID pl) false "".
Proof.
  intros ([i q] & -> & [Hi (b & (pl & [= -> ->] & Hpl)%list_elem_of_fmap & Hb)%list_elem_of_bind]%list_elem_of_filter)%list_elem_of_fmap.
  by exists b, pl.
Qed.

(** a node is asked once for each block *)
Lemma group_once id (blocks : list BlockInfo) : NoDup (Block_Id <$> blocks) →
  Forall (λ b, NoDup (Placement_NodeID <$> Block_Blocks b)) blocks →
  NoDup (BPI_BlockID <$> (filter (λ p, p.1 = id) (blocks ≫= placements_of)).*2).
Proof.
  induction blocks as [|b blocks IH]; intros Hnd Hb; [constructor|].
  cbn in Hnd. apply NoDup_cons in Hnd as [Hni Hnd]. apply Forall_cons in Hb as [Hb Hbs]. cbn [mbind list_bind].
  rewrite filter_app, !fmap_app. apply NoDup_app. split_and!; [|intros x Hx Hx'|by apply IH].
  - unfold placements_of. clear -Hb. induction (Block_Blocks b) as [|pl pls IH]; [constructor|].
    cbn in Hb. apply NoDup_cons in Hb as [Hni Hnd]. rewrite fmap_cons, filter_cons. case_decide as Hid; [|by apply IH].
    rewrite filter_none; [cbn; apply NoDup_singleton|]. intros q (pl' & -> & Hpl')%list_elem_of_fmap. cbn in Hid |- *. intros E.
    apply Hni. rewrite Hid, <- E. by apply list_elem_of_fmap_2.
  - apply list_elem_of_fmap in Hx as (p & -> & Hp), Hx' as (q & E & Hq).
    apply elem_of_placements in Hq as (c & pl & Hc & _ & _ & ->). cbn in E. apply Hni.
    apply list_elem_of_fmap in Hp as ([j p'] & -> & [_ (pl' & [= -> ->] & _)%list_elem_of_fmap]%list_elem_of_filter). cbn in E |- *.
    rewrite E. by apply list_elem_of_fmap_2.
Qed.

Section remove.
Context {J : Type} `{JournalLaws J} {T : Type → Type} `{MemDBLaws T} {B : Type} `{BackendLaws B}.
Context {W : Type} `{DataNodesLaws W} `{RecordCodecs} `{EntryCodecs}.
Context (order : gset string → list string) (order_perm : ∀ s, order s ≡ₚ elements s).
Context (now : Entry_Type → Z).
Local Abbreviation R := (Registry J T B W).
Implicit Types (r : R) (μ : meta) (es : list Entry) (D : list string).

(** each node at an address of its own *)
Definition own_addresses r : Prop := NoDup (conn <$> (map_to_list (nodes (NodesMap_of r))).*2).

Lemma conn_inj r i j n n' : own_addresses r → nodes (NodesMap_of r) !! i = Some n → nodes (NodesMap_of r) !! j = Some n' →
  conn n = conn n' → i = j.
Proof using.
  unfold own_addresses. rewrite <- list_fmap_compose. intros Hnd Hi Hj E.
  apply elem_of_map_to_list in Hi, Hj. pose proof (NoDup_fmap_inj (conn ∘ snd) _ (i, n) (j, n') Hnd Hi Hj E) as Ep. by injection Ep.
Qed.

(** the blocks of [f id] are on the node [id] *)
Definition held r D (f : string → list BlockPlacementInfo) (id : string) : Prop :=
  ∃ n, nodes (NodesMap_of r) !! id = Some n ∧ NoDup (BPI_BlockID <$> f id) ∧ (∀ p, p ∈ f id → BPI_BlockID p ∈ D) ∧
    Forall (λ p, ∃ data, data ≠ [] ∧ dn_reads (conn n) (BPI_BlockID p) (BPI_PartitionID p) data (world r)) (f id).

Lemma remove_all_moved D f l r : own_addresses r → NoDup l → Forall (held r D f) l →
  ∃ r1, for_each l (λ id, remove_from id (f id)) r = (Ok tt, r1) ∧ same_registry r r1 ∧ moved D r r1.
Proof using.
  revert r. induction l as [|id l IH]; intros r Hown Hnd Hl.
  { exists r. split; [done|]. split; [done|]. by apply moved_same. }
  apply NoDup_cons in Hnd as [Hni Hnd]. apply Forall_cons in Hl as [(n & Hn & Hids & HD & Hreads) Hl].
  destruct (dn_remove_ok (conn n) (f id) (world r) Hids Hreads) as (res & w & E & Hw).
  set (r1 := mkRegistry (Cluster_of r) (NodesMap_of r) w).
  assert (remove_from id (f id) r = (Ok tt, r1)) as E1.
  { unfold remove_from, on_nodes, GetNode, nodes_get, in_world, from_option, mbind, M_bind. cbn. rewrite Hn. cbn. by rewrite E. }
  destruct (IH r1 Hown Hnd) as (r2 & E2 & [Hc2 Hn2] & Hm2).
  { rewrite Forall_forall in Hl |- *. intros id' Hid'. destruct (Hl id' Hid') as (n' & Hn' & Hids' & HD' & Hreads'). exists n'.
    split_and!; [done..|]. eapply Forall_impl; [exact Hreads'|]. intros p (data & Hd & Hr). exists data. split; [done|].
    apply Hw; [|done]. right. intros Ec. apply Hni. by rewrite <- (conn_inj r id' id n' n Hown Hn' Hn Ec). }
  exists r2. cbn [for_each]. rewrite (bind_ok _ _ _ _ _ E1). split; [exact E2|]. split; [by split|].
  eapply moved_trans; [|exact Hm2]. split; [eauto|]. intros a i part data Hi Hr. apply Hw; [|done]. left.
  intros (p & -> & Hp)%list_elem_of_fmap. by apply Hi, HD.
Qed.

Lemma RemoveFileBlocks_moved f r μ : stands (Storage_of r) μ → m_files μ !! File_Id f = Some f → own_addresses r →
  Forall (λ b, ∃ data, kept r b data) (blocks_of (File_Id f) μ) →
  ∃ r1, RemoveFileBlocks order f r = (Ok tt, r1) ∧ moved (Block_Id <$> blocks_of (File_Id f) μ) r r1.
Proof using order_perm.
  intros Hs Hf Hown Hkept. set (D := Block_Id <$> blocks_of (File_Id f) μ). unfold RemoveFileBlocks.
  destruct (GetBlocks_ok (File_Id f) _ _ Hs) as (l & El & Hl & _).
  rewrite (bind_ok _ _ _ _ _ (on_storage_read _ _ _ El)). cbv zeta.
  change (l ≫= λ b, (λ p, (Placement_NodeID p, mkBPI (Block_Id b) (Placement_PartitionID p) false "")) <$> Block_Blocks b)
    with (l ≫= placements_of). set (bMap := group_placements _).
  assert (Forall (λ b, ∃ data, kept r b data) l) as Hkl by by rewrite Hl. rewrite Forall_forall in Hkl.
  destruct (remove_all_moved D (λ nodeId, default [] (bMap !! nodeId)) (order (dom bMap)) r Hown) as (r1 & E1 & [Hc Hn] & Hm).
  - rewrite order_perm. apply NoDup_elements.
  - apply Forall_forall. intros id Hid. rewrite order_perm, elem_of_elements in Hid. apply group_placements_dom in Hid.
    unfold held, bMap. rewrite group_placements_lookup, decide_True by done. cbn [default from_option].
    apply list_elem_of_fmap in Hid as ([i p] & -> & (b & (pl & [= -> ->] & Hpl)%list_elem_of_fmap & Hb)%list_elem_of_bind).
    destruct (Hkl b Hb) as [data Hk]. pose proof (kp_reads _ _ _ Hk) as Hreads. rewrite Forall_forall in Hreads.
    destruct (Hreads pl Hpl) as (n & Hnode & _). exists n. split_and!; [done|..].
    + apply group_once; [rewrite Hl; by eapply blocks_of_ids|]. apply Forall_forall. intros c Hc. by destruct (Hkl c Hc) as [? [? ? ?]].
    + intros q (c & pl' & Hc & _ & _ & ->)%elem_of_placements. cbn. unfold D. rewrite <- Hl. by apply list_elem_of_fmap_2.
    + apply Forall_forall. intros q (c & pl' & Hc & Hpl' & Eid & ->)%elem_of_placements. cbn.
      destruct (Hkl c Hc) as [data' [_ _ Hr' Hd' _]]. rewrite Forall_forall in Hr'. destruct (Hr' pl' Hpl') as (n' & Hn' & Hread).
      exists data'. split; [done|]. cbn in Eid. rewrite Eid in Hn'. by assert (n = n') as -> by congruence.
  - destruct (DeleteFileWithBlocks_ok f _ _ Hs Hf) as (s' & E & _).
    exists (store s' r1). split.
    + rewrite (bind_ok _ _ _ _ _ E1). unfold on_storage. replace (Storage_of r1) with (Storage_of r) by (unfold Storage_of; by rewrite Hc).
      by rewrite E.
    + eapply moved_trans; [exact Hm|by apply moved_same].
Qed.
End remove.

(** ** The other requests *)

Section requests.
Context {J : Type} `{JournalLaws J} {T : Type → Type} `{MemDBLaws T} {B : Type} `{BackendLaws B}.
Context {W : Type} `{DataNodesLaws W} `{RecordCodecs} `{EntryCodecs}.
Context (order : gset string → list string) (order_perm : ∀ s, order s ≡ₚ elements s).
Context (now : Entry_Type → Z).
Local Abbreviation R := (Registry J T B W).
Local Abbreviation RM := (M R registry_error).
Local Abbreviation files := (gmap string (list Z)).
Implicit Types (r : R) (μ : meta) (es : list Entry) (F : files).

Lemma apart_ignore (m : RM unit) : apart m → apart (ignore_err m).
Proof using. intros Hm r. specialize (Hm r). unfold ignore_err. by destruct (m r) as [[a|e|] r']. Qed.
Lemma apart_catch {A} (m : RM A) : apart m → apart (catch m).
Proof using. intros Hm r. specialize (Hm r). unfold catch. by destruct (m r) as [[a|e|] r']. Qed.
Lemma apart_accepted (m : RM CommonResponse) : apart m → apart (accepted m).
Proof using. intros Hm. apply apart_bind; [done|]. intros res. unfold guard_err. by case_match. Qed.

Lemma HandleMakeDir_apart uid path : apart (HandleMakeDir order now always uid path : RM CommonResponse).
Proof using.
  unfold HandleMakeDir. apply apart_bind; [apply apart_storage|]. intros [d|]; [done|].
  apply apart_bind; [case_bool_decide; [|done]; apply apart_bind; [apply apart_catch, apart_storage|done]|]. intros [id|]; [|done].
  apply apart_bind; [apply apart_storage|]. intros _. apply apart_bind; [apply apart_cluster|done].
Qed.

(** no request but a removal concerns the data nodes *)
Lemma reg_do_apart fuel o : match o with RRemoveFile _ => False | _ => True end → apart (reg_do order now fuel o : RM unit).
Proof using.
  intros Ho. destruct o as [f|uid path|path|uid name paths|name|token ms policies|accessor]; cbn [reg_do]; [..|done| | | |].
  - apply RegisterFile_apart.
  - apply apart_accepted, HandleMakeDir_apart.
  - unfold HandleCreatePolicy. cbv zeta. apply apart_bind; [apply apart_storage|]. intros _. apply apart_ignore, apart_cluster.
  - apply apart_bind; [|done]. unfold HandleDeletePolicy. apply apart_bind; [apply apart_storage|]. intros [p|]; [|done].
    apply apart_bind; [apply apart_storage|]. intros _. apply apart_bind; [apply apart_ignore, apart_cluster|done].
  - apply apart_bind; [|done]. unfold HandleCreateToken. cbv zeta. apply apart_bind; [apply apart_storage|]. intros _.
    apply apart_bind; [apply apart_ignore, apart_cluster|done].
  - unfold HandleRevokeToken. apply apart_bind; [apply apart_storage|]. intros [t|]; [|done].
    apply apart_bind; [apply apart_storage|]. intros _. apply apart_ignore, apart_cluster.
Qed.

Lemma removal_moved fuel path f r μ : stands (Storage_of r) μ → file_at (Trim path) μ = Some f → File_Type f = FileInfo_FILE →
  children (File_Id f) μ = [] → numbered_blocks (File_Id f) μ → own_addresses r →
  Forall (λ b, ∃ data, kept r b data) (blocks_of (File_Id f) μ) →
  moved (Block_Id <$> blocks_of (File_Id f) μ) r (reg_do order now (S fuel) (RRemoveFile path) r).2.
Proof using order_perm.
  intros Hs Hf Htype Hc Hn Hown Hkept. pose proof (found_file _ _ _ _ Hs Hf) as Hf'.
  destruct (RemoveFileBlocks_moved order order_perm f r μ Hs Hf' Hown Hkept) as (r1 & E1 & Hm).
  cbn [reg_do]. unfold accepted, HandleRemoveFileOrPath. rewrite bind_assoc.
  rewrite (bind_ok _ _ _ _ _ (on_storage_read _ _ _ (GetFileByPath_ok _ _ _ Hs))), Hf. rewrite bind_assoc.
  rewrite (bind_ok _ _ _ _ _ (on_storage_read _ _ _ (GetBlocks_numbered _ _ _ Hs Hn))). rewrite bind_assoc.
  rewrite (bind_ok _ _ r tt r) by by eapply killChildren_leaf. rewrite bool_decide_true, bind_assoc by done.
  rewrite (bind_ok _ _ _ _ _ E1). set (k := mbind _ _ : RM unit).
  assert (apart k) as Hk.
  { apply apart_accepted. apply apart_bind; [apply apart_cluster|]. intros _. apply apart_bind; [apply apart_cluster|done]. }
  destruct (Hk r1) as [Hn1 Hw1]. eapply moved_trans; [exact Hm|by apply moved_same].
Qed.

(** the files that a registry has *)
Record holds r μ F : Prop := {
  hd_read : ∀ path body, F !! path = Some body → readable r μ path body;
  hd_all : ∀ i f, m_files μ !! i = Some f → File_Type f = FileInfo_FILE → is_Some (F !! File_Path f);
}.

(** what a request leaves of them *)
Definition files_after (o : reg_op) F : files := match o with RRemoveFile path => delete (Trim path) F | _ => F end.

(** what it asks for; files come from uploads only *)
Record asks (o : reg_op) r es μ : Prop := {
  as_allowed : reg_allowed (dom (nodes (NodesMap_of r))) o μ;
  as_room : lenZ es + 3 < 2 ^ 64;
  as_short : Forall short (entries_of now (currentTerm (Cluster_of r)) (lenZ es) (payloads (ID (Cluster_of r)) o μ));
  as_kind : match o with RRegisterFile _ => False | RMakeDir uid _ => m_files μ !! uid = None | RRemoveFile _ => own_addresses r | _ => True end;
}.

Lemma holds_rest r r2 μ μ2 F : holds r μ F → stands (Storage_of r) μ → stands (Storage_of r2) μ2 →
  NodesMap_of r2 = NodesMap_of r → world r2 = world r → m_blocks μ2 = m_blocks μ →
  (∀ i f, m_files μ !! i = Some f → m_files μ2 !! i = Some f) →
  (∀ i f, m_files μ2 !! i = Some f → File_Type f = FileInfo_FILE → m_files μ !! i = Some f) → holds r2 μ2 F.
Proof using.
  intros [Hr Ha] Hs Hs2 Hn Hw Hb Hin Hout. split.
  - intros path body HF. eapply (readable_moved []); [by apply moved_same|exact Hs|exact Hs2| |by apply Hr].
    intros f Hf _. split_and!; [by apply Hin| |intros b _; apply not_elem_of_nil]. unfold blocks_of. by rewrite Hb.
  - intros i f Hf Ht. by apply (Ha i f), Ht; apply Hout.
Qed.

Lemma holds_removed r r2 μ f F : holds r μ F → stands (Storage_of r) μ → m_files μ !! File_Id f = Some f →
  stands (Storage_of r2) (effect (ODeleteFileWithBlocks f) μ) → moved (Block_Id <$> blocks_of (File_Id f) μ) r r2 →
  holds r2 (effect (ODeleteFileWithBlocks f) μ) (delete (File_Path f) F).
Proof using.
  intros [Hr Ha] Hs Hf Hs2 Hm. split.
  - intros path body [Hne HF]%lookup_delete_Some. eapply readable_moved; [exact Hm|exact Hs|exact Hs2| |by apply Hr].
    intros g Hg Hpath. assert (File_Id g ≠ File_Id f) as Hid.
    { intros E. rewrite E, Hf in Hg. injection Hg as <-. by apply Hne. }
    split_and!; [cbn; by rewrite lookup_delete_ne| |].
    + apply (same_blocks (Storage_of r) (Storage_of r2)); [done..|]. intros b Hb. cbn. rewrite map_lookup_filter_Some. cbn.
      split; [tauto|]. intros Hrow. split; [done|]. by rewrite Hb.
    + intros b Hb (c & Ec & Hc)%list_elem_of_fmap. apply Hid.
      destruct (block_row _ _ _ _ Hs Hb) as [Hrb <-], (block_row _ _ _ _ Hs Hc) as [Hrc <-]. rewrite Ec, Hrc in Hrb. by injection Hrb as ->.
  - intros i g Hg Ht. cbn in Hg. apply lookup_delete_Some in Hg as [Hne Hg]. destruct (Ha i g Hg Ht) as [body HF].
    exists body. rewrite lookup_delete_ne; [done|]. intros E. apply Hne.
    pose proof (stored_file_at (Storage_of r) μ f Hs Hf) as E1. rewrite E in E1.
    rewrite <- (stands_file_id _ _ _ _ Hs Hg) in Hg |- *. pose proof (stored_file_at (Storage_of r) μ g Hs Hg) as E2. congruence.
Qed.

Lemma request_ok fuel o r es μ F : ready r es μ → holds r μ F → asks o r es μ →
  ∃ r', reg_do order now (S fuel) o r = (Ok tt, r') ∧
    ready r' (es ++ entries_of now (currentTerm (Cluster_of r)) (lenZ es) (payloads (ID (Cluster_of r)) o μ)) (reg_effect o μ) ∧
    holds r' (reg_effect o μ) (files_after o F).
Proof using order_perm.
  intros Hr HF [Ha Hroom Hshort Hkind]. pose proof (ready_storage _ _ _ Hr) as Hs.
  destruct (reg_step_ok order order_perm now fuel o r es μ Hr Ha Hroom Hshort) as (r' & E & Hr' & _).
  exists r'. split; [exact E|]. split; [exact Hr'|]. pose proof (ready_storage _ _ _ Hr') as Hs'.
  assert (match o with RRemoveFile _ => False | _ => True end → NodesMap_of r' = NodesMap_of r ∧ world r' = world r) as Hapart.
  { intros Ho. pose proof (reg_do_apart (S fuel) o Ho r) as Hap. by rewrite E in Hap. }
  assert (match o with RRemoveFile _ | RMakeDir _ _ => False | _ => True end → holds r' (reg_effect o μ) F) as Hsame.
  { intros Ho. destruct Hapart as [Hn Hw]; [by destruct o|].
    assert (m_files (reg_effect o μ) = m_files μ ∧ m_blocks (reg_effect o μ) = m_blocks μ) as [Hf Hb]
      by (destruct o; cbn [reg_effect] in *; repeat case_match; done).
    eapply holds_rest; [exact HF|exact Hs|exact Hs'|done..| |]; intros i f; by rewrite Hf. }
  destruct o as [f|uid path|path|uid name paths|name|token ms policies|accessor]; cbn [files_after]; [done| | |by apply Hsame..].
  - destruct Hapart as [Hn Hw]; [done|]. destruct Ha as (_ & g & Hg & _). cbn [reg_effect] in *. rewrite Hg in *.
    assert (File_Id g = uid ∧ File_Type g = FileInfo_DIR) as [Hid Hdir] by (cbn in Hg; destruct (parent_of _ μ); by simplify_eq/=).
    eapply holds_rest; [exact HF|exact Hs|exact Hs'|done..| |]; intros i f; cbn; rewrite Hid.
    + intros Hf. rewrite lookup_insert_ne; [done|]. intros ->. congruence.
    + intros [[<- <-]|[_ Hf]]%lookup_insert_Some Ht; [congruence|done].
  - destruct Ha as (f & Hf & Htype & Hc & Hnum & _). pose proof (found_file _ _ _ _ Hs Hf) as Hf'.
    destruct (file_at_Some _ _ _ Hf) as [_ Hpath]. destruct (hd_all _ _ _ HF _ f Hf' Htype) as [body Hbody].
    destruct (hd_read _ _ _ HF _ _ Hbody) as (f2 & data & Hf2 & Hpath2 & _ & _ & Hkept).
    assert (f2 = f) as ->.
    { pose proof (stored_file_at (Storage_of r) μ f2 Hs Hf2) as E2. rewrite Hpath2, Hpath, Hf in E2. by injection E2. }
    cbn [reg_effect] in *. rewrite Hf in *. rewrite <- Hpath. apply (holds_removed r); [done..|].
    pose proof (removal_moved fuel path f r μ Hs Hf Htype Hc Hnum Hkind) as Hm. rewrite E in Hm. apply Hm.
    eapply Forall_impl; [exact Hkept|]. intros b Hb. by exists (data (Block_Id b)).
Qed.
End requests.

(** ** Registries that serve files *)

Section store.
Context {J : Type} `{JournalLaws J} {T : Type → Type} `{MemDBLaws T} {B : Type} `{BackendLaws B}.
Context {W : Type} `{DataNodesLaws W} `{RecordCodecs} `{EntryCodecs}.
Context (order : gset string → list string) (order_perm : ∀ s, order s ≡ₚ elements s).
Context (norder : list (Node * list FsBlock) → list (Node * list FsBlock)) (norder_perm : ∀ l, norder l ≡ₚ l).
Context (now : Entry_Type → Z).
Local Abbreviation R := (Registry J T B W).
Local Abbreviation files := (gmap string (list Z)).
Implicit Types (r : R) (μ : meta) (es : list Entry) (F : files).

(** a registry with its log, its metadata, and its files *)
Inductive serves : R → list Entry → meta → files → Prop :=
| serves_start r es μ : ready r es μ → (∀ i f, m_files μ !! i = Some f → File_Type f ≠ FileInfo_FILE) → serves r es μ ∅
| serves_put r es μ F (ids : nat → string) url body buffers pool sched late s put g res r' w : serves r es μ F →
    lenZ body < 2 ^ 62 → orderly_run ids sched (start_upload body false buffers pool) →
    upload_run ids sched (start_upload body false buffers pool) = Some s →
    HandlePutFile order norder now always ids url (Some (body, false)) buffers pool sched late = Some put →
    let bs := sent (ids 0%nat) s in
    fits order norder now ids url (u64 (lenZ body)) bs g r es μ → new_ids ids bs μ →
    put r = (res, r') → dn_flushed (world r') w →
    serves (with_world w r') (es ++ put_entries order norder now ids bs g r es) (put_meta order norder ids bs g r μ)
      (<[Trim url := body]> F)
| serves_conflict r es μ F (ids : nat → string) url body buffers pool sched late s put res r' w : serves r es μ F →
    lenZ body < 2 ^ 62 → orderly_run ids sched (start_upload body false buffers pool) →
    upload_run ids sched (start_upload body false buffers pool) = Some s →
    HandlePutFile order norder now always ids url (Some (body, false)) buffers pool sched late = Some put →
    let bs := sent (ids 0%nat) s in
    conflicts order norder now ids url bs r es μ → new_ids ids bs μ →
    put r = (res, r') → dn_flushed (world r') w →
    serves (with_world w r') (es ++ [block_entry order norder now ids bs r es]) (effect (OPutBlocks (placed order norder (ids 0%nat) bs 2 r)) μ) F
| serves_get r es μ F path res r' : serves r es μ F → is_Some (F !! Trim path) →
    HandleGetFile order path r = (res, r') → serves r' es μ F
| serves_request r es μ F fuel o res r' : serves r es μ F → asks now o r es μ →
    reg_do order now (S fuel) o r = (res, r') →
    serves r' (es ++ entries_of now (currentTerm (Cluster_of r)) (lenZ es) (payloads (ID (Cluster_of r)) o μ))
      (reg_effect o μ) (files_after o F)
| serves_again r es μ F r2 es2 : serves r es μ F → reads_back r r2 → ready r2 es2 μ → serves r2 es2 μ F.

Lemma put_holds ids url size bs g r es μ F body : fits order norder now ids url size bs g r es μ → new_ids ids bs μ →
  NoDup (Fs_Index <$> bs) → StronglySorted (key_le Fs_Index) bs → Forall (λ b, Fs_Data b ≠ [] ∧ lenZ (Fs_Data b) < 2 ^ 63) bs →
  mjoin (Fs_Data <$> bs) = body → holds r μ F →
  ∃ r', put_blocks_of order norder now ids url size bs r = (Ok (mkHttp 200 (bytes_of_string "OK")), r') ∧
    ∀ w, dn_flushed (world r') w → let r2 := with_world w r' in let μ2 := put_meta order norder ids bs g r μ in
      ready r2 (es ++ put_entries order norder now ids bs g r es) μ2 ∧ holds r2 μ2 (<[Trim url := body]> F).
Proof using order_perm norder_perm.
  intros Hfit Hnew Hix Hsort Hdata <- [Hread Hall].
  destruct (added_file ids url size g μ (fit_added _ _ _ _ _ _ _ _ _ _ _ Hfit)) as (Hgid & Hgpath & _).
  destruct (put_ok order order_perm norder norder_perm now ids url size bs g r es μ Hfit Hnew Hix Hsort Hdata) as (r' & E & Hr').
  exists r'. split; [exact E|]. intros w Hw r2 μ2. destruct (Hr' w Hw) as (Hr2 & Hfile & Hothers). split; [exact Hr2|]. split.
  - intros path body [[<- <-]|[_ HF]]%lookup_insert_Some; [exact Hfile|]. by apply Hothers, Hread.
  - intros i f Hf Ht. cbn in Hf. apply lookup_insert_Some in Hf as [[_ <-]|[_ Hf]].
    + rewrite Hgpath, lookup_insert_eq. by eexists.
    + destruct (Hall i f Hf Ht) as [body HF]. rewrite lookup_insert. case_decide; by eexists.
Qed.

Lemma serves_holds r es μ F : serves r es μ F → ready r es μ ∧ holds r μ F.
Proof using order_perm norder_perm.
  induction 1 as [r es μ Hr Hnone|r es μ F ids url body buffers pool sched late s put g res r' w _ [Hr HF] Hlen Ho Hrun Hput bs Hfit Hnew E Hw
    |r es μ F ids url body buffers pool sched late s put res r' w _ [Hr HF] Hlen Ho Hrun Hput bs Hfit Hnew E Hw
    |r es μ F path res r' _ [Hr HF] [body Hbody] E|r es μ F fuel o res r' _ [Hr HF] Ha E|r es μ F r2 es2 _ [Hr HF] Hback Hr2].
  - split; [done|]. split; [intros path body HF; by rewrite lookup_empty in HF|]. intros i f Hf Ht. by destruct (Hnone i f Hf).
  - destruct (HandlePutFile_orderly order norder now ids url body buffers pool sched late s put Hlen Ho Hrun Hput) as [Hd ->].
    destruct (orderly_sent ids body sched s (ids 0%nat) buffers pool Hlen Ho Hrun Hd) as (_ & _ & Hbody & _ & Hix & Hlens).
    destruct (put_holds ids url (u64 (lenZ body)) bs g r es μ F body Hfit Hnew) as (r1 & E1 & Hw1); [..|exact Hbody|exact HF|].
    + unfold bs. rewrite Hix. apply NoDup_seqZ.
    + apply (sorted_by_key Fs_Index). unfold bs. rewrite Hix. apply seqZ_sorted.
    + eapply Forall_impl; [exact Hlens|]. intros b [El Hb]. cbn in El, Hb. pose proof blockSize_small. split; [|lia].
      intros Hnil. rewrite Hnil in El. cbn in El. lia.
    + pose proof (eq_trans (eq_sym E1) E) as E2. injection E2 as _ <-. by apply Hw1.
  - destruct (HandlePutFile_orderly order norder now ids url body buffers pool sched late s put Hlen Ho Hrun Hput) as [_ ->].
    destruct (put_conflict order order_perm norder norder_perm now ids url (u64 (lenZ body)) bs r es μ Hfit Hnew) as (r1 & E1 & Hw1).
    pose proof (eq_trans (eq_sym E1) E) as E2. injection E2 as _ <-. destruct (Hw1 w Hw) as [Hr2 Hread]. split; [exact Hr2|].
    destruct HF as [Hin Hall]. split; [|exact Hall]. intros p b Hp. by apply Hread, Hin.
  - destruct (readable_get order order_perm r μ path body (ready_storage _ _ _ Hr) (hd_read _ _ _ HF _ _ Hbody)) as (r1 & E1 & [Hc Hn Hw]).
    rewrite E1 in E. injection E as _ <-.
    assert (Storage_of r1 = Storage_of r) as Est by (unfold Storage_of; by rewrite Hc).
    split; [destruct Hr; split; rewrite ?Est, ?Hc; done|]. destruct HF as [Hread Hall]. split; [|exact Hall].
    intros p b Hp. eapply (readable_moved []); [|exact (ready_storage _ _ _ Hr)|rewrite Est; exact (ready_storage _ _ _ Hr)| |by apply Hread].
    + split; [rewrite Hn; eauto|]. intros a id part data _. apply Hw.
    + intros f Hf _. split_and!; [done..|]. intros c _. apply not_elem_of_nil.
  - destruct (request_ok order order_perm now fuel o r es μ F Hr HF Ha) as (r1 & E1 & Hr1 & HF1). rewrite E1 in E. by injection E as _ <-.
  - split; [exact Hr2|]. destruct HF as [Hread Hall]. split; [|exact Hall]. intros p b Hp.
    eapply (readable_moved []); [|exact (ready_storage _ _ _ Hr)|exact (ready_storage _ _ _ Hr2)| |by apply Hread].
    + split; [apply Hback|]. intros a id part data _ Hd. eapply dn_flush_ok; [by apply dn_stored_reads|apply Hback].
    + intros f Hf _. split_and!; [done..|]. intros c _. apply not_elem_of_nil.
Qed.

End store.

(** ** Witness: a file that is put, read after a restart, and removed *)

Section witnesses.
#[local] Existing Instance bit_records.
#[local] Existing Instance bit_codecs.
#[local] Existing Instance plain_nodes.
#[local] Existing Instance plain_laws.
Local Abbreviation plain_serves := (serves (J := node_wal) (T := map_table) (B := FileStorageBackend map_bolt) (W := processes)
  by_name (λ l, l) (λ _, 0)).
Local Abbreviation plain_R := (Registry node_wal map_table (FileStorageBackend map_bolt) processes).
Local Abbreviation restarted s w := (mkRegistry (small_cluster "a" "b" s) plain_map w).

Definition plain_meta : meta := effect (OStoreFile plain_file) (effect (OPutBlocks plain_placed) no_meta).

Lemma plain_put_meta s : put_meta by_name (λ l, l) plain_ids [only_sent plain_ids plain_body] plain_file (plain_registry s) no_meta = plain_meta.
Proof. unfold put_meta, plain_meta. change (plain_ids 0%nat) with id_a. by rewrite plain_placed_ok. Qed.

(** the nodes that a registry knows after an upload *)
Lemma put_same_nodes ids url size bs g (r r' : plain_R) es μ res : fits by_name (λ l, l) (λ _, 0) ids url size bs g r es μ →
  put_blocks_of by_name (λ l, l) (λ _, 0) ids url size bs r = (res, r') → NodesMap_of r' = NodesMap_of r.
Proof.
  intros Hfit E. destruct (put_stores by_name (λ l, l) (λ _, 0) ids url size bs g r es μ by_name_perm (λ l, Permutation_refl l) Hfit)
    as (ns & r1 & E1 & _ & _ & Hnm & _). rewrite E1 in E. by injection E as _ <-.
Qed.

Lemma plain_file_served : ∃ s w, plain_serves (restarted s w) [] plain_meta {[ "a" := plain_body ]}.
Proof.
  destruct small_fresh as (s & _ & Hs), plain_schedule as [put Hput].
  destruct (small_ends plain_ids plain_body ∅ [] 0) as (u & Eu & Hu); [done|by apply Z.ltb_lt; vm_compute|done|].
  destruct (small_runs plain_ids plain_body ∅ [] [Main 0; Main 0] u) as (Hdata & _ & _); [done|by apply Z.ltb_lt; vm_compute|exact Eu|exact Hu|].
  assert (sent (plain_ids 0) u = [only_sent plain_ids plain_body]) as Hsent by (unfold sent; by rewrite Hdata).
  assert (orderly_run plain_ids [Main 0; Main 0] (start_upload plain_body false ∅ [])) as Ho
    by (eapply small_orderly; [done|by apply Z.ltb_lt; vm_compute|exact Eu]).
  assert (fits by_name (λ l, l) (λ _, 0) plain_ids "/a" (u64 (lenZ plain_body)) (sent (plain_ids 0) u) plain_file (plain_registry s) [] no_meta)
    as Hfit by (rewrite Hsent; by apply plain_fits).
  destruct (put (plain_registry s)) as [res r'] eqn:E.
  assert (NodesMap_of r' = plain_map) as Hnm.
  { destruct (HandlePutFile_orderly by_name (λ l, l) (λ _, 0) plain_ids "/a" plain_body ∅ [] [Main 0; Main 0] [] u put eq_refl Ho Eu Hput) as [_ Ep]. rewrite Ep in E.
    by rewrite (put_same_nodes _ _ _ _ _ _ _ _ _ _ Hfit E). }
  assert (plain_serves (with_world (flush_node no_order (λ l, l) <$> world r') r')
    ([] ++ put_entries by_name (λ l, l) (λ _, 0) plain_ids (sent (plain_ids 0) u) plain_file (plain_registry s) [])
    (put_meta by_name (λ l, l) plain_ids (sent (plain_ids 0) u) plain_file (plain_registry s) no_meta) (<[Trim "/a" := plain_body]> ∅)) as Hput1.
  { refine (serves_put by_name (λ l, l) (λ _, 0) (plain_registry s) [] no_meta ∅ plain_ids "/a" plain_body ∅ [] [Main 0; Main 0] [] u put
      plain_file res r' _ _ _ Ho Eu Hput Hfit _ E _).
    - apply serves_start; [by apply plain_ready|]. intros i f Hf. change (@None FileInfo = Some f) in Hf. done.
    - done.
    - rewrite Hsent. split; [done|]. by repeat constructor.
    - done. }
  rewrite Hsent, plain_put_meta in Hput1.
  pose proof (serves_holds by_name by_name_perm (λ l, l) (λ l, Permutation_refl l) (λ _, 0) _ _ _ _ Hput1) as [Hr1 _].
  destruct (NewStorage_again _ _ (ready_storage _ _ _ Hr1)) as (s2 & Es2 & Hs2).
  exists s2, (flush_node no_order (λ l, l) <$> (flush_node no_order (λ l, l) <$> world r')).
  eapply (serves_again _ _ _ _ _ _ _ (restarted s2 _) []); [exact Hput1| |by apply plain_ready_at].
  split; [done|by right|]. cbn [with_world NodesMap_of]. rewrite Hnm. eauto.
Qed.

Lemma plain_removal (s : small_storage) (w : processes) : asks (λ _, 0) (RRemoveFile "/a") (restarted s w) [] plain_meta.
Proof.
  split; [|done| |apply (bool_decide_eq_true_1 _); by vm_compute].
  - exists plain_file. split_and!; [by vm_compute..|apply (bool_decide_eq_true_1 _); by vm_compute|].
    apply (bool_decide_eq_true_1 (Forall _ _)). by vm_compute.
  - apply (bool_decide_eq_true_1 (Forall (λ e, 0 ≤ lenZ (Marshal_msg e) < 2 ^ 64) _)). by vm_compute.
Qed.

End witnesses.
