(* ===== verification/Auth.v ===== *)
(** * Authentication: [src/rhosus/auth]

    Roles with bcrypt hashes, tokens with a time to live, and the login by name and
    password.  Tokens and roles live in the storage of the registry; bcrypt is the
    class [Bcrypt].  Times are milliseconds, and [time.Now().Unix()] is their
    quotient by a thousand. *)

From S2P Require Import Prelude Messages MemDB Backend Storage StorageSpec Uuid RegistrySpec.

(** [golang.org/x/crypto/bcrypt]: the hash depends on a random salt, and a password
    that is too long has none *)
Class Bcrypt := {
  GenerateFromPassword : list Z → string → option string;
  CompareHashAndPassword : string → string → bool;
}.

(** a password matches its own hash *)
Class BcryptLaws `{Bcrypt} := {
  compare_generated : ∀ salt password hash, GenerateFromPassword salt password = Some hash →
    CompareHashAndPassword hash password = true;
}.

Inductive auth_error := ErrPasswordParameter | ErrGenerate | ErrAuthStorage (e : storage_error).

(** ** [auth.go] *)

(** a value of [map[string]interface{}] *)
Inductive login_value := LString (s : string) | LOther.

Record LoginRequest := mkLoginRequest { Username : string; Login_Data : gmap string login_value }.
Record LoginResponse := mkLoginResponse { Login_Token : string; Login_Success : bool; Login_Message : string }.

Section auth.
Context {T : Type → Type} `{MemDB T} {B : Type} `{Backend B} `{RecordCodecs} `{Bcrypt}.
Local Abbreviation SM := (M (Storage T B) storage_error).
Local Abbreviation AM := (M (Storage T B) auth_error).

Definition Authenticator : Type := LoginRequest → AM LoginResponse.

Definition on_store {A} (m : SM A) : AM A := λ s,
  match m s with (Ok a, s') => (Ok a, s') | (Err e, s') => (Err (ErrAuthStorage e), s') | (Panic, s') => (Panic, s') end.

(** ** Roles: [role.go] *)

(** [uid] is what [uuid.NewV4] gives *)
Definition CreateRole (uid : option string) (salt : list Z) (name password : string) (perms : list string) : AM Role :=
  roleID ← lift (of_option uid (Err ErrGenerate));
  passw ← lift (of_option (GenerateFromPassword salt password) (Err ErrGenerate));
  let role := mkRole roleID name perms passw in
  _ ← on_store (StoreRole role);
  mret role.

Definition RoleStore_GetRole (name : string) : AM (option Role) := on_store (GetRole name).
Definition RoleStore_GetRoleById (roleID : string) : AM (option Role) := on_store (GetRoleByID roleID).

(** ** Tokens: [token.go] *)

(** [util.GenerateSecureToken]: an empty string when there is no randomness *)
Definition GenerateSecureToken (random : option (list Z)) : string :=
  match random with Some b => string_of_bytes (Uuid.hex_encode b) | None => "" end.

Definition unix (ms : Z) : Z := ms / 1000.

(** the comparison that ends a token's life, of the watcher and of the middleware *)
Definition expired (ms : Z) (t : Token) : bool := i64 (Token_Ttl t + Token_CreationTime t) <? unix ms.

(** one tick of [watchForTokensExpiration] *)
Definition watch_tokens_tick (ms : Z) : SM unit :=
  ignore_err (
    tokens ← ListTokens;
    for_each tokens (λ t, if expired ms t then ignore_err (RevokeToken t) else mret tt)).

(** the role is not kept *)
Definition new_login_token (tokenStr : string) (ttl ms : Z) : Token := mkToken tokenStr "" "" tokenStr ttl ms [] "" false.

Definition TokenStore_CreateToken (random : option (list Z)) (ms ttl : Z) (roleID : string) : SM Token :=
  let token := new_login_token (GenerateSecureToken random) ttl ms in
  _ ← StoreToken token;
  mret token.

Definition TokenStore_GetToken (accessor : string) : SM (option Token) := GetToken accessor.

(** ** Login by name and password: [auth_creds.go] *)

(** [time.Minute * defaultTokenTTLm], in milliseconds *)
Definition defaultTokenTTLm : Z := 30.
Definition login_ttl : Z := defaultTokenTTLm * 60000.

Definition refused (message : string) : LoginResponse := mkLoginResponse "" false message.

Definition Login (random : option (list Z)) (ms : Z) (req : LoginRequest) : AM LoginResponse :=
  if bool_decide (Username req = ""%string) then mret (refused "'name' is a required parameter")
  else
    match Login_Data req !! "password"%string with
    | None => mret (refused "'password' is a required parameter")
    | Some LOther => fail ErrPasswordParameter
    | Some (LString password) =>
        role ← RoleStore_GetRole (Username req);
        match role with
        | None => mret (refused "role is not found")
        | Some role =>
            if CompareHashAndPassword (Role_Password role) password then
              token ← on_store (TokenStore_CreateToken random ms login_ttl (Role_ID role));
              mret (mkLoginResponse (Token_Accessor token) true "")
            else mret (refused "invalid password")
        end
    end.
End auth.

(** ** Facts *)

Definition role_at (name : string) (μ : meta) : option Role := lookup_by Role_Name name (m_roles μ).

Section facts.
Context {T : Type → Type} `{MemDBLaws T} {B : Type} `{BackendLaws B} `{RecordCodecs}.
Implicit Types (s : Storage T B) (μ : meta).

Lemma GetRole_ok name s μ : stands s μ → GetRole name s = (Ok (role_at name μ), s).
Proof using.
  intros Hs. pose proof (stands_wf KRole s μ Hs) as Hw. destruct Hs as [_ Hk]. destruct (Hk KRole) as [Hsch Hr _ _].
  destruct (first_rows KRole "name" (mkIndex false true Role_Name) name _ _ Hsch Hr Hw) as (o & E & Ho); [done|in_schema|done|].
  assert (o = role_at name μ) as ->.
  { apply (answers_lookup_by (mkIndex false true Role_Name)); [done| |exact Ho].
    pose proof (wf_distinct _ _ Hw) as Hd. rewrite Forall_forall in Hd. apply (Hd ("name"%string, _)). in_schema. }
  unfold GetRole, query. f_equal. exact E.
Qed.

(** revoking the expired ones of a list of stored tokens *)
Lemma revoke_all_ok ms (tokens : list Token) s μ : stands s μ → NoDup (Token_Id <$> tokens) →
  Forall (λ t, m_tokens μ !! Token_Id t = Some t) tokens →
  ∃ s', for_each tokens (λ t, if expired ms t then ignore_err (RevokeToken t) else mret tt) s = (Ok tt, s') ∧
    stands s' (mset KToken (drop_rows KToken (filter (λ t, expired ms t = true) tokens) (m_tokens μ)) μ).
Proof using.
  revert s μ. induction tokens as [|t tokens IH]; intros s μ Hs Hnd Hall.
  { exists s. split; [done|]. by destruct μ. }
  cbn in Hnd. apply NoDup_cons in Hnd as [Hni Hnd]. apply Forall_cons in Hall as [Ht Hall]. cbn [for_each].
  destruct (expired ms t) eqn:Ee.
  - destruct (RevokeToken_ok t s μ Hs Ht) as (s1 & E1 & Hs1).
    destruct (IH s1 _ Hs1 Hnd) as (s' & E & Hs').
    { rewrite Forall_forall in Hall |- *. intros t' Ht'. cbn. rewrite lookup_delete_ne; [by apply Hall|].
      intros Heq. apply Hni. rewrite Heq. by apply list_elem_of_fmap_2. }
    exists s'. rewrite filter_cons_True by done. split; [|exact Hs'].
    erewrite bind_ok by (unfold ignore_err; rewrite E1; reflexivity). exact E.
  - rewrite filter_cons_False by (by rewrite Ee). apply IH; done.
Qed.

Lemma tick_ok ms s μ : stands s μ →
  ∃ s', watch_tokens_tick ms s = (Ok tt, s') ∧
    stands s' (mset KToken (filter (λ kv : string * Token, expired ms kv.2 = false) (m_tokens μ)) μ).
Proof using.
  intros Hs. pose proof (stands_wf KToken s μ Hs) as Hw.
  destruct (list_ok KToken "id" (mkIndex false true Token_Id) s μ Hs) as (l & E & Hl); [done|in_schema|].
  assert (ListTokens s = (Ok l, s)) as El by (unfold ListTokens, query; f_equal; exact E).
  assert (NoDup (Token_Id <$> l)) as Hnd.
  { rewrite Hl, <- list_fmap_compose, (list_fmap_ext _ fst); [apply NoDup_fst_map_to_list|].
    intros j [i t] Hj%list_elem_of_lookup_2%elem_of_map_to_list. exact (wf_pid KToken _ Hw i t Hj). }
  assert (∀ t, t ∈ l ↔ m_tokens μ !! Token_Id t = Some t) as Hin.
  { intros t. rewrite Hl, list_elem_of_fmap. split.
    - intros ([i t'] & -> & Hi%elem_of_map_to_list). pose proof (wf_pid KToken _ Hw i t' Hi) as Hp.
      change (Token_Id t' = i) in Hp. cbn. by rewrite Hp.
    - intros Ht. exists (Token_Id t, t). split; [done|]. by apply elem_of_map_to_list. }
  destruct (revoke_all_ok ms l s μ Hs Hnd) as (s' & E' & Hs'); [apply Forall_forall; intros t; apply Hin|].
  exists s'. split.
  - unfold watch_tokens_tick. unfold ignore_err at 1. rewrite (bind_ok _ _ _ _ _ El). by rewrite E'.
  - replace (filter (λ kv : string * Token, expired ms kv.2 = false) (m_tokens μ)) with
      (drop_rows KToken (filter (λ t, expired ms t = true) l) (m_tokens μ)); [done|].
    apply map_eq. intros i. rewrite drop_rows_lookup. destruct (m_tokens μ !! i) as [t|] eqn:Ei.
    + pose proof (wf_pid KToken _ Hw i t Ei) as Hp. change (Token_Id t = i) in Hp.
      destruct (expired ms t) eqn:Ee.
      * rewrite decide_True.
        -- symmetry. apply map_lookup_filter_None. right. intros t' Ht' He. cbn in He. pose proof (eq_trans (eq_sym Ei) Ht') as [= <-]. by rewrite Ee in He.
        -- apply list_elem_of_fmap. exists t. split; [done|]. apply list_elem_of_filter. split; [done|]. apply Hin. by rewrite Hp.
      * rewrite decide_False; [transitivity (Some t); [exact Ei|]; symmetry; by apply map_lookup_filter_Some|].
        intros (t' & Heq & [He Ht']%list_elem_of_filter)%list_elem_of_fmap. apply Hin in Ht'.
        change (i = Token_Id t') in Heq. rewrite <- Heq in Ht'. pose proof (eq_trans (eq_sym Ei) Ht') as [= <-]. by rewrite Ee in He.
    + transitivity (@None Token); [by case_decide|]. symmetry. apply map_lookup_filter_None. by left.
Qed.
End facts.

(** ** The theorems *)

Section theorems.
Context {T : Type → Type} `{MemDBLaws T} {B : Type} `{BackendLaws B} `{RecordCodecs} `{Bcrypt}.
Implicit Types (s : Storage T B) (μ : meta).

Lemma Login_ok random ms (req : LoginRequest) password s μ : stands s μ → Username req ≠ ""%string →
  Login_Data req !! "password"%string = Some (LString password) →
  let t := new_login_token (GenerateSecureToken random) login_ttl ms in
  admissible KToken (m_tokens μ) t →
  match role_at (Username req) μ with
  | None => Login random ms req s = (Ok (refused "role is not found"), s)
  | Some role =>
      if CompareHashAndPassword (Role_Password role) password then
        ∃ s', Login random ms req s = (Ok (mkLoginResponse (Token_Accessor t) true ""), s') ∧
          stands s' (effect (OStoreToken t) μ)
      else Login random ms req s = (Ok (refused "invalid password"), s)
  end.
Proof using H0 H2.
  intros Hs Hname Hpass t Hadm. unfold Login. rewrite bool_decide_false, Hpass by done.
  assert (RoleStore_GetRole (Username req) s = (Ok (role_at (Username req) μ), s)) as E.
  { unfold RoleStore_GetRole, on_store. by rewrite (GetRole_ok _ _ _ Hs). }
  destruct (role_at (Username req) μ) as [role|]; [|by rewrite (bind_ok _ _ _ _ _ E)].
  destruct (CompareHashAndPassword (Role_Password role) password) eqn:Ec; [|by rewrite (bind_ok _ _ _ _ _ E), Ec].
  destruct (StoreToken_ok t s μ Hs Hadm) as (s' & Es & Hs'). exists s'. split; [|exact Hs'].
  rewrite (bind_ok _ _ _ _ _ E), Ec. erewrite bind_ok; [reflexivity|].
  unfold on_store, TokenStore_CreateToken. by rewrite (bind_ok _ _ _ _ _ Es).
Qed.

(** C31: a login with a name and a password succeeds exactly when a role has that
  name and its hash accepts the password; then the answer is a new token, stored
  with a time to live of 30 minutes, and otherwise nothing changes *)
Theorem login_checks_the_password (random : option (list Z)) (ms : Z) (req : LoginRequest) (password : string) s μ :
  stands s μ → Username req ≠ ""%string → Login_Data req !! "password"%string = Some (LString password) →
  let t := new_login_token (GenerateSecureToken random) login_ttl ms in
  admissible KToken (m_tokens μ) t →
  ∃ res s', Login random ms req s = (Ok res, s') ∧
    (Login_Success res = true ↔
      ∃ role, role_at (Username req) μ = Some role ∧ CompareHashAndPassword (Role_Password role) password = true) ∧
    (if Login_Success res then Login_Token res = Token_Accessor t ∧ stands s' (effect (OStoreToken t) μ) else s' = s).
Proof.
  intros Hs Hname Hpass t Hadm. pose proof (Login_ok random ms req password s μ Hs Hname Hpass Hadm) as Hl.
  destruct (role_at (Username req) μ) as [role|] eqn:Er; [destruct (CompareHashAndPassword _ _) eqn:Ec|].
  - destruct Hl as (s' & E & Hs'). eexists _, s'. split; [exact E|]. split; [|done]. split; [|done]. by exists role.
  - eexists _, s. split; [exact Hl|]. split; [|done]. split; [done|]. intros (r & [= <-] & Hc). congruence.
  - eexists _, s. split; [exact Hl|]. split; [|done]. split; [done|]. by intros (r & ? & _).
Qed.

(** one tick of the watcher removes from memory and from disk exactly the tokens
  whose comparison says expired, and changes nothing else *)
Theorem watcher_removes_exactly_the_expired (ms : Z) s μ : stands s μ →
  ∃ s', watch_tokens_tick ms s = (Ok tt, s') ∧
    stands s' (mset KToken (filter (λ kv : string * Token, expired ms kv.2 = false) (m_tokens μ)) μ).
Proof. exact (tick_ok ms s μ). Qed.
End theorems.

(** ** Witnesses: a hash that is the password itself *)

Section witnesses.
#[local] Existing Instance bit_records.

Definition plain_bcrypt : Bcrypt := {|
  GenerateFromPassword _ password := if bool_decide (String.length password ≤ 72)%nat then Some password else None;
  CompareHashAndPassword hash password := bool_decide (hash = password);
|}.
#[local] Existing Instance plain_bcrypt.

Lemma plain_bcrypt_laws : BcryptLaws.
Proof. split. intros salt p h. cbn. case_bool_decide; [|done]. intros [= ->]. by apply bool_decide_eq_true_2. Qed.

Definition egor : Role := mkRole "1" "egor" [] "Mypassword".
Definition egor_meta : meta := mkMeta ∅ ∅ {["1" := egor]} ∅ ∅.
Definition egor_login : LoginRequest := mkLoginRequest "egor" {["password" := LString "Mypassword"]}.

Lemma egor_stored : ∃ s : small_storage, stands s egor_meta.
Proof.
  destruct small_fresh as (s & _ & Hs). destruct (put_row_ok KRole egor s no_meta Hs) as (s' & _ & Hs'); [|by exists s'].
  apply empty_admissible; apply (bool_decide_eq_true_1 _); by vm_compute.
Qed.

Lemma login_checks_the_password_witness : ∃ s : small_storage, stands s egor_meta ∧
  let t := new_login_token "07" login_ttl 5000 in
  ∃ res s', Login (Some [7]) 5000 egor_login s = (Ok res, s') ∧
    (Login_Success res = true ↔
      ∃ role, role_at "egor" egor_meta = Some role ∧ CompareHashAndPassword (Role_Password role) "Mypassword" = true) ∧
    (if Login_Success res then Login_Token res = Token_Accessor t ∧ stands s' (effect (OStoreToken t) egor_meta) else s' = s).
Proof.
  destruct egor_stored as [s Hs]. exists s. split; [exact Hs|].
  apply (login_checks_the_password (Some [7]) 5000 egor_login "Mypassword" s egor_meta Hs); [done|done|].
  apply (empty_admissible KToken); apply (bool_decide_eq_true_1 _); by vm_compute.
Defined.

(** a token made at the beginning of 1970, and the day after *)
Definition old_token : Token := new_login_token "07" 1000 0.
Definition old_meta : meta := mkMeta ∅ ∅ ∅ {["07" := old_token]} ∅.

Lemma old_stored : ∃ s : small_storage, stands s old_meta.
Proof.
  destruct small_fresh as (s & _ & Hs). destruct (put_row_ok KToken old_token s no_meta Hs) as (s' & _ & Hs'); [|by exists s'].
  apply empty_admissible; apply (bool_decide_eq_true_1 _); by vm_compute.
Qed.

Lemma watcher_removes_exactly_the_expired_witness : ∃ s : small_storage, stands s old_meta ∧
  expired 86400000 old_token = true ∧
  ∃ s', watch_tokens_tick 86400000 s = (Ok tt, s') ∧
    stands s' (mset KToken (filter (λ kv : string * Token, expired 86400000 kv.2 = false) (m_tokens old_meta)) old_meta).
Proof.
  destruct old_stored as [s Hs]. exists s. split; [exact Hs|]. split; [done|].
  exact (watcher_removes_exactly_the_expired 86400000 s old_meta Hs).
Defined.
End witnesses.
