(* ===== verification/Api.v ===== *)
(** * The http interface of a registry: [src/rhosus/api]

    [Router] finds the handler of a request and runs it behind the middleware that
    asks for a token.  The patterns of the router are those of gorilla's mux, the
    parameter [mux]; JSON is the class [Json].  A handler answers with a status and
    a body; headers and CORS are left out. *)

From S2P Require Import Prelude GoStrings Wal WalInv WalOpen WalSpec Messages MemDB Backend Storage StorageSpec.
From S2P Require Import Journal Cluster ClusterSpec NodesMap Registry Handlers Upload RegistrySpec Auth.

(** the messages that are sent back; [MNil] is a nil pointer *)
Inductive api_message :=
| MNil | MCommon (r : CommonResponse) | MLogin (r : LoginResponse)
| MCreatePolicy | MPolicy (r : GetPolicyResponse) | MPolicies (l : list GetPolicyResponse) | MDeletePolicy
| MCreateToken (token : string) | MToken (r : GetTokenResponse) | MTokens (l : list GetTokenResponse)
| MList (l : list ApiFileInfo).

(** [jsonpb]: a body that does not decode is [None]; the name of a policy is [None]
    when the body has no such field *)
Class Json := {
  json_login : list Z → option (string * gmap string string);
  json_mkdir : list Z → option string;
  json_policy : list Z → option (option string * list PolicyPathRules);
  json_token : list Z → option (list string);
  to_json : api_message → list Z;
}.

Record request := mkRequest {
  rq_method : string;
  rq_path : string;                    (* [URL.Path] *)
  rq_url : string;                     (* [URL.String()] *)
  rq_token : string;                   (* the header X-Rhosus-Token *)
  rq_body : list Z;
  rq_part : option (list Z * bool);    (* the first part of a multipart body *)
}.

(** what a handler draws from outside: the time in milliseconds, random bytes, an
    identifier, the salt of a hash, and the schedule of an upload *)
Record chance := mkChance {
  at_ms : Z; random : option (list Z); uid : string; salt : list Z;
  ids : nat → string; buffers : gmap nat (list Z); pool : list nat; sched : list event; late : list nat;
}.

(** the routes of [router.go], with the variables of the path *)
Inductive route :=
| RtLogin | RtMakeDir | RtCreateTestUser
| RtCreateUpdatePolicy (name : option string) | RtGetPolicy (name : option string) | RtDeletePolicy (name : option string)
| RtListPolicies
| RtCreateToken | RtRevokeToken (accessor : option string) | RtGetToken (accessor : option string) | RtListTokens
| RtFilesystem.

(** [errors.go] *)
Definition ErrorMissingClientToken : string := "missing client token".
Definition ErrorInvalidClientToken : string := "invalid client token".

Section api.
Context {J : Type} `{Journal J} {T : Type → Type} `{MemDB T} {B : Type} `{Backend B} {W : Type} `{DataNodes W}.
Context `{RecordCodecs} `{EntryCodecs} `{Bcrypt} `{Json}.
Context (order : gset string → list string) (norder : list (Node * list FsBlock) → list (Node * list FsBlock)).
Context (now : Entry_Type → Z) (taken : Entry_Type → bool).
Context (mux : string → string → option route).
Local Abbreviation R := (Registry J T B W).
Local Abbreviation RM := (M R registry_error).

Definition status (code : Z) : http_response := mkHttp code [].
Definition ok_json (m : api_message) : http_response := mkHttp 200 (to_json m).

(** the handlers only ask whether there was an error *)
Definition on_auth {A} (m : M (Storage T B) auth_error A) : RM A := λ r,
  let '(a, s) := m (Storage_of r) in
  (map_err (λ _, ErrRequest) a, mkRegistry (set_app s (Cluster_of r)) (NodesMap_of r) (world r)).

(** an error of the call is a status of its own, a value goes on to [k] *)
Definition answer {A} (m : RM A) (failed : registry_error → Z) (k : A → http_response) : RM http_response :=
  res ← attempt m; mret (match res with inl a => k a | inr e => status (failed e) end).
Definition internal (_ : registry_error) : Z := 500.
Definition missing (e : registry_error) : Z := match e with ErrEntryNotFound => 404 | _ => 500 end.

(** ** [api.go] *)

(** [AuthMethods] of the configuration *)
Definition auth_methods : Type := gmap string (option (list Z) → Z → LoginRequest → M (Storage T B) auth_error LoginResponse).

Definition prepareLoginRequest (data : gmap string string) : LoginRequest :=
  mkLoginRequest (default "" (data !! "name"%string)) (LString <$> delete "name"%string data).

(** ** [system.go] *)

Definition handleLogin (methods : auth_methods) (c : chance) (req : request) : RM http_response :=
  match json_login (rq_body req) with
  | None => mret (status 400)
  | Some (method, data) =>
      match methods !! method with
      | None => mret (mkHttp 400 (to_json (MLogin (refused "unknown login method"))))
      | Some login =>
          answer (on_auth (login (random c) (at_ms c) (prepareLoginRequest data))) internal (λ res,
            mkHttp (if Login_Success res then 200 else 400) (to_json (MLogin res)))
      end
  end.

(** the errors of the identifier and of the hash are dropped *)
Definition handleCreateTestUser (c : chance) : RM http_response :=
  let role := mkRole (uid c) "egor" [] (default "" (GenerateFromPassword (salt c) "Mypassword")) in
  answer (on_storage (StoreRole role)) internal (λ _, status 200).

Definition handleMakeDir (c : chance) (req : request) : RM http_response :=
  match json_mkdir (rq_body req) with
  | None => mret (status 400)
  | Some path => answer (HandleMakeDir order now taken (uid c) path) internal (λ res, ok_json (MCommon res))
  end.

(** a name in the body takes the place of the one in the path *)
Definition handleCreateUpdatePolicy (c : chance) (name : option string) (req : request) : RM http_response :=
  match name with
  | None => mret (status 500)
  | Some policyName =>
      match json_policy (rq_body req) with
      | None => mret (status 400)
      | Some (name', paths) =>
          answer (HandleCreatePolicy order now taken (uid c) (default policyName name') paths) internal
            (λ _, ok_json MCreatePolicy)
      end
  end.

Definition handleGetPolicy (name : option string) : RM http_response :=
  match name with
  | None => mret (status 404)
  | Some policyName =>
      if bool_decide (policyName = ""%string) then mret (status 400)
      else answer (HandleGetPolicy policyName) missing (λ res, ok_json (MPolicy res))
  end.

Definition handleDeletePolicy (name : option string) : RM http_response :=
  match name with
  | None => mret (status 404)
  | Some policyName =>
      answer (HandleDeletePolicy order now taken policyName) internal (λ res,
        ok_json (match res with Some _ => MDeletePolicy | None => MNil end))
  end.

Definition handleListPolicies : RM http_response :=
  answer HandleListPolicies internal (λ res, ok_json (MPolicies res)).

Definition handleCreateToken (c : chance) (req : request) : RM http_response :=
  match json_token (rq_body req) with
  | None => mret (status 400)
  | Some policies =>
      answer (HandleCreateToken order now taken (GenerateSecureToken (random c)) (at_ms c) policies) internal
        (λ token, ok_json (MCreateToken token))
  end.

Definition handleGetToken (accessor : option string) : RM http_response :=
  match accessor with
  | None => mret (status 404)
  | Some accessor =>
      if bool_decide (accessor = ""%string) then mret (status 400)
      else answer (HandleGetToken accessor) missing (λ res, ok_json (MToken res))
  end.

Definition handleListTokens : RM http_response :=
  answer HandleListTokens internal (λ res, ok_json (MTokens res)).

Definition handleRevokeToken (accessor : option string) : RM http_response :=
  match accessor with
  | None => mret (status 404)
  | Some accessor =>
      if bool_decide (accessor = ""%string) then mret (status 400)
      else answer (HandleRevokeToken order now taken accessor) missing (λ _, ok_json MNil)
  end.

(** ** The file system *)

(** an error that a handler returns is logged, and the answer has the status 200 *)
Definition logged (m : RM http_response) : RM http_response := answer m (λ _, 200) (λ res, res).

Definition handleGet (req : request) : RM http_response := res ← HandleGetFile order (rq_path req); mret res.1.
Definition handleList (req : request) : RM http_response :=
  logged (res ← HandleList (rq_path req);
          mret (match res with None => status 404 | Some l => ok_json (MList l) end)).
Definition handleDelete (fuel : nat) (req : request) : RM http_response :=
  logged (res ← HandleDeleteFile order now taken fuel (rq_path req); mret (ok_json (MCommon res))).

(** [None] is a schedule of the upload that does not end *)
Definition handlePostPut (c : chance) (req : request) : option (RM http_response) :=
  logged <$> HandlePutFile order norder now taken (ids c) (rq_url req) (rq_part req) (buffers c) (pool c) (sched c) (late c).

Definition HandleFilesystem (fuel : nat) (c : chance) (req : request) : option (RM http_response) :=
  let method := rq_method req in
  if bool_decide (method = "GET"%string) then Some (handleGet req)
  else if bool_decide (method = "POST"%string ∨ method = "PUT"%string) then handlePostPut c req
  else if bool_decide (method = "DELETE"%string) then Some (handleDelete fuel req)
  else if bool_decide (method = "LIST"%string) then Some (handleList req)
  else Some (mret (status 200)).

(** ** [middleware.go] *)

Definition open_path (req : request) : bool :=
  bool_decide (Trim (rq_path req) = "sys/login"%string ∨ Trim (rq_path req) = "sys/create-test-user"%string).

Definition unauthorized (message : string) : http_response := mkHttp 401 (bytes_of_string message).

Definition AuthMiddleware (ms : Z) (req : request) (next : RM http_response) : RM http_response :=
  if open_path req then next
  else if bool_decide (rq_token req = ""%string) then mret (unauthorized ErrorMissingClientToken)
  else
    res ← attempt (on_storage (TokenStore_GetToken (rq_token req)));
    match res with
    | inr _ => mret (status 500)
    | inl None => mret (unauthorized ErrorInvalidClientToken)
    | inl (Some token) => if expired ms token then mret (unauthorized ErrorInvalidClientToken) else next
    end.

(** ** [router.go] *)

Definition handle (methods : auth_methods) (fuel : nat) (c : chance) (req : request) (rt : route) : option (RM http_response) :=
  match rt with
  | RtLogin => Some (handleLogin methods c req)
  | RtMakeDir => Some (handleMakeDir c req)
  | RtCreateTestUser => Some (handleCreateTestUser c)
  | RtCreateUpdatePolicy name => Some (handleCreateUpdatePolicy c name req)
  | RtGetPolicy name => Some (handleGetPolicy name)
  | RtDeletePolicy name => Some (handleDeletePolicy name)
  | RtListPolicies => Some handleListPolicies
  | RtCreateToken => Some (handleCreateToken c req)
  | RtRevokeToken accessor => Some (handleRevokeToken accessor)
  | RtGetToken accessor => Some (handleGetToken accessor)
  | RtListTokens => Some handleListTokens
  | RtFilesystem => HandleFilesystem fuel c req
  end.

(** a request that no pattern matches never reaches the middleware *)
Definition Router (methods : auth_methods) (fuel : nat) (c : chance) (req : request) : option (RM http_response) :=
  match mux (rq_method req) (rq_path req) with
  | None => Some (mret (status 404))
  | Some rt => AuthMiddleware (at_ms c) req <$> handle methods fuel c req rt
  end.

(** [authMethods] of [rootCmd] *)
Definition authMethods : auth_methods := {["credentials"%string := Login]}.
End api.

(** ** Facts *)

(** the data of a login of the test user *)
Definition egor_data : gmap string string := {["name"%string := "egor"%string; "password"%string := "Mypassword"%string]}.

Section facts.
Context {J : Type} `{Journal J} {T : Type → Type} `{MemDBLaws T} {B : Type} `{BackendLaws B} {W : Type} `{DataNodes W}.
Context `{RecordCodecs} `{EntryCodecs} `{Bcrypt} `{Json}.
Local Abbreviation R := (Registry J T B W).
Local Abbreviation RM := (M R registry_error).
Implicit Types (r : R) (μ : meta).

(** the token of a request that is let through *)
Definition authorized (μ : meta) (ms : Z) (req : request) : bool :=
  open_path req ||
  (negb (bool_decide (rq_token req = ""%string)) &&
   match m_tokens μ !! rq_token req with Some t => negb (expired ms t) | None => false end).

Lemma attempt_read {A} (m : M (Storage T B) storage_error A) a r : m (Storage_of r) = (Ok a, Storage_of r) →
  attempt (on_storage m) r = (Ok (inl a), r).
Proof using. intros E. unfold attempt. by rewrite (on_storage_read _ _ _ E). Qed.

Lemma AuthMiddleware_ok ms req (next : RM http_response) r μ : stands (Storage_of r) μ →
  if authorized μ ms req then AuthMiddleware ms req next r = next r
  else ∃ message, AuthMiddleware ms req next r = (Ok (unauthorized message), r).
Proof using H1 H3.
  intros Hs. unfold authorized, AuthMiddleware. destruct (open_path req); [done|]. cbn [orb].
  case_bool_decide; cbn [negb andb]; [by eexists|].
  pose proof (attempt_read _ _ r (GetToken_ok (rq_token req) _ _ Hs)) as E.
  destruct (m_tokens μ !! rq_token req) as [t|]; unfold TokenStore_GetToken; rewrite (bind_ok _ _ _ _ _ E); [|by eexists].
  destruct (expired ms t); cbn [negb]; [by eexists|done].
Qed.

Lemma answer_ok {A} (m : RM A) failed k r a r' : m r = (Ok a, r') → answer m failed k r = (Ok (k a), r').
Proof using. intros E. unfold answer, attempt. by rewrite (bind_ok _ _ _ (inl a) r') by by rewrite E. Qed.

Lemma stored_role_at (s : Storage T B) μ role : stands s μ → m_roles μ !! Role_ID role = Some role →
  role_at (Role_Name role) μ = Some role.
Proof using.
  intros Hs Hf. symmetry. apply (answers_lookup_by (mkIndex false true Role_Name)); [done| |].
  - pose proof (wf_distinct _ _ (stands_wf KRole s μ Hs)) as Hd. rewrite Forall_forall in Hd.
    apply (Hd ("name"%string, _)). in_schema.
  - split; [by exists (Role_ID role)|done].
Qed.

Lemma token_named t (m : gmap string Token) : admissible KToken m t → Token_Id t ≠ ""%string.
Proof using. intros [Hc _]. unfold complete in Hc. rewrite Forall_forall in Hc. apply (Hc ("id"%string, mkIndex false true Token_Id)); [in_schema|done]. Qed.

(** the test user logs in *)
Lemma login_egor rnd ms slt (s : Storage T B) μ role : BcryptLaws → stands s μ → role_at "egor" μ = Some role →
  GenerateFromPassword slt "Mypassword" = Some (Role_Password role) →
  let t := new_login_token (GenerateSecureToken rnd) login_ttl ms in admissible KToken (m_tokens μ) t →
  ∃ s', Login rnd ms (prepareLoginRequest egor_data) s = (Ok (mkLoginResponse (Token_Accessor t) true ""), s') ∧
    stands s' (effect (OStoreToken t) μ).
Proof using H1 H3.
  intros Hb Hs Hrole Hhash t Hadm.
  pose proof (Login_ok rnd ms (prepareLoginRequest egor_data) "Mypassword" s μ Hs ltac:(done) ltac:(done) Hadm) as Hl.
  change (Username (prepareLoginRequest egor_data)) with "egor"%string in Hl. rewrite Hrole in Hl.
  by rewrite (compare_generated slt _ _ Hhash) in Hl.
Qed.

(** when a token made by a login is taken for expired *)
Lemma login_token_expired tokenStr ms ms' : 0 ≤ ms → ms + login_ttl < 2 ^ 63 →
  expired ms' (new_login_token tokenStr login_ttl ms) = negb (ms' <? 1000 * (ms + login_ttl + 1)).
Proof using.
  intros Hms Hmax. unfold expired, unix. cbn [Token_Ttl Token_CreationTime new_login_token].
  change login_ttl with 1800000 in *. rewrite i64_small by lia.
  destruct (Z.ltb_spec (1800000 + ms) (ms' / 1000)) as [Hlt|Hge], (Z.ltb_spec ms' (1000 * (ms + 1800000 + 1))) as [Hlt'|Hge']; try done; exfalso.
  - pose proof (Z.mul_div_le ms' 1000). lia.
  - assert (ms + 1800001 ≤ ms' / 1000) by (apply Z.div_le_lower_bound; lia). lia.
Qed.
End facts.

(** ** The theorems *)

Section theorems.
Context {J : Type} `{Journal J} {T : Type → Type} `{MemDBLaws T} {B : Type} `{BackendLaws B} {W : Type} `{DataNodes W}.
Context `{RecordCodecs} `{EntryCodecs} `{Bcrypt} `{Json}.
Context (order : gset string → list string) (norder : list (Node * list FsBlock) → list (Node * list FsBlock)).
Context (now : Entry_Type → Z) (taken : Entry_Type → bool) (mux : string → string → option route).
Local Abbreviation R := (Registry J T B W).
Local Abbreviation RM := (M R registry_error).
Local Abbreviation Serve := (Router (J:=J) (T:=T) (B:=B) (W:=W) order norder now taken mux authMethods).
Implicit Types (r : R) (μ : meta).

(** C24: a request whose path has a handler reaches it exactly when the path is one
  of the two open ones or the token of its header is stored and not taken for
  expired; otherwise it is answered with 401 and changes nothing.  The policies of
  the token play no part *)
Theorem token_guards_every_request (fuel : nat) (c : chance) (req : request) (rt : route) (h : RM http_response) r μ :
  stands (Storage_of r) μ → mux (rq_method req) (rq_path req) = Some rt →
  handle order norder now taken authMethods fuel c req rt = Some h →
  ∃ m, Serve fuel c req = Some m ∧
    if authorized μ (at_ms c) req then m r = h r else ∃ message, m r = (Ok (unauthorized message), r).
Proof.
  intros Hs Hmux Hh. unfold Router. rewrite Hmux, Hh. eexists. split; [done|].
  exact (AuthMiddleware_ok (at_ms c) req h r μ Hs).
Qed.

(** a token of a login, which is meant to live for 30 minutes, is accepted by
  the middleware and kept by the watcher as long as the time in milliseconds is
  below a thousand times the end of its life: the code compares seconds with
  milliseconds *)
Theorem login_token_outlives_its_ttl (tokenStr : string) (ms ms' : Z) (req : request) (next : RM http_response) r μ :
  stands (Storage_of r) μ → 0 ≤ ms → ms + login_ttl < 2 ^ 63 →
  let t := new_login_token tokenStr login_ttl ms in
  m_tokens μ !! tokenStr = Some t → rq_token req = tokenStr → tokenStr ≠ ""%string →
  ms' < 1000 * (ms + login_ttl + 1) →
  AuthMiddleware ms' req next r = next r ∧
  ∃ s', watch_tokens_tick ms' (Storage_of r) = (Ok tt, s') ∧ GetToken tokenStr s' = (Ok (Some t), s').
Proof.
  intros Hs Hms Hmax t Ht Hreq Hne Hms'.
  assert (expired ms' t = false) as He.
  { unfold t. rewrite login_token_expired by done. by rewrite (proj2 (Z.ltb_lt _ _) Hms'). }
  split.
  - pose proof (AuthMiddleware_ok ms' req next r μ Hs) as Hm.
    replace (authorized μ ms' req) with true in Hm; [done|]. unfold authorized.
    rewrite Hreq, Ht, He, bool_decide_false by done. by rewrite orb_true_r.
  - destruct (tick_ok ms' (Storage_of r) μ Hs) as (s' & E & Hs'). exists s'. split; [exact E|].
    rewrite (GetToken_ok tokenStr s' _ Hs'). do 2 f_equal. by apply map_lookup_filter_Some.
Qed.

(** on a registry without the test user, two requests that carry no token, one
  that makes this user and one that logs in with the password in the source, give
  a token with which every request reaches its handler *)
Theorem anyone_gets_a_token (fuel : nat) (c1 c2 : chance) (body : list Z) (hash : string) r μ :
  BcryptLaws → stands (Storage_of r) μ →
  mux "POST" "/sys/create-test-user" = Some RtCreateTestUser → mux "POST" "/sys/login" = Some RtLogin →
  json_login body = Some ("credentials"%string, egor_data) →
  GenerateFromPassword (salt c1) "Mypassword" = Some hash →
  let role := mkRole (uid c1) "egor" [] hash in
  let t := new_login_token (GenerateSecureToken (random c2)) login_ttl (at_ms c2) in
  admissible KRole (m_roles μ) role → admissible KToken (m_tokens μ) t →
  0 ≤ at_ms c2 → at_ms c2 + login_ttl < 2 ^ 63 →
  ∃ m1 m2 r1 r2,
    Serve fuel c1 (mkRequest "POST" "/sys/create-test-user" "/sys/create-test-user" "" [] None) = Some m1 ∧
    m1 r = (Ok (status 200), r1) ∧
    Serve fuel c2 (mkRequest "POST" "/sys/login" "/sys/login" "" body None) = Some m2 ∧
    m2 r1 = (Ok (ok_json (MLogin (mkLoginResponse (Token_Accessor t) true ""))), r2) ∧
    ∀ ms req (next : RM http_response), rq_token req = Token_Accessor t → ms < 1000 * (at_ms c2 + login_ttl + 1) →
      AuthMiddleware ms req next r2 = next r2.
Proof.
  intros Hb Hs Hmux1 Hmux2 Hjson Hhash role t Hrole Htoken Hms Hmax.
  destruct (put_row_ok KRole role (Storage_of r) μ Hs Hrole) as (s1 & E1 & Hs1).
  change (put_row KRole role) with (StoreRole (T:=T) (B:=B) role) in E1.
  set (r1 := mkRegistry (set_app s1 (Cluster_of r)) (NodesMap_of r) (world r)).
  set (μ1 := mset KRole (<[pid KRole role := role]> (mget KRole μ)) μ) in Hs1.
  destruct (login_egor (random c2) (at_ms c2) (salt c1) s1 μ1 role Hb Hs1) as (s2 & E2 & Hs2);
    [by apply (stored_role_at s1 μ1 role Hs1), lookup_insert_eq|done|done|]. fold t in E2, Hs2.
  set (r2 := mkRegistry (set_app s2 (Cluster_of r1)) (NodesMap_of r1) (world r1)).
  eexists _, _, r1, r2. split_and!.
  - unfold Router. cbn [rq_method rq_path]. rewrite Hmux1. reflexivity.
  - unfold AuthMiddleware. replace (open_path _) with true by by vm_compute. unfold handleCreateTestUser. rewrite Hhash.
    apply (answer_ok _ _ (λ _, status 200) r tt). unfold on_storage. cbn [default]. change (mkRole _ _ _ _) with role. by rewrite E1.
  - unfold Router. cbn [rq_method rq_path]. rewrite Hmux2. reflexivity.
  - unfold AuthMiddleware. replace (open_path _) with true by by vm_compute. unfold handleLogin. cbn [rq_body]. rewrite Hjson.
    change (authMethods !! "credentials"%string) with (Some (Login (T:=T) (B:=B))).
    assert (on_auth (Login (random c2) (at_ms c2) (prepareLoginRequest egor_data)) r1 =
      (Ok (mkLoginResponse (Token_Accessor t) true ""), r2)) as E by (unfold on_auth; change (Storage_of r1) with s1; by rewrite E2).
    exact (answer_ok _ internal (λ res, mkHttp (if Login_Success res then 200 else 400) (to_json (MLogin res))) r1 _ r2 E).
  - intros ms req next Hreq Hlt. pose proof (AuthMiddleware_ok ms req next r2 _ Hs2) as Hm.
    replace (authorized _ ms req) with true in Hm; [done|]. unfold authorized. rewrite Hreq.
    assert (Token_Accessor t ≠ ""%string) as Hne by by apply (token_named t (m_tokens μ)).
    rewrite bool_decide_false by done. cbn [effect m_tokens mset]. rewrite lookup_insert_eq.
    unfold t at 1. rewrite login_token_expired, (proj2 (Z.ltb_lt _ _) Hlt) by done. by rewrite orb_true_r.
Qed.
End theorems.

(** ** Witnesses *)

Section witnesses.
#[local] Existing Instance bit_records.
#[local] Existing Instance bit_codecs.
#[local] Existing Instance no_nodes.
#[local] Existing Instance plain_bcrypt.

(** the bodies of two requests, and nothing that is sent back *)
Definition plain_json : Json := {|
  json_login b := if bool_decide (b = [1]) then Some ("credentials"%string, egor_data) else None;
  json_mkdir b := None; json_policy b := None; json_token b := None; to_json m := [];
|}.
#[local] Existing Instance plain_json.

Definition plain_mux (method path : string) : option route :=
  if bool_decide (path = "/sys/login"%string) then Some RtLogin
  else if bool_decide (path = "/sys/create-test-user"%string) then Some RtCreateTestUser
  else if bool_decide (path = "/sys/policies"%string) then Some RtListPolicies
  else Some RtFilesystem.
Definition plain_chance (ms : Z) : chance := mkChance ms (Some [7]) "1" [] (λ _, ""%string) ∅ [] [] [].
Definition ask_policies (token : string) : request := mkRequest "LIST" "/sys/policies" "/sys/policies" token [] None.

(** at 100 s a token of one second is still good, at 86400 s it is not *)
Lemma token_guards_every_request_witness : ∃ s : small_storage, stands s old_meta ∧
  authorized old_meta 100000 (ask_policies "07") = true ∧ authorized old_meta 86400000 (ask_policies "07") = false ∧
  ∃ m, Router elements (λ l, l) (λ _, 0) always plain_mux authMethods 0 (plain_chance 86400000) (ask_policies "07") = Some m ∧
    if authorized old_meta 86400000 (ask_policies "07") then m (small_registry s) = handleListPolicies (small_registry s)
    else ∃ message, m (small_registry s) = (Ok (unauthorized message), small_registry s).
Proof.
  destruct old_stored as [s Hs]. exists s. split; [exact Hs|]. split; [by vm_compute|]. split; [by vm_compute|].
  exact (token_guards_every_request elements (λ l, l) (λ _, 0) always plain_mux 0 (plain_chance 86400000) (ask_policies "07")
    RtListPolicies handleListPolicies (small_registry s) old_meta Hs eq_refl eq_refl).
Defined.

Definition login_meta : meta := mkMeta ∅ ∅ ∅ {["07" := new_login_token "07" login_ttl 1660000000000]} ∅.

Lemma login_stored : ∃ s : small_storage, stands s login_meta.
Proof.
  destruct small_fresh as (s & _ & Hs).
  destruct (put_row_ok KToken (new_login_token "07" login_ttl 1660000000000) s no_meta Hs) as (s' & _ & Hs'); [|by exists s'].
  apply empty_admissible; apply (bool_decide_eq_true_1 _); by vm_compute.
Qed.

(** a token of August 2022, a thousand years later *)
Lemma login_token_outlives_its_ttl_witness : ∃ s : small_storage, stands s login_meta ∧
  let ms' := 1660000000000 + 1000 * 365 * 86400000 in
  AuthMiddleware ms' (ask_policies "07") (λ r, (Ok (status 200), r)) (small_registry s) = (Ok (status 200), small_registry s) ∧
  ∃ s', watch_tokens_tick ms' (Storage_of (small_registry s)) = (Ok tt, s') ∧
    GetToken "07" s' = (Ok (Some (new_login_token "07" login_ttl 1660000000000)), s').
Proof.
  destruct login_stored as [s Hs]. exists s. split; [exact Hs|].
  apply (login_token_outlives_its_ttl "07" 1660000000000 _ (ask_policies "07") (λ r, (Ok (status 200), r)) (small_registry s) login_meta Hs);
    try done; by vm_compute.
Defined.

Lemma anyone_gets_a_token_witness : ∃ s : small_storage, stands s no_meta ∧
  let Serve := Router elements (λ l, l) (λ _, 0) always plain_mux authMethods 0 (plain_chance 1660000000000) in
  let t := new_login_token "07" login_ttl 1660000000000 in
  ∃ m1 m2 r1 r2,
    Serve (mkRequest "POST" "/sys/create-test-user" "/sys/create-test-user" "" [] None) = Some m1 ∧
    m1 (small_registry s) = (Ok (status 200), r1) ∧
    Serve (mkRequest "POST" "/sys/login" "/sys/login" "" [1] None) = Some m2 ∧
    m2 r1 = (Ok (ok_json (MLogin (mkLoginResponse (Token_Accessor t) true ""))), r2) ∧
    ∀ ms req (next : M (Registry node_wal map_table (FileStorageBackend map_bolt) unit) registry_error http_response),
      rq_token req = Token_Accessor t → ms < 1000 * (1660000000000 + login_ttl + 1) → AuthMiddleware ms req next r2 = next r2.
Proof.
  destruct small_fresh as (s & _ & Hs). exists s. split; [exact Hs|].
  apply (anyone_gets_a_token elements (λ l, l) (λ _, 0) always plain_mux 0 (plain_chance 1660000000000) (plain_chance 1660000000000)
    [1] "Mypassword" (small_registry s) no_meta plain_bcrypt_laws Hs); try done;
    apply empty_admissible; apply (bool_decide_eq_true_1 _); by vm_compute.
Defined.
End witnesses.
