(* ===== verification/Discovery.v ===== *)
(** * Service discovery: [src/rhosus/etcd] and the start of a registry

    Registries and data nodes write a record of themselves to etcd, under a
    directory for each kind.  A registry reads both directories when it is made, and
    then follows their events.  etcd's own operations are the class [Etcd]. *)

From S2P Require Import Prelude Base64 GoStrings Wal WalInv WalOpen WalSpec Messages MemDB Backend Storage.
From S2P Require Import StorageSpec Journal Cluster ClusterSpec NodesMap Registry Handlers RegistrySpec.

(** a client of etcd: [false] and [None] are errors of the call *)
Class Etcd (E : Type) := {
  cli_Put : string → string → E → bool * E;
  cli_Delete : string → E → bool * E;
  cli_Get : string → E → option (list (string * string));     (* the pairs under a prefix *)
}.

(** ** [etcd/client.go] *)

Definition serviceDiscoveryRegistriesPath : string := "rhosus/service_discovery/registries/".
Definition serviceDiscoveryNodesPath : string := "rhosus/service_discovery/nodes/".

(** [strings.TrimPrefix] *)
Definition TrimPrefix (s prefix : string) : string :=
  if String.prefix prefix s then String.substring (String.length prefix) (String.length s - String.length prefix) s else s.

Definition ParseNodeName (path : string) : string := TrimPrefix path serviceDiscoveryNodesPath.
Definition ParseRegistryName (path : string) : string := TrimPrefix path serviceDiscoveryRegistriesPath.

Section client.
Context {E : Type} `{Etcd E} `{Codec NodeInfo} `{Codec RegistryInfo}.
Local Abbreviation EM := (M E unit).

Definition call (f : E → bool * E) : EM unit := λ e, let '(ok, e') := f e in (if ok then Ok tt else Err tt, e').

Definition Ping : EM unit := call (cli_Put "ping" "pong").
Definition RegisterNode (id : string) (info : NodeInfo) : EM unit :=
  call (cli_Put (serviceDiscoveryNodesPath +:+ id) (Base64Encode (Marshal_msg info))).
Definition RegisterRegistry (uid : string) (info : RegistryInfo) : EM unit :=
  call (cli_Put (serviceDiscoveryRegistriesPath +:+ uid) (Base64Encode (Marshal_msg info))).
Definition UnregisterNode (id : string) : EM unit := call (cli_Delete (serviceDiscoveryNodesPath +:+ id)).
Definition UnregisterRegistry (uid : string) : EM unit := call (cli_Delete (serviceDiscoveryRegistriesPath +:+ uid)).

(** a value that does not decode keeps the bytes before the error *)
Definition read_values (l : list (string * string)) : gmap string (list Z) :=
  foldl (λ m kv, <[kv.1 := (Base64Decode kv.2).1]> m) ∅ l.

Definition GetExistingNodes (e : E) : option (gmap string (list Z)) := read_values <$> cli_Get serviceDiscoveryNodesPath e.
Definition GetExistingRegistries (e : E) : option (gmap string (list Z)) :=
  read_values <$> cli_Get serviceDiscoveryRegistriesPath e.
End client.

(** ** [registry.go]: the start *)

Section start.
Context {E : Type} `{Etcd E} `{Codec NodeInfo} `{Codec RegistryInfo}.
Context {J : Type} `{Journal J} {T : Type → Type} `{MemDB T} {B : Type} `{Backend B} {W : Type} `{DataNodes W}.
Context `{RecordCodecs} `{EntryCodecs}.
Context (garbled : list Z → Entry) (order : gset string → list string).

(** records that do not unmarshal are skipped; of two with one identifier the last
    one visited stays *)
Definition by_id {I} `{Codec I} (id : I → string) (values : gmap string (list Z)) : gmap string I :=
  foldl (λ m info, <[id info := info]> m) ∅ (omap (λ key, values !! key ≫= Unmarshal_msg) (order (dom values))).

(** [down] is [r.shutdown]; an error of etcd is fatal *)
Definition getExistingRegistries (down : bool) (e : E) : option (gmap string RegistryInfo) :=
  if down then Some ∅ else by_id Registry_Id <$> GetExistingRegistries e.
Definition getExistingNodes (down : bool) (e : E) : option (gmap string NodeInfo) :=
  if down then Some ∅ else by_id Node_Id <$> GetExistingNodes e.

Definition registerItself (down : bool) (info : RegistryInfo) : M E unit unit :=
  if down then mret tt else RegisterRegistry (Registry_Id info) info.
Definition unregisterItself (down : bool) (id : string) : M E unit unit :=
  if down then mret tt else UnregisterRegistry id.

(** [None] is a [log.Fatal]; [storage] is the one of the configuration *)
Definition NewRegistry (id name address : string) (alive pinged : string → bool) (journal : result journal_error J)
    (listening : bool) (storage : Storage T B) (e : E) (w : W) : option (result cluster_error (Registry J T B W * E)) :=
  regs ← getExistingRegistries false e;
  ns ← getExistingNodes false e;
  let info := mkRegistryInfo id name address in
  match NewCluster garbled id regs alive journal listening storage with
  | Err er => Some (Err er)
  | Panic => Some Panic
  | Ok c =>
      match NewNodesMap order ns pinged w with
      | Ok (m, w) =>
          match registerItself false info e with
          | (Ok _, e') => Some (Ok (mkRegistry c m w, e'))
          | _ => None
          end
      | _ => Some Panic
      end
  end.
End start.

(** ** [RunServiceDiscovery] *)

Inductive event := EventPut (key value : string) | EventDelete (key : string).

Section discovery.
Context {J : Type} `{Journal J} {T : Type → Type} `{MemDB T} {B : Type} `{Backend B} {W : Type} `{DataNodes W}.
Context `{Codec NodeInfo} `{Codec RegistryInfo}.
(** what a failed [Unmarshal] leaves in the record *)
Context (garbled_node : list Z → NodeInfo) (garbled_registry : list Z → RegistryInfo).
Local Abbreviation R := (Registry J T B W).
Local Abbreviation RM := (M R registry_error).

(** the errors of both decoders are logged, and the record is used as it is *)
Definition read_info {I} `{Codec I} (garbled : list Z → I) (value : string) : I :=
  let bytes := (Base64Decode value).1 in default (garbled bytes) (Unmarshal_msg bytes).

Definition handle_node_event (ev : event) : RM unit :=
  r ← get;
  match ev with
  | EventPut _ value =>
      let info := read_info garbled_node value in
      if NodeExists (Node_Id info) (NodesMap_of r) then on_nodes (UpdateNodeInfo (Node_Id info) info)
      else ignore_err (on_nodes (AddNode (Node_Id info) info))
  | EventDelete key =>
      let name := ParseNodeName key in
      if NodeExists name (NodesMap_of r) then on_nodes (RemoveNode name) else mret tt
  end.

(** [name] is the random name of the registry; removals are left to do *)
Definition handle_registry_event (name : string) (dialing : RegistryInfo → dial) (ev : event) : RM unit :=
  match ev with
  | EventPut key value =>
      if bool_decide (key = name) then mret tt
      else
        let info := read_info garbled_registry value in
        ignore_err (on_cluster (DiscoverOrUpdate (Registry_Id info) info (dialing info)))
  | EventDelete key => mret tt
  end.

(** the branches of the [select]: the ping only touches etcd *)
Inductive wakeup := OnTick | OnNodes (events : list event) | OnRegistries (events : list event).

Definition discovery_round (name : string) (dialing : RegistryInfo → dial) (u : wakeup) : RM unit :=
  match u with
  | OnTick => mret tt
  | OnNodes events => for_each events handle_node_event
  | OnRegistries events => for_each events (handle_registry_event name dialing)
  end.
Definition RunServiceDiscovery (name : string) (dialing : RegistryInfo → dial) (us : list wakeup) : RM unit :=
  for_each us (discovery_round name dialing).
End discovery.

(** ** Facts *)

Lemma TrimPrefix_app p s : TrimPrefix (p +:+ s) p = s.
Proof.
  unfold TrimPrefix.
  assert (String.prefix p (p +:+ s) = true) as ->.
  { induction p as [|c p IH]; simpl; [by destruct s|]. destruct (ascii_dec c c) as [_|Hn]; [exact IH|by destruct Hn]. }
  assert (∀ n, n = String.length s → String.substring 0 n s = s) as Hall.
  { induction s as [|c s IH]; intros n ->; simpl; [done|]. by rewrite IH. }
  assert (String.length (p +:+ s) - String.length p = String.length s)%nat as ->.
  { induction p as [|c p IH]; simpl; [apply Nat.sub_0_r|]. exact IH. }
  induction p as [|c p IH]; simpl; [by apply Hall|]. exact IH.
Qed.

(** what a data node does to the directory of the nodes *)
Inductive node_change := Joined (info : NodeInfo) | Left_ (id : string).

Definition directory_change (d : gmap string NodeInfo) (c : node_change) : gmap string NodeInfo :=
  match c with Joined info => <[Node_Id info := info]> d | Left_ id => delete id d end.

Section facts.
Context {J : Type} `{Journal J} {T : Type → Type} `{MemDB T} {B : Type} `{Backend B} {W : Type} `{DataNodes W}.
Context `{Codec NodeInfo} `{Codec RegistryInfo} (garbled_node : list Z → NodeInfo) (garbled_registry : list Z → RegistryInfo).
Local Abbreviation R := (Registry J T B W).
Implicit Types (r : R).

(** the event that etcd makes of it *)
Definition node_event (c : node_change) : event :=
  match c with
  | Joined info => EventPut (serviceDiscoveryNodesPath +:+ Node_Id info) (Base64Encode (Marshal_msg info))
  | Left_ id => EventDelete (serviceDiscoveryNodesPath +:+ id)
  end.

Lemma read_info_ok {I} `{Codec I} (garbled : list Z → I) (info : I) : read_info garbled (Base64Encode (Marshal_msg info)) = info.
Proof using. unfold read_info. rewrite b64_text_ok by apply Marshal_msg_bytes. cbn [fst]. by rewrite Unmarshal_Marshal_msg. Qed.

Definition infos r : gmap string NodeInfo := node_info <$> nodes (NodesMap_of r).

(** a node that answers *)
Definition answers_ping (address : string) : Prop :=
  dn_Dial (W:=W) address = true ∧ ∀ w : W, ∃ ms w', dn_Heartbeat address w = (Some ms, w').

Lemma infos_alter info (m : gmap string Node) id : is_Some (m !! id) → node_info <$> alter (with_info info) id m = <[id := info]> (node_info <$> m).
Proof using.
  intros [n Hn]. apply map_eq. intros i. rewrite lookup_fmap. destruct (decide (i = id)) as [->|Hne].
  - by rewrite lookup_alter_eq, lookup_insert_eq, Hn.
  - by rewrite lookup_alter_ne, lookup_insert_ne, lookup_fmap by done.
Qed.

(** a change of the directory, seen by the registry *)
Definition follows c r r' : Prop := infos r' = directory_change (infos r) c ∧
  ∀ id n, nodes (NodesMap_of r) !! id = Some n → (∀ id', c = Left_ id' → id' ≠ id) →
    ∃ n', nodes (NodesMap_of r') !! id = Some n' ∧ conn n' = conn n.

Lemma follows_update info r w : is_Some (nodes (NodesMap_of r) !! Node_Id info) →
  follows (Joined info) r (mkRegistry (Cluster_of r) (mkNodesMap (alter (with_info info) (Node_Id info) (nodes (NodesMap_of r)))
    (transport (NodesMap_of r))) w).
Proof using.
  intros Hex. split; [by apply infos_alter|]. intros id n Hn _. cbn. destruct (decide (id = Node_Id info)) as [->|Hne].
  - exists (with_info info n). by rewrite lookup_alter_eq, Hn.
  - exists n. by rewrite lookup_alter_ne.
Qed.

Lemma follows_add info r w : nodes (NodesMap_of r) !! Node_Id info = None →
  follows (Joined info) r (mkRegistry (Cluster_of r) (mkNodesMap (<[Node_Id info := new_node info]> (nodes (NodesMap_of r)))
    (transport (NodesMap_of r))) w).
Proof using.
  intros Hex. split; [unfold infos; cbn; by rewrite fmap_insert|]. intros id n Hn _. exists n. cbn.
  split; [|done]. rewrite lookup_insert_ne; [done|]. congruence.
Qed.

Lemma follows_remove id r : follows (Left_ id) r (mkRegistry (Cluster_of r) (mkNodesMap (delete id (nodes (NodesMap_of r)))
    (transport (NodesMap_of r))) (world r)).
Proof using.
  split; [unfold infos; cbn; by rewrite fmap_delete|]. intros id' n Hn Hne. exists n. cbn.
  split; [|done]. rewrite lookup_delete_ne; [done|]. by apply Hne.
Qed.

Lemma handle_node_event_ok c r : (∀ info, c = Joined info → answers_ping (Node_Address info)) →
  ∃ r', handle_node_event garbled_node (node_event c) r = (Ok tt, r') ∧ follows c r r'.
Proof using.
  intros Hans. unfold handle_node_event. rewrite (bind_ok _ _ _ _ _ (eq_refl : get r = (Ok r, r))).
  destruct c as [info|id]; cbn [node_event].
  - rewrite read_info_ok. unfold NodeExists. case_bool_decide as Hex.
    + eexists. split; [|by apply (follows_update info r (world r))]. unfold on_nodes, UpdateNodeInfo, set_nodes.
      by destruct r as [? [] ?].
    + destruct (Hans info eq_refl) as [Hdial Hbeat]. destruct (Hbeat (world r)) as (ms & w & E).
      eexists. split; [|apply (follows_add info r w); by apply eq_None_not_Some].
      unfold ignore_err, on_nodes, AddNode. rewrite Hdial. unfold in_world, mbind, M_bind. rewrite E.
      by destruct r as [? [] ?].
  - unfold ParseNodeName. rewrite TrimPrefix_app. unfold NodeExists. case_bool_decide as Hex.
    + eexists. split; [|apply (follows_remove id r)]. by destruct r as [? [] ?].
    + exists r. split; [done|]. pose proof (follows_remove id r) as [Hi Hk]. apply eq_None_not_Some in Hex.
      unfold infos in *. cbn in Hi, Hk. rewrite delete_id in Hi by done. rewrite delete_id in Hk by done. split; done.
Qed.

Lemma handle_node_events_ok cs r : (∀ info, Joined info ∈ cs → answers_ping (Node_Address info)) →
  ∃ r', for_each (node_event <$> cs) (handle_node_event garbled_node) r = (Ok tt, r') ∧
    infos r' = foldl directory_change (infos r) cs ∧
    ∀ id n, nodes (NodesMap_of r) !! id = Some n → Left_ id ∉ cs →
      ∃ n', nodes (NodesMap_of r') !! id = Some n' ∧ conn n' = conn n.
Proof using.
  revert r. induction cs as [|c cs IH]; intros r Hans; [by eexists; eauto|].
  destruct (handle_node_event_ok c r) as (r1 & E1 & Hi1 & Hk1).
  { intros info ->. apply Hans, list_elem_of_here. }
  destruct (IH r1) as (r' & E & Hi & Hk).
  { intros info Hinfo. by apply Hans, list_elem_of_further. }
  exists r'. split_and!.
  - cbn [fmap list_fmap for_each]. rewrite (bind_ok _ _ _ _ _ E1). exact E.
  - by rewrite Hi, Hi1.
  - intros id n Hn Hno. apply not_elem_of_cons in Hno as [Hne Hno]. destruct (Hk1 id n Hn) as (n1 & Hn1 & Hc1).
    { intros id' -> ->. by apply Hne. }
    destruct (Hk id n1 Hn1 Hno) as (n' & Hn' & Hc'). exists n'. split; [done|]. by rewrite Hc'.
Qed.
End facts.

(** ** What a registry starts with *)

(** inserting under distinct keys *)
Lemma foldl_insert_spec {A V} (key : A → string) (f : A → V) (l : list A) k v : NoDup (key <$> l) →
  foldl (λ m a, <[key a := f a]> m) (∅ : gmap string V) l !! k = Some v ↔ ∃ a, a ∈ l ∧ key a = k ∧ f a = v.
Proof.
  induction l as [|a l IH] using rev_ind; intros Hnd; cbn [foldl].
  { rewrite lookup_empty. split; [done|]. by intros (a & ?%elem_of_nil & _). }
  rewrite fmap_app in Hnd. apply NoDup_app in Hnd as (Hnd & Hno & _). rewrite foldl_app. cbn [foldl].
  rewrite lookup_insert_Some, IH by done. split.
  - intros [[Hk Hv]|[Hne (a' & Ha' & ? & ?)]]; [exists a; split_and!; try done; apply elem_of_app; right; by constructor|].
    exists a'. split_and!; try done. apply elem_of_app. by left.
  - intros (a' & [Ha'| ->%list_elem_of_singleton]%elem_of_app & <- & <-); [right|by left]. split; [|by exists a'].
    intros E. apply (Hno (key a')); [by apply list_elem_of_fmap_2|]. rewrite <- E. constructor.
Qed.

Section start_facts.
Context (order : gset string → list string).

(** the pairs of a directory of etcd, in some order *)
Definition listed {I} `{Codec I} (prefix : string) (d : gmap string I) (l : list (string * string)) : Prop :=
  l ≡ₚ (λ kv : string * I, (prefix +:+ kv.1, Base64Encode (Marshal_msg kv.2))%string) <$> map_to_list d.

Lemma read_values_ok {I} `{Codec I} prefix (d : gmap string I) l key bytes : listed prefix d l →
  read_values l !! key = Some bytes ↔ ∃ k i, d !! k = Some i ∧ key = (prefix +:+ k)%string ∧ bytes = Marshal_msg i.
Proof using.
  intros Hl. unfold read_values. rewrite (foldl_insert_spec fst (λ kv, (Base64Decode kv.2).1)).
  - split.
    + intros ([k' text] & Hin & <- & <-). rewrite Hl in Hin. apply list_elem_of_fmap in Hin as ([k i] & [= -> ->] & Hin%elem_of_map_to_list).
      exists k, i. split_and!; [done..|]. cbn [snd]. by rewrite b64_text_ok by apply Marshal_msg_bytes.
    + intros (k & i & Hk & -> & ->). exists (prefix +:+ k, Base64Encode (Marshal_msg i))%string. split_and!; [|done|].
      * rewrite Hl. apply list_elem_of_fmap. exists (k, i). split; [done|]. by apply elem_of_map_to_list.
      * cbn [snd]. by rewrite b64_text_ok by apply Marshal_msg_bytes.
  - rewrite Hl, <- list_fmap_compose. change (NoDup ((λ k, prefix +:+ k)%string ∘ fst <$> map_to_list d)).
    rewrite (list_fmap_compose fst (λ k, prefix +:+ k)%string). apply NoDup_fmap_2; [apply _|]. apply NoDup_fst_map_to_list.
Qed.

(** the records of a directory are read back *)
Lemma by_id_ok {I} `{Codec I} (id : I → string) prefix (d : gmap string I) l : (∀ s, order s ≡ₚ elements s) →
  (∀ k i, d !! k = Some i → id i = k) → listed prefix d l → by_id order id (read_values l) = d.
Proof using.
  intros Ho Hid Hl. unfold by_id. set (values := read_values l). set (read := λ key, values !! key ≫= Unmarshal_msg).
  assert (∀ key i, read key = Some i ↔ key = (prefix +:+ id i)%string ∧ d !! id i = Some i) as Hread.
  { intros key i. unfold read. rewrite bind_Some. split.
    - intros (bytes & Hb & Hu). apply (read_values_ok prefix d l key bytes Hl) in Hb as (k & i' & Hk & -> & ->).
      rewrite Unmarshal_Marshal_msg in Hu. injection Hu as ->. by rewrite (Hid k i Hk).
    - intros [-> Hi]. exists (Marshal_msg i). split; [|apply Unmarshal_Marshal_msg].
      apply (read_values_ok prefix d l _ _ Hl). by exists (id i), i. }
  set (keys := order (dom values)).
  assert (∀ key, key ∈ keys ↔ ∃ i, read key = Some i) as Hkeys.
  { intros key. unfold keys. rewrite Ho, elem_of_elements, elem_of_dom. split.
    - intros [bytes Hb]. pose proof (proj1 (read_values_ok prefix d l key bytes Hl) Hb) as (k & i & Hk & -> & ->).
      exists i. apply Hread. by rewrite (Hid k i Hk).
    - intros [i Hi]. unfold read in Hi. destruct (values !! key); [by eexists|done]. }
  assert ((λ i, prefix +:+ id i)%string <$> omap read keys = keys) as Hsame.
  { assert (∀ ks : list string, (∀ key, key ∈ ks → ∃ i, read key = Some i) → (λ i, prefix +:+ id i)%string <$> omap read ks = ks) as Hks.
    { induction ks as [|key ks IH]; intros Hall; [done|]. destruct (Hall key) as [i Hi]; [by constructor|].
      cbn. rewrite Hi. cbn. apply Hread in Hi as [-> _]. f_equal. apply IH. intros k' Hk'. apply Hall. by constructor. }
    apply Hks. intros key. apply Hkeys. }
  apply map_eq. intros k. apply option_eq. intros i. rewrite (foldl_insert_spec id (λ i, i)).
  - split.
    + intros (i' & (key & _ & Hi)%list_elem_of_omap & <- & <-). by apply Hread in Hi as [_ ?].
    + intros Hk. exists i. pose proof (Hid k i Hk) as Ei. split_and!; [|done|done]. apply list_elem_of_omap.
      exists (prefix +:+ id i)%string. assert (read (prefix +:+ id i)%string = Some i) as Hi by (apply Hread; by rewrite Ei).
      split; [|exact Hi]. apply Hkeys. by exists i.
  - apply (NoDup_fmap_1 (λ k, prefix +:+ k)%string). rewrite <- list_fmap_compose. unfold compose. rewrite Hsame.
    unfold keys. rewrite Ho. apply NoDup_elements.
Qed.
End start_facts.

Section new_registry.
Context {W : Type} `{DataNodes W} (order : gset string → list string).

(** the nodes of the directory that answer are known from the start *)
Lemma NewNodesMap_ok (infos : gmap string NodeInfo) (pinged : string → bool) (w : W) : (∀ s, order s ≡ₚ elements s) →
  (∀ id i, infos !! id = Some i → answers_ping (W:=W) (Node_Address i)) →
  ∃ m w', NewNodesMap order infos pinged w = Ok (m, w') ∧ nodes m = new_node <$> infos.
Proof using.
  intros Ho Hans. unfold NewNodesMap.
  assert (∀ (l : list string) (m : NodesMap) (w : W), (∀ id, id ∈ l → is_Some (infos !! id)) →
    ∃ m' w', for_each l (λ id, match infos !! id with Some i => add_existing id i | None => mret tt end) (m, w) = (Ok tt, (m', w')) ∧
      ∀ id, nodes m' !! id = if bool_decide (id ∈ l) then (new_node <$> infos) !! id else nodes m !! id) as Hloop.
  { clear w. induction l as [|i l IH]; intros m w Hl; [by exists m, w|]. destruct (Hl i) as [info Hi]; [by constructor|].
    destruct (Hans i info Hi) as [Hdial Hbeat]. destruct (Hbeat w) as (ms & w1 & E).
    set (m1 := mkNodesMap (<[i := new_node info]> (nodes m)) (transport m)).
    assert (add_existing i info (m, w) = (Ok tt, (m1, w1))) as E1.
    { unfold add_existing. rewrite Hdial. unfold in_world. rewrite (bind_ok _ _ (m, w) (Some ms) (m, w1)) by (by rewrite E). done. }
    destruct (IH m1 w1) as (m' & w' & E' & Hm'); [intros id Hid; apply Hl; by constructor|].
    exists m', w'. split.
    - cbn [for_each]. rewrite Hi, (bind_ok _ _ _ _ _ E1). exact E'.
    - intros id. rewrite Hm'. destruct (decide (id ∈ l)) as [Hin|Hin].
      + by rewrite !bool_decide_true by (done || by constructor).
      + rewrite (bool_decide_false (id ∈ l)) by done. cbn [m1 nodes]. destruct (decide (id = i)) as [->|Hne].
        * rewrite lookup_insert_eq, bool_decide_true by constructor. by rewrite lookup_fmap, Hi.
        * rewrite lookup_insert_ne, bool_decide_false by (done || by rewrite elem_of_cons; intros [?|?]). done. }
  destruct (Hloop (order (dom infos)) (mkNodesMap ∅ (NewTransport ∅ pinged)) w) as (m' & w' & -> & Hm').
  { intros id. rewrite Ho, elem_of_elements. apply elem_of_dom. }
  eexists _, w'. split; [reflexivity|]. cbn [nodes]. apply map_eq. intros id. rewrite Hm'. cbn [nodes].
  case_bool_decide as Hin; [done|]. rewrite Ho, elem_of_elements, not_elem_of_dom in Hin. by rewrite lookup_fmap, Hin, lookup_empty.
Qed.
End new_registry.

(** ** The theorems *)

Section theorems.
Context {J : Type} `{Journal J} {T : Type → Type} `{MemDB T} {B : Type} `{Backend B} {W : Type} `{DataNodes W}.
Context `{Codec NodeInfo} `{Codec RegistryInfo} (garbled_node : list Z → NodeInfo) (garbled_registry : list Z → RegistryInfo).
Context (name : string) (dialing : RegistryInfo → dial).
Local Abbreviation R := (Registry J T B W).
Local Abbreviation discover := (RunServiceDiscovery garbled_node garbled_registry name dialing).
Implicit Types (r : R).


(** a registry compares the key of an event with its random name, which no key
  is; the event of its own record makes it a peer of itself, and it counts one
  member too many *)
Theorem own_record_makes_a_peer (info : RegistryInfo) r :
  let c := Cluster_of r in
  Registry_Id info = ID c → Cluster.shutdown c = false → peers c !! ID c = None → dialing info = PeerAlive →
  let key := (serviceDiscoveryRegistriesPath +:+ ID c)%string in
  key ≠ name →
  ∃ r', discover [OnRegistries [EventPut key (Base64Encode (Marshal_msg info))]] r = (Ok tt, r') ∧
    peers (Cluster_of r') !! ID (Cluster_of r') = Some (new_peer info) ∧
    MemberCount (Cluster_of r') = MemberCount c + 1.
Proof.
  intros c Hid Hon Hnew Hdial key Hkey. subst c key. unfold RunServiceDiscovery. cbn [for_each discovery_round handle_registry_event].
  rewrite bool_decide_false, read_info_ok by done. eexists. split; [|split].
  - erewrite bind_ok; [reflexivity|]. erewrite bind_ok; [reflexivity|]. unfold ignore_err, on_cluster, DiscoverOrUpdate, AddPeer.
    rewrite Hdial. unfold mbind, M_bind, get, modify. cbn. rewrite Hon, Hid, Hnew. reflexivity.
  - cbn. apply lookup_insert_eq.
  - unfold MemberCount. cbn. rewrite map_size_insert_None by done. lia.
Qed.
End theorems.

(** ** Witnesses *)

#[export] Instance NodeInfo_State_eq_dec : EqDecision NodeInfo_State.
Proof. solve_decision. Defined.
#[export] Instance NodeInfo_eq_dec : EqDecision NodeInfo.
Proof. solve_decision. Defined.
#[export] Instance RegistryInfo_eq_dec : EqDecision RegistryInfo.
Proof. solve_decision. Defined.

Definition NodeState_code (s : NodeInfo_State) : Z :=
  match s with NodeInfo_NORMAL => 0 | NodeInfo_DECOMMISSION_IN_PROGRESS => 1 | NodeInfo_DECOMMISSIONED => 2 end.
Definition NodeState_of_code (z : Z) : option NodeInfo_State :=
  match z with 0 => Some NodeInfo_NORMAL | 1 => Some NodeInfo_DECOMMISSION_IN_PROGRESS | 2 => Some NodeInfo_DECOMMISSIONED | _ => None end.
#[export] Program Instance NodeState_countable : Countable NodeInfo_State := inj_countable NodeState_code NodeState_of_code _.
Next Obligation. by intros []. Qed.
#[export] Program Instance NodeInfo_countable : Countable NodeInfo :=
  inj_countable' (λ n, (Node_Id n, Node_Name n, Node_Address n, Node_Location n, Node_State n))
    (λ '(a, b, c, d, e), mkNodeInfo a b c d e) _.
Next Obligation. by intros []. Qed.
#[export] Program Instance RegistryInfo_countable : Countable RegistryInfo :=
  inj_countable' (λ r, (Registry_Id r, Registry_Name r, Registry_Address r)) (λ '(a, b, c), mkRegistryInfo a b c) _.
Next Obligation. by intros []. Qed.

Section witnesses.
#[local] Existing Instance bit_records.
#[local] Existing Instance bit_codecs.

(** nodes that answer everywhere *)
Definition all_up : DataNodes unit :=
  {| dn_Dial _ := true; dn_Heartbeat _ w := (Some None, w); dn_AssignBlocks _ _ w := (None, w);
     dn_GetBlocks _ _ w := (None, w); dn_RemoveBlocks _ _ w := (None, w) |}.
#[local] Existing Instance all_up.
Definition bit_nodes : Codec NodeInfo := bit_codec.
Definition bit_registries : Codec RegistryInfo := bit_codec.
#[local] Existing Instances bit_nodes bit_registries.

Definition node_at (id address : string) : NodeInfo := mkNodeInfo id id address "" NodeInfo_NORMAL.
Definition no_node (_ : list Z) : NodeInfo := node_at "" "".
Definition no_registry (_ : list Z) : RegistryInfo := mkRegistryInfo "" "" "".

(** a node that is known moves, another one joins, and a third comes and goes *)
Definition some_changes : list (list node_change) :=
  [[Joined (node_at "n1" "new"); Joined (node_at "n2" "h2")]; [Joined (node_at "n3" "h3")]; [Left_ "n3"]].
Definition known_registry (s : small_storage) : Registry node_wal map_table (FileStorageBackend map_bolt) unit :=
  mkRegistry (small_cluster "a" "b" s) (mkNodesMap {["n1" := new_node (node_at "n1" "old")]} (mkTransport ∅ false)) tt.


Lemma own_record_makes_a_peer_witness : ∃ s : small_storage, stands s no_meta ∧
  let c := Cluster_of (known_registry s) in
  ∃ r', RunServiceDiscovery no_node no_registry "quick-fox" (λ _, PeerAlive)
      [OnRegistries [EventPut (serviceDiscoveryRegistriesPath +:+ ID c) (Base64Encode (Marshal_msg (mkRegistryInfo "a" "quick-fox" "addr")))]]
      (known_registry s) = (Ok tt, r') ∧
    peers (Cluster_of r') !! ID (Cluster_of r') = Some (new_peer (mkRegistryInfo "a" "quick-fox" "addr")) ∧
    MemberCount (Cluster_of r') = MemberCount c + 1.
Proof.
  destruct small_fresh as (s & _ & Hs). exists s. split; [exact Hs|].
  by apply (own_record_makes_a_peer no_node no_registry "quick-fox" (λ _, PeerAlive) (mkRegistryInfo "a" "quick-fox" "addr")
    (known_registry s)).
Defined.
End witnesses.
