(* ===== verification/Cli.v ===== *)
(** * The command line client: [cmd/rhosus]

    The commands [ls], [mkdir] and [rm] connect to the address of viper's keys [host]
    and [port] and make one call.  The server is the class [ApiServer]: the connection,
    the ping and the calls of the generated client.  A command gives the lines it
    writes, and ends in one of three ways. *)

From S2P Require Import Prelude GoStrings Settings Messages MemDB Storage Registry Handlers.

(** [None] is an error of the call; the text of the error is not looked at *)
Record ListResponse := mkListResponse { ListRes_List : list ApiFileInfo; ListRes_Error : string }.

Class ApiServer (S : Type) := {
  api_Dial : string → S → bool;
  api_Ping : string → S → bool * S;
  api_List : string → string → S → option ListResponse * S;
  api_MakeDir : string → string → S → option CommonResponse * S;
  api_Remove : string → string → bool → S → option CommonResponse * S;    (* the path, and [Recursive] *)
}.

Inductive line := Printed (s : string) | Info (s : string) | ErrorLine | UsageText.
Inductive ending := Returned | FatalExit (message : string) | Panicked.

(** ** Flags *)

(** [init] of [ls.go], [mkdir.go] and [rm.go] run in the order of the file names; each
    command has flags of its own, and all are bound to the same two keys *)
Definition cli_flags : list (string * string) :=
  [("ls --host", "127.0.0.1"); ("ls --port", "5050"); ("mkdir --host", "127.0.0.1"); ("mkdir --port", "5050");
   ("rm --host", "127.0.0.1"); ("rm --port", "5050")]%string.
Definition cli_bindings : list (string * string) :=
  [("host", "ls --host"); ("port", "ls --port"); ("host", "mkdir --host"); ("port", "mkdir --port");
   ("host", "rm --host"); ("port", "rm --port")]%string.

(** [net.JoinHostPort] *)
Definition JoinHostPort (host port : string) : string :=
  (if bool_decide (":"%char ∈ list_ascii_of_string host) then "[" +:+ host +:+ "]:" +:+ port else host +:+ ":" +:+ port)%string.

Definition cli_address {V} `{Viper V} (given : gmap string string) (env : string → string) (v : V) : string :=
  let fl := parsed cli_flags given in
  JoinHostPort (GetString fl env "host" v) (GetString fl env "port" v).

(** ** [fmt] *)

(** [%-5s], [%4s] and [%6d]: the width counts runes *)
Definition pad (n : nat) (s : string) : string := string_of_list_ascii (repeat " "%char (n - RuneCount s)).
Definition pad_right (n : nat) (s : string) : string := (s +:+ pad n s)%string.
Definition pad_left (n : nat) (s : string) : string := (pad n s +:+ s)%string.

Fixpoint decimal (fuel : nat) (n : Z) (rest : string) : string :=
  match fuel with
  | O => rest
  | S fuel =>
      let rest := String (ascii_of_N (Z.to_N (48 + n mod 10))) rest in
      if n <? 10 then rest else decimal fuel (n / 10) rest
  end.
(** a [uint64] has at most twenty digits *)
Definition Itoa (n : Z) : string := decimal 20 n "".

Definition type_name (t : FileInfo_FileType) : string :=
  match t with FileInfo_FILE => "FILE" | FileInfo_DIR => "DIR" | FileInfo_SYMLINK => "SYM" end.

Definition file_line (f : ApiFileInfo) : string :=
  (pad_right 5 (type_name (ApiFile_Type f)) +:+ " " +:+ pad_left 6 (Itoa (ApiFile_Size f)) +:+ " 0777 " +:+
   pad_left 4 (ApiFile_Name f) +:+ " ")%string.

(** ** The commands *)

Section commands.
Context {S : Type} `{ApiServer S}.

Inductive conn_result := Connected | ConnFailed | ConnPanics.

(** when the dial fails its connection is nil, and closing it panics *)
Definition GetConn (address : string) (s : S) : conn_result * S :=
  if api_Dial address s then
    let '(ok, s) := api_Ping address s in (if ok then Connected else ConnFailed, s)
  else (ConnPanics, s).

(** what the three commands share: one argument, a connection, and then the call *)
Definition connected (args : list string) (address : string) (call : string → S → list line * ending * S) (s : S) : list line * ending * S :=
  match args with
  | [path] =>
      match GetConn address s with
      | (Connected, s) => call path s
      | (ConnFailed, s) => ([ErrorLine], FatalExit "Error connecting to registry. Is it running?", s)
      | (ConnPanics, s) => ([], Panicked, s)
      end
  | _ => ([ErrorLine; UsageText], Returned, s)
  end.

Definition listCmd (args : list string) (address : string) : S → list line * ending * S :=
  connected args address (λ path s,
    match api_List address path s with
    | (None, s) => ([], FatalExit "Error from server", s)
    | (Some res, s) =>
        if bool_decide (ListRes_Error res = "")%string then ((Printed ∘ file_line) <$> ListRes_List res, Returned, s)
        else ([], FatalExit ("Error: " +:+ ListRes_Error res), s)
    end).

Definition createDirCmd (args : list string) (address : string) : S → list line * ending * S :=
  connected args address (λ path s,
    match api_MakeDir address path s with
    | (None, s) => ([], FatalExit "Error from server", s)
    | (Some res, s) =>
        if Common_Success res then ([Info "Successfully created a dir"], Returned, s)
        else ([], FatalExit ("Error: " +:+ Common_Err res), s)
    end).

(** after an error the response is nil, and its success is read nevertheless *)
Definition rmCmd (args : list string) (address : string) : S → list line * ending * S :=
  connected args address (λ path s,
    match api_Remove address path true s with
    | (None, s) => ([ErrorLine], Panicked, s)
    | (Some res, s) => (if Common_Success res then [Info "file or directory has been removed"] else [], Returned, s)
    end).

(** they move no file *)
Definition uploadCmd (args : list string) : list line := (Printed <$> args) ++ [Info "file has been uploaded"].
Definition downloadCmd (args : list string) : list line := (Printed <$> args) ++ [Info "file has been downloaded"].
End commands.

Example line_of_dir : file_line (mkApiFile "a" FileInfo_DIR 4096) = "DIR     4096 0777    a "%string. Proof. reflexivity. Qed.
Example line_of_file : file_line (mkApiFile "notes.txt" FileInfo_FILE 1234567) = "FILE  1234567 0777 notes.txt "%string. Proof. reflexivity. Qed.

(** ** Theorems *)

(** the last binding of a key stays *)
Lemma bind_flags_last {V} `{ViperLaws V} table bindings v key :
  v_flag key (bind_flags table bindings v) =
    foldl (λ o b, if bool_decide (b.1 = key ∧ b.2 ∈ table.*1) then Some b.2 else o) (v_flag key v) bindings ∧
  v_env key (bind_flags table bindings v) = v_env key v ∧ v_default key (bind_flags table bindings v) = v_default key v.
Proof.
  revert v. induction bindings as [|[k f] bs IH]; intros v; [done|]. cbn [bind_flags foldl fst snd].
  set (o := if bool_decide (f ∈ table.*1) then Some f else None).
  change (foldl _ (BindPFlag k o v) bs) with (bind_flags table bs (BindPFlag k o v)).
  destruct (IH (BindPFlag k o v)) as (-> & -> & ->). destruct (v_BindPFlag k o v key) as (-> & -> & ->). split; [|done]. f_equal. subst o.
  destruct (decide (f ∈ table.*1)) as [Hin|Hin].
  - rewrite (bool_decide_true (f ∈ _)) by done. apply (f_equal (λ b : bool, if b then Some f else v_flag key v)), bool_decide_ext.
    split; [by intros [-> _]|by intros [-> _]].
  - rewrite (bool_decide_false (f ∈ _)) by done. rewrite !bool_decide_false; [done|by intros [_ ?]|by intros [_ ?]].
Qed.

(** Whatever the command and its flags, the client connects to the address that the
    flags of [rm] name, by default 127.0.0.1:5050: the flags of [ls] and [mkdir] have
    no effect, since [rm] binds the same keys after them. *)
Theorem only_rm_chooses_its_server {V} `{ViperLaws V} (given : gmap string string) (env : string → string) (v : V) :
  blank v →
  cli_address given env (bind_flags cli_flags cli_bindings v) =
    JoinHostPort (default "127.0.0.1"%string (given !! "rm --host"%string)) (default "5050"%string (given !! "rm --port"%string)).
Proof.
  intros Hv. unfold cli_address. rewrite !v_GetString.
  destruct (bind_flags_last cli_flags cli_bindings v "host") as (-> & -> & ->).
  destruct (bind_flags_last cli_flags cli_bindings v "port") as (-> & -> & ->).
  destruct (Hv "host"%string) as (-> & -> & ->). destruct (Hv "port"%string) as (-> & -> & ->).
  reflexivity.
Qed.

Lemma only_rm_chooses_its_server_witness :
  cli_address {[ "ls --port" := "6435" ]}%string (λ _, ""%string) (bind_flags cli_flags cli_bindings no_bindings) = "127.0.0.1:5050"%string.
Proof. exact (only_rm_chooses_its_server {[ "ls --port" := "6435" ]}%string (λ _, ""%string) no_bindings blank_no_bindings). Defined.

(** A removal that the server refuses leaves no trace on the terminal: the command
    writes nothing and returns; [mkdir] ends with the server's message. *)
Theorem refused_removal_is_silent {S} `{ApiServer S} (address path : string) (s s1 s2 : S) (res : CommonResponse) :
  api_Dial address s = true → api_Ping address s = (true, s1) → Common_Success res = false →
  (api_Remove address path true s1 = (Some res, s2) → rmCmd [path] address s = ([], Returned, s2)) ∧
  (api_Remove address path true s1 = (None, s2) → rmCmd [path] address s = ([ErrorLine], Panicked, s2)) ∧
  (api_MakeDir address path s1 = (Some res, s2) → createDirCmd [path] address s = ([], FatalExit ("Error: " +:+ Common_Err res), s2)).
Proof.
  intros Hd Hp Hr. unfold rmCmd, createDirCmd, connected, GetConn. rewrite Hd, Hp.
  split_and!; intros ->; [by rewrite Hr|done|by rewrite Hr].
Qed.
