(* ===== verification/Daemon.v ===== *)
(** * The two processes: [cmd/rhosusd], [cmd/rhosusr], and how they end

    A process reads its settings, prepares its home directory, takes its identifier,
    builds its parts and registers in etcd.  Signals end it: the lists of [moment]s
    below are the signals it receives, the firing of the timer that the first signal
    armed, and, for the registry, the turns of its main goroutine. *)

From S2P Require Import Prelude Uuid HostFs Settings Messages Wal Journal Cluster MemDB Backend.
From S2P Require Import Storage StorageSpec WalSpec ClusterSpec RegistrySpec NodesMap Registry Discovery RandFile IdxFile Partition Manager Node.

(** ** The parts of a data node *)

(** [filepath.Abs]: [cwd] is the working directory, [None] when it is not known *)
Definition Abs (cwd : option string) (dir : string) : option string :=
  if GoStrings.has_prefix_slash dir then Some (Clean dir) else (λ wd, path_Join [wd; dir]) <$> cwd.

Definition defaultPartitionsDir : string := "./parts".

(** the directory of the partitions: [os.MkdirAll], its entries and index files *)
Record PartsDir := mkPartsDir {
  mkdir_all : string → bool;
  read_dir : string → list dirent;
  index_of : string → string → option file;
}.

Section parts.
Context (part_io idx_io : io_op → bool) (porder : list string → list string) (fallocate : nat → Fileutil.falloc_res).

Definition NewPartitionsMap (cwd : option string) (disk : PartsDir) (randoms : list (option (list Z))) (dir : string)
    : option (result data_error PartitionsMap) :=
  let dir := if bool_decide (dir = "")%string then defaultPartitionsDir else dir in
  match Abs cwd dir with
  | None => Some (Err ErrIO)
  | Some path =>
      if mkdir_all disk path then
        match loadPartitions part_io idx_io fallocate (read_dir disk path) (index_of disk path) randoms (mkPartitionsMap ∅ 0) with
        | Some (Ok _, s) => Some (Ok s)
        | Some (Err e, _) => Some (Err e)
        | Some (Panic, _) => Some Panic
        | None => None
        end
      else Some (Err ErrIO)
  end.

Definition NewManager (cwd : option string) (disk : PartsDir) (randoms : list (option (list Z))) (dir : string)
    : option (result data_error Manager) :=
  (λ r, pmap ← r; Ok (mkManager pmap false)) <$> NewPartitionsMap cwd disk randoms dir.

(** [name] is the random name; every error is fatal: [Err Fatal].  [None]: the
    loading of the partitions does not end *)
Definition NewNode (cwd : option string) (disk : PartsDir) (randoms : list (option (list Z))) (name : string) (etcd_made : bool)
    (config : Config) : option (result fatal DataNode) :=
  r ← NewManager cwd disk randoms (path_Join [Config_RhosusPath config; "data"%string]);
  Some (match r with
        | Ok m => if etcd_made then Ok (mkDataNode (Config_ID config) name config m false) else Err Fatal
        | Err _ => Err Fatal
        | Panic => Panic
        end).
End parts.

(** ** A data node and etcd *)

Inductive sig := SIGHUP | SIGINT | SIGTERM.
Definition terminates (s : sig) : bool := match s with SIGHUP => false | _ => true end.

(** the goroutine of the signals waits or has returned, and the timer is armed or not *)
Inductive status := Listening (armed : bool) | Deaf (armed : bool) | Exited (code : Z) | Crashed.

Inductive moment := Signal (s : sig) | Timer.

Section data_node.
Context {E : Type} `{Etcd E} `{Codec NodeInfo}.
Context (part_io : io_op → bool) (porder : list string → list string) (os : Os).

Record daemon := mkDaemon { d_node : DataNode; d_etcd : E; d_files : fsys }.

Definition node_info (n : DataNode) : NodeInfo :=
  mkNodeInfo (n_ID n) (n_Name n) (Config_Address (n_Config n)) (Config_RhosusPath (n_Config n)) NodeInfo_NORMAL.

Definition on_etcd {A} (m : M E unit A) : M daemon unit A := λ d,
  let '(r, e) := m (d_etcd d) in (r, mkDaemon (d_node d) e (d_files d)).
Definition set_node (f : DataNode → DataNode) : M daemon unit unit := modify (λ d, mkDaemon (f (d_node d)) (d_etcd d) (d_files d)).

Definition node_registerItself : M daemon unit unit := d ← get; on_etcd (RegisterNode (n_ID (d_node d)) (node_info (d_node d))).
Definition node_unregisterItself : M daemon unit unit := d ← get; on_etcd (UnregisterNode (n_ID (d_node d))).

(** the error of [data.Shutdown] is dropped; closing [shutdownC] twice panics *)
Definition shut_node (n : DataNode) : result data_error unit * DataNode :=
  let '(r, m) := Shutdown part_io porder (n_data n) in (r, with_data m n).
Definition close_node : M daemon unit unit :=
  d ← get;
  if n_down (d_node d) then panic
  else set_node (λ n, mkDataNode (n_ID n) (n_Name n) (n_Config n) (n_data n) true).
Definition Node_Shutdown : M daemon unit unit :=
  d ← get;
  let '(r, n) := shut_node (d_node d) in
  _ ← set_node (λ _, n);
  match r with
  | Panic => panic
  | _ => _ ← node_unregisterItself; close_node
  end.

(** a pid file that is named is removed, and errors are dropped *)
Definition remove_pid (pid_file : string) (fs : fsys) : fsys :=
  if bool_decide (pid_file = "")%string then fs else (Remove os pid_file fs).2.
Definition without_pid (pid_file : string) (d : daemon) : daemon := mkDaemon (d_node d) (d_etcd d) (remove_pid pid_file (d_files d)).

(** [handleSignals] *)
Definition handle_moment (pid_file : string) (m : moment) (s : status) (d : daemon) : status * daemon :=
  match m, s with
  | Signal sg, Listening armed =>
      if terminates sg then
        match Node_Shutdown d with
        | (Ok _, d') => (Exited 0, without_pid pid_file d')
        | (Err _, d') => (Deaf true, d')
        | (Panic, d') => (Crashed, d')
        end
      else (s, d)
  | Timer, Listening true | Timer, Deaf true => (Exited 1, without_pid pid_file d)
  | _, _ => (s, d)
  end.
Fixpoint handleSignals (pid_file : string) (ms : list moment) (s : status) (d : daemon) : status * daemon :=
  match ms with
  | [] => (s, d)
  | m :: ms' => let '(s', d') := handle_moment pid_file m s d in handleSignals pid_file ms' s' d'
  end.

(** [Start] up to the wait for [shutdownC]; an error is fatal *)
Definition Node_Start : M daemon unit unit := node_registerItself.
End data_node.
Arguments daemon E : clear implicits.
Arguments mkDaemon {E}.

(** [Run] of [rhosusd]: the home directory, the identifier, the node, its record *)
Definition rhosusd_main {E V} `{Etcd E, Codec NodeInfo, Viper V} (os : Os) (part_io idx_io : io_op → bool)
    (fallocate : nat → Fileutil.falloc_res) (dorder : list (string * string) → list (string * string)) (given : gmap string string)
    (env : string → string) (v0 : V) (random : option (list Z)) (cwd : option string) (disk : PartsDir)
    (randoms : list (option (list Z))) (name : string) (etcd_made : bool) (e : E) (fs : fsys) : option (result fatal (daemon E)) :=
  match rhosusd_setup dorder v0 with
  | None => Some (Err Fatal)
  | Some v =>
      let fl := parsed rhosusd_flags given in
      let rhosusPath := GetString fl env "rhosus_path" v in
      match (_ ← prepare_home os rhosusPath; node_getId os random rhosusPath true) fs with
      | (Ok nodeId, fs') =>
          let config := mkConfig nodeId (GetString fl env "etcd_addr" v) (GetString fl env "service_addr" v) rhosusPath in
          r ← NewNode part_io idx_io fallocate cwd disk randoms name etcd_made config;
          Some (n ← r;
                match Node_Start (mkDaemon n e fs') with
                | (Ok _, d) => Ok d
                | (Err _, _) => Err Fatal
                | (Panic, _) => Panic
                end)
      | (Err er, _) => Some (Err er)
      | (Panic, _) => Some Panic
      end
  end.

(** ** How a data node ends *)

Section node_facts.
Context {E : Type} `{Etcd E} `{Codec NodeInfo}.
Context (part_io : io_op → bool) (porder : list string → list string) (os : Os) (pid_file : string).
Implicit Types (d : daemon E).
Local Abbreviation watch := (handleSignals part_io porder os pid_file).
Local Abbreviation node_key := (λ d, serviceDiscoveryNodesPath +:+ n_ID (d_node d))%string.

(** a data node that serves *)
Definition serving d : Prop := m_shutdown (n_data (d_node d)) = false ∧ n_down (d_node d) = false ∧
  ∀ k o, parts (m_parts (n_data (d_node d))) !! k = Some o → is_Some o.

Lemma watch_app ms1 ms2 s d : watch (ms1 ++ ms2) s d = (let '(s', d') := watch ms1 s d in watch ms2 s' d').
Proof using.
  revert s d. induction ms1 as [|m ms1 IH]; intros s d; [done|]. cbn. by destruct (handle_moment _ _ _ _ _ _ _).
Qed.
Lemma watch_hups k d : watch (replicate k (Signal SIGHUP)) (Listening false) d = (Listening false, d).
Proof using. by induction k. Qed.
Lemma watch_ended ms c d : watch ms (Exited c) d = (Exited c, d).
Proof using. by induction ms as [|[] ms]. Qed.
Lemma watch_deaf sigs d : watch (Signal <$> sigs) (Deaf true) d = (Deaf true, d).
Proof using. by induction sigs. Qed.

(** what [Shutdown] does to the blocks of a node *)
Lemma shut_node_ok d : (∀ l, porder l ≡ₚ l) → serving d →
  ∃ n, shut_node part_io porder (d_node d) = (Ok tt, n) ∧ n_ID n = n_ID (d_node d) ∧ n_down n = false ∧ m_shutdown (n_data n) = true ∧
    n_Config n = n_Config (d_node d) ∧ n_Name n = n_Name (d_node d) ∧
    ∀ k p, parts (m_parts (n_data n)) !! k = Some (Some p) → closed p = true.
Proof using.
  intros Hpo (Hon & Hdown & Hparts). unfold shut_node, Manager.Shutdown. rewrite Hon.
  set (keys := part_keys porder (m_parts (n_data (d_node d)))).
  destruct (close_all_ok part_io keys (parts (m_parts (n_data (d_node d))))) as (ps & -> & Hps).
  { unfold keys, part_keys. rewrite Hpo. apply NoDup_fst_map_to_list. }
  { intros k [o Ho]%(elem_of_part_keys porder Hpo). destruct (Hparts k o Ho) as [p ->]. by exists p. }
  eexists. split_and!; [reflexivity|done..|]. cbn. intros k p Hp. destruct (Hps k p Hp) as (q & Hq & Hcase).
  rewrite bool_decide_true in Hcase by (apply (elem_of_part_keys porder Hpo); by eexists).
  subst p. unfold Close. by destruct (closed q) eqn:Hc.
Qed.

Lemma Node_Shutdown_ok d ok e : (∀ l, porder l ≡ₚ l) → serving d → cli_Delete (node_key d) (d_etcd d) = (ok, e) →
  ∃ n, Node_Shutdown part_io porder d = (if ok then Ok tt else Err tt, mkDaemon n e (d_files d)) ∧
    m_shutdown (n_data n) = true ∧ n_down n = ok ∧ n_Config n = n_Config (d_node d) ∧ n_Name n = n_Name (d_node d) ∧
    ∀ k p, parts (m_parts (n_data n)) !! k = Some (Some p) → closed p = true.
Proof using.
  intros Hpo Hs Hdel. destruct (shut_node_ok d Hpo Hs) as (n & En & Hid & Hdown & Hoff & Hc & Hname & Hall).
  assert (Node_Shutdown part_io porder d =
    (_ ← node_unregisterItself; close_node) (mkDaemon n (d_etcd d) (d_files d))) as ->.
  { unfold Node_Shutdown. rewrite (bind_ok _ _ d d d) by done. by rewrite En. }
  assert (node_unregisterItself (mkDaemon n (d_etcd d) (d_files d)) = (if ok then Ok tt else Err tt, mkDaemon n e (d_files d))) as Eu.
  { unfold node_unregisterItself, on_etcd, UnregisterNode, call. erewrite bind_ok by reflexivity. cbn [d_node d_etcd].
    rewrite Hid, Hdel. by destruct ok. }
  destruct ok.
  - rewrite (bind_ok _ _ _ _ _ Eu). unfold close_node. erewrite bind_ok by reflexivity. cbn [d_node]. rewrite Hdown.
    eexists. split; [reflexivity|]. by split_and!.
  - rewrite (bind_err _ _ _ _ _ Eu). exists n. by split_and!.
Qed.

Lemma watch_terminates k sg ms d ok e : (∀ l, porder l ≡ₚ l) → serving d → terminates sg = true → cli_Delete (node_key d) (d_etcd d) = (ok, e) →
  ∃ n, watch (replicate k (Signal SIGHUP) ++ Signal sg :: ms) (Listening false) d =
      watch ms (if ok then Exited 0 else Deaf true) (if ok then without_pid os pid_file (mkDaemon n e (d_files d)) else mkDaemon n e (d_files d)) ∧
    m_shutdown (n_data n) = true ∧ n_Config n = n_Config (d_node d) ∧ n_Name n = n_Name (d_node d) ∧
    ∀ k p, parts (m_parts (n_data n)) !! k = Some (Some p) → closed p = true.
Proof using.
  intros Hpo Hs Hsg Hdel. destruct (Node_Shutdown_ok d ok e Hpo Hs Hdel) as (n & En & ? & ? & ? & ? & ?).
  exists n. split_and!; [|done..]. rewrite watch_app, watch_hups. cbn [handleSignals handle_moment]. rewrite Hsg, En. by destruct ok.
Qed.

(** The first SIGINT or SIGTERM ends a data node with code 0 when etcd takes back
    its record, whatever signals come before or after: every partition is closed and
    the pid file is gone. *)
Theorem terminated_node_exits (k : nat) (sg : sig) (ms : list moment) (d : daemon E) (e : E) :
  (∀ l, porder l ≡ₚ l) → serving d → terminates sg = true → cli_Delete (node_key d) (d_etcd d) = (true, e) →
  ∃ d', watch (replicate k (Signal SIGHUP) ++ Signal sg :: ms) (Listening false) d = (Exited 0, d') ∧
    d_etcd d' = e ∧ m_shutdown (n_data (d_node d')) = true ∧
    (∀ k p, parts (m_parts (n_data (d_node d'))) !! k = Some (Some p) → closed p = true) ∧
    (pid_file ≠ ""%string → os_mkdir os pid_file = true → d_files d' !! pid_file = None).
Proof using.
  intros Hpo Hs Hsg Hdel. destruct (watch_terminates k sg ms d true e Hpo Hs Hsg Hdel) as (n & -> & Hoff & _ & _ & Hall).
  exists (without_pid os pid_file (mkDaemon n e (d_files d))). split; [apply watch_ended|]. split_and!; [done..|].
  intros Hne Hrm. cbn. unfold remove_pid. rewrite bool_decide_false by done. unfold Remove. rewrite (bind_ok _ _ (d_files d) (d_files d) (d_files d)) by done.
  destruct (d_files d !! pid_file) eqn:Hf; [|done]. rewrite Hrm. apply lookup_delete_eq.
Qed.

End node_facts.

(** ** The process of a registry *)

(** the turns of the main goroutine are moments of their own *)
Inductive registry_moment := Asked (m : moment) | MainRuns.

Section registry.
Context {E : Type} `{Etcd E} {J : Type} {T : Type → Type} {B W : Type}.
Context (os : Os) (pid_file : string).

(** [p_asked]: [shutdownCh] of [Run] is closed; [p_api_down] and [p_down]: those of the
    api and of the registry *)
Record process := mkProcess {
  p_registry : Registry J T B W;
  p_etcd : E;
  p_files : fsys;
  p_asked : bool;
  p_api_down : bool;
  p_down : bool;
}.

Definition ask (p : process) : process := mkProcess (p_registry p) (p_etcd p) (p_files p) true (p_api_down p) (p_down p).

(** [a.shutdown] is never set: a second call closes the channel again *)
Definition Api_Shutdown (p : process) : result unit process :=
  if p_api_down p then Panic else Ok (mkProcess (p_registry p) (p_etcd p) (p_files p) (p_asked p) true (p_down p)).

(** [Registry.Shutdown] up to [os.Exit(0)]: the storage stays open *)
Definition Registry_Shutdown (p : process) : result unit process :=
  if p_down p then Panic
  else
    let r := p_registry p in
    let '(_, e) := unregisterItself false (Cluster.ID (Cluster_of r)) (p_etcd p) in
    if Cluster.shutdown (Cluster_of r) then Panic
    else Ok (mkProcess (mkRegistry (Cluster.Shutdown (Cluster_of r)) (NodesMap_of r) (world r)) e (remove_pid os pid_file (p_files p))
           (p_asked p) (p_api_down p) true).

(** [handleSignals] of [cmd/rhosusr], and the loop at the end of [Run] *)
Definition registry_turn (m : registry_moment) (s : status) (p : process) : status * process :=
  match m, s with
  | Asked (Signal sg), Listening armed =>
      if terminates sg then if p_asked p then (Crashed, p) else (Listening true, ask p) else (s, p)
  | Asked Timer, Listening true =>
      (Exited 1, mkProcess (p_registry p) (p_etcd p) (remove_pid os pid_file (p_files p)) (p_asked p) (p_api_down p) (p_down p))
  | MainRuns, Listening armed =>
      if p_asked p then
        match p ← Api_Shutdown p; Registry_Shutdown p with Ok p' => (Exited 0, p') | _ => (Crashed, p) end
      else (s, p)
  | _, _ => (s, p)
  end.
Fixpoint registry_run (ms : list registry_moment) (s : status) (p : process) : status * process :=
  match ms with
  | [] => (s, p)
  | m :: ms' => let '(s', p') := registry_turn m s p in registry_run ms' s' p'
  end.
End registry.

(** [Run] of [rhosusr] up to its loop: the home directory, the storage, the identifier,
    the registry, the address of the api.  The backend and the log are opened below
    the home directory *)
Definition rhosusr_main {E J B W V} {T : Type → Type}
    `{Etcd E, Journal J, MemDB T, Backend B, DataNodes W, Viper V, Codec NodeInfo, Codec RegistryInfo, RecordCodecs, EntryCodecs}
    (os : Os) (garbled : list Z → Entry) (order : gset string → list string)
    (dorder : list (string * string) → list (string * string)) (given : gmap string string)
    (env : string → string) (v0 : V) (random : option (list Z)) (opened : string → result storage_error B)
    (name : string) (alive pinged : string → bool) (journal : string → result journal_error J) (listening : string → bool)
    (e : E) (w : W) (fs : fsys) : result fatal (process (E:=E) (J:=J) (T:=T) (B:=B) (W:=W) * string) :=
  match rhosusr_setup dorder v0 with
  | None => Err Fatal
  | Some v =>
      let fl := parsed rhosusr_flags given in
      let rhosusPath := GetString fl env "rhosus_path" v in
      match prepare_home os rhosusPath fs with
      | (Ok _, fs) =>
          match NewStorage (T:=T) (opened (path_Join [rhosusPath; "registry"%string])), registry_getId os random rhosusPath true fs with
          | Ok s, (Ok registryId, fs) =>
              let conf := registryConfig fl env v registryId in
              match NewRegistry garbled order registryId name (conf_ClusterAddr conf) alive pinged (journal (conf_WalPath conf))
                      (listening (conf_ClusterAddr conf)) s e w with
              | Some (Ok (r, e)) => Ok (mkProcess r e fs false false false, api_address fl env v)
              | Some Panic => Panic
              | Some (Err _) | None => Err Fatal
              end
          | Panic, _ | Ok _, (Panic, _) => Panic
          | _, _ => Err Fatal
          end
      | (Panic, _) => Panic
      | (Err er, _) => Err er
      end
  end.

Section registry_facts.
Context {E : Type} `{Etcd E} {J : Type} {T : Type → Type} {B W : Type} (os : Os) (pid_file : string).
Implicit Types (p : process (E:=E) (J:=J) (T:=T) (B:=B) (W:=W)).
Local Abbreviation run := (registry_run os pid_file).

(** the signals that end the process *)
Definition ending (sigs : list sig) : nat := length (filter terminates sigs).

Lemma ending_cons sg sigs : ending (sg :: sigs) = if terminates sg then S (ending sigs) else ending sigs.
Proof using. unfold ending. rewrite filter_cons. by destruct sg. Qed.

Lemma run_app ms1 ms2 s p : run (ms1 ++ ms2) s p = (let '(s', p') := run ms1 s p in run ms2 s' p').
Proof using.
  revert s p. induction ms1 as [|m ms1 IH]; intros s p; [done|]. cbn. by destruct (registry_turn _ _ _ _ _).
Qed.
Lemma run_crashed ms p : run ms Crashed p = (Crashed, p).
Proof using. by induction ms as [|[[]|] ms]. Qed.

Lemma run_asked sigs p : p_asked p = true →
  run (Asked ∘ Signal <$> sigs) (Listening true) p = (if bool_decide (ending sigs = 0%nat) then Listening true else Crashed, p).
Proof using.
  intros Hp. induction sigs as [|sg sigs IH]; [done|]. rewrite ending_cons. cbn. rewrite Hp.
  destruct (terminates sg); [apply run_crashed|exact IH].
Qed.

Lemma run_signals sigs p : p_asked p = false →
  run (Asked ∘ Signal <$> sigs) (Listening false) p =
    match ending sigs with O => (Listening false, p) | S O => (Listening true, ask p) | _ => (Crashed, ask p) end.
Proof using.
  intros Hp. induction sigs as [|sg sigs IH]; [done|]. rewrite ending_cons. cbn. rewrite Hp.
  destruct (terminates sg); [|exact IH]. etrans; [by apply run_asked|]. by destruct (ending sigs).
Qed.

(** A registry that receives one SIGINT or SIGTERM takes its record out of etcd and
    ends with code 0 when its main goroutine runs.  When a second one arrives before
    that, the handler closes a channel twice: the process panics, and its record and
    its pid file stay. *)
Theorem second_signal_crashes (sigs : list sig) p :
  p_asked p = false → p_api_down p = false → p_down p = false → Cluster.shutdown (Cluster_of (p_registry p)) = false →
  let key := (serviceDiscoveryRegistriesPath +:+ Cluster.ID (Cluster_of (p_registry p)))%string in
  match ending sigs with
  | O => run ((Asked ∘ Signal <$> sigs) ++ [MainRuns]) (Listening false) p = (Listening false, p)
  | S O => ∃ p', run ((Asked ∘ Signal <$> sigs) ++ [MainRuns]) (Listening false) p = (Exited 0, p') ∧
      p_etcd p' = (cli_Delete key (p_etcd p)).2 ∧ Cluster.shutdown (Cluster_of (p_registry p')) = true ∧
      p_files p' = remove_pid os pid_file (p_files p)
  | _ => ∃ p', run ((Asked ∘ Signal <$> sigs) ++ [MainRuns]) (Listening false) p = (Crashed, p') ∧
      p_etcd p' = p_etcd p ∧ p_files p' = p_files p
  end.
Proof using.
  intros Hask Hapi Hdown Hc key. rewrite run_app, run_signals by done. destruct (ending sigs) as [|[|n]].
  - cbn. by rewrite Hask.
  - cbn. unfold Registry_Shutdown, Api_Shutdown, unregisterItself, UnregisterRegistry, call. cbn. rewrite Hapi. cbn. rewrite Hdown.
    fold key. destruct (cli_Delete key (p_etcd p)) as [ok e]. rewrite Hc. eexists. split; [reflexivity|done].
  - exists (ask p). split; [apply run_crashed|done].
Qed.
End registry_facts.

(** ** Starting again *)

(** the key [rhosus_path] of both programs *)
Definition home_dir (given : gmap string string) (env : string → string) : string :=
  default (default "/var/lib/rhosus"%string (env_value true env "rhosus_path")) (given !! "rhosus_path"%string).

Lemma home_dir_ok (given : gmap string string) env :
  precedence (Some (mkFlag "/var/lib/rhosus" (given !! "rhosus_path"%string))) (env_value true env "rhosus_path") (Some "/var/lib/rhosus"%string) =
    home_dir given env.
Proof. unfold precedence, home_dir. cbn. by destruct (given !! _), (env_value _ _ _). Qed.

(** the keys [cluster_addr] and [api_addr] of the registry, which share a flag *)
Definition cluster_address (given : gmap string string) (env : string → string) : string :=
  default (default "127.0.0.1:8100"%string (env_value true env "cluster_addr")) (given !! "cluster_addr"%string).
Definition http_address (given : gmap string string) (env : string → string) : string :=
  default (default "127.0.0.1:8000"%string (env_value true env "api_addr")) (given !! "cluster_addr"%string).

Section restart.
Context {E V : Type} `{Etcd E} `{ViperLaws V} `{Codec NodeInfo}.
Context (os : Os) (part_io idx_io : io_op → bool) (fallocate : nat → Fileutil.falloc_res).
Context (dorder : list (string * string) → list (string * string)) (given : gmap string string) (env : string → string) (v0 : V).
Context (cwd : option string) (disk : PartsDir) (randoms : list (option (list Z))).
Local Abbreviation main random name := (rhosusd_main os part_io idx_io fallocate dorder given env v0 random cwd disk randoms name true).

Local Abbreviation home := (home_dir given env).
Local Abbreviation uuid_file := (path_Join [home; "datanode.uuid"%string]).

(** a start whose identifier is [id] *)
Lemma main_ok random name id m fs fs' e : dorder rhosusd_defaults ≡ₚ rhosusd_defaults → blank v0 → home_ready os home fs →
  node_getId os random home true fs = (Ok id, fs') →
  NewManager part_io idx_io fallocate cwd disk randoms (path_Join [home; "data"%string]) = Some (Ok m) →
  (∀ k x e', (cli_Put k x e').1 = true) →
  ∃ n, main random name e fs =
      Some (Ok (mkDaemon n (cli_Put (serviceDiscoveryNodesPath +:+ id) (Base64.Base64Encode (Marshal_msg (node_info n))) e).2 fs')) ∧
    n_ID n = id ∧ n_data n = m.
Proof using All.
  intros Hp Hv Hhome Hid Hm Hput. unfold rhosusd_main.
  destruct (setup_ok dorder rhosusd_flags rhosusd_bindings rhosusd_defaults rhosusd_envs v0 Hp) as (v & E1 & Hg);
    [by apply (bool_decide_eq_true_1 (NoDup _)); vm_compute..|exact Hv|].
  unfold rhosusd_setup. rewrite E1.
  assert (GetString (parsed rhosusd_flags given) env "rhosus_path" v = home) as ->.
  { rewrite Hg. exact (home_dir_ok given env). }
  rewrite (bind_ok _ _ fs tt fs (prepare_home_ok os home fs Hhome)), Hid. unfold NewNode. cbn [Config_RhosusPath]. rewrite Hm. cbn.
  unfold Node_Start, node_registerItself, on_etcd, RegisterNode, call. erewrite bind_ok by reflexivity. cbn.
  set (n := mkDataNode _ _ _ _ _). pose proof (Hput (serviceDiscoveryNodesPath +:+ id)%string (Base64.Base64Encode (Marshal_msg (node_info n))) e) as Hok.
  exists n. split; [|done]. destruct (cli_Put _ _ _) as [ok e']. cbn in Hok. by subst ok.
Qed.

(** C17: A data node that starts again on the home directory of an earlier start has the
    same identifier, and its record in etcd takes the place of the old one; its name,
    which is random, may differ. *)
Theorem restarted_node_keeps_its_record (r : list Z) (m : Manager) (name : string) (fs : fsys) (e : E) :
  dorder rhosusd_defaults ≡ₚ rhosusd_defaults → blank v0 → home_ready os home fs → fs !! uuid_file = None → uuid_file ≠ home →
  os_denied os uuid_file = false → os_open os uuid_file = true → os_read os uuid_file = true → (∀ bs, os_write os uuid_file bs = length bs) →
  NewManager part_io idx_io fallocate cwd disk randoms (path_Join [home; "data"%string]) = Some (Ok m) →
  (∀ k x e', (cli_Put k x e').1 = true) →
  ∃ d, main (Some r) name e fs = Some (Ok d) ∧
    ∀ random name' e2, ∃ d', main random name' e2 (d_files d) = Some (Ok d') ∧ n_ID (d_node d') = n_ID (d_node d) ∧
      d_files d' = d_files d ∧
      d_etcd d' = (cli_Put (serviceDiscoveryNodesPath +:+ n_ID (d_node d)) (Base64.Base64Encode (Marshal_msg (node_info (d_node d')))) e2).2.
Proof using All.
  intros Hp Hv Hhome Hnone Hne Hden Hopen Hread Hwrite Hm Hput.
  pose proof (getId_new os "datanode.uuid" home (Some r) fs Hden Hnone Hopen) as Hid. cbn zeta in Hid.
  set (id := Uuid.String (Uuid.NewV4 (Some r)).1) in *. set (fs1 := <[uuid_file := _]> fs) in Hid.
  destruct (main_ok (Some r) name id m fs fs1 e Hp Hv Hhome Hid Hm Hput) as (n & E1 & Hn & _).
  eexists. split; [exact E1|]. intros random name' e2. cbn [d_files d_node]. rewrite Hn.
  pose proof (home_ready_other os home fs uuid_file _ Hne Hhome : home_ready os home fs1) as Hhome1.
  assert (node_getId os random home true fs1 = (Ok id, fs1)) as Hid1.
  { pose proof (getId_found os "datanode.uuid" home random fs1 _ _ _ Hden (lookup_insert_eq _ _ _) Hopen Hread) as Hf.
    etrans; [exact Hf|]. by rewrite Hwrite, firstn_all, string_of_bytes_of_string. }
  destruct (main_ok random name' id m fs1 fs1 e2 Hp Hv Hhome1 Hid1 Hm Hput) as (n' & E2 & Hn' & _).
  eexists. split; [exact E2|]. cbn. by rewrite Hn'.
Qed.
End restart.

Section registry_restart.
Context {E V : Type} `{Etcd E} `{ViperLaws V} {J : Type} `{JournalLaws J} {T : Type → Type} `{MemDBLaws T} {B : Type} `{BackendLaws B}.
Context {W : Type} `{DataNodes W} `{Codec NodeInfo} `{Codec RegistryInfo} `{RecordCodecs} `{EntryCodecs}.
Context (os : Os) (garbled : list Z → Entry) (order : gset string → list string) (dorder : list (string * string) → list (string * string)).
Context (given : gmap string string) (env : string → string) (v0 : V) (opened : string → result storage_error B).
Context (alive pinged : string → bool) (journal : string → result journal_error J) (listening : string → bool).
Local Abbreviation home := (home_dir given env).
Local Abbreviation uuid_file := (path_Join [home; "registry.uuid"%string]).

(** what an earlier process left below its home directory *)
Record remains (id : string) (μ : meta) (es : list Entry) (fs : fsys) : Prop := {
  rem_home : home_ready os home fs;
  rem_id : ∃ m t, fs !! uuid_file = Some (HFile m t (bytes_of_string id));
  rem_readable : os_denied os uuid_file = false ∧ os_open os uuid_file = true ∧ os_read os uuid_file = true;
  rem_store : ∃ s : Storage T B, stands s μ ∧ opened (path_Join [home; "registry"%string]) = Ok (backend s);
  rem_log : ∃ j, journal (path_Join [home; "wal"%string]) = Ok j ∧ j_holds j (Marshal_msg <$> es);
  rem_numbered : numbered es;
}.

(** what etcd tells it *)
Record directories (dr : gmap string RegistryInfo) (dn : gmap string NodeInfo) (e : E) : Prop := {
  dir_registries : ∃ l, cli_Get serviceDiscoveryRegistriesPath e = Some l ∧ listed serviceDiscoveryRegistriesPath dr l;
  dir_nodes : ∃ l, cli_Get serviceDiscoveryNodesPath e = Some l ∧ listed serviceDiscoveryNodesPath dn l;
  dir_registry_ids : ∀ k i, dr !! k = Some i → Registry_Id i = k;
  dir_node_ids : ∀ k i, dn !! k = Some i → Node_Id i = k;
}.

Lemma NewRegistry_ok id name address μ es dr dn j (s : Storage T B) e w : (∀ s, order s ≡ₚ elements s) →
  j_holds j (Marshal_msg <$> es) → numbered es → directories dr dn e →
  (∀ k i, dn !! k = Some i → answers_ping (W:=W) (Node_Address i)) → (∀ k x e', (cli_Put k x e').1 = true) → stands s μ →
  ∃ r, NewRegistry garbled order id name address alive pinged (Ok j) true s e w = Some (Ok (r, (RegisterRegistry id (mkRegistryInfo id name address) e).2)) ∧
    stands (Storage_of r) μ ∧ synced (Cluster_of r) es ∧ currentTerm (Cluster_of r) = last_term es ∧ Cluster.ID (Cluster_of r) = id ∧
    (∀ uid, is_Some (peers (Cluster_of r) !! uid) ↔ uid ≠ id ∧ alive uid = true ∧ is_Some (dr !! uid)) ∧
    (isLeader (Cluster_of r) = true ↔ peers (Cluster_of r) = ∅) ∧ NodesMap.node_info <$> nodes (NodesMap_of r) = dn.
Proof using All.
  intros Ho Hj Hes [(lr & Er & Hlr) (ln & En & Hln) Hir Hin] Hans Hput Hs. unfold NewRegistry, getExistingRegistries, getExistingNodes, GetExistingRegistries, GetExistingNodes.
  rewrite Er, En. cbn [fmap option_fmap option_map mbind option_bind].
  rewrite (by_id_ok order Registry_Id _ dr lr Ho Hir Hlr), (by_id_ok order Node_Id _ dn ln Ho Hin Hln).
  destruct (NewCluster_ok garbled id dr alive j s es Hj Hes) as (c & -> & Hsync & Ht & _ & Hp & Hl & _ & Hid & Happ & _).
  destruct (NewNodesMap_ok order dn pinged w Ho Hans) as (m & w' & -> & Hm).
  unfold registerItself, RegisterRegistry, call. cbn [Registry_Id].
  set (key := (serviceDiscoveryRegistriesPath +:+ id)%string). set (text := Base64.Base64Encode _).
  pose proof (Hput key text e) as Hok. destruct (cli_Put key text e) as [ok e']. cbn in Hok. subst ok.
  eexists. split; [reflexivity|]. unfold Storage_of. cbn [Cluster_of NodesMap_of]. rewrite Happ, Hm. split_and!; try done.
  rewrite <- map_fmap_compose. apply map_fmap_id.
Qed.

(** what a start finds *)
Definition recovered (id name : string) (μ : meta) (es : list Entry) (dr : gmap string RegistryInfo) (dn : gmap string NodeInfo) (e : E) (fs : fsys)
    (address : string) (p : process (E:=E) (J:=J) (T:=T) (B:=B) (W:=W)) : Prop :=
  let c := Cluster_of (p_registry p) in
  Cluster.ID c = id ∧ stands (Storage_of (p_registry p)) μ ∧ synced c es ∧ currentTerm c = last_term es ∧
  (∀ uid, is_Some (peers c !! uid) ↔ uid ≠ id ∧ alive uid = true ∧ is_Some (dr !! uid)) ∧ (isLeader c = true ↔ peers c = ∅) ∧
  NodesMap.node_info <$> nodes (NodesMap_of (p_registry p)) = dn ∧
  p_etcd p = (cli_Put (serviceDiscoveryRegistriesPath +:+ id) (Base64.Base64Encode (Marshal_msg (mkRegistryInfo id name address))) e).2 ∧
  p_files p = fs.

Lemma rhosusr_main_ok (id name : string) (random : option (list Z)) (μ : meta) (es : list Entry) (fs : fsys)
    (dr : gmap string RegistryInfo) (dn : gmap string NodeInfo) (e : E) (w : W) :
  (∀ s, order s ≡ₚ elements s) → dorder rhosusr_defaults ≡ₚ rhosusr_defaults → blank v0 → listening (cluster_address given env) = true →
  remains id μ es fs → directories dr dn e →
  (∀ k i, dn !! k = Some i → answers_ping (W:=W) (Node_Address i)) → (∀ k x e', (cli_Put k x e').1 = true) →
  ∃ p, rhosusr_main os garbled order dorder given env v0 random opened name alive pinged journal listening e w fs = Ok (p, http_address given env) ∧
    recovered id name μ es dr dn e fs (cluster_address given env) p.
Proof using All.
  intros Ho Hp Hv Hlisten [Hhome (mode & t & Hid) (Hden & Hopen & Hread) (s0 & Hs0 & Eb) (j & Ej & Hj) Hes] Hdirs Hans Hput.
  unfold rhosusr_main.
  destruct (setup_ok dorder rhosusr_flags rhosusr_bindings rhosusr_defaults rhosusr_envs v0 Hp) as (v & E1 & Hg);
    [by apply (bool_decide_eq_true_1 (NoDup _)); vm_compute..|exact Hv|].
  unfold rhosusr_setup. rewrite E1. unfold registryConfig, api_address. cbn [conf_ClusterAddr conf_WalPath].
  assert (GetString (parsed rhosusr_flags given) env "rhosus_path" v = home) as ->.
  { rewrite Hg. exact (home_dir_ok given env). }
  assert (GetString (parsed rhosusr_flags given) env "cluster_addr" v = cluster_address given env) as ->.
  { rewrite Hg. unfold precedence, cluster_address. cbn. by destruct (given !! _), (env_value _ _ _). }
  assert (GetString (parsed rhosusr_flags given) env "api_addr" v = http_address given env) as ->.
  { rewrite Hg. unfold precedence, http_address. cbn. by destruct (given !! _), (env_value _ _ _). }
  rewrite (prepare_home_ok os home fs Hhome), Eb. destruct (NewStorage_again s0 μ Hs0) as (s & -> & Hs).
  rewrite (getId_found os "registry.uuid" home random fs mode t _ Hden Hid Hopen Hread : registry_getId os random home true fs = _).
  rewrite string_of_bytes_of_string, Ej, Hlisten.
  destruct (NewRegistry_ok id name (cluster_address given env) μ es dr dn j s e w Ho Hj Hes Hdirs Hans Hput Hs) as (r & -> & Hrs & Hsync & Ht & Hci & Hpeers & Hlead & Hn).
  eexists. split; [reflexivity|]. unfold recovered. cbn. split_and!; try done.
  unfold RegisterRegistry, call. by destruct (cli_Put _ _ _).
Qed.

(** C16: A registry that starts on the home directory of an earlier process recovers: it
    has the identifier, the metadata and the log of that process, and the term of its
    last entry; it knows the data nodes of etcd and the other registries that answer,
    and leads exactly when there is none of these; its record in etcd takes the place
    of the old one. *)
Theorem restarted_registry_recovers (id name : string) (random : option (list Z)) (μ : meta) (es : list Entry) (fs : fsys)
    (dr : gmap string RegistryInfo) (dn : gmap string NodeInfo) (e : E) (w : W) :
  (∀ s, order s ≡ₚ elements s) → dorder rhosusr_defaults ≡ₚ rhosusr_defaults → blank v0 → (∀ address, listening address = true) →
  remains id μ es fs → directories dr dn e →
  (∀ k i, dn !! k = Some i → answers_ping (W:=W) (Node_Address i)) → (∀ k x e', (cli_Put k x e').1 = true) →
  ∃ p api address, rhosusr_main os garbled order dorder given env v0 random opened name alive pinged journal listening e w fs = Ok (p, api) ∧
    let c := Cluster_of (p_registry p) in
    Cluster.ID c = id ∧ stands (Storage_of (p_registry p)) μ ∧ synced c es ∧ currentTerm c = last_term es ∧
    (∀ uid, is_Some (peers c !! uid) ↔ uid ≠ id ∧ alive uid = true ∧ is_Some (dr !! uid)) ∧ (isLeader c = true ↔ peers c = ∅) ∧
    NodesMap.node_info <$> nodes (NodesMap_of (p_registry p)) = dn ∧
    p_etcd p = (cli_Put (serviceDiscoveryRegistriesPath +:+ id) (Base64.Base64Encode (Marshal_msg (mkRegistryInfo id name address))) e).2 ∧
    p_files p = fs.
Proof using All.
  intros Ho Hp Hv Hlisten Hrem Hdirs Hans Hput.
  destruct (rhosusr_main_ok id name random μ es fs dr dn e w Ho Hp Hv (Hlisten _) Hrem Hdirs Hans Hput) as (p & E1 & Hrec).
  by exists p, (http_address given env), (cluster_address given env).
Qed.
End registry_restart.

(** ** Witnesses *)

Section witnesses.
#[local] Existing Instances bit_nodes bit_registries bit_records bit_codecs.

(** an etcd that answers or not *)
Definition etcd_of (up : bool) : Etcd (gmap string string) := {|
  cli_Put k v e := (up, if up then <[k := v]> e else e);
  cli_Delete k e := (up, if up then delete k e else e);
  cli_Get prefix e := if up then Some (filter (λ kv, String.prefix prefix kv.1) (map_to_list e)) else None |}.

Definition node_manager : Manager := mkManager (mkPartitionsMap {[ "p" := Some (empty_part []) ]} 0) false.
Definition plain_daemon : daemon (gmap string string) :=
  mkDaemon (mkDataNode "n" "quick-red-fox" (mkConfig "n" "" "h1" "/data") node_manager false)
    {[ (serviceDiscoveryNodesPath +:+ "n")%string := "record"%string ]} {[ "pid"%string := HFile 420 0 [49] ]}.

Lemma plain_serving : serving plain_daemon.
Proof. split_and!; [done..|]. intros k o Hko. cbn in Hko. apply lookup_singleton_Some in Hko as [<- <-]. by eexists. Qed.

Lemma terminated_node_exits_witness :
  ∃ d', handleSignals (H := etcd_of true) no_faults (λ l, l) plain_os "pid" [Signal SIGHUP; Signal SIGTERM; Signal SIGINT; Timer] (Listening false) plain_daemon
      = (Exited 0, d') ∧
    d_etcd d' = ∅ ∧ m_shutdown (n_data (d_node d')) = true ∧
    (∀ k p, parts (m_parts (n_data (d_node d'))) !! k = Some (Some p) → closed p = true) ∧
    ("pid"%string ≠ ""%string → os_mkdir plain_os "pid" = true → d_files d' !! "pid"%string = None).
Proof.
  apply (@terminated_node_exits _ (etcd_of true) no_faults (λ l, l) plain_os "pid" 1 SIGTERM [Signal SIGINT; Timer] plain_daemon ∅);
    [done|exact plain_serving|done|reflexivity].
Defined.


Definition plain_process (s : small_storage) : process (E := gmap string string) :=
  mkProcess (known_registry s) {[ (serviceDiscoveryRegistriesPath +:+ "a")%string := "record"%string ]} {[ "pid"%string := HFile 420 0 [49] ]}
    false false false.

Lemma second_signal_crashes_witness : ∃ s : small_storage, stands s no_meta ∧
  ∃ p', registry_run (H := etcd_of true) plain_os "pid" [Asked (Signal SIGINT); Asked (Signal SIGINT); MainRuns] (Listening false) (plain_process s)
      = (Crashed, p') ∧
    p_etcd p' = p_etcd (plain_process s) ∧ p_files p' = p_files (plain_process s).
Proof.
  destruct small_fresh as (s & _ & Hs). exists s. split; [exact Hs|].
  by apply (@second_signal_crashes _ (etcd_of true) _ _ _ _ plain_os "pid" [SIGINT; SIGINT] (plain_process s)).
Defined.

(** the directory of a node that ran before, with one partition *)
Definition plain_parts : PartsDir :=
  mkPartsDir (λ _, true) (λ _, [mkDirent id_a false (file_ one_part)]) (λ _ k, if bool_decide (k = id_a) then Some (idxFile one_part) else None).
Definition plain_home : fsys := {[ "/data"%string := HDir 493 0 0 ]}.
Definition data_flag : gmap string string := {[ "rhosus_path" := "/data" ]}%string.
Definition no_env (_ : string) : string := "".

Lemma plain_manager_made : ∃ m, NewManager no_faults no_faults (λ _, Fileutil.FallocOk) None plain_parts [] "/data/data" = Some (Ok m).
Proof.
  destruct (load_dir_ok (λ _, Fileutil.FallocOk) ltac:(done) (index_of plain_parts "/data/data") (read_dir plain_parts "/data/data") (mkPartitionsMap ∅ 0))
    as (s' & E & H1 & _).
  { apply NoDup_singleton. }
  { intros fi ->%list_elem_of_singleton _. exists (blocksMap one_part). split; [apply one_part_inv|]. split; [apply one_part_inv|].
    exists (idxFile one_part). split; [done|apply one_part_inv]. }
  unfold NewManager, NewPartitionsMap. cbn [bool_decide].
  rewrite bool_decide_false by done. change (Abs None "/data/data") with (Some "/data/data"%string). cbv iota.
  change (mkdir_all plain_parts "/data/data") with true. cbv iota. unfold loadPartitions. rewrite E. case_bool_decide; by eexists.
Qed.

Lemma restarted_node_keeps_its_record_witness :
  ∃ m, NewManager no_faults no_faults (λ _, Fileutil.FallocOk) None plain_parts [] "/data/data" = Some (Ok m) ∧
  let main random name := rhosusd_main (H := etcd_of true) plain_os no_faults no_faults (λ _, Fileutil.FallocOk) (λ l, l) data_flag no_env
    no_bindings random None plain_parts [] name true in
  ∃ d, main (Some zero_bytes) "quick-red-fox"%string ∅ plain_home = Some (Ok d) ∧
    ∀ random name' e2, ∃ d', main random name' e2 (d_files d) = Some (Ok d') ∧ n_ID (d_node d') = n_ID (d_node d) ∧
      d_files d' = d_files d ∧
      d_etcd d' = (cli_Put (Etcd := etcd_of true) (serviceDiscoveryNodesPath +:+ n_ID (d_node d))
        (Base64.Base64Encode (Marshal_msg (node_info (d_node d')))) e2).2.
Proof.
  destruct plain_manager_made as [m Hm]. exists m. split; [exact Hm|].
  assert (home_dir data_flag no_env = "/data"%string) as Eh by done.
  pose proof (@restarted_node_keeps_its_record _ _ (etcd_of true) _ _ _ plain_os no_faults no_faults (λ _, Fileutil.FallocOk) (λ l, l) data_flag no_env
    no_bindings None plain_parts [] zero_bytes m "quick-red-fox" plain_home ∅) as Hmain. rewrite Eh in Hmain.
  change (path_Join ["/data"; "data"]) with "/data/data"%string in Hmain. change (path_Join ["/data"; "datanode.uuid"]) with "/data/datanode.uuid"%string in Hmain.
  cbv zeta. apply Hmain.
  - reflexivity.
  - exact blank_no_bindings.
  - split; [reflexivity|]. exists 493, 0, 0. split; [apply lookup_singleton_eq|reflexivity].
  - reflexivity.
  - done.
  - reflexivity.
  - reflexivity.
  - reflexivity.
  - reflexivity.
  - exact Hm.
  - reflexivity.
Defined.
#[local] Existing Instance all_up.
(** another registry, a data node, and the directory of a registry that ran before *)
Definition others : gmap string RegistryInfo := {[ "b" := small_info "b" ]}.
Definition known_nodes : gmap string NodeInfo := {[ "n1" := node_at "n1" "h1" ]}.
Definition plain_etcd : gmap string string :=
  {[ (serviceDiscoveryRegistriesPath +:+ "b")%string := Base64.Base64Encode (Marshal_msg (small_info "b"));
     (serviceDiscoveryNodesPath +:+ "n1")%string := Base64.Base64Encode (Marshal_msg (node_at "n1" "h1")) ]}.
Definition registry_home : fsys := {[ "/data" := HDir 493 0 0; "/data/registry.uuid" := HFile 493 0 (bytes_of_string "a") ]}%string.

Lemma plain_directories : directories (H := etcd_of true) others known_nodes plain_etcd.
Proof.
  split.
  - eexists. split; [reflexivity|]. unfold listed. by vm_compute.
  - eexists. split; [reflexivity|]. unfold listed. by vm_compute.
  - intros k i Hi. unfold others, known_nodes in Hi. by apply lookup_singleton_Some in Hi as [<- <-].
  - intros k i Hi. unfold others, known_nodes in Hi. by apply lookup_singleton_Some in Hi as [<- <-].
Qed.

Lemma plain_remains given (s : small_storage) : home_dir given no_env = "/data"%string → stands s file_meta →
  remains plain_os given no_env (λ _, Ok (backend s)) (λ _, Ok (wal_of (take 3 small_es))) "a" file_meta (take 3 small_es) registry_home.
Proof.
  intros Eh Hs. split; rewrite ?Eh.
  - split; [reflexivity|]. exists 493, 0, 0. split; reflexivity.
  - exists 493, 0. reflexivity.
  - done.
  - by exists s.
  - eexists. split; [reflexivity|]. apply small_holds. lia.
  - apply small_numbered.
Qed.

Lemma restarted_registry_recovers_witness : ∃ s : small_storage, stands s file_meta ∧
  ∃ p api address, rhosusr_main (H := etcd_of true) plain_os no_entry by_name (λ l, l) data_flag no_env no_bindings None
      (λ _, Ok (backend s)) "quick-fox" (λ _, true) (λ _, true) (λ _, Ok (wal_of (take 3 small_es))) (λ _, true) plain_etcd tt registry_home = Ok (p, api) ∧
    let c := Cluster_of (p_registry p) in
    Cluster.ID c = "a"%string ∧ stands (Storage_of (p_registry p)) file_meta ∧ synced c (take 3 small_es) ∧ currentTerm c = last_term (take 3 small_es) ∧
    (∀ uid, is_Some (peers c !! uid) ↔ uid ≠ "a"%string ∧ true = true ∧ is_Some (others !! uid)) ∧ (isLeader c = true ↔ peers c = ∅) ∧
    NodesMap.node_info <$> nodes (NodesMap_of (p_registry p)) = known_nodes ∧
    p_etcd p = (cli_Put (Etcd := etcd_of true) (serviceDiscoveryRegistriesPath +:+ "a")
      (Base64.Base64Encode (Marshal_msg (mkRegistryInfo "a" "quick-fox" address))) plain_etcd).2 ∧
    p_files p = registry_home.
Proof.
  destruct file_stored as [s Hs]. exists s. split; [exact Hs|].
  apply (restarted_registry_recovers (H := etcd_of true)).
  - exact by_name_perm.
  - reflexivity.
  - exact blank_no_bindings.
  - reflexivity.
  - exact (plain_remains data_flag s eq_refl Hs).
  - exact plain_directories.
  - intros k i _. split; [reflexivity|]. intros w. exists None, w. reflexivity.
  - reflexivity.
Defined.
End witnesses.
