(* ===== verification/Servers.v ===== *)
(** * The servers of the two processes, and what they race with

    A data node starts its grpc server in a goroutine while its main goroutine
    registers it ([node/node.go], [node/grpc_server.go]).  A registry listens for the
    other registries when it is made ([registry/cluster/server.go]) and for its clients
    afterwards ([api/api.go]); its shutdown closes the first listener under the server
    that uses it.  An address that is in use cannot be listened on again; a schedule is
    a list of turns of the goroutines. *)

From S2P Require Import Prelude HostFs Settings Messages Wal WalSpec Journal Cluster ClusterSpec MemDB Backend Storage.
From S2P Require Import StorageSpec RegistrySpec NodesMap Registry Discovery RandFile IdxFile Partition Manager Node Daemon.

(** [net.Listen]: the addresses that are in use afterwards, [None] for an error;
    [bindable] are the addresses of the host *)
Definition Listen (bindable : string → bool) (address : string) (ports : gset string) : option (gset string) :=
  if bool_decide (address ∈ ports) then None else if bindable address then Some ({[address]} ∪ ports) else None.

(** ** The start of a data node *)

(** [readyC] holds one token once the server listens; [shutdownC] is closed by nobody *)
Inductive server := NotListening | Ready.

Inductive boot_turn := ServerTurn | MainTurn.

Section node_boot.
Context {E : Type} `{Etcd E} `{Codec NodeInfo} (bindable : string → bool).

Record boot := mkBoot {
  bt_ports : gset string;
  bt_server : server;
  bt_daemon : daemon E;
  bt_registered : bool;
  bt_status : status;
}.

Definition NewGrpcServer : server := NotListening.

(** [Run] up to its wait; an error is fatal *)
Definition GrpcServer_Run (address : string) (ports : gset string) : result fatal (gset string * server) :=
  match Listen bindable address ports with Some ports => Ok (ports, Ready) | None => Err Fatal end.

(** [Start]: the two goroutines *)
Definition boot_step (t : boot_turn) (s : boot) : boot :=
  match bt_status s, t with
  | Listening _, ServerTurn =>
      match bt_server s, GrpcServer_Run (Config_Address (n_Config (d_node (bt_daemon s)))) (bt_ports s) with
      | NotListening, Ok (ports, srv) => mkBoot ports srv (bt_daemon s) (bt_registered s) (bt_status s)
      | NotListening, _ => mkBoot (bt_ports s) NotListening (bt_daemon s) (bt_registered s) (Exited 1)
      | Ready, _ => s
      end
  | Listening _, MainTurn =>
      if bt_registered s then s
      else
        match Node_Start (bt_daemon s) with
        | (Ok _, d) => mkBoot (bt_ports s) (bt_server s) d true (bt_status s)
        | (Err _, d) => mkBoot (bt_ports s) (bt_server s) d false (Exited 1)
        | (Panic, d) => mkBoot (bt_ports s) (bt_server s) d false Crashed
        end
  | _, _ => s
  end.
Definition boot_run (sched : list boot_turn) (s : boot) : boot := foldl (λ s t, boot_step t s) s sched.
Definition start_boot (ports : gset string) (d : daemon E) : boot := mkBoot ports NewGrpcServer d false (Listening false).
End node_boot.
Arguments boot E : clear implicits.
Arguments mkBoot {E}.

(** ** The servers of a registry *)

(** [ListenAndServe] of [Api.Run] for a registry that listens on [cluster]; an error is fatal *)
Definition Api_Run (bindable : string → bool) (address : string) (ports : gset string) : result fatal (gset string) :=
  match Listen bindable address ports with Some ports => Ok ports | None => Err Fatal end.

(** the statements of the end of [Run]: [httpApi.Shutdown()] and those of [r.Shutdown()] *)
Inductive statement := ApiDown | CloseShutdownC | Unregister | ClusterDown | RemovePid.
Definition shutdown_statements : list statement := [ApiDown; CloseShutdownC; Unregister; ClusterDown; RemovePid].

(** the main goroutine, the one of [NewControlServer] that closes the listener, and the
    one that serves on it *)
Inductive end_turn := MainEnds | CloserRuns | ServeReturns.

Section registry_end.
Context {E : Type} `{Etcd E} {J : Type} {T : Type → Type} {B W : Type} (os : Os) (pid_file : string).
Local Abbreviation P := (process (E:=E) (J:=J) (T:=T) (B:=B) (W:=W)).
Implicit Types (p : P).

(** whether [grpcServer.Serve] returns an error when its listener was closed *)
Context (serve_fails : bool).

Definition with_registry (f : Registry J T B W → Registry J T B W) p : P :=
  mkProcess (f (p_registry p)) (p_etcd p) (p_files p) (p_asked p) (p_api_down p) (p_down p).
Definition cluster_down (r : Registry J T B W) : Registry J T B W :=
  mkRegistry (Cluster.Shutdown (Cluster_of r)) (NodesMap_of r) (world r).

Definition exec (st : statement) p : result unit P :=
  match st with
  | ApiDown => Api_Shutdown p
  | CloseShutdownC =>
      if p_down p then Panic else Ok (mkProcess (p_registry p) (p_etcd p) (p_files p) (p_asked p) (p_api_down p) true)
  | Unregister =>
      let '(_, e) := unregisterItself false (Cluster.ID (Cluster_of (p_registry p))) (p_etcd p) in
      Ok (mkProcess (p_registry p) e (p_files p) (p_asked p) (p_api_down p) (p_down p))
  | ClusterDown => if Cluster.shutdown (Cluster_of (p_registry p)) then Panic else Ok (with_registry cluster_down p)
  | RemovePid => Ok (mkProcess (p_registry p) (p_etcd p) (remove_pid os pid_file (p_files p)) (p_asked p) (p_api_down p) (p_down p))
  end.

Record ending_state := mkEnding {
  en_rest : list statement;
  en_open : bool;            (* the listener *)
  en_process : P;
  en_status : status;
}.

Definition end_step (t : end_turn) (s : ending_state) : ending_state :=
  match en_status s, t with
  | Listening _, MainEnds =>
      match en_rest s with
      | [] => mkEnding [] (en_open s) (en_process s) (Exited 0)
      | st :: rest =>
          match exec st (en_process s) with
          | Ok p => mkEnding rest (en_open s) p (en_status s)
          | _ => mkEnding rest (en_open s) (en_process s) Crashed
          end
      end
  | Listening _, CloserRuns =>
      if Cluster.shutdown (Cluster_of (p_registry (en_process s))) then mkEnding (en_rest s) false (en_process s) (en_status s) else s
  | Listening _, ServeReturns =>
      if negb (en_open s) && serve_fails then mkEnding (en_rest s) false (en_process s) (Exited 1) else s
  | _, _ => s
  end.
Definition end_run (sched : list end_turn) (s : ending_state) : ending_state := foldl (λ s t, end_step t s) s sched.
Definition start_end p : ending_state := mkEnding shutdown_statements true p (Listening true).
End registry_end.

(** ** A port that is taken *)

Section boot_facts.
Context {E : Type} `{Etcd E} `{Codec NodeInfo} (bindable : string → bool).
Implicit Types (d : daemon E) (s : boot E).

Definition main_first (sched : list boot_turn) : bool := match sched with MainTurn :: _ => true | _ => false end.
Definition node_record d (e : E) : E :=
  (cli_Put (serviceDiscoveryNodesPath +:+ n_ID (d_node d)) (Base64.Base64Encode (Marshal_msg (node_info (d_node d)))) e).2.

Lemma Node_Start_ok d : (∀ k x e, (cli_Put k x e).1 = true) →
  Node_Start d = (Ok tt, mkDaemon (d_node d) (node_record d (d_etcd d)) (d_files d)).
Proof using.
  intros Hput. unfold Node_Start, node_registerItself, on_etcd, RegisterNode, call, node_record. erewrite bind_ok by reflexivity.
  set (key := (serviceDiscoveryNodesPath +:+ n_ID (d_node d))%string). set (text := Base64.Base64Encode _).
  pose proof (Hput key text (d_etcd d)) as Hok. destruct (cli_Put key text (d_etcd d)) as [ok e]. cbn in Hok. by subst ok.
Qed.

Lemma boot_run_cons t sched s : boot_run bindable (t :: sched) s = boot_run bindable sched (boot_step bindable t s).
Proof using. done. Qed.
Lemma boot_exited sched s c : bt_status s = Exited c → boot_run bindable sched s = s.
Proof using.
  intros Hs. induction sched as [|t sched IH]; [done|]. rewrite boot_run_cons.
  assert (boot_step bindable t s = s) as -> by (unfold boot_step; by rewrite Hs). exact IH.
Qed.

(** the turn of the server ends a node that has not listened *)
Lemma boot_taken sched ports d b : Config_Address (n_Config (d_node d)) ∈ ports → ServerTurn ∈ sched →
  (b = false → main_first sched = false) →
  let s := boot_run bindable sched (mkBoot ports NotListening d b (Listening false)) in
  bt_status s = Exited 1 ∧ d_etcd (bt_daemon s) = d_etcd d.
Proof using.
  intros Ha. assert (GrpcServer_Run bindable (Config_Address (n_Config (d_node d))) ports = Err Fatal) as Hrun.
  { unfold GrpcServer_Run, Listen. by rewrite bool_decide_true. }
  induction sched as [|t sched IH]; intros Hin Hb; [by apply elem_of_nil in Hin|]. rewrite boot_run_cons. destruct t.
  - unfold boot_step at 1. cbn [bt_status bt_server bt_daemon bt_ports]. rewrite Hrun. by erewrite boot_exited by done.
  - destruct b; [|by specialize (Hb eq_refl)]. apply IH; [by apply elem_of_cons in Hin as [?|?]|done].
Qed.

(** When the address of a data node is in use, the node ends with code 1 in every
    schedule that lets its server run; if its main goroutine runs before, its record
    stays in etcd, and the registries find a node that is not there. *)
Theorem taken_port_may_leave_a_record (sched : list boot_turn) (ports : gset string) d :
  Config_Address (n_Config (d_node d)) ∈ ports → (∀ k x e, (cli_Put k x e).1 = true) → ServerTurn ∈ sched →
  let s := boot_run bindable sched (start_boot ports d) in
  bt_status s = Exited 1 ∧ d_etcd (bt_daemon s) = if main_first sched then node_record d (d_etcd d) else d_etcd d.
Proof using.
  intros Ha Hput Hin. unfold start_boot. destruct sched as [|[] sched]; [by apply elem_of_nil in Hin| |].
  - by apply (boot_taken (ServerTurn :: sched)).
  - cbv zeta. rewrite !boot_run_cons. cbn [main_first].
    assert (boot_step bindable MainTurn (mkBoot ports NewGrpcServer d false (Listening false)) =
      mkBoot ports NotListening (mkDaemon (d_node d) (node_record d (d_etcd d)) (d_files d)) true (Listening false)) as ->.
    { unfold boot_step. cbn [bt_status bt_registered bt_daemon bt_ports bt_server]. by rewrite (Node_Start_ok d Hput). }
    apply (boot_taken sched ports (mkDaemon (d_node d) (node_record d (d_etcd d)) (d_files d)) true); [done| |done].
    by apply elem_of_cons in Hin as [?|?].
Qed.
End boot_facts.

(** ** A registry whose cluster address is given *)

Section registry_boot.
Context {E V : Type} `{Etcd E} `{ViperLaws V} {J : Type} `{JournalLaws J} {T : Type → Type} `{MemDBLaws T} {B : Type} `{BackendLaws B}.
Context {W : Type} `{DataNodes W} `{Codec NodeInfo} `{Codec RegistryInfo} `{RecordCodecs} `{EntryCodecs}.
Context (os : Os) (garbled : list Z → Entry) (order : gset string → list string) (dorder : list (string * string) → list (string * string)).
Context (given : gmap string string) (env : string → string) (v0 : V) (opened : string → result storage_error B).
Context (alive pinged : string → bool) (journal : string → result journal_error J) (bindable : string → bool).

(** C37: A registry that is told its cluster address by [--cluster_addr] cannot serve:
    its http server takes the same address, which its own control server listens on by
    then, and the process ends with its record in etcd.  With the defaults both servers
    listen. *)
Theorem cluster_flag_stops_the_registry (id name : string) (random : option (list Z)) (μ : meta) (es : list Entry) (fs : fsys)
    (dr : gmap string RegistryInfo) (dn : gmap string NodeInfo) (e : E) (w : W) (ports : gset string) :
  (∀ s, order s ≡ₚ elements s) → dorder rhosusr_defaults ≡ₚ rhosusr_defaults → blank v0 →
  remains os given env opened journal (T := T) id μ es fs → directories dr dn e →
  (∀ k i, dn !! k = Some i → answers_ping (W:=W) (Node_Address i)) → (∀ k x e', (cli_Put k x e').1 = true) →
  let listening a := bool_decide (is_Some (Listen bindable a ports)) in
  let http := http_address given env in
  let cluster := cluster_address given env in
  bindable http = true → bindable cluster = true → http ∉ ports → cluster ∉ ports →
  ∃ (p : process (E:=E) (J:=J) (T:=T) (B:=B) (W:=W)) ports',
    rhosusr_main os garbled order dorder given env v0 random opened name alive pinged journal listening e w fs = Ok (p, http) ∧
    Listen bindable cluster ports = Some ports' ∧
    p_etcd p = (cli_Put (serviceDiscoveryRegistriesPath +:+ id) (Base64.Base64Encode (Marshal_msg (mkRegistryInfo id name cluster))) e).2 ∧
    (is_Some (given !! "cluster_addr"%string) → Api_Run bindable http ports' = Err Fatal) ∧
    (http ≠ cluster → Api_Run bindable http ports' = Ok ({[http; cluster]} ∪ ports)).
Proof using All.
  intros Ho Hp Hv Hrem Hdirs Hans Hput listening http cluster Hb1 Hb2 Hf1 Hf2.
  assert (Listen bindable cluster ports = Some ({[cluster]} ∪ ports)) as El by (unfold Listen; by rewrite bool_decide_false, Hb2).
  destruct (rhosusr_main_ok os garbled order dorder given env v0 opened alive pinged journal listening id name random μ es fs dr dn e w
    Ho Hp Hv) as (p & E1 & Hrec); [|done..|].
  { unfold listening. fold cluster. rewrite El. by apply bool_decide_true. }
  exists p, ({[cluster]} ∪ ports). destruct Hrec as (_ & _ & _ & _ & _ & _ & _ & Hetcd & _).
  split; [exact E1|]. split; [exact El|]. split; [exact Hetcd|]. unfold Api_Run, Listen. split.
  - intros [a Ha]. assert (http = cluster) as -> by (unfold http, cluster, http_address, cluster_address; by rewrite Ha).
    by rewrite bool_decide_true by (apply elem_of_union; left; by apply elem_of_singleton).
  - intros Hne. rewrite bool_decide_false, Hb1 by (by rewrite not_elem_of_union, not_elem_of_singleton). by rewrite (assoc_L (∪)).
Qed.
End registry_boot.

(** ** A shutdown and the server under it *)

Section end_facts.
Context {E : Type} `{Etcd E} {J : Type} {T : Type → Type} {B W : Type} (os : Os) (pid_file : string) (serve_fails : bool).
Local Abbreviation P := (process (E:=E) (J:=J) (T:=T) (B:=B) (W:=W)).
Implicit Types (p : P).
Local Abbreviation run := (end_run os pid_file serve_fails).

(** a registry that serves *)
Definition running p : Prop := p_api_down p = false ∧ p_down p = false ∧ Cluster.shutdown (Cluster_of (p_registry p)) = false.

Definition own_key p : string := (serviceDiscoveryRegistriesPath +:+ Cluster.ID (Cluster_of (p_registry p)))%string.

(** the process after the first [k] statements *)
Definition after (k : nat) p : P :=
  mkProcess (if (k <? 4)%nat then p_registry p else cluster_down (p_registry p))
    (if (k <? 3)%nat then p_etcd p else (cli_Delete (own_key p) (p_etcd p)).2)
    (if (k <? 5)%nat then p_files p else remove_pid os pid_file (p_files p))
    (p_asked p) (negb (k <? 1)%nat) (negb (k <? 2)%nat).

Lemma after_start p : running p → after 0 p = p.
Proof using. intros (H1 & H2 & _). unfold after. cbn. destruct p. cbn in *. by subst. Qed.

Lemma exec_ok k st p : running p → shutdown_statements !! k = Some st → exec os pid_file st (after k p) = Ok (after (S k) p).
Proof using.
  intros (H1 & H2 & H3) Hst. destruct k as [|[|[|[|[|k]]]]]; cbn in Hst; [injection Hst as <-..|done]; cbn; try done.
  - unfold unregisterItself, UnregisterRegistry, call. cbn. fold (own_key p). unfold after. cbn. by destruct (cli_Delete (own_key p) (p_etcd p)).
  - by rewrite H3.
Qed.

(** one after the other they are the shutdown of [Daemon] *)
Lemma statements_are_the_shutdown p : running p →
  Ok (after 5 p) = (p' ← Api_Shutdown p; Registry_Shutdown os pid_file p') :> result unit P.
Proof using.
  intros (H1 & H2 & H3). unfold Api_Shutdown. rewrite H1. cbn. unfold Registry_Shutdown. cbn. rewrite H2.
  unfold unregisterItself, UnregisterRegistry, call. cbn. fold (own_key p). destruct (cli_Delete (own_key p) (p_etcd p)) as [ok e] eqn:Ed.
  rewrite H3. unfold after. cbn. by rewrite Ed.
Qed.

(** where a schedule can be *)
Definition on_its_way p (s : ending_state) : Prop := ∃ k, (k ≤ 5)%nat ∧
  en_rest s = drop k shutdown_statements ∧ en_process s = after k p ∧ (en_open s = false → 4 ≤ k)%nat ∧
  match en_status s with
  | Listening _ => True
  | Exited c => c = 0 ∧ k = 5%nat ∨ c = 1 ∧ (4 ≤ k)%nat ∧ serve_fails = true
  | _ => False
  end.

Lemma end_step_ok p t s : running p → on_its_way p s → on_its_way p (end_step os pid_file serve_fails t s).
Proof using.
  intros Hp (k & Hk & Hrest & Hproc & Hopen & Hst). unfold end_step.
  destruct (en_status s) eqn:Es; try (by exists k; rewrite ?Es). destruct t.
  - destruct (en_rest s) as [|st rest] eqn:Er.
    + assert (k = 5%nat) as ->.
      { destruct (decide (k = 5%nat)) as [|Hne]; [done|]. pose proof (f_equal length Hrest) as Hl. rewrite length_drop in Hl. cbn in Hl. lia. }
      exists 5%nat. split_and!; [done..|exact Hopen|by left].
    + assert (shutdown_statements !! k = Some st) as Hlk by (rewrite <- (Nat.add_0_r k), <- lookup_drop, <- Hrest; done).
      pose proof (lookup_lt_Some _ _ _ Hlk) as Hlt. cbn in Hlt. rewrite Hproc, (exec_ok k st p Hp Hlk).
      exists (S k). cbn. split_and!; [lia| |done| |by rewrite ?Es].
      * by rewrite (drop_S _ _ _ Hlk) in Hrest; injection Hrest.
      * intros Ho. specialize (Hopen Ho). lia.
  - destruct (Cluster.shutdown _) eqn:Ec; [|by exists k; rewrite ?Es]. exists k. cbn. split_and!; [done..| |by rewrite ?Es].
    intros _. rewrite Hproc in Ec. unfold after in Ec. cbn [p_registry] in Ec. destruct (Nat.ltb_spec k 4) as [Hlt|Hge]; [|done].
    destruct Hp as (_ & _ & H3). by rewrite H3 in Ec.
  - destruct (en_open s) eqn:Eo; cbn; [by exists k; rewrite ?Es, Eo|]. destruct serve_fails eqn:Ef; [|by exists k; rewrite ?Es, Eo].
    exists k. cbn. split_and!; [done..|]. right. split_and!; auto.
Qed.

Lemma end_run_ok p sched s : running p → on_its_way p s → on_its_way p (run sched s).
Proof using. intros Hp. revert s. induction sched as [|t sched IH]; intros s Hs; [done|]. apply IH. by apply end_step_ok. Qed.

End end_facts.

(** ** Witnesses *)

Section witnesses.
#[local] Existing Instances bit_nodes bit_registries bit_records bit_codecs all_up.

Lemma taken_port_may_leave_a_record_witness :
  let s := boot_run (H := etcd_of true) (λ _, true) [MainTurn; ServerTurn] (start_boot {["h1"%string]} plain_daemon) in
  bt_status s = Exited 1 ∧ d_etcd (bt_daemon s) = node_record (H := etcd_of true) plain_daemon (d_etcd plain_daemon).
Proof.
  apply (@taken_port_may_leave_a_record _ (etcd_of true) _ (λ _, true) [MainTurn; ServerTurn] {["h1"%string]} plain_daemon).
  - by apply elem_of_singleton.
  - done.
  - by apply list_elem_of_further, list_elem_of_here.
Defined.

Definition cluster_flag : gmap string string := <["cluster_addr"%string := "10.0.0.1:8100"%string]> data_flag.

Lemma cluster_flag_stops_the_registry_witness : ∃ s : small_storage, stands s file_meta ∧
  ∃ p ports', rhosusr_main (H := etcd_of true) plain_os no_entry by_name (λ l, l) cluster_flag no_env no_bindings None
      (λ _, Ok (backend s)) "quick-fox" (λ _, true) (λ _, true) (λ _, Ok (wal_of (take 3 small_es)))
      (λ a, bool_decide (is_Some (Listen (λ _, true) a ∅))) plain_etcd tt registry_home = Ok (p, "10.0.0.1:8100"%string) ∧
    Listen (λ _, true) "10.0.0.1:8100" ∅ = Some ports' ∧
    p_etcd p = (cli_Put (Etcd := etcd_of true) (serviceDiscoveryRegistriesPath +:+ "a")
      (Base64.Base64Encode (Marshal_msg (mkRegistryInfo "a" "quick-fox" "10.0.0.1:8100"))) plain_etcd).2 ∧
    (is_Some (cluster_flag !! "cluster_addr"%string) → Api_Run (λ _, true) "10.0.0.1:8100" ports' = Err Fatal) ∧
    ("10.0.0.1:8100"%string ≠ "10.0.0.1:8100"%string →
      Api_Run (λ _, true) "10.0.0.1:8100" ports' = Ok ({["10.0.0.1:8100"; "10.0.0.1:8100"]}%string ∪ ∅)).
Proof.
  destruct file_stored as [s Hs]. exists s. split; [exact Hs|].
  apply (cluster_flag_stops_the_registry (H := etcd_of true) plain_os no_entry by_name (λ l, l) cluster_flag no_env no_bindings (λ _, Ok (backend s))
    (λ _, true) (λ _, true) (λ _, Ok (wal_of (take 3 small_es))) (λ _, true) "a" "quick-fox" None file_meta (take 3 small_es) registry_home
    others known_nodes plain_etcd tt ∅).
  - exact by_name_perm.
  - reflexivity.
  - exact blank_no_bindings.
  - exact (plain_remains cluster_flag s eq_refl Hs).
  - exact plain_directories.
  - intros k i _. split; [reflexivity|]. intros w. exists None, w. reflexivity.
  - reflexivity.
  - reflexivity.
  - reflexivity.
  - apply not_elem_of_empty.
  - apply not_elem_of_empty.
Defined.

End witnesses.
